(** * BulkDel: snapshot / delete / rollback consistency engine

    A shallow embedding of the core of [App.tsx] (the bulk structural editor
    for a Lark Base workspace) and the properties of its deletion planner,
    snapshot engine, snapshot store and rollback engine.

    Conventions of the embedding
    - a JS object used as a map ([Record<string, V>]) is an association list
      in [Object.entries] order, with unique keys maintained by [obj_set];
    - a JSON value is a tree whose Numbers are exact decimals, integers and
      Numbers with a fractional part alike;
    - [async] code is written in a state-and-exception monad [M] over a
      [World] that holds the host workspace, the log of gateway calls, the
      toasts shown, the local storage slot and the React state;
    - the host workspace (the SDK's [bitable.base] and [bitable.bridge]) is an
      interface, [Gateway]; every theorem about the application holds for
      every implementation of it. *)

From Stdlib Require Import ZArith QArith Lqa Ascii String List Lia.
From Stdlib Require Import DecimalString DecimalZ DecimalN DecimalNat Sorting.Sorted.
From stdpp Require Import base tactics option list strings gmap.

Set Warnings "-register-all".

Open Scope nat_scope.

(** ** JavaScript values and idioms *)

Definition text : Type := list ascii.

Definition is_digit (c : ascii) : bool :=
  (48 <=? nat_of_ascii c) && (nat_of_ascii c <=? 57).

(** *** Numbers

    A Number is held as the decimal that [Number::toString] prints for it:
    the digits [s] of the shortest decimal that reads back as the Number
    (there are [k] of them, and neither the first nor the last is 0) and the
    position [n] of the decimal point, the Number being [s x 10^(n-k)].  It
    is an integer exactly when [k <= n]; an integer is held as its value.
    Every finite Number is such a decimal.  The decimals with more digits
    than a Number holds are values of the model too, and the printer and the
    parser treat them by the same rules. *)

(** The digits [s]. *)
Definition significand (ds : text) : bool :=
  forallb is_digit ds &&
  negb (Ascii.eqb (hd "0"%char ds) "0") &&
  negb (Ascii.eqb (List.last ds "0"%char) "0").

(** A Number with a fractional part. *)
Record NonInteger : Type := mkNonInteger {
  ni_negative : bool;
  ni_digits : text;
  ni_point : Z;
  ni_ok : significand ni_digits && (ni_point <? Z.of_nat (length ni_digits))%Z = true
}.

Definition digit_value (c : ascii) : Z := Z.of_nat (nat_of_ascii c - 48).

(** The integer that a list of digits writes. *)
Definition digits_value (ds : text) : Z :=
  fold_left (λ acc c, 10 * acc + digit_value c)%Z ds 0%Z.

(** The decimal digits of a natural number. *)
Definition digits_of (n : N) : text :=
  list_ascii_of_string (NilEmpty.string_of_uint (N.to_uint n)).

Definition NonInteger_value (d : NonInteger) : Q :=
  let s := digits_value (ni_digits d) in
  Qmake (if ni_negative d then - s else s)
        (Z.to_pos (10 ^ (Z.of_nat (length (ni_digits d)) - ni_point d))).

(** A JSON-representable JavaScript value: a Number is [JNum] when it is an
    integer and [JDec] when it has a fractional part ([-0] is taken for [0],
    as [===] does; [NaN] and the infinities are not JSON-representable).  An
    object is the list of its own properties in enumeration order. *)
Inductive json : Type :=
  | JNull
  | JBool (b : bool)
  | JNum (n : Z)
  | JDec (d : NonInteger)
  | JStr (s : string)
  | JArr (items : list json)
  | JObj (members : list (string * json)).

(** A promise that settles: fulfilled with a value, or rejected. *)
Inductive outcome (A : Type) : Type :=
  | Ok (a : A)
  | Raise.
Arguments Ok {A} a.
Arguments Raise {A}.

Definition is_ok {A} (r : outcome A) : bool :=
  match r with Ok _ => true | Raise => false end.

(** [x ?? d] on a value that may be [undefined] or [null]. *)
Definition nullish_or (x : option string) (d : string) : string :=
  match x with Some s => s | None => d end.

(** Truthiness of a string: every string but the empty one. *)
Definition truthy_string (s : string) : bool :=
  match s with EmptyString => false | String _ _ => true end.

(** [x || d] on a string that may be [undefined]: [d] also replaces [""]. *)
Definition falsy_or (x : option string) (d : string) : string :=
  match x with
  | Some s => if truthy_string s then s else d
  | None => d
  end.

(** *** Objects used as maps *)

Definition JsObject (V : Type) : Type := list (string * V).

Fixpoint obj_get {V} (o : JsObject V) (k : string) : option V :=
  match o with
  | [] => None
  | (k', v) :: o' => if String.eqb k' k then Some v else obj_get o' k
  end.

(** [o[k] = v]: an existing key keeps its place, a new key goes last. *)
Fixpoint obj_set {V} (o : JsObject V) (k : string) (v : V) : JsObject V :=
  match o with
  | [] => [(k, v)]
  | (k', v') :: o' =>
      if String.eqb k' k then (k', v) :: o' else (k', v') :: obj_set o' k v
  end.

(** [delete o[k]]. *)
Definition obj_delete {V} (o : JsObject V) (k : string) : JsObject V :=
  List.filter (fun kv => negb (String.eqb (fst kv) k)) o.

(** Truthiness of [o[k]] for a [Record<string, boolean>]. *)
Definition checked (o : JsObject bool) (k : string) : bool :=
  match obj_get o k with Some b => b | None => false end.

(** [Object.entries(o).filter(([, checked]) => checked).map(([k]) => k)]. *)
Definition checkedKeys (o : JsObject bool) : list string :=
  map fst (List.filter (fun kv : string * bool => snd kv) o).

(** [xs.filter(id => id !== x)] on strings. *)
Definition without (x : string) (xs : list string) : list string :=
  List.filter (fun y => negb (String.eqb y x)) xs.

(** ** Data model *)

(** [FieldType] is a numeric enum of the SDK; a field type is its code. *)
Definition FieldType : Type := Z.

(** [IFieldMeta], as far as the application reads it. *)
Record FieldMeta : Type := mkFieldMeta {
  fm_id : string;
  fm_name : option string;
  fm_type : FieldType;
  fm_property : option json;
  fm_isPrimary : bool
}.

(** [ITableMeta]. *)
Record TableMeta : Type := mkTableMeta {
  tm_id : string;
  tm_name : option string
}.

Record TableBundle : Type := mkTableBundle {
  tb_meta : TableMeta;
  tb_fields : list FieldMeta
}.

Record SnapshotField : Type := mkSnapshotField {
  sf_id : string;
  sf_name : string;
  sf_type : FieldType;
  sf_property : option json
}.

Record SnapshotTable : Type := mkSnapshotTable {
  st_tableId : string;
  st_tableName : string;
  st_fields : list SnapshotField
}.

Record Snapshot : Type := mkSnapshot {
  snap_label : string;
  snap_timestamp : string;
  snap_tables : list SnapshotTable
}.

(** The names of the [FieldType] enum that the application mentions.  The enum
    is declared by [@lark-base-open/js-sdk]; its codes are a parameter. *)
Record FieldTypeEnum : Type := mkFieldTypeEnum {
  CreatedTime : FieldType;
  ModifiedTime : FieldType;
  CreatedUser : FieldType;
  ModifiedUser : FieldType;
  AutoNumber : FieldType;
  Lookup : FieldType;
  SingleLink : FieldType;
  DuplexLink : FieldType;
  Formula : FieldType;
  Barcode : FieldType
}.

Definition BLOCKED_ROLLBACK_FIELD_TYPES (E : FieldTypeEnum) : list FieldType :=
  [CreatedTime E; ModifiedTime E; CreatedUser E; ModifiedUser E; AutoNumber E].

Definition NON_PORTABLE_ROLLBACK_FIELD_TYPES (E : FieldTypeEnum) : list FieldType :=
  [Lookup E; SingleLink E; DuplexLink E; Formula E; Barcode E].

(** Members of a TypeScript enum that are used as distinct cases. *)
Definition enum_distinct (E : FieldTypeEnum) : Prop :=
  NoDup (BLOCKED_ROLLBACK_FIELD_TYPES E ++ NON_PORTABLE_ROLLBACK_FIELD_TYPES E).

(** [xs.includes(t)] and [set.has(t)] on field types. *)
Definition includes (xs : list FieldType) (t : FieldType) : bool :=
  existsb (Z.eqb t) xs.

(** ** JSON text

    [JSON.stringify] and [JSON.parse] are built-ins of the language; they are
    modelled on texts of 8-bit characters (a string is its UTF-8 encoding).
    The printer emits what [JSON.stringify] emits without an indent argument;
    a Number is printed by the rules of [Number::toString].  The parser
    accepts JSON with white space between tokens and reads a number of the
    JSON grammar (integer part, fraction, exponent) as the decimal it
    writes: for the text of a Number that is the Number itself, since its
    digits are the ones that read back as it; a decimal with more digits
    than a Number holds is kept as written, where [JSON.parse] rounds it. *)

Definition dquote : ascii := "034"%char.
Definition backslash : ascii := "\"%char.

Definition hex_digit (n : nat) : ascii :=
  nth n ["0"; "1"; "2"; "3"; "4"; "5"; "6"; "7"; "8"; "9";
         "a"; "b"; "c"; "d"; "e"; "f"]%char "0"%char.

(** The escape of one character inside a string literal. *)
Definition escape_char (c : ascii) : text :=
  if Ascii.eqb c dquote then [backslash; dquote]
  else if Ascii.eqb c backslash then [backslash; backslash]
  else
    let n := nat_of_ascii c in
    if n <? 32 then
      match n with
      | 8 => [backslash; "b"%char]
      | 9 => [backslash; "t"%char]
      | 10 => [backslash; "n"%char]
      | 12 => [backslash; "f"%char]
      | 13 => [backslash; "r"%char]
      | _ => [backslash; "u"; "0"; "0"; hex_digit (n / 16); hex_digit (n mod 16)]%char
      end
    else [c].

Definition print_string (s : string) : text :=
  dquote :: flat_map escape_char (list_ascii_of_string s) ++ [dquote].

Definition zeros (n : nat) : text := repeat "0"%char n.

(** A list of digits without the zeros at its end. *)
Fixpoint strip_trailing_zeros (ds : text) : text :=
  match ds with
  | [] => []
  | c :: ds' =>
      match strip_trailing_zeros ds' with
      | [] => if Ascii.eqb c "0" then [] else [c]
      | r => c :: r
      end
  end.

(** The exponent part: [e], the sign of the exponent, its digits. *)
Definition exponent_text (e : Z) : text :=
  "e"%char :: (if (e <? 0)%Z then "-"%char else "+"%char) :: digits_of (Z.to_N (Z.abs e)).

(** [Number::toString] on a positive Number, from its digits [ds] and the
    position [n] of the point: the digits followed by zeros for an integer
    of at most 21 digits, the point inside the digits, zeros between the
    point and the digits down to [10^-6], and the exponent form
    otherwise. *)
Definition Number_toString (ds : text) (n : Z) : text :=
  let k := Z.of_nat (length ds) in
  if (k <=? n)%Z && (n <=? 21)%Z then ds ++ zeros (Z.to_nat (n - k))
  else if (0 <? n)%Z && (n <=? 21)%Z then
    take (Z.to_nat n) ds ++ "."%char :: drop (Z.to_nat n) ds
  else if (-6 <? n)%Z && (n <=? 0)%Z then
    "0"%char :: "."%char :: zeros (Z.to_nat (- n)) ++ ds
  else
    match ds with
    | [] => []
    | [d] => d :: exponent_text (n - 1)
    | d :: rest => d :: "."%char :: rest ++ exponent_text (n - 1)
    end.

Definition sign_text (negative : bool) : text :=
  if negative then ["-"%char] else [].

(** An integer: [0], or its sign and [Number::toString] of its digits. *)
Definition print_number (n : Z) : text :=
  match n with
  | Z0 => ["0"%char]
  | _ =>
      let ds := digits_of (Z.to_N (Z.abs n)) in
      sign_text (n <? 0)%Z ++
      Number_toString (strip_trailing_zeros ds) (Z.of_nat (length ds))
  end.

Definition print_decimal (d : NonInteger) : text :=
  sign_text (ni_negative d) ++ Number_toString (ni_digits d) (ni_point d).

Fixpoint print (v : json) : text :=
  match v with
  | JNull => ["n"; "u"; "l"; "l"]%char
  | JBool true => ["t"; "r"; "u"; "e"]%char
  | JBool false => ["f"; "a"; "l"; "s"; "e"]%char
  | JNum n => print_number n
  | JDec d => print_decimal d
  | JStr s => print_string s
  | JArr items =>
      "["%char ::
      (fix elements (l : list json) : text :=
         match l with
         | [] => []
         | x :: l' =>
             print x ++ match l' with [] => [] | _ :: _ => ","%char :: elements l' end
         end) items ++ ["]"%char]
  | JObj members =>
      "{"%char ::
      (fix pairs (l : list (string * json)) : text :=
         match l with
         | [] => []
         | (k, x) :: l' =>
             print_string k ++ ":"%char :: print x ++
             match l' with [] => [] | _ :: _ => ","%char :: pairs l' end
         end) members ++ ["}"%char]
  end.

(** The element and member lists of [print], by name. *)
Fixpoint print_elements (l : list json) : text :=
  match l with
  | [] => []
  | x :: l' =>
      print x ++ match l' with [] => [] | _ :: _ => ","%char :: print_elements l' end
  end.

Fixpoint print_members (l : list (string * json)) : text :=
  match l with
  | [] => []
  | (k, x) :: l' =>
      print_string k ++ ":"%char :: print x ++
      match l' with [] => [] | _ :: _ => ","%char :: print_members l' end
  end.

Definition JSON_stringify (v : json) : string :=
  string_of_list_ascii (print v).

Definition is_ws (c : ascii) : bool :=
  Ascii.eqb c " " || Ascii.eqb c "009" || Ascii.eqb c "010" || Ascii.eqb c "013".

Fixpoint skip_ws (s : text) : text :=
  match s with
  | c :: s' => if is_ws c then skip_ws s' else s
  | [] => []
  end.

Definition hex_value (c : ascii) : option nat :=
  let n := nat_of_ascii c in
  if (48 <=? n) && (n <=? 57) then Some (n - 48)
  else if (97 <=? n) && (n <=? 102) then Some (n - 87)
  else if (65 <=? n) && (n <=? 70) then Some (n - 55)
  else None.

(** The code unit that four hexadecimal digits write. *)
Definition hex4 (h1 h2 h3 h4 : ascii) : option N :=
  match hex_value h1, hex_value h2, hex_value h3, hex_value h4 with
  | Some a, Some b, Some c, Some d =>
      Some (((N.of_nat a * 16 + N.of_nat b) * 16 + N.of_nat c) * 16 + N.of_nat d)%N
  | _, _, _, _ => None
  end.

(** The UTF-8 encoding of a code point. *)
Definition utf8 (code : N) : text :=
  let byte (n : N) := ascii_of_N n in
  if (code <? 128)%N then [byte code]
  else if (code <? 2048)%N then
    [byte (192 + code / 64); byte (128 + code mod 64)]%N
  else if (code <? 65536)%N then
    [byte (224 + code / 4096); byte (128 + (code / 64) mod 64); byte (128 + code mod 64)]%N
  else
    [byte (240 + code / 262144); byte (128 + (code / 4096) mod 64);
     byte (128 + (code / 64) mod 64); byte (128 + code mod 64)]%N.

Definition is_high_surrogate (code : N) : bool := (55296 <=? code)%N && (code <? 56320)%N.
Definition is_low_surrogate (code : N) : bool := (56320 <=? code)%N && (code <? 57344)%N.

(** The characters of a string literal after its opening quote, up to and
    including the closing quote.  A [\u] escape stands for its code point,
    two of them for the code point of a surrogate pair; a surrogate without
    its pair has no UTF-8 encoding and is refused. *)
Fixpoint parse_string_body (s : text) : option (string * text) :=
  let cons (c : ascii) (r : option (string * text)) :=
    match r with Some (str, rest) => Some (String c str, rest) | None => None end in
  let prepend (cs : text) (r : option (string * text)) :=
    match r with Some (str, rest) => Some (fold_right String str cs, rest) | None => None end in
  match s with
  | [] => None
  | c :: s1 =>
      if Ascii.eqb c dquote then Some (EmptyString, s1)
      else if Ascii.eqb c backslash then
        match s1 with
        | [] => None
        | e :: s2 =>
            if Ascii.eqb e dquote then cons dquote (parse_string_body s2)
            else if Ascii.eqb e backslash then cons backslash (parse_string_body s2)
            else if Ascii.eqb e "/" then cons "/"%char (parse_string_body s2)
            else if Ascii.eqb e "b" then cons "008"%char (parse_string_body s2)
            else if Ascii.eqb e "t" then cons "009"%char (parse_string_body s2)
            else if Ascii.eqb e "n" then cons "010"%char (parse_string_body s2)
            else if Ascii.eqb e "f" then cons "012"%char (parse_string_body s2)
            else if Ascii.eqb e "r" then cons "013"%char (parse_string_body s2)
            else if Ascii.eqb e "u" then
              match s2 with
              | h1 :: h2 :: h3 :: h4 :: s3 =>
                  match hex4 h1 h2 h3 h4 with
                  | Some code =>
                      if is_low_surrogate code then None
                      else if is_high_surrogate code then
                        match s3 with
                        | b :: u :: l1 :: l2 :: l3 :: l4 :: s4 =>
                            if Ascii.eqb b backslash && Ascii.eqb u "u" then
                              match hex4 l1 l2 l3 l4 with
                              | Some low =>
                                  if is_low_surrogate low then
                                    prepend
                                      (utf8 (65536 + (code - 55296) * 1024 + (low - 56320))%N)
                                      (parse_string_body s4)
                                  else None
                              | None => None
                              end
                            else None
                        | _ => None
                        end
                      else prepend (utf8 code) (parse_string_body s3)
                  | None => None
                  end
              | _ => None
              end
            else None
        end
      else if nat_of_ascii c <? 32 then None
      else cons c (parse_string_body s1)
  end.

Fixpoint span_digits (s : text) : text * text :=
  match s with
  | c :: s' =>
      if is_digit c then let (ds, rest) := span_digits s' in (c :: ds, rest)
      else ([], s)
  | [] => ([], [])
  end.

(** An optional minus sign. *)
Definition split_sign (s : text) : bool * text :=
  match s with
  | c :: s' => if Ascii.eqb c "-" then (true, s') else (false, s)
  | [] => (false, s)
  end.

(** The digits after a decimal point, if there is one. *)
Definition parse_fraction (s : text) : option (text * text) :=
  match s with
  | c :: s' =>
      if Ascii.eqb c "." then
        match span_digits s' with
        | ([], _) => None
        | (fs, rest) => Some (fs, rest)
        end
      else Some ([], s)
  | [] => Some ([], s)
  end.

(** The exponent, if there is one. *)
Definition parse_exponent (s : text) : option (Z * text) :=
  match s with
  | c :: s' =>
      if Ascii.eqb c "e" || Ascii.eqb c "E" then
        let (negative, s1) :=
          match s' with
          | c' :: s'' =>
              if Ascii.eqb c' "+" then (false, s'')
              else if Ascii.eqb c' "-" then (true, s'')
              else (false, s')
          | [] => (false, s')
          end in
        match span_digits s1 with
        | ([], _) => None
        | (es, rest) => Some (if negative then (- digits_value es)%Z else digits_value es, rest)
        end
      else Some (0%Z, s)
  | [] => Some (0%Z, s)
  end.

(** A list of digits without the zeros at its head. *)
Fixpoint strip_zeros (ds : text) : text :=
  match ds with
  | c :: ds' => if Ascii.eqb c "0" then strip_zeros ds' else ds
  | [] => []
  end.

(** The Number of digits [s] and point position [n]: an integer when the
    point is not inside the digits. *)
Definition Number_of_digits (negative : bool) (s : text) (n : Z) : option json :=
  let k := Z.of_nat (length s) in
  match s with
  | [] => Some (JNum 0)
  | _ :: _ =>
      if (k <=? n)%Z then
        let m := (digits_value s * 10 ^ (n - k))%Z in
        Some (JNum (if negative then - m else m))
      else
        match decide (significand s && (n <? k)%Z = true) with
        | left ok => Some (JDec (mkNonInteger negative s n ok))
        | right _ => None
        end
  end.

(** The Number that a decimal writes, [ds] being all its digits and [n] the
    position of the point counted from the first of them: the zeros at both
    ends do not count. *)
Definition Number_of_decimal (negative : bool) (ds : text) (n : Z) : option json :=
  let ds1 := strip_zeros ds in
  Number_of_digits negative (strip_trailing_zeros ds1)
    (n - Z.of_nat (length ds - length ds1)).

(** A number of the JSON grammar: an optional minus sign, an integer part
    without a leading zero, an optional fraction, an optional exponent. *)
Definition parse_number (s : text) : option (json * text) :=
  let (negative, s1) := split_sign s in
  let (ds, rest) := span_digits s1 in
  let leading_zero :=
    match ds with
    | d :: _ :: _ => Ascii.eqb d "0"
    | _ => false
    end in
  match ds with
  | [] => None
  | _ :: _ =>
      if leading_zero then None
      else
        match parse_fraction rest with
        | Some (fs, rest1) =>
            match parse_exponent rest1 with
            | Some (e, rest2) =>
                match Number_of_decimal negative (ds ++ fs) (Z.of_nat (length ds) + e) with
                | Some v => Some (v, rest2)
                | None => None
                end
            | None => None
            end
        | None => None
        end
  end.

Fixpoint strip_prefix (p s : text) : option text :=
  match p, s with
  | [], _ => Some s
  | a :: p', b :: s' => if Ascii.eqb a b then strip_prefix p' s' else None
  | _ :: _, [] => None
  end.

Definition literal (p : text) (v : json) (s : text) : option (json * text) :=
  match strip_prefix p s with Some rest => Some (v, rest) | None => None end.

(** Recursive descent; [fuel] bounds the nesting and the number of elements
    (the length of the text is always enough, see [JSON_parse]). *)
Fixpoint parse_value (fuel : nat) (s : text) : option (json * text) :=
  match fuel with
  | 0 => None
  | S fuel' =>
      match skip_ws s with
      | [] => None
      | c :: s1 =>
          if Ascii.eqb c "n" then literal ["u"; "l"; "l"]%char JNull s1
          else if Ascii.eqb c "t" then literal ["r"; "u"; "e"]%char (JBool true) s1
          else if Ascii.eqb c "f" then literal ["a"; "l"; "s"; "e"]%char (JBool false) s1
          else if Ascii.eqb c dquote then
            match parse_string_body s1 with
            | Some (str, rest) => Some (JStr str, rest)
            | None => None
            end
          else if Ascii.eqb c "[" then
            match skip_ws s1 with
            | c' :: s2 =>
                if Ascii.eqb c' "]" then Some (JArr [], s2)
                else
                  match parse_elements fuel' s1 with
                  | Some (vs, rest) => Some (JArr vs, rest)
                  | None => None
                  end
            | [] => None
            end
          else if Ascii.eqb c "{" then
            match skip_ws s1 with
            | c' :: s2 =>
                if Ascii.eqb c' "}" then Some (JObj [], s2)
                else
                  match parse_members fuel' s1 with
                  | Some (kvs, rest) => Some (JObj kvs, rest)
                  | None => None
                  end
            | [] => None
            end
          else
            parse_number (c :: s1)
      end
  end
with parse_elements (fuel : nat) (s : text) : option (list json * text) :=
  match fuel with
  | 0 => None
  | S fuel' =>
      match parse_value fuel' s with
      | Some (v, rest) =>
          match skip_ws rest with
          | c :: rest' =>
              if Ascii.eqb c "," then
                match parse_elements fuel' rest' with
                | Some (vs, rest'') => Some (v :: vs, rest'')
                | None => None
                end
              else if Ascii.eqb c "]" then Some ([v], rest')
              else None
          | [] => None
          end
      | None => None
      end
  end
with parse_members (fuel : nat) (s : text) : option (list (string * json) * text) :=
  match fuel with
  | 0 => None
  | S fuel' =>
      match skip_ws s with
      | q :: s1 =>
          if Ascii.eqb q dquote then
            match parse_string_body s1 with
            | Some (k, s2) =>
                match skip_ws s2 with
                | c :: s3 =>
                    if Ascii.eqb c ":" then
                      match parse_value fuel' s3 with
                      | Some (v, rest) =>
                          match skip_ws rest with
                          | c' :: rest' =>
                              if Ascii.eqb c' "," then
                                match parse_members fuel' rest' with
                                | Some (kvs, rest'') => Some ((k, v) :: kvs, rest'')
                                | None => None
                                end
                              else if Ascii.eqb c' "}" then Some ([(k, v)], rest')
                              else None
                          | [] => None
                          end
                      | None => None
                      end
                    else None
                | [] => None
                end
            | None => None
            end
          else None
      | [] => None
      end
  end.

(** [JSON.parse]: [None] is a [SyntaxError]. *)
Definition JSON_parse (s : string) : option json :=
  let t := list_ascii_of_string s in
  match parse_value (S (length t)) t with
  | Some (v, rest) =>
      match skip_ws rest with
      | [] => Some v
      | _ :: _ => None
      end
  | None => None
  end.

(** The last binding of a key: what a property read sees after [JSON.parse]
    of a text that repeats a key. *)
Definition member (o : list (string * json)) (k : string) : option json :=
  obj_get (rev o) k.


(** ** The persisted form of a snapshot *)

Definition field_to_json (f : SnapshotField) : json :=
  JObj ([("id", JStr (sf_id f)); ("name", JStr (sf_name f)); ("type", JNum (sf_type f))]
        ++ match sf_property f with
           | Some p => [("property", p)]
           | None => []   (* an [undefined] property is left out by [JSON.stringify] *)
           end).

Definition table_to_json (t : SnapshotTable) : json :=
  JObj [("tableId", JStr (st_tableId t)); ("tableName", JStr (st_tableName t));
        ("fields", JArr (map field_to_json (st_fields t)))].

(** The value that [JSON.stringify(snapshot)] prints. *)
Definition snapshot_to_json (s : Snapshot) : json :=
  JObj [("label", JStr (snap_label s)); ("timestamp", JStr (snap_timestamp s));
        ("tables", JArr (map table_to_json (snap_tables s)))].

Definition as_string (v : option json) : option string :=
  match v with Some (JStr s) => Some s | _ => None end.

Definition as_number (v : option json) : option Z :=
  match v with Some (JNum n) => Some n | _ => None end.

Definition as_array (v : option json) : option (list json) :=
  match v with Some (JArr l) => Some l | _ => None end.

(** All elements of an array seen at one type. *)
Fixpoint all_as {A} (f : json → option A) (l : list json) : option (list A) :=
  match l with
  | [] => Some []
  | v :: l' =>
      match f v, all_as f l' with
      | Some a, Some l'' => Some (a :: l'')
      | _, _ => None
      end
  end.

Definition field_of_json (v : json) : option SnapshotField :=
  match v with
  | JObj o =>
      match as_string (member o "id"), as_string (member o "name"),
            as_number (member o "type") with
      | Some i, Some n, Some t => Some (mkSnapshotField i n t (member o "property"))
      | _, _, _ => None
      end
  | _ => None
  end.

Definition table_of_json (v : json) : option SnapshotTable :=
  match v with
  | JObj o =>
      match as_string (member o "tableId"), as_string (member o "tableName"),
            as_array (member o "fields") with
      | Some i, Some n, Some fs =>
          match all_as field_of_json fs with
          | Some fields => Some (mkSnapshotTable i n fields)
          | None => None
          end
      | _, _, _ => None
      end
  | _ => None
  end.

(** The cast [as Snapshot] of a parsed value: the value read at the fields of
    the declared type.  A value of another shape is outside that type and is
    mapped to [null]. *)
Definition snapshot_of_json (v : json) : option Snapshot :=
  match v with
  | JObj o =>
      match as_string (member o "label"), as_string (member o "timestamp"),
            as_array (member o "tables") with
      | Some l, Some ts, Some tbls =>
          match all_as table_of_json tbls with
          | Some tables => Some (mkSnapshot l ts tables)
          | None => None
          end
      | _, _, _ => None
      end
  | _ => None
  end.

(** [cloneJson]: [undefined] stays [undefined]; any other value goes through
    [JSON.parse(JSON.stringify(value))], and is kept as it is when that
    raises. *)
Definition cloneJson (value : option json) : option json :=
  match value with
  | None => None
  | Some v =>
      match JSON_parse (JSON_stringify v) with
      | Some v' => Some v'
      | None => Some v
      end
  end.

(** ** Local storage *)

(** The slot of [window.localStorage] under [LOCAL_STORAGE_KEY]. *)
Record LocalStorage : Type := mkLocalStorage {
  ls_window : bool;          (* [typeof window !== 'undefined'] *)
  ls_denied : bool;          (* every access to the storage raises *)
  ls_item : option string
}.

Definition loadPersistedSnapshot (ls : LocalStorage) : option Snapshot :=
  if negb (ls_window ls) then None
  else if ls_denied ls then None
  else
    match ls_item ls with
    | None => None
    | Some raw =>
        if negb (truthy_string raw) then None
        else
          match JSON_parse raw with
          | Some v => snapshot_of_json v
          | None => None
          end
    end.

Definition persistSnapshot (snapshot : option Snapshot) (ls : LocalStorage) : LocalStorage :=
  if negb (ls_window ls) then ls
  else if ls_denied ls then ls
  else
    match snapshot with
    | None => mkLocalStorage (ls_window ls) (ls_denied ls) None
    | Some s =>
        mkLocalStorage (ls_window ls) (ls_denied ls)
          (Some (JSON_stringify (snapshot_to_json s)))
    end.

(** ** The clock *)

(** A [Date], by its UTC components. *)
Record Date : Type := mkDate {
  d_year : nat;
  d_month : nat;
  d_day : nat;
  d_hours : nat;
  d_minutes : nat;
  d_seconds : nat;
  d_ms : nat
}.

Definition digit_char (n : nat) : ascii := ascii_of_nat (48 + n mod 10).

Definition pad2 (n : nat) : string :=
  String (digit_char (n / 10)) (String (digit_char n) EmptyString).

Definition pad3 (n : nat) : string :=
  String (digit_char (n / 100)) (pad2 n).

Definition pad4 (n : nat) : string :=
  String (digit_char (n / 1000)) (pad3 n).

(** [Date.prototype.toISOString], for the years 0 to 9999:
    [YYYY-MM-DDTHH:mm:ss.sssZ]. *)
Definition toISOString (d : Date) : string :=
  pad4 (d_year d) +:+ "-" +:+ pad2 (d_month d) +:+ "-" +:+ pad2 (d_day d) +:+ "T" +:+
  pad2 (d_hours d) +:+ ":" +:+ pad2 (d_minutes d) +:+ ":" +:+ pad2 (d_seconds d) +:+
  "." +:+ pad3 (d_ms d) +:+ "Z".

(** The shape of an ISO-8601 UTC timestamp with milliseconds. *)
Definition is_iso8601 (s : string) : bool :=
  match list_ascii_of_string s with
  | [y1; y2; y3; y4; m1; mo1; mo2; m2; dd1; dd2; t; h1; h2; c1; mi1; mi2; c2;
     s1; s2; p; f1; f2; f3; z] =>
      forallb is_digit [y1; y2; y3; y4; mo1; mo2; dd1; dd2; h1; h2; mi1; mi2; s1; s2; f1; f2; f3]
      && Ascii.eqb m1 "-" && Ascii.eqb m2 "-" && Ascii.eqb t "T"
      && Ascii.eqb c1 ":" && Ascii.eqb c2 ":" && Ascii.eqb p "." && Ascii.eqb z "Z"
  | _ => false
  end.

(** ** The workspace gateway *)

(** The argument of [table.addField]. *)
Record AddFieldConfig : Type := mkAddFieldConfig {
  afc_type : FieldType;
  afc_name : string;
  afc_property : option json
}.

(** What [bridge.getData] resolves to, at its declared type
    [Snapshot | null | undefined]. *)
Inductive BridgeValue : Type :=
  | BUndefined
  | BNull
  | BStored (s : Snapshot).

(** The host, by the operations the application calls.  [Host] is the state of
    the workspace.  Enumeration reads the state; the other operations may
    change it; each may raise.  A table object obtained from [getTableById] is
    named by the id of its table.  The two bridge operations are optional
    capabilities. *)
Class Gateway (Host : Type) : Type := {
  gw_getTableMetaList : Host → outcome (list TableMeta);
  gw_getTableById : string → Host → outcome unit;
  gw_getFieldMetaList : string → Host → outcome (list FieldMeta);
  gw_deleteTable : string → Host → outcome unit * Host;
  gw_deleteField : string → string → Host → outcome unit * Host;
  gw_addTable : string → Host → outcome string * Host;
  gw_setField : string → string → string → Host → outcome unit * Host;
  gw_addField : string → AddFieldConfig → Host → outcome unit * Host;
  gw_getData : option (Host → outcome BridgeValue);
  gw_setData : option (option Snapshot → Host → outcome unit * Host)
}.

(** A call of the gateway, as it is issued. *)
Inductive Call : Type :=
  | GetTableMetaList
  | GetTableById (tableId : string)
  | GetFieldMetaList (tableId : string)
  | DeleteTable (tableId : string)
  | DeleteField (tableId fieldId : string)
  | AddTable (name : string)
  | SetField (tableId fieldId name : string)
  | AddField (tableId : string) (config : AddFieldConfig)
  | GetData
  | SetData (snapshot : option Snapshot).

Record Event : Type := mkEvent {
  ev_call : Call;
  ev_ok : bool
}.

(** The messages pushed on an [errors] array. *)
Inductive Note : Type :=
  | TableDeleteFailed (tableId : string)            (* 表 ${tableId} 删除失败 *)
  | FieldDeleteFailed (field : string)              (* 字段 ${...} 删除失败 *)
  | TableLoadFailed (tableId : string)              (* 无法加载表 ${tableId}，字段没有删除 *)
  | LastTableFailed                                 (* 无法处理最后一张表的字段删除 *)
  | PrimaryRenameFailed (table : string)            (* 表 ${rollbackTableName} 主键重命名失败 *)
  | SystemFieldSkipped (name : string) (type : FieldType)
                                                    (* 跳过系统字段 ${field.name}（类型 ...） *)
  | ComplexFieldUnsupported (name : string) (type : FieldType)
                                                    (* 复杂字段 ${field.name}（类型 ...）暂不支持回滚 *)
  | FieldRebuildFailed (name table : string)        (* 字段 ${field.name} 重建失败（表 ...） *)
  | TableRebuildFailed (table : string).            (* 表 ${rollbackTableName} 重建失败 *)

(** The toasts. *)
Inductive Toast : Type :=
  | RetainNotice (lastTableName : string)
      (* info: 多维表格必须保留至少一张表，将保留表 "${lastTableName}"，仅删除其字段（索引列除外） *)
  | IndexExcludedNotice (lastTableName : string)
      (* info: 表 "${lastTableName}" 的索引列已自动排除，无其他字段可删除 *)
  | OnlyIndexNotice (lastTableName : string)
      (* info: 表 "${lastTableName}" 仅包含索引列，无其他字段可删除 *)
  | DeletionPartial (errors : list Note)     (* warning: 部分操作失败：... *)
  | DeletionDone                             (* success *)
  | NothingSelected                          (* info: 先勾选要挥刀的目标，再点删除。 *)
  | SnapshotDone                             (* success: 快照搞定，随时反悔。 *)
  | SnapshotFailed                           (* error: 快照失败，数据还没删，冷静再试一次。 *)
  | SnapshotAdopted                          (* info: 已接管上一回快照，放心删也要慎重。 *)
  | NoSnapshot                               (* info: 没有快照可回滚，先截个快照吧。 *)
  | RollbackPartial (errors : list Note)     (* warning: 回滚部分成功：... *)
  | RollbackDone                             (* success *)
  | LoadFailed.                              (* error: 加载表信息失败，先别拔电源，刷新试试。 *)

(** The React state that the core reads and writes (the busy and loading
    flags, the filters and the theme are display state and are left out). *)
Record AppState : Type := mkAppState {
  app_tables : list TableBundle;
  app_loadError : bool;
  app_selectedTables : JsObject bool;
  app_selectedFields : JsObject (JsObject bool);
  app_snapshot : option Snapshot
}.

Section Application.

Context {Host : Type} {GW : Gateway Host}.

(** Everything a running callback can read or change. *)
Record World : Type := mkWorld {
  w_host : Host;
  w_log : list Event;
  w_toasts : list Toast;
  w_errors : list Note;        (* the [errors] array of the running callback *)
  w_storage : LocalStorage;
  w_now : Date;
  w_app : AppState
}.

Definition set_host (h : Host) (w : World) : World :=
  mkWorld h (w_log w) (w_toasts w) (w_errors w) (w_storage w) (w_now w) (w_app w).
Definition add_log (e : Event) (w : World) : World :=
  mkWorld (w_host w) (w_log w ++ [e]) (w_toasts w) (w_errors w) (w_storage w) (w_now w) (w_app w).
Definition add_toast (t : Toast) (w : World) : World :=
  mkWorld (w_host w) (w_log w) (w_toasts w ++ [t]) (w_errors w) (w_storage w) (w_now w) (w_app w).
Definition set_errors (es : list Note) (w : World) : World :=
  mkWorld (w_host w) (w_log w) (w_toasts w) es (w_storage w) (w_now w) (w_app w).
Definition set_storage (ls : LocalStorage) (w : World) : World :=
  mkWorld (w_host w) (w_log w) (w_toasts w) (w_errors w) ls (w_now w) (w_app w).
Definition set_app (a : AppState) (w : World) : World :=
  mkWorld (w_host w) (w_log w) (w_toasts w) (w_errors w) (w_storage w) (w_now w) a.

(** *** The monad of callbacks *)

Definition M (A : Type) : Type := World → outcome A * World.

#[export] Instance M_ret : MRet M := λ A a w, (Ok a, w).

#[export] Instance M_bind : MBind M := λ A B k m w,
  match m w with
  | (Ok a, w') => k a w'
  | (Raise, w') => (Raise, w')
  end.

(** [try { m } catch { handler }]. *)
Definition try_catch {A} (m handler : M A) : M A := λ w,
  match m w with
  | (Ok a, w') => (Ok a, w')
  | (Raise, w') => handler w'
  end.

(** [for (const x of xs) { body }]. *)
Fixpoint for_each {X} (xs : list X) (body : X → M unit) : M unit :=
  match xs with
  | [] => mret tt
  | x :: xs' => body x ;; for_each xs' body
  end.

(** [await Promise.all(xs.map(f))]: the results in the order of [xs], or a
    rejection when one of the promises rejects.  The promises are run one
    after the other. *)
Fixpoint map_all {X Y} (f : X → M Y) (xs : list X) : M (list Y) :=
  match xs with
  | [] => mret []
  | x :: xs' => y ← f x; ys ← map_all f xs'; mret (y :: ys)
  end.

Definition modify (f : World → World) : M unit := λ w, (Ok tt, f w).
Definition toast (t : Toast) : M unit := modify (add_toast t).
Definition push_error (n : Note) : M unit :=
  modify (λ w, set_errors (w_errors w ++ [n]) w).
Definition get_errors : M (list Note) := λ w, (Ok (w_errors w), w).
Definition get_app : M AppState := λ w, (Ok (w_app w), w).
Definition modify_app (f : AppState → AppState) : M unit :=
  modify (λ w, set_app (f (w_app w)) w).

(** A call that reads the workspace. *)
Definition read {R} (c : Call) (op : Host → outcome R) : M R := λ w,
  let r := op (w_host w) in
  (r, add_log (mkEvent c (is_ok r)) w).

(** A call that may change the workspace. *)
Definition request {R} (c : Call) (op : Host → outcome R * Host) : M R := λ w,
  let (r, h) := op (w_host w) in
  (r, add_log (mkEvent c (is_ok r)) (set_host h w)).

Definition getTableMetaList : M (list TableMeta) :=
  read GetTableMetaList gw_getTableMetaList.
Definition getTableById (tableId : string) : M unit :=
  read (GetTableById tableId) (gw_getTableById tableId).
Definition getFieldMetaList (tableId : string) : M (list FieldMeta) :=
  read (GetFieldMetaList tableId) (gw_getFieldMetaList tableId).
Definition deleteTable (tableId : string) : M unit :=
  request (DeleteTable tableId) (gw_deleteTable tableId).
Definition deleteField (tableId fieldId : string) : M unit :=
  request (DeleteField tableId fieldId) (gw_deleteField tableId fieldId).
Definition addTable (name : string) : M string :=
  request (AddTable name) (gw_addTable name).
Definition setField (tableId fieldId name : string) : M unit :=
  request (SetField tableId fieldId name) (gw_setField tableId fieldId name).
Definition addField (tableId : string) (config : AddFieldConfig) : M unit :=
  request (AddField tableId config) (gw_addField tableId config).

(** ** Snapshot store *)

(** The effect that depends on [snapshot]: write the local cache and mirror to
    the bridge store when the bridge can; a failure of either is logged and
    dropped. *)
Definition syncBridgeSnapshot (snapshot : option Snapshot) : M unit :=
  match gw_setData with
  | None => mret tt
  | Some setData => try_catch (request (SetData snapshot) (setData snapshot)) (mret tt)
  end.

Definition snapshotEffect (snapshot : option Snapshot) : M unit :=
  modify (λ w, set_storage (persistSnapshot snapshot (w_storage w)) w) ;;
  syncBridgeSnapshot snapshot.

(** The state update of [setSnapshot(next)]. *)
Definition setSnapshotState (next : option Snapshot) : M unit :=
  modify_app (λ a, mkAppState (app_tables a) (app_loadError a)
                     (app_selectedTables a) (app_selectedFields a) next).

(** [setSnapshot(next)] in a callback, together with the effect that the
    change of the state triggers.  A snapshot object is always a new object;
    only [null] after [null] leaves the state as it was.  React runs the
    effect after the following render; here it is run at once, so what a
    callback is said to leave in the cache and in the bridge store is what it
    leaves once that effect has run. *)
Definition setSnapshot (next : option Snapshot) : M unit :=
  a ← get_app;
  setSnapshotState next ;;
  match app_snapshot a, next with
  | None, None => mret tt
  | _, _ => snapshotEffect next
  end.

(** The fallback of [loadSnapshot] to the local cache. *)
Definition loadFromCache : M unit :=
  w ← (λ w, (Ok w, w)) : M World;
  match loadPersistedSnapshot (w_storage w) with
  | Some persisted => setSnapshot (Some persisted) ;; toast SnapshotAdopted
  | None => mret tt
  end.

(** [bridge.getData(BRIDGE_SNAPSHOT_KEY)], up to the [await]: the call is
    issued, and what it will settle to is fixed. *)
Definition requestStored (getData : Host → outcome BridgeValue) : M (outcome BridgeValue) :=
  λ w, let answer := getData (w_host w) in
       (Ok answer, add_log (mkEvent GetData (is_ok answer)) w).

(** [loadSnapshot] from the point where the bridge has answered: the rest of
    the [try] block, its [catch], and the fallback. *)
Definition resumeLoadSnapshot (answer : outcome BridgeValue) : M unit :=
  settled ← try_catch
    (stored ← (λ w, (answer, w)) : M BridgeValue;
     match stored with
     | BStored s => setSnapshot (Some s) ;; toast SnapshotAdopted ;; mret true
     | BNull => setSnapshot None ;; mret true
     | BUndefined => mret false
     end)
    (mret false);
  if settled : bool then mret tt else loadFromCache.

(** [loadSnapshot], run to its end without anything in between. *)
Definition loadSnapshot : M unit :=
  match gw_getData with
  | Some getData => answer ← requestStored getData; resumeLoadSnapshot answer
  | None => loadFromCache
  end.

(** The effects of the first commit that touch the snapshot, in the order in
    which the component declares them and React runs them.  [loadSnapshot]
    is called first and runs up to its first [await]; then the [snapshot]
    effect runs on the initial state, [null]; [loadSnapshot] goes on when
    the bridge has answered.  Without [getData] the body of [loadSnapshot]
    has no [await] and runs to its end before the effect of the first
    render; the effect of a change of the state follows that one.
    ([refreshTables] and the listeners, which are started in the same
    commit, do not touch the snapshot.) *)
Definition mountSnapshot : M unit :=
  match gw_getData with
  | Some getData =>
      answer ← requestStored getData;
      snapshotEffect None ;;
      resumeLoadSnapshot answer
  | None =>
      w ← (λ w, (Ok w, w)) : M World;
      match loadPersistedSnapshot (w_storage w) with
      | Some persisted =>
          setSnapshotState (Some persisted) ;;
          toast SnapshotAdopted ;;
          snapshotEffect None ;;
          snapshotEffect (Some persisted)
      | None => snapshotEffect None
      end
  end.

(** ** Snapshot engine *)

Definition snapshotFieldOf (field : FieldMeta) : SnapshotField :=
  mkSnapshotField (fm_id field) (nullish_or (fm_name field) "无名字段")
    (fm_type field) (cloneJson (fm_property field)).

Definition snapshotTableOf (meta : TableMeta) (fieldMetaList : list FieldMeta) : SnapshotTable :=
  mkSnapshotTable (tm_id meta) (nullish_or (tm_name meta) "无名表")
    (map snapshotFieldOf fieldMetaList).

Definition captureSnapshot (label : string) : M bool :=
  try_catch
    (metaList ← getTableMetaList;
     tablesWithFields ← map_all
       (λ meta,
          getTableById (tm_id meta) ;;
          fieldMetaList ← getFieldMetaList (tm_id meta);
          mret (snapshotTableOf meta fieldMetaList))
       metaList;
     w ← (λ w, (Ok w, w)) : M World;
     let snap := mkSnapshot label (toISOString (w_now w)) tablesWithFields in
     setSnapshot (Some snap) ;;
     toast SnapshotDone ;;
     mret true)
    (toast SnapshotFailed ;; mret false).

(** ** Refresh *)

Definition pruneSelectedTables (bundles : list TableBundle) (prev : JsObject bool)
  : JsObject bool :=
  fold_left
    (λ next bundle,
       if checked prev (tm_id (tb_meta bundle))
       then obj_set next (tm_id (tb_meta bundle)) true else next)
    bundles [].

Definition pruneSelectedFields (bundles : list TableBundle)
    (prev : JsObject (JsObject bool)) : JsObject (JsObject bool) :=
  fold_left
    (λ next bundle,
       match obj_get prev (tm_id (tb_meta bundle)) with
       | Some sel =>
           let filtered :=
             fold_left
               (λ acc field,
                  if checked sel (fm_id field) then obj_set acc (fm_id field) true else acc)
               (tb_fields bundle) [] in
           match filtered with
           | [] => next
           | _ :: _ => obj_set next (tm_id (tb_meta bundle)) filtered
           end
       | None => next
       end)
    bundles [].

Definition refreshTables : M unit :=
  modify_app (λ a, mkAppState (app_tables a) false
                     (app_selectedTables a) (app_selectedFields a) (app_snapshot a)) ;;
  try_catch
    (metaList ← getTableMetaList;
     bundles ← map_all
       (λ meta,
          getTableById (tm_id meta) ;;
          fieldMetaList ← getFieldMetaList (tm_id meta);
          mret (mkTableBundle meta fieldMetaList))
       metaList;
     modify_app (λ a, mkAppState bundles (app_loadError a)
                        (pruneSelectedTables bundles (app_selectedTables a))
                        (pruneSelectedFields bundles (app_selectedFields a))
                        (app_snapshot a)))
    (modify_app (λ a, mkAppState (app_tables a) true
                        (app_selectedTables a) (app_selectedFields a) (app_snapshot a)) ;;
     toast LoadFailed).

(** ** Selection *)

(** [toggleTable]. *)
Definition toggleTable (tableId : string) (prev : JsObject bool) : JsObject bool :=
  if checked prev tableId then obj_delete prev tableId else obj_set prev tableId true.

(** [toggleField]. *)
Definition toggleField (tableId fieldId : string) (prev : JsObject (JsObject bool))
  : JsObject (JsObject bool) :=
  let tableSelection := match obj_get prev tableId with Some sel => sel | None => [] end in
  let tableSelection :=
    if checked tableSelection fieldId then obj_delete tableSelection fieldId
    else obj_set tableSelection fieldId true in
  match tableSelection with
  | [] => obj_delete prev tableId
  | _ :: _ => obj_set prev tableId tableSelection
  end.

(** An entry of [renderBundles], as far as the selection reads it. *)
Record RenderBundle : Type := mkRenderBundle {
  rb_bundle : TableBundle;
  rb_visibleFields : list FieldMeta
}.

(** The selection that [selectVisibleFields] sets. *)
Definition selectVisibleFields (renderBundles : list RenderBundle)
    (selectedTables : JsObject bool) : JsObject (JsObject bool) :=
  fold_left
    (λ next rb,
       let tableId := tm_id (tb_meta (rb_bundle rb)) in
       if checked selectedTables tableId then next
       else
         match rb_visibleFields rb with
         | [] => next
         | _ :: _ =>
             obj_set next tableId
               (fold_left (λ sel field, obj_set sel (fm_id field) true)
                  (rb_visibleFields rb) [])
         end)
    renderBundles [].

(** [selectedTableCount], [selectedFieldCount] and their sum. *)
Definition selectedTableCount (selectedTables : JsObject bool) : nat :=
  length (checkedKeys selectedTables).

Definition selectedFieldCount (selectedFields : JsObject (JsObject bool)) : nat :=
  fold_left (λ sum entry, sum + length (checkedKeys (snd entry))) selectedFields 0.

Definition totalSelectedTargets (a : AppState) : nat :=
  selectedTableCount (app_selectedTables a) + selectedFieldCount (app_selectedFields a).

(** ** Deletion *)

(** The first block of [performDeletion]: the tables to delete and, when the
    selection counts at least as many tables as the workspace has, the last
    table of the enumeration, which is kept. *)
Record RetainPlan : Type := mkRetainPlan {
  tableIdsToDelete : list string;
  lastTableId : option string;
  lastTableName : option string
}.

Definition planRetain (selectedTables : JsObject bool) (currentTableList : list TableMeta)
  : RetainPlan :=
  let currentTableIds := map tm_id currentTableList in
  let tableIdsToDelete := checkedKeys selectedTables in
  let willDeleteAllTables := length currentTableIds <=? length tableIdsToDelete in
  if willDeleteAllTables && (0 <? length currentTableIds) then
    match last currentTableList with
    | Some lastMeta =>
        mkRetainPlan (without (tm_id lastMeta) tableIdsToDelete)
          (Some (tm_id lastMeta)) (Some (falsy_or (tm_name lastMeta) "未知表"))
    | None => mkRetainPlan tableIdsToDelete None None
    end
  else mkRetainPlan tableIdsToDelete None None.

(** [tableId === lastTableId]. *)
Definition isLast (plan : RetainPlan) (tableId : string) : bool :=
  match lastTableId plan with
  | Some l => String.eqb tableId l
  | None => false
  end.

(** [new Map(fieldMetaList.map(f => [f.id, f])).get(fieldId)]. *)
Definition fieldMetaMap_get (fieldMetaList : list FieldMeta) (fieldId : string)
  : option FieldMeta :=
  List.find (λ f, String.eqb (fm_id f) fieldId) (rev fieldMetaList).

(** The fields that the second step deletes in a table that is not deleted:
    the selected ones, without the index field when the table is the kept
    one. *)
Definition fieldsToDelete (plan : RetainPlan) (tableId : string)
    (fieldMetaList : list FieldMeta) (fieldIds : list string) : list string :=
  if isLast plan tableId then
    List.filter
      (λ fieldId,
         match fieldMetaMap_get fieldMetaList fieldId with
         | Some fieldMeta => negb (fm_isPrimary fieldMeta)
         | None => false
         end)
      fieldIds
  else fieldIds.

Definition lastTableDisplay (plan : RetainPlan) : string :=
  match lastTableName plan with Some n => n | None => "null" end.

(** The first step: one [deleteTable] per table to delete. *)
Definition deleteTables (ids : list string) : M unit :=
  for_each ids (λ tableId,
    try_catch (deleteTable tableId) (push_error (TableDeleteFailed tableId))).

(** The body of the second step, for one entry of [selectedFields]. *)
Definition deleteSelectedFields (selectedTables : JsObject bool) (plan : RetainPlan)
    (entry : string * JsObject bool) : M unit :=
  let (tableId, fieldMap) := entry in
  if checked selectedTables tableId && negb (isLast plan tableId) then mret tt
  else if isLast plan tableId && checked selectedTables tableId then mret tt
  else
    let fieldIds := checkedKeys fieldMap in
    match fieldIds with
    | [] => mret tt
    | _ :: _ =>
        try_catch
          (getTableById tableId ;;
           fieldMetaList ← getFieldMetaList tableId;
           match fieldsToDelete plan tableId fieldMetaList fieldIds with
           | [] =>
               if isLast plan tableId
               then toast (IndexExcludedNotice (lastTableDisplay plan))
               else mret tt
           | (_ :: _) as fields =>
               for_each fields (λ fieldId,
                 try_catch (deleteField tableId fieldId)
                   (push_error (FieldDeleteFailed fieldId)))
           end)
          (push_error (TableLoadFailed tableId))
    end.

(** The third step: every field of the kept table but its index field, when
    the kept table was selected. *)
Definition deleteLastTableFields (selectedTables : JsObject bool) (plan : RetainPlan)
  : M unit :=
  match lastTableId plan with
  | Some lastId =>
      if truthy_string lastId && checked selectedTables lastId then
        try_catch
          (getTableById lastId ;;
           fieldMetaList ← getFieldMetaList lastId;
           match List.filter (λ f, negb (fm_isPrimary f)) fieldMetaList with
           | [] => toast (OnlyIndexNotice (lastTableDisplay plan))
           | (_ :: _) as nonIndexFields =>
               for_each nonIndexFields (λ field,
                 try_catch (deleteField lastId (fm_id field))
                   (push_error
                      (FieldDeleteFailed (falsy_or (fm_name field) (fm_id field)))))
           end)
          (push_error LastTableFailed)
      else mret tt
  | None => mret tt
  end.

Definition clearSelection (a : AppState) : AppState :=
  mkAppState (app_tables a) (app_loadError a) [] [] (app_snapshot a).

(** The three steps of [performDeletion] and its end, for the plan made from
    the enumeration. *)
Definition executePlan (selectedTables : JsObject bool)
    (selectedFields : JsObject (JsObject bool)) (plan : RetainPlan) : M unit :=
  match lastTableName plan with
  | Some name => toast (RetainNotice name)
  | None => mret tt
  end ;;
  deleteTables (tableIdsToDelete plan) ;;
  for_each selectedFields (deleteSelectedFields selectedTables plan) ;;
  deleteLastTableFields selectedTables plan ;;
  errors ← get_errors;
  match errors with
  | [] => toast DeletionDone
  | _ :: _ => toast (DeletionPartial errors)
  end ;;
  modify_app clearSelection ;;
  refreshTables.

Definition performDeletion (selectedTables : JsObject bool)
    (selectedFields : JsObject (JsObject bool)) : M unit :=
  modify (set_errors []) ;;
  currentTableList ← getTableMetaList;
  executePlan selectedTables selectedFields (planRetain selectedTables currentTableList).

(** [handleDelete]; [confirms] is the answer of the user to the dialogue that
    opens when the snapshot failed. *)
Definition handleDelete (confirms : bool) : M unit :=
  a ← get_app;
  if totalSelectedTargets a =? 0 then toast NothingSelected
  else
    snapshotOk ← captureSnapshot "删除前自动快照";
    if snapshotOk : bool then
      performDeletion (app_selectedTables a) (app_selectedFields a)
    else if confirms then
      performDeletion (app_selectedTables a) (app_selectedFields a)
    else mret tt.

(** ** Rollback *)

(** A number in a template literal. *)
Definition decimal (n : nat) : string := NilZero.string_of_uint (Nat.to_uint n).

Definition suffixed (base : string) (suffix : nat) : string :=
  base +:+ " (" +:+ decimal suffix +:+ ")".

(** The [while] loop that looks for a free name; [fuel] counts the rounds
    left.  As many rounds as there are existing names are always enough
    (see [uniqueName_fresh]). *)
Fixpoint uniqueNameLoop (fuel : nat) (existingTableNames : gset string)
    (baseRollbackName rollbackTableName : string) (suffix : nat) : string :=
  if bool_decide (rollbackTableName ∈ existingTableNames) then
    match fuel with
    | 0 => rollbackTableName
    | S fuel' =>
        uniqueNameLoop fuel' existingTableNames baseRollbackName
          (suffixed baseRollbackName suffix) (S suffix)
    end
  else rollbackTableName.

Definition uniqueName (existingTableNames : gset string) (tableName : string) : string :=
  let baseRollbackName := "♻️ " +:+ tableName in
  uniqueNameLoop (size existingTableNames) existingTableNames
    baseRollbackName baseRollbackName 1.

Definition systemDefaultMark : string := "(系统默认)".

(** [s.includes(sub)]. *)
Definition str_includes (sub s : string) : bool :=
  match String.index 0 sub s with Some _ => true | None => false end.

Definition safePrimaryName (name : option string) : string :=
  match name with
  | Some n =>
      if str_includes systemDefaultMark n then n
      else falsy_or name "主键" +:+ " " +:+ systemDefaultMark
  | None => falsy_or name "主键" +:+ " " +:+ systemDefaultMark
  end.

Definition renamePrimary (tableId rollbackTableName : string) : M unit :=
  try_catch
    (currentFieldMetas ← getFieldMetaList tableId;
     match List.find fm_isPrimary currentFieldMetas with
     | Some primaryField =>
         let safeName := safePrimaryName (fm_name primaryField) in
         if bool_decide (Some safeName = fm_name primaryField) then mret tt
         else setField tableId (fm_id primaryField) safeName
     | None => mret tt
     end)
    (push_error (PrimaryRenameFailed rollbackTableName)).

Section Rollback.

Variable E : FieldTypeEnum.

(** The body of the loop over the fields of a snapshot table. *)
Definition restoreField (tableId rollbackTableName : string) (field : SnapshotField)
  : M unit :=
  if includes (BLOCKED_ROLLBACK_FIELD_TYPES E) (sf_type field) then
    push_error (SystemFieldSkipped (sf_name field) (sf_type field))
  else if includes (NON_PORTABLE_ROLLBACK_FIELD_TYPES E) (sf_type field) then
    push_error (ComplexFieldUnsupported (sf_name field) (sf_type field))
  else
    try_catch
      (addField tableId
         (mkAddFieldConfig (sf_type field) (sf_name field) (sf_property field)))
      (push_error (FieldRebuildFailed (sf_name field) rollbackTableName)).

Definition restoreFields (tableId rollbackTableName : string)
    (fields : list SnapshotField) : M unit :=
  for_each fields (restoreField tableId rollbackTableName).

(** The body of the loop over the snapshot tables.  It returns the set of
    names, to which the new name is added as soon as [addTable] has
    succeeded; both awaits before and after that point are under the same
    [catch]. *)
Definition restoreTable (existingTableNames : gset string) (tableSnap : SnapshotTable)
  : M (gset string) :=
  let rollbackTableName := uniqueName existingTableNames (st_tableName tableSnap) in
  created ← try_catch (tableId ← addTable rollbackTableName; mret (Some tableId))
                      (mret None);
  match created with
  | None =>
      push_error (TableRebuildFailed rollbackTableName) ;;
      mret existingTableNames
  | Some tableId =>
      try_catch
        (getTableById tableId ;;
         renamePrimary tableId rollbackTableName ;;
         restoreFields tableId rollbackTableName (st_fields tableSnap))
        (push_error (TableRebuildFailed rollbackTableName)) ;;
      mret ({[rollbackTableName]} ∪ existingTableNames)
  end.

Fixpoint restoreTables (tables : list SnapshotTable) (existingTableNames : gset string)
  : M (gset string) :=
  match tables with
  | [] => mret existingTableNames
  | tableSnap :: rest =>
      names ← restoreTable existingTableNames tableSnap;
      restoreTables rest names
  end.

Definition handleRollback : M unit :=
  a ← get_app;
  match app_snapshot a with
  | None => toast NoSnapshot
  | Some snapshot =>
      modify (set_errors []) ;;
      existingTableMetaList ← getTableMetaList;
      let existingTableNames : gset string :=
        list_to_set (map (λ meta, nullish_or (tm_name meta) "") existingTableMetaList) in
      restoreTables (snap_tables snapshot) existingTableNames ;;
      errors ← get_errors;
      match errors with
      | [] => toast RollbackDone
      | _ :: _ => toast (RollbackPartial errors)
      end ;;
      refreshTables
  end.

End Rollback.

End Application.

(** ** A workspace in memory

    An implementation of the gateway that performs every request on the
    tables and fields it holds: the instance at which the theorems below are
    run on concrete inputs. *)

Record SimHost : Type := mkSimHost {
  sim_tables : list TableBundle;
  sim_counter : nat;                  (* the next fresh id *)
  sim_online : bool;                  (* enumeration raises when offline *)
  sim_bridge : outcome BridgeValue    (* what [bridge.getData] settles to *)
}.

Definition sim_find (tableId : string) (h : SimHost) : option TableBundle :=
  List.find (λ t, String.eqb (tm_id (tb_meta t)) tableId) (sim_tables h).

Definition sim_with_tables (ts : list TableBundle) (n : nat) (h : SimHost) : SimHost :=
  mkSimHost ts n (sim_online h) (sim_bridge h).

(** Replace the fields of one table. *)
Definition sim_update (tableId : string) (f : list FieldMeta → list FieldMeta)
    (ts : list TableBundle) : list TableBundle :=
  map (λ t, if String.eqb (tm_id (tb_meta t)) tableId
            then mkTableBundle (tb_meta t) (f (tb_fields t)) else t) ts.

Definition sim_getTableMetaList (h : SimHost) : outcome (list TableMeta) :=
  if sim_online h then Ok (map tb_meta (sim_tables h)) else Raise.

Definition sim_getTableById (tableId : string) (h : SimHost) : outcome unit :=
  match sim_find tableId h with Some _ => Ok tt | None => Raise end.

Definition sim_getFieldMetaList (tableId : string) (h : SimHost)
  : outcome (list FieldMeta) :=
  match sim_find tableId h with Some t => Ok (tb_fields t) | None => Raise end.

Definition sim_deleteTable (tableId : string) (h : SimHost) : outcome unit * SimHost :=
  match sim_find tableId h with
  | Some _ =>
      (Ok tt,
       sim_with_tables
         (List.filter (λ t, negb (String.eqb (tm_id (tb_meta t)) tableId)) (sim_tables h))
         (sim_counter h) h)
  | None => (Raise, h)
  end.

Definition sim_deleteField (tableId fieldId : string) (h : SimHost)
  : outcome unit * SimHost :=
  match sim_find tableId h with
  | Some t =>
      if existsb (λ f, String.eqb (fm_id f) fieldId) (tb_fields t) then
        (Ok tt,
         sim_with_tables
           (sim_update tableId
              (List.filter (λ f, negb (String.eqb (fm_id f) fieldId))) (sim_tables h))
           (sim_counter h) h)
      else (Raise, h)
  | None => (Raise, h)
  end.

Definition sim_addTable (name : string) (h : SimHost) : outcome string * SimHost :=
  let n := sim_counter h in
  let tableId := "tbl" +:+ decimal n in
  let primary := mkFieldMeta ("fld" +:+ decimal n) (Some "文本") 1%Z None true in
  (Ok tableId,
   sim_with_tables
     (sim_tables h ++ [mkTableBundle (mkTableMeta tableId (Some name)) [primary]])
     (S n) h).

Definition sim_setField (tableId fieldId name : string) (h : SimHost)
  : outcome unit * SimHost :=
  match sim_find tableId h with
  | Some _ =>
      (Ok tt,
       sim_with_tables
         (sim_update tableId
            (map (λ f, if String.eqb (fm_id f) fieldId
                       then mkFieldMeta (fm_id f) (Some name) (fm_type f)
                              (fm_property f) (fm_isPrimary f)
                       else f))
            (sim_tables h))
         (sim_counter h) h)
  | None => (Raise, h)
  end.

Definition sim_addField (tableId : string) (config : AddFieldConfig) (h : SimHost)
  : outcome unit * SimHost :=
  match sim_find tableId h with
  | Some _ =>
      let n := sim_counter h in
      let field := mkFieldMeta ("fld" +:+ decimal n) (Some (afc_name config))
                     (afc_type config) (afc_property config) false in
      (Ok tt, sim_with_tables (sim_update tableId (λ fs, fs ++ [field]) (sim_tables h)) (S n) h)
  | None => (Raise, h)
  end.

Definition sim_setData (snapshot : option Snapshot) (h : SimHost) : outcome unit * SimHost :=
  (Ok tt,
   mkSimHost (sim_tables h) (sim_counter h) (sim_online h)
     (Ok match snapshot with Some s => BStored s | None => BNull end)).

(** The gateway of the workspace in memory, with or without the key-value
    bridge. *)
Definition simGateway (bridge : bool) : Gateway SimHost := {|
  gw_getTableMetaList := sim_getTableMetaList;
  gw_getTableById := sim_getTableById;
  gw_getFieldMetaList := sim_getFieldMetaList;
  gw_deleteTable := sim_deleteTable;
  gw_deleteField := sim_deleteField;
  gw_addTable := sim_addTable;
  gw_setField := sim_setField;
  gw_addField := sim_addField;
  gw_getData := if bridge then Some sim_bridge else None;
  gw_setData := if bridge then Some sim_setData else None
|}.

#[export] Instance sim_gateway : Gateway SimHost := simGateway true.

(** The same workspace for a user who may read it and may not create a
    table: [addTable] raises. *)
Definition readOnlyGateway : Gateway SimHost := {|
  gw_getTableMetaList := sim_getTableMetaList;
  gw_getTableById := sim_getTableById;
  gw_getFieldMetaList := sim_getFieldMetaList;
  gw_deleteTable := sim_deleteTable;
  gw_deleteField := sim_deleteField;
  gw_addTable := λ _ h, (Raise, h);
  gw_setField := sim_setField;
  gw_addField := sim_addField;
  gw_getData := Some sim_bridge;
  gw_setData := Some sim_setData
|}.

(** One assignment of codes to the members of [FieldType], used to run the
    callbacks on examples; the theorems hold for every assignment that keeps
    the members distinct. *)
Definition larkFieldType : FieldTypeEnum := {|
  CreatedTime := 1001; ModifiedTime := 1002; CreatedUser := 1003;
  ModifiedUser := 1004; AutoNumber := 1005;
  Lookup := 19; SingleLink := 18; DuplexLink := 21; Formula := 20; Barcode := 99001
|}%Z.

Definition sim_storage : LocalStorage := mkLocalStorage true false None.

Definition sim_date : Date := mkDate 2025 1 15 9 30 0 0.

Definition emptyApp : AppState := mkAppState [] false [] [] None.

(** A world around a workspace: nothing logged, nothing shown, nothing
    stored. *)
Definition sim_world (tables : list TableBundle) (a : AppState) : World :=
  mkWorld (mkSimHost tables 0 true (Ok BUndefined)) [] [] [] sim_storage sim_date a.

Definition textField (id name : string) (primary : bool) : FieldMeta :=
  mkFieldMeta id (Some name) 1%Z None primary.

(** Two tables, each with an index field and one more field. *)
Definition tableA : TableBundle :=
  mkTableBundle (mkTableMeta "tblA" (Some "A"))
    [textField "fldA0" "Title" true; textField "fldA1" "Note" false].

Definition tableB : TableBundle :=
  mkTableBundle (mkTableMeta "tblB" (Some "B"))
    [textField "fldB0" "Title" true; textField "fldB1" "Note" false].

(** ** Vocabulary of the statements *)

(** *** JSON texts *)

(** A character that can follow a value inside an array or an object. *)
Definition closes (c : ascii) : bool :=
  Ascii.eqb c "," || Ascii.eqb c "]" || Ascii.eqb c "}".

Definition ends_value (rest : text) : bool :=
  match rest with [] => true | c :: _ => closes c end.

(** A text that does not go on with a digit. *)
Definition no_digit (rest : text) : Prop :=
  match rest with [] => True | c :: _ => is_digit c = false end.

Definition uint_text (u : Decimal.uint) : text :=
  list_ascii_of_string (NilEmpty.string_of_uint u).

(** Fuel that is enough to parse the text of a value. *)
Fixpoint json_size (v : json) : nat :=
  match v with
  | JArr items =>
      S ((fix sum (l : list json) : nat :=
            match l with [] => 0 | x :: l' => S (json_size x + sum l') end) items)
  | JObj members =>
      S ((fix sum (l : list (string * json)) : nat :=
            match l with [] => 0 | (_, x) :: l' => S (json_size x + sum l') end) members)
  | _ => 1
  end.

Fixpoint sizes (l : list json) : nat :=
  match l with [] => 0 | x :: l' => S (json_size x + sizes l') end.

Fixpoint msizes (l : list (string * json)) : nat :=
  match l with [] => 0 | (_, x) :: l' => S (json_size x + msizes l') end.

Definition roundtrips (v : json) : Prop :=
  ∀ fuel rest, json_size v ≤ fuel → ends_value rest = true →
    parse_value fuel (print v ++ rest) = Some (v, rest).

(** The first character of a printed value. *)
Definition value_start (c : ascii) : Prop :=
  is_ws c = false ∧ Ascii.eqb c "]" = false ∧ Ascii.eqb c "}" = false.


(** *** Callbacks *)

Section Observations.

Context {Host : Type}.

Implicit Types (w : @World Host).

(** [appends f φ m]: whatever [m] does, it only appends to the list [f] of the
    world (the log, the toasts, the notes), and each new element satisfies
    [φ]. *)
Definition appends {A X} (f : World → list X) (φ : X → Prop) (m : M A) : Prop :=
  ∀ w, ∃ xs, f (m w).2 = f w ++ xs ∧ Forall φ xs.

(** [settles m]: [m] never rejects. *)
Definition settles {A} (m : M A) : Prop := ∀ w, (m w).1 ≠ Raise.

(** [keeps f m]: [m] leaves the component [f] of the world as it is. *)
Definition keeps {A B} (f : World → B) (m : M A) : Prop := ∀ w, f (m w).2 = f w.


(** A component of the world that neither a new event nor a new host state
    changes. *)
Definition apart {X} (f : World → list X) : Prop :=
  ∀ e h w, f (add_log e (set_host h w)) = f w.

(** The events that a run from [w] to [w'] appended to the log. *)
Definition new_events w w' : list Event := drop (length (w_log w)) (w_log w').

(** The toasts and the notes that a run appended. *)
Definition new_toasts w w' : list Toast := drop (length (w_toasts w)) (w_toasts w').

(** The notes that a run pushed. *)
Definition new_errors w w' : list Note := drop (length (w_errors w)) (w_errors w').

End Observations.

Definition is_deletion (c : Call) : bool :=
  match c with
  | DeleteTable _ | DeleteField _ _ => true
  | _ => false
  end.

(** A deletion that is aimed at a table or at one of its fields. *)
Definition targets (tableId : string) (c : Call) : bool :=
  match c with
  | DeleteTable t | DeleteField t _ => String.eqb t tableId
  | _ => false
  end.

(** The tables that a list of events asks to delete, in order. *)
Definition deleted_tables (evs : list Event) : list string :=
  omap (λ e, match ev_call e with DeleteTable t => Some t | _ => None end) evs.

(** The calls of a list of events, in order. *)
Definition calls (evs : list Event) : list Call := map ev_call evs.

Definition is_enumeration (c : Call) : bool :=
  match c with
  | GetTableMetaList | GetTableById _ | GetFieldMetaList _ => true
  | _ => false
  end.

(** What the second and third steps of a deletion and the refresh after them
    may call: no table is deleted any more, and a field is deleted only in a
    table that is not selected or in the kept table. *)
Definition after_tables (selectedTables : JsObject bool) (plan : RetainPlan)
    (e : Event) : Prop :=
  match ev_call e with
  | DeleteTable _ => False
  | DeleteField t _ => checked selectedTables t = false ∨ lastTableId plan = Some t
  | c => is_enumeration c = true
  end.

(** The toast that announces the kept table. *)
Definition retain_notice (plan : RetainPlan) : list Toast :=
  match lastTableName plan with
  | Some name => [RetainNotice name]
  | None => []
  end.

(** A world with more events in its log and nothing else changed. *)
Definition extend_log {Host} (evs : list Event) (w : @World Host) : World :=
  mkWorld (w_host w) (w_log w ++ evs) (w_toasts w) (w_errors w) (w_storage w)
    (w_now w) (w_app w).

(** The enumeration of one table fails. *)
Definition unreadable {Host} {GW : Gateway Host} (h : Host) (meta : TableMeta) : Prop :=
  gw_getTableById (tm_id meta) h = Raise ∨ gw_getFieldMetaList (tm_id meta) h = Raise.

(** The snapshot field of a field that the host lists: its id, its name
    ("无名字段" when it has none), its type code and its property payload. *)
Definition field_record (field : FieldMeta) : SnapshotField :=
  mkSnapshotField (fm_id field)
    match fm_name field with Some name => name | None => "无名字段" end
    (fm_type field) (fm_property field).

(** The snapshot table of an enumerated table: the table can be opened, and
    the snapshot table has its id, its name ("无名表" when it has none) and,
    in the order of the host's list, one field for each field that the host
    lists for it. *)
Definition captured {Host} {GW : Gateway Host} (h : Host) (meta : TableMeta) (t : SnapshotTable)
  : Prop :=
  gw_getTableById (tm_id meta) h = Ok tt ∧
  ∃ fieldMetaList,
    gw_getFieldMetaList (tm_id meta) h = Ok fieldMetaList ∧
    st_tableId t = tm_id meta ∧
    st_tableName t = match tm_name meta with Some name => name | None => "无名表" end ∧
    st_fields t = map field_record fieldMetaList.

(** *** Deletion of the kept table *)

(** The end of a deletion, after its three steps. *)
Definition deletionEnd {Host} {GW : Gateway Host} : M unit :=
  errors ← get_errors;
  match errors with
  | [] => toast DeletionDone
  | _ :: _ => toast (DeletionPartial errors)
  end ;;
  modify_app clearSelection ;;
  refreshTables.

(** The world in which the third step of a deletion starts: after the
    enumeration, the notice of the kept table, the deletions of tables and
    the step over [selectedFields]. *)
Definition before_last_step {Host} {GW : Gateway Host} (selectedTables : JsObject bool)
    (selectedFields : JsObject (JsObject bool)) (currentTableList : list TableMeta)
    (w : World) : World :=
  let plan := planRetain selectedTables currentTableList in
  ((match lastTableName plan with
    | Some name => toast (RetainNotice name)
    | None => mret tt
    end ;;
    deleteTables (tableIdsToDelete plan) ;;
    for_each selectedFields (deleteSelectedFields selectedTables plan))
     (add_log (mkEvent GetTableMetaList true) (set_errors [] w))).2.

(** The deletions that are due in the kept table [T] when the workspace is
    [h]: one [deleteField] for each field that the host lists for [T] and
    does not flag as the index field, in the order of the list; none when
    the table cannot be read. *)
Definition kept_table_requests {Host} {GW : Gateway Host} (T : string) (h : Host)
  : list Call :=
  match gw_getTableById T h, gw_getFieldMetaList T h with
  | Ok _, Ok fieldMetaList =>
      map (λ field, DeleteField T (fm_id field))
        (List.filter (λ field, negb (fm_isPrimary field)) fieldMetaList)
  | _, _ => []
  end.

(** *** Rollback *)

Definition is_blocked (E : FieldTypeEnum) (f : SnapshotField) : bool :=
  includes (BLOCKED_ROLLBACK_FIELD_TYPES E) (sf_type f).

Definition is_non_portable (E : FieldTypeEnum) (f : SnapshotField) : bool :=
  includes (NON_PORTABLE_ROLLBACK_FIELD_TYPES E) (sf_type f).

Definition is_portable (E : FieldTypeEnum) (f : SnapshotField) : bool :=
  negb (is_blocked E f) && negb (is_non_portable E f).

(** The field with its original name, type and property. *)
Definition field_config (f : SnapshotField) : AddFieldConfig :=
  mkAddFieldConfig (sf_type f) (sf_name f) (sf_property f).

Definition is_system_note (n : Note) : bool :=
  match n with SystemFieldSkipped _ _ => true | _ => false end.

Definition is_complex_note (n : Note) : bool :=
  match n with ComplexFieldUnsupported _ _ => true | _ => false end.

(** The names of the tables that a list of events created, in order. *)
Definition added_tables (evs : list Event) : list string :=
  omap (λ e, match ev_call e with
             | AddTable name => if ev_ok e then Some name else None
             | _ => None
             end) evs.

(** The [k]-th name that the search for a free name tries. *)
Definition candidate (base : string) (k : nat) : string :=
  match k with
  | 0 => base
  | S _ => suffixed base k
  end.

(** A restored name of a snapshot table: the marked original name, alone or
    with a numeric suffix. *)
Definition restored_name (t : SnapshotTable) (name : string) : Prop :=
  ∃ k, name = candidate ("♻️ " +:+ st_tableName t) k.

Definition is_table_failed_note (n : Note) : bool :=
  match n with TableRebuildFailed _ => true | _ => false end.

(** A note that is neither a field-skip nor a table note. *)
Definition plain_note (n : Note) : Prop :=
  is_system_note n = false ∧ is_complex_note n = false ∧ is_table_failed_note n = false.

(** The fields that a list of events asks to create, each with the id of its
    table, in order. *)
Definition added_fields (evs : list Event) : list (string * AddFieldConfig) :=
  omap (λ e, match ev_call e with AddField t c => Some (t, c) | _ => None end) evs.

(** What rollback does with the fields of the snapshot tables it has created
    and opened, each given with the id of the new table. *)
Definition fields_requested (E : FieldTypeEnum) (opened : list (SnapshotTable * string))
  : list (string * AddFieldConfig) :=
  flat_map (λ tn, map (λ f, (tn.2, field_config f))
                    (List.filter (is_portable E) (st_fields tn.1))) opened.

Definition system_notes (E : FieldTypeEnum) (opened : list (SnapshotTable * string))
  : list Note :=
  flat_map (λ tn, map (λ f, SystemFieldSkipped (sf_name f) (sf_type f))
                    (List.filter (is_blocked E) (st_fields tn.1))) opened.

Definition complex_notes (E : FieldTypeEnum) (opened : list (SnapshotTable * string))
  : list Note :=
  flat_map (λ tn, map (λ f, ComplexFieldUnsupported (sf_name f) (sf_type f))
                    (List.filter (is_non_portable E) (st_fields tn.1))) opened.

(** The ids of the tables that a list of events opened, in order. *)
Definition opened_ids (evs : list Event) : list string :=
  omap (λ e, match ev_call e with
             | GetTableById id => if ev_ok e then Some id else None
             | _ => None
             end) evs.

(** The requests to create a table that a list of events holds, in order,
    each with its name and its outcome. *)
Definition table_requests (evs : list Event) : list (string * bool) :=
  omap (λ e, match ev_call e with
             | AddTable name => Some (name, ev_ok e)
             | _ => None
             end) evs.

(** [name] is the name to give a table whose marked name is [base] when the
    names in [names] are taken: [base] itself when it is free, and otherwise
    [base] followed by " (n)" for the smallest [n ≥ 1] that makes a free
    name. *)
Definition first_free (names : gset string) (base name : string) : Prop :=
  (name ∉ names) ∧
  (((base ∉ names) ∧ name = base) ∨
   ((base ∈ names) ∧
    ∃ n, 1 ≤ n ∧ name = base +:+ " (" +:+ decimal n +:+ ")" ∧
         ∀ j, 1 ≤ j < n → base +:+ " (" +:+ decimal j +:+ ")" ∈ names)).

(** The requests of a rollback follow the naming rule: there is one request
    per snapshot table, in order, and each asks for the first free name of
    its table among the names enumerated at the start and the names of the
    tables created before it in the same rollback. *)
Fixpoint names_by_rule (names : gset string) (tables : list SnapshotTable)
    (requests : list (string * bool)) : Prop :=
  match tables, requests with
  | [], [] => True
  | t :: tables', (name, ok) :: requests' =>
      first_free names ("♻️ " +:+ st_tableName t) name ∧
      names_by_rule (if ok : bool then {[name]} ∪ names else names) tables' requests'
  | _, _ => False
  end.

(** A snapshot with two tables of one name. *)
Definition twoTablesNamedA : Snapshot :=
  mkSnapshot "手动快照" "2025-01-15T09:30:00.000Z"
    [mkSnapshotTable "tbl1" "A"
       [mkSnapshotField "f1" "Created" 1001%Z None;
        mkSnapshotField "f2" "Total" 20%Z None;
        mkSnapshotField "f3" "Note" 1%Z (Some (JObj []))];
     mkSnapshotTable "tbl2" "A" []].

(** ** The view: filters, ordering and selection buttons *)

(** [String(n)] on an integer: [Number::toString]. *)
Definition String_of_number (n : Z) : string := string_of_list_ascii (print_number n).

(** [a < b] on Numbers. *)
Definition Qlt_bool (a b : Q) : bool := negb (Qle_bool b a).

(** [Array.prototype.sort(compare)]: the sort is stable, so with a consistent
    [compare] its result is the one of an insertion sort that puts an element
    before the first one it does not have to follow. *)
Fixpoint sort_insert {A} (compare : A → A → Q) (x : A) (l : list A) : list A :=
  match l with
  | [] => [x]
  | y :: l' => if Qle_bool (compare x y) 0 then x :: l else y :: sort_insert compare x l'
  end.

Definition Array_sort {A} (compare : A → A → Q) (l : list A) : list A :=
  foldr (sort_insert compare) [] l.

Inductive FieldSortMode : Type :=
  | Structure        (* 'structure' *)
  | ModifiedDesc.    (* 'modified-desc' *)

(** The filters and the ordering chosen in the header. *)
Record ViewState : Type := mkViewState {
  tableQuery : string;
  fieldTypeFilter : string;
  fieldSortMode : FieldSortMode;
  selectionVersion : nat
}.

(** An entry of [renderBundles] with its two flags. *)
Record RenderEntry : Type := mkRenderEntry {
  re_item : RenderBundle;
  re_tableMatches : bool;
  re_shouldDisplay : bool
}.

(** A value read from an object that may be missing: [property?.[key]]. *)
Definition property_member (property : option json) (key : string) : option json :=
  match property with
  | Some (JObj members) => member members key
  | _ => None
  end.

Section View.

(** The parts of the platform that the view only calls: [Date.parse] ([None]
    is [NaN]), the product by 1000 of a Number that has a fractional part
    (the platform rounds it to a Number), [String.prototype.toLowerCase] and
    [trim], the reverse mapping of the [FieldType] enum, and the own
    properties of a field object that [IFieldMeta] does not declare. *)
Variable Date_parse : string → option Z.
Variable times_1000 : NonInteger → Q.
Variable toLowerCase : string → string.
Variable trim : string → string.
Variable fieldTypeDictionary : FieldType → option string.
Variable fieldExtra : FieldMeta → string → option json.

(** [parseDateLikeValue].  On an integer between 10^9 and 10^12 the product
    by 1000 is below 2^53 and exact. *)
Definition parseDateLikeValue (value : option json) : Q :=
  match value with
  | Some (JNum value) =>
      if (1000000000000 <? value)%Z then inject_Z value
      else if (1000000000 <? value)%Z then inject_Z (value * 1000)
      else if (0 <? value)%Z then inject_Z value
      else 0%Q
  | Some (JDec value) =>
      let number := NonInteger_value value in
      if Qlt_bool 1000000000000 number then number
      else if Qlt_bool 1000000000 number then times_1000 value
      else if Qlt_bool 0 number then number
      else 0%Q
  | Some (JStr value) =>
      if 0 <? String.length value then
        match Date_parse value with
        | Some parsed => inject_Z parsed
        | None => 0%Q
        end
      else 0%Q
  | _ => 0%Q
  end.

(** The [candidates] array of [getFieldModifiedTime]. *)
Definition modifiedTimeCandidates (field : FieldMeta) : list (option json) :=
  let property := fm_property field in
  [ fieldExtra field "modifiedTime";
    fieldExtra field "modified_time";
    fieldExtra field "updateTime";
    fieldExtra field "update_time";
    fieldExtra field "updatedAt";
    fieldExtra field "updated_at";
    property_member property "modifiedTime";
    property_member property "modified_time";
    property_member property "updateTime";
    property_member property "update_time";
    property_member property "updatedAt";
    property_member property "updated_at";
    property_member property "lastModifiedTime";
    property_member property "last_modified_time";
    property_member property "lastModifyTime";
    property_member property "last_modify_time";
    property_member property "lastEditedTime";
    property_member property "last_edited_time" ].

(** The loop of [getFieldModifiedTime]. *)
Fixpoint firstTimestamp (candidates : list (option json)) : Q :=
  match candidates with
  | [] => 0%Q
  | candidate :: rest =>
      let timestamp := parseDateLikeValue candidate in
      if Qlt_bool 0 timestamp then timestamp else firstTimestamp rest
  end.

Definition getFieldModifiedTime (field : FieldMeta) : Q :=
  firstTimestamp (modifiedTimeCandidates field).

(** [sortFields], local to [renderBundles]. *)
Definition sortFields (mode : FieldSortMode) (fields : list FieldMeta) : list FieldMeta :=
  match mode with
  | Structure => fields
  | ModifiedDesc =>
      Array_sort (λ a b, (getFieldModifiedTime b - getFieldModifiedTime a)%Q) fields
  end.

(** The label of a field type in the filter and on the tags. *)
Definition fieldTypeLabel (type : FieldType) : string :=
  match fieldTypeDictionary type with
  | Some label => label
  | None => "类型 " +:+ String_of_number type
  end.

(** [availableFieldTypeOptions]: a [Map] keeps its keys in insertion order. *)
Definition availableFieldTypeOptions (tables : list TableBundle) : list (string * string) :=
  fold_left
    (λ result bundle,
       fold_left
         (λ result field,
            let key := String_of_number (fm_type field) in
            match obj_get result key with
            | Some _ => result
            | None => obj_set result key (fieldTypeLabel (fm_type field))
            end)
         (tb_fields bundle) result)
    tables [].

(** The callback of [tables.map] in [renderBundles]. *)
Definition renderEntry (normalizedQuery filter : string) (mode : FieldSortMode)
    (bundle : TableBundle) : RenderEntry :=
  let tableName := nullish_or (tm_name (tb_meta bundle)) "无名表" in
  let tableMatches :=
    if String.length normalizedQuery =? 0 then true
    else str_includes normalizedQuery (toLowerCase tableName) in
  let baseFields :=
    List.filter
      (λ field,
         if negb (String.eqb filter "all")
            && negb (String.eqb (String_of_number (fm_type field)) filter)
         then false
         else if String.length normalizedQuery =? 0 then true
         else if tableMatches then true
         else
           let fieldName := nullish_or (fm_name field) "无名字段" in
           str_includes normalizedQuery (toLowerCase fieldName))
      (tb_fields bundle) in
  let visibleFields := sortFields mode baseFields in
  let shouldDisplay := tableMatches || (0 <? length baseFields) in
  mkRenderEntry (mkRenderBundle bundle visibleFields) tableMatches shouldDisplay.

Definition renderBundles (view : ViewState) (tables : list TableBundle) : list RenderEntry :=
  let normalizedQuery := toLowerCase (trim (tableQuery view)) in
  List.filter re_shouldDisplay
    (map (renderEntry normalizedQuery (fieldTypeFilter view) (fieldSortMode view)) tables).

End View.

(** The toasts of the selection buttons. *)
Inductive SelectionToast : Type :=
  | NoTableToSelect      (* info: 当前筛选没有表可以选择。 *)
  | TablesSelected       (* success: 已选中所有筛选内的表。 *)
  | NoFieldToSelect      (* info: 当前筛选没有字段可以选择。 *)
  | FieldsSelected       (* success: 已选中当前筛选的字段。 *)
  | SelectionCleared.    (* info: 选择已清空。 *)

(** [selectVisibleTables]: the new state and the toast. *)
Definition selectVisibleTables (renderBundles : list RenderBundle) (a : AppState)
  : AppState * SelectionToast :=
  match renderBundles with
  | [] => (a, NoTableToSelect)
  | _ :: _ =>
      let next :=
        fold_left (λ next rb, obj_set next (tm_id (tb_meta (rb_bundle rb))) true)
          renderBundles [] in
      (mkAppState (app_tables a) (app_loadError a) next [] (app_snapshot a), TablesSelected)
  end.

(** The callback around [selectVisibleFields]: nothing changes when nothing
    is listed. *)
Definition selectVisibleFieldsClick (renderBundles : list RenderBundle) (a : AppState)
  : AppState * SelectionToast :=
  match renderBundles with
  | [] => (a, NoFieldToSelect)
  | _ :: _ =>
      (mkAppState (app_tables a) (app_loadError a) (app_selectedTables a)
         (selectVisibleFields renderBundles (app_selectedTables a)) (app_snapshot a),
       FieldsSelected)
  end.

(** [clearSelections]. *)
Definition clearSelections (a : AppState) (view : ViewState)
  : AppState * ViewState * SelectionToast :=
  (mkAppState (app_tables a) (app_loadError a) [] [] (app_snapshot a),
   mkViewState "" "all" Structure (selectionVersion view + 1),
   SelectionCleared).

(** ** Build configuration *)

(** [manualChunks] of the bundler configuration; [None] is [undefined]. *)
Definition manualChunks (id : string) : option string :=
  if negb (str_includes "node_modules" id) then None
  else if str_includes "@douyinfe/semi" id then Some "semi-ui"
  else if str_includes "@lark-base-open" id then Some "lark-sdk"
  else if str_includes "/react/" id
          || str_includes "/react-dom/" id
          || str_includes "scheduler" id
          || str_includes "use-sync-external-store" id
  then Some "react-vendor"
  else Some "vendor".

(** ** Callbacks of the bridge and of the snapshot button *)

Definition BRIDGE_SNAPSHOT_KEY : string := "boom.table-shredder.snapshot.v1".

(** [JSON.stringify(snapshot ?? null)]. *)
Definition stringifySnapshot (snapshot : option Snapshot) : string :=
  JSON_stringify
    match snapshot with
    | Some s => snapshot_to_json s
    | None => JNull
    end.

Section BridgeCallbacks.

Context {Host : Type} {GW : Gateway Host}.

(** The listener registered with [bridge.onDataChange]; [key] and [value] are
    the two members read from [event?.data ?? {}]. *)
Definition onDataChange (key : option string) (value : BridgeValue) : M unit :=
  if negb (bool_decide (key = Some BRIDGE_SNAPSHOT_KEY)) then mret tt
  else
    let incoming :=
      match value with
      | BStored s => Some s
      | BNull | BUndefined => None
      end in
    a ← get_app;
    let current := app_snapshot a in
    let same := String.eqb (stringifySnapshot current) (stringifySnapshot incoming) in
    if negb same then setSnapshot incoming else mret tt.

(** [manualSnapshot]. *)
Definition manualSnapshot : M unit :=
  captureSnapshot "手动快照" ;; mret tt.

End BridgeCallbacks.

(** ** Vocabulary of the statements on the view and the selection *)

(** Whether a field is checked in [selectedFields]. *)
Definition field_checked (selectedFields : JsObject (JsObject bool))
    (tableId fieldId : string) : bool :=
  match obj_get selectedFields tableId with
  | Some sel => checked sel fieldId
  | None => false
  end.

(** The keys of a JS object are pairwise distinct. *)
Definition unique_keys {V} (o : JsObject V) : Prop := NoDup (map fst o).

Definition unique_field_keys (selectedFields : JsObject (JsObject bool)) : Prop :=
  unique_keys selectedFields ∧ Forall (λ entry, unique_keys entry.2) selectedFields.

(** No table of [selectedFields] has an empty selection. *)
Definition no_empty_entry (selectedFields : JsObject (JsObject bool)) : Prop :=
  ∀ tableId sel, obj_get selectedFields tableId = Some sel → sel ≠ [].

Definition table_ids (bundles : list TableBundle) : list string :=
  map (λ bundle, tm_id (tb_meta bundle)) bundles.

Definition field_ids (fields : list FieldMeta) : list string := map fm_id fields.

(** A table of the list has the id [tableId] and a field with the id
    [fieldId]. *)
Definition has_field (bundles : list TableBundle) (tableId fieldId : string) : Prop :=
  ∃ bundle, bundle ∈ bundles ∧ tm_id (tb_meta bundle) = tableId ∧
            fieldId ∈ field_ids (tb_fields bundle).

(** The ids of the tables listed in the view. *)
Definition visible_ids (renderBundles : list RenderBundle) : list string :=
  map (λ rb, tm_id (tb_meta (rb_bundle rb))) renderBundles.

(** The view that lists every table with all its fields. *)
Definition full_view (tables : list TableBundle) : list RenderBundle :=
  map (λ bundle, mkRenderBundle bundle (tb_fields bundle)) tables.

(** One step of a loop that gives an object the entry of an element, when
    the element has one. *)
Definition set_entry {X V} (key : X → string) (entry : X → option V)
    (next : JsObject V) (x : X) : JsObject V :=
  match entry x with
  | Some v => obj_set next (key x) v
  | None => next
  end.

(** The selection that [pruneSelectedFields] keeps for one table: the checked
    fields that the table still has, if any. *)
Definition keptFields (prev : JsObject (JsObject bool)) (bundle : TableBundle)
  : option (JsObject bool) :=
  match obj_get prev (tm_id (tb_meta bundle)) with
  | Some sel =>
      match fold_left
              (λ acc field,
                 if checked sel (fm_id field) then obj_set acc (fm_id field) true else acc)
              (tb_fields bundle) [] with
      | [] => None
      | (_ :: _) as filtered => Some filtered
      end
  | None => None
  end.

(** The selection that [selectVisibleFields] sets for one listed table. *)
Definition visibleEntry (selectedTables : JsObject bool) (rb : RenderBundle)
  : option (JsObject bool) :=
  if checked selectedTables (tm_id (tb_meta (rb_bundle rb))) then None
  else
    match rb_visibleFields rb with
    | [] => None
    | (_ :: _) as fields =>
        Some (fold_left (λ sel field, obj_set sel (fm_id field) true) fields [])
    end.

(** The body of the loop of [availableFieldTypeOptions]. *)
Definition addTypeOption (fieldTypeDictionary : FieldType → option string)
    (result : JsObject string) (field : FieldMeta) : JsObject string :=
  let key := String_of_number (fm_type field) in
  match obj_get result key with
  | Some _ => result
  | None => obj_set result key (fieldTypeLabel fieldTypeDictionary (fm_type field))
  end.

(** ** Vocabulary of the statements on the callbacks *)

(** The bundle of an enumerated table: the table and the fields that the host
    lists for it. *)
Definition bundled {Host} {GW : Gateway Host} (h : Host) (meta : TableMeta)
    (bundle : TableBundle) : Prop :=
  gw_getTableById (tm_id meta) h = Ok tt ∧
  ∃ fieldMetaList,
    gw_getFieldMetaList (tm_id meta) h = Ok fieldMetaList ∧
    bundle = mkTableBundle meta fieldMetaList.

(** What a rollback may call: never a deletion, never the bridge. *)
Definition rollback_call (e : Event) : Prop :=
  is_deletion (ev_call e) = false ∧ ∀ s, ev_call e ≠ SetData s.

(** A call that was rejected. *)
Definition failed (e : Event) : bool := negb (ev_ok e).

(** A note about a field that rollback skips; every other note reports a
    call that failed. *)
Definition is_skip_note (n : Note) : bool := is_system_note n || is_complex_note n.

(** The notes that are not of the kind [skip]. *)
Definition failure_notes (skip : Note → bool) (notes : list Note) : list Note :=
  List.filter (λ n, negb (skip n)) notes.

(** No note is set apart. *)
Definition no_skip (n : Note) : bool := false.

Section Accounting.

Context {Host : Type}.

(** [accounts skip m]: [m] only appends to the log and to the notes, and
    apart from the notes of the kind [skip] it pushes one note per failed
    call, less the failed call that makes [m] itself fail. *)
Definition accounts {A} (skip : Note → bool) (m : M A) : Prop :=
  ∀ w : @World Host, ∃ evs notes,
    w_log (m w).2 = w_log w ++ evs ∧
    w_errors (m w).2 = w_errors w ++ notes ∧
    length (failure_notes skip notes) + (if is_ok (m w).1 then 0 else 1)
    = length (List.filter failed evs).

(** [tallies skip m]: [m] never fails, and apart from the notes of the kind
    [skip] it pushes one note per failed call. *)
Definition tallies {A} (skip : Note → bool) (m : M A) : Prop :=
  ∀ w : @World Host, ∃ a w' evs notes,
    m w = (Ok a, w') ∧
    w_log w' = w_log w ++ evs ∧
    w_errors w' = w_errors w ++ notes ∧
    length (failure_notes skip notes) = length (List.filter failed evs).

End Accounting.

(** ** Instances for the examples *)

(** Lower case on the letters A to Z, every other character kept. *)
Definition lower_ascii (c : ascii) : ascii :=
  let n := nat_of_ascii c in
  if (65 <=? n) && (n <=? 90) then ascii_of_nat (n + 32) else c.

Fixpoint asciiLower (s : string) : string :=
  match s with
  | EmptyString => EmptyString
  | String c s' => String (lower_ascii c) (asciiLower s')
  end.

(** The Numbers 0.5, 0.00000015 and -1234.5. *)
Definition half : NonInteger := mkNonInteger false ["5"]%char 0 eq_refl.

Definition tiny : NonInteger := mkNonInteger false ["1"; "5"]%char (-6) eq_refl.

Definition debit : NonInteger :=
  mkNonInteger true ["1"; "2"; "3"; "4"; "5"]%char 4 eq_refl.

(** A property payload with Numbers of every shape. *)
Definition numberProperty : json :=
  JObj [("precision", JDec half); ("step", JDec tiny); ("min", JDec debit);
        ("max", JNum (10 ^ 21)); ("digits", JNum 2)].

(** The product by 1000 without rounding. *)
Definition exactProduct (d : NonInteger) : Q := (NonInteger_value d * 1000)%Q.

(** A view with a query and a type filter. *)
Definition notesOfTypeOne : ViewState := mkViewState "NOTE" "1" ModifiedDesc 0.

(** A field with a modification time in its property payload. *)
Definition stampedField (id name : string) (seconds : Z) : FieldMeta :=
  mkFieldMeta id (Some name) 1%Z (Some (JObj [("updateTime", JNum seconds)])) false.

(** * Properties *)

(** ** JSON: parsing a printed value gives the value back *)

Lemma json_nested_ind (P : json → Prop) :
  P JNull → (∀ b, P (JBool b)) → (∀ n, P (JNum n)) → (∀ d, P (JDec d)) →
  (∀ s, P (JStr s)) →
  (∀ items, Forall P items → P (JArr items)) →
  (∀ members, Forall (λ kv, P kv.2) members → P (JObj members)) →
  ∀ v, P v.
Proof.
  intros HN HB HZ HD HS HA HO.
  fix IH 1. intros [ | b | n | d | s | items | members].
  - exact HN.
  - apply HB.
  - apply HZ.
  - apply HD.
  - apply HS.
  - apply HA. induction items as [|x l IHl]; constructor; [apply IH | exact IHl].
  - apply HO. induction members as [|[k x] l IHl]; constructor; [apply IH | exact IHl].
Qed.

Lemma print_JArr items :
  print (JArr items) = "["%char :: print_elements items ++ ["]"%char].
Proof. reflexivity. Qed.

Lemma print_JObj members :
  print (JObj members) = "{"%char :: print_members members ++ ["}"%char].
Proof. reflexivity. Qed.

Ltac ascii_cases c :=
  destruct c as [[] [] [] [] [] [] [] []].

Lemma parse_string_body_escape c tail :
  parse_string_body (escape_char c ++ tail) =
  match parse_string_body tail with
  | Some (str, rest) => Some (String c str, rest)
  | None => None
  end.
Proof. ascii_cases c; reflexivity. Qed.

Lemma parse_string_body_print cs rest :
  parse_string_body (flat_map escape_char cs ++ dquote :: rest) =
  Some (string_of_list_ascii cs, rest).
Proof.
  induction cs as [|c cs IH]; [reflexivity|].
  cbn [flat_map]. rewrite <- app_assoc, parse_string_body_escape, IH. reflexivity.
Qed.

Lemma print_string_app s rest :
  print_string s ++ rest =
  dquote :: flat_map escape_char (list_ascii_of_string s) ++ dquote :: rest.
Proof. unfold print_string. cbn [app]. rewrite <- app_assoc. reflexivity. Qed.

Lemma parse_string_print s rest :
  parse_string_body (flat_map escape_char (list_ascii_of_string s) ++ dquote :: rest)
  = Some (s, rest).
Proof. rewrite parse_string_body_print, string_of_list_ascii_of_string. reflexivity. Qed.

(** *** Numbers *)

Lemma is_digit_cases c :
  is_digit c = true →
  c ∈ ["0"; "1"; "2"; "3"; "4"; "5"; "6"; "7"; "8"; "9"]%char.
Proof.
  ascii_cases c; vm_compute; intros H; try discriminate;
    repeat (first [apply list_elem_of_here | apply list_elem_of_further]).
Qed.

Lemma digit_not_minus d : is_digit d = true → Ascii.eqb d "-" = false.
Proof. ascii_cases d; vm_compute; congruence. Qed.

Lemma digit_not_point d : is_digit d = true → Ascii.eqb d "." = false.
Proof. ascii_cases d; vm_compute; congruence. Qed.

Lemma closes_not_digit c : closes c = true → is_digit c = false.
Proof. ascii_cases c; vm_compute; congruence. Qed.

Lemma closes_not_continue c :
  closes c = true → Ascii.eqb c "." = false ∧ Ascii.eqb c "e" || Ascii.eqb c "E" = false.
Proof. ascii_cases c; vm_compute; intros; try discriminate; split; reflexivity. Qed.

Lemma closes_not_ws c : closes c = true → is_ws c = false.
Proof. ascii_cases c; vm_compute; congruence. Qed.

Lemma ends_no_digit rest : ends_value rest = true → no_digit rest.
Proof. destruct rest as [|c rest]; [exact (λ _, I)|]. apply closes_not_digit. Qed.

Lemma span_digits_app ds rest :
  forallb is_digit ds = true → no_digit rest → span_digits (ds ++ rest) = (ds, rest).
Proof.
  intros Hds Hrest. induction ds as [|d ds IH].
  - destruct rest as [|c rest]; [reflexivity|]. cbn in *. rewrite Hrest. reflexivity.
  - cbn in Hds. apply andb_prop in Hds as [Hd Hds].
    cbn [app span_digits]. rewrite Hd, (IH Hds). reflexivity.
Qed.

(** The digits of a natural number *)

Lemma uint_text_digits u : forallb is_digit (uint_text u) = true.
Proof. unfold uint_text. induction u; cbn; auto. Qed.

Lemma nzhead_not_D0 u v : Decimal.nzhead u ≠ Decimal.D0 v.
Proof. induction u; cbn; try discriminate; auto. Qed.

Lemma to_uint_head p : Ascii.eqb (hd "0"%char (uint_text (Pos.to_uint p))) "0" = false.
Proof.
  pose proof (DecimalPos.Unsigned.to_of (Pos.to_uint p)) as Hfix.
  rewrite DecimalPos.Unsigned.of_to in Hfix. cbn [N.to_uint] in Hfix.
  pose proof (DecimalPos.Unsigned.of_to p) as Hp.
  destruct (Pos.to_uint p) as [|u|u|u|u|u|u|u|u|u|u]; try reflexivity; [discriminate|].
  exfalso. unfold Decimal.unorm in Hfix. cbn [Decimal.nzhead] in Hfix.
  destruct (Decimal.nzhead u) eqn:Eu; try discriminate;
    [injection Hfix as ->; discriminate | exact (nzhead_not_D0 _ _ Eu)].
Qed.

Lemma digits_value_acc u acc :
  fold_left (λ a c, 10 * a + digit_value c)%Z (uint_text u) (Z.pos acc)
  = Z.pos (Pos.of_uint_acc u acc).
Proof.
  unfold uint_text. revert acc.
  induction u as [|u IH|u IH|u IH|u IH|u IH|u IH|u IH|u IH|u IH|u IH]; intros acc;
    cbn [NilEmpty.string_of_uint list_ascii_of_string fold_left Pos.of_uint_acc];
    [reflexivity|..];
    rewrite <- IH; f_equal; vm_compute (digit_value _); lia.
Qed.

Lemma digits_value_uint u : digits_value (uint_text u) = Z.of_N (Pos.of_uint u).
Proof.
  unfold digits_value.
  induction u as [|u IH|u IH|u IH|u IH|u IH|u IH|u IH|u IH|u IH|u IH];
    [reflexivity | exact IH | ..];
    cbn [Pos.of_uint Z.of_N]; rewrite <- digits_value_acc; reflexivity.
Qed.

Lemma digits_value_of n : digits_value (digits_of n) = Z.of_N n.
Proof.
  unfold digits_of. fold (uint_text (N.to_uint n)).
  rewrite digits_value_uint. f_equal. apply DecimalN.Unsigned.of_to.
Qed.

Lemma digits_of_digits n : forallb is_digit (digits_of n) = true.
Proof. apply uint_text_digits. Qed.

Lemma digits_of_nonnil n : digits_of n ≠ [].
Proof.
  destruct n as [|p]; [discriminate|].
  pose proof (to_uint_head p) as H. intros E.
  change (digits_of (N.pos p)) with (uint_text (Pos.to_uint p)) in E.
  pose proof (DecimalPos.Unsigned.to_uint_nonnil p) as Hnil.
  unfold uint_text in E. destruct (Pos.to_uint p); [congruence|..]; discriminate.
Qed.

Lemma digits_value_fold ds acc :
  fold_left (λ a c, 10 * a + digit_value c)%Z ds acc
  = (acc * 10 ^ Z.of_nat (length ds) + digits_value ds)%Z.
Proof.
  unfold digits_value. revert acc.
  induction ds as [|d ds IH]; intros acc; [cbn; lia|].
  cbn [fold_left length]. rewrite IH, (IH (10 * 0 + digit_value d)%Z).
  rewrite Nat2Z.inj_succ, Z.pow_succ_r by lia. lia.
Qed.

Lemma digits_value_zeros ds m :
  digits_value (ds ++ zeros m) = (digits_value ds * 10 ^ Z.of_nat m)%Z.
Proof.
  unfold digits_value at 1. rewrite fold_left_app. fold (digits_value ds).
  rewrite digits_value_fold. unfold zeros. rewrite repeat_length.
  enough (digits_value (repeat "0"%char m) = 0%Z) as -> by lia.
  induction m as [|m IH]; [reflexivity|].
  unfold digits_value in *. cbn [repeat fold_left]. exact IH.
Qed.

(** Zeros at the two ends *)

Lemma strip_zeros_head ds :
  Ascii.eqb (hd "0"%char ds) "0" = false → strip_zeros ds = ds.
Proof. destruct ds as [|d ds]; [reflexivity|]. cbn. intros ->. reflexivity. Qed.

Lemma strip_zeros_zeros a ds : strip_zeros (zeros a ++ ds) = strip_zeros ds.
Proof. induction a as [|a IH]; [reflexivity|]. exact IH. Qed.

Lemma strip_trailing_nonnil ds :
  Ascii.eqb (List.last ds "0"%char) "0" = false → strip_trailing_zeros ds = ds.
Proof.
  induction ds as [|d ds IH]; [reflexivity|]. intros Hl.
  cbn [strip_trailing_zeros]. destruct ds as [|d' ds].
  - cbn in *. rewrite Hl. reflexivity.
  - rewrite IH by exact Hl. reflexivity.
Qed.

Lemma strip_trailing_zeros_only m : strip_trailing_zeros (zeros m) = [].
Proof. induction m as [|m IH]; [reflexivity|]. cbn. fold (zeros m). rewrite IH. reflexivity. Qed.

Lemma strip_trailing_app ds m :
  strip_trailing_zeros (ds ++ zeros m) = strip_trailing_zeros ds.
Proof.
  induction ds as [|d ds IH]; [apply strip_trailing_zeros_only|].
  cbn [app strip_trailing_zeros]. rewrite IH. reflexivity.
Qed.

Lemma strip_trailing_split ds :
  ∃ m, ds = strip_trailing_zeros ds ++ zeros m.
Proof.
  induction ds as [|d ds [m IH]]; [exists 0; reflexivity|].
  cbn [strip_trailing_zeros]. destruct (strip_trailing_zeros ds) as [|r rs] eqn:E.
  - destruct (Ascii.eqb d "0") eqn:Ed.
    + apply Ascii.eqb_eq in Ed as ->. exists (S m). cbn in *. rewrite IH at 1. reflexivity.
    + exists m. cbn in *. rewrite IH at 1. reflexivity.
  - exists m. cbn [app] in *. rewrite IH at 1. reflexivity.
Qed.

Lemma strip_trailing_last ds :
  strip_trailing_zeros ds ≠ [] →
  Ascii.eqb (List.last (strip_trailing_zeros ds) "0"%char) "0" = false.
Proof.
  induction ds as [|d ds IH]; [intros H; contradiction|]. cbn [strip_trailing_zeros].
  destruct (strip_trailing_zeros ds) as [|r rs].
  - destruct (Ascii.eqb d "0") eqn:Ed; [intros H; contradiction | intros _; exact Ed].
  - intros _. apply IH. discriminate.
Qed.

Lemma strip_trailing_significand ds :
  forallb is_digit ds = true → Ascii.eqb (hd "0"%char ds) "0" = false →
  significand (strip_trailing_zeros ds) = true.
Proof.
  intros Hds Hhd. unfold significand.
  assert (Hall : forallb is_digit (strip_trailing_zeros ds) = true).
  { destruct (strip_trailing_split ds) as [m Hm]. rewrite Hm, forallb_app in Hds.
    apply andb_prop in Hds as [H _]. exact H. }
  assert (Hhead : hd "0"%char (strip_trailing_zeros ds) = hd "0"%char ds).
  { destruct ds as [|d ds]; [reflexivity|]. cbn in Hhd |- *.
    destruct (strip_trailing_zeros ds); [rewrite Hhd|]; reflexivity. }
  assert (Hlast : Ascii.eqb (List.last (strip_trailing_zeros ds) "0"%char) "0" = false).
  { apply strip_trailing_last. intros E. rewrite E in Hhead. cbn in Hhead.
    rewrite <- Hhead in Hhd. discriminate. }
  rewrite Hall, Hhead, Hhd, Hlast. reflexivity.
Qed.

Lemma significand_parts ds :
  significand ds = true →
  forallb is_digit ds = true ∧ Ascii.eqb (hd "0"%char ds) "0" = false ∧
  Ascii.eqb (List.last ds "0"%char) "0" = false ∧ ds ≠ [].
Proof.
  unfold significand. intros H.
  apply andb_prop in H as [H Hl]. apply andb_prop in H as [Hd Hh].
  apply negb_true_iff in Hl, Hh. repeat split; try assumption.
  intros ->. discriminate.
Qed.

(** Reading digits as a Number *)

Lemma NonInteger_eq d1 d2 :
  ni_negative d1 = ni_negative d2 → ni_digits d1 = ni_digits d2 →
  ni_point d1 = ni_point d2 → d1 = d2.
Proof.
  destruct d1 as [n1 s1 p1 ok1], d2 as [n2 s2 p2 ok2]. cbn.
  intros -> -> ->. f_equal. apply proof_irrel.
Qed.

Lemma Number_of_decimal_zeros negative a ds b n :
  significand ds = true →
  Number_of_decimal negative (zeros a ++ ds ++ zeros b) (n + Z.of_nat a)
  = Number_of_digits negative ds n.
Proof.
  intros Hs. destruct (significand_parts ds Hs) as (Hd & Hh & Hl & Hne).
  unfold Number_of_decimal. cbv zeta.
  rewrite strip_zeros_zeros, strip_zeros_head.
  - rewrite strip_trailing_app, (strip_trailing_nonnil ds Hl).
    f_equal. rewrite !length_app. unfold zeros. rewrite !repeat_length. lia.
  - destruct ds; [congruence | exact Hh].
Qed.

Lemma Number_of_digits_integer negative ds n :
  ds ≠ [] → (Z.of_nat (length ds) ≤ n)%Z →
  Number_of_digits negative ds n =
  Some (JNum (let m := digits_value ds * 10 ^ (n - Z.of_nat (length ds)) in
              if negative then - m else m)%Z).
Proof.
  intros Hne Hk. unfold Number_of_digits. destruct ds as [|d ds]; [congruence|].
  cbv zeta. destruct (Z.leb_spec (Z.of_nat (length (d :: ds))) n); [reflexivity | lia].
Qed.

Lemma Number_of_digits_decimal d :
  Number_of_digits (ni_negative d) (ni_digits d) (ni_point d) = Some (JDec d).
Proof.
  pose proof (ni_ok d) as Hok. apply andb_prop in Hok as [Hs Hn].
  destruct (significand_parts _ Hs) as (_ & _ & _ & Hne).
  unfold Number_of_digits. destruct (ni_digits d) as [|c cs] eqn:E; [congruence|].
  cbv zeta. apply Z.ltb_lt in Hn as Hlt.
  destruct (Z.leb_spec (Z.of_nat (length (c :: cs))) (ni_point d)); [lia|].
  destruct (decide _) as [ok | Hno].
  - f_equal. f_equal. apply NonInteger_eq; [reflexivity | exact (eq_sym E) | reflexivity].
  - exfalso. apply Hno. rewrite Hs, Hn. reflexivity.
Qed.

(** Reading the text of [Number::toString] *)

Lemma parse_fraction_none rest :
  ends_value rest = true → parse_fraction rest = Some ([], rest).
Proof.
  destruct rest as [|c rest]; [reflexivity|]. intros Hc.
  unfold parse_fraction. destruct (closes_not_continue c Hc) as [-> _]. reflexivity.
Qed.

Lemma parse_exponent_none rest :
  ends_value rest = true → parse_exponent rest = Some (0%Z, rest).
Proof.
  destruct rest as [|c rest]; [reflexivity|]. intros Hc.
  unfold parse_exponent. destruct (closes_not_continue c Hc) as [_ ->]. reflexivity.
Qed.

Lemma parse_fraction_digits fs rest :
  fs ≠ [] → forallb is_digit fs = true → no_digit rest →
  parse_fraction ("."%char :: fs ++ rest) = Some (fs, rest).
Proof.
  intros Hne Hfs Hrest. unfold parse_fraction. change (Ascii.eqb "." ".") with true.
  cbv iota. rewrite span_digits_app by assumption. destruct fs; [congruence | reflexivity].
Qed.

Lemma parse_fraction_exponent e rest :
  parse_fraction (exponent_text e ++ rest) = Some ([], exponent_text e ++ rest).
Proof. reflexivity. Qed.

Lemma parse_exponent_text e rest :
  ends_value rest = true → parse_exponent (exponent_text e ++ rest) = Some (e, rest).
Proof.
  intros Hrest. unfold parse_exponent, exponent_text. cbn [app].
  change (Ascii.eqb "e" "e" || Ascii.eqb "e" "E") with true. cbv iota.
  pose proof (digits_of_nonnil (Z.to_N (Z.abs e))) as Hne.
  pose proof (digits_value_of (Z.to_N (Z.abs e))) as Hv.
  pose proof (span_digits_app _ rest (digits_of_digits (Z.to_N (Z.abs e)))
                (ends_no_digit rest Hrest)) as Hsp.
  destruct (Z.ltb_spec e 0).
  - change (Ascii.eqb "-" "+") with false. change (Ascii.eqb "-" "-") with true.
    cbv iota. rewrite Hsp. destruct (digits_of _); [congruence|].
    rewrite Hv. f_equal. f_equal. lia.
  - change (Ascii.eqb "+" "+") with true. cbv iota. rewrite Hsp.
    destruct (digits_of _); [congruence|]. rewrite Hv. f_equal. f_equal. lia.
Qed.

Lemma exponent_no_digit e rest : no_digit (exponent_text e ++ rest).
Proof. reflexivity. Qed.

Lemma point_no_digit s : no_digit ("."%char :: s).
Proof. reflexivity. Qed.

Lemma zeros_digits m : forallb is_digit (zeros m) = true.
Proof. induction m as [|m IH]; [reflexivity | exact IH]. Qed.

(** The parser after the integer part [ds] of a number. *)
Lemma parse_number_digits negative ds rest :
  forallb is_digit ds = true → no_digit rest → ds ≠ [] →
  match ds with d :: _ :: _ => Ascii.eqb d "0" | _ => false end = false →
  parse_number (sign_text negative ++ ds ++ rest)
  = match parse_fraction rest with
    | Some (fs, rest1) =>
        match parse_exponent rest1 with
        | Some (e, rest2) =>
            match Number_of_decimal negative (ds ++ fs) (Z.of_nat (length ds) + e) with
            | Some v => Some (v, rest2)
            | None => None
            end
        | None => None
        end
    | None => None
    end.
Proof.
  intros Hds Hrest Hne Hlz.
  assert (Hsign : split_sign (sign_text negative ++ ds ++ rest) = (negative, ds ++ rest)).
  { destruct negative; [reflexivity|]. destruct ds as [|c t]; [congruence|].
    cbn in Hds. apply andb_prop in Hds as [Hc _].
    cbn [sign_text app split_sign]. rewrite (digit_not_minus c Hc). reflexivity. }
  unfold parse_number. rewrite Hsign, (span_digits_app ds rest Hds Hrest).
  cbv zeta. rewrite Hlz. destruct ds; [congruence | reflexivity].
Qed.

(** The digits and the point position that the parser finds in the text of
    [Number::toString]. *)
Lemma parse_number_toString negative ds n rest :
  significand ds = true → ends_value rest = true →
  parse_number (sign_text negative ++ Number_toString ds n ++ rest)
  = match Number_of_digits negative ds n with
    | Some v => Some (v, rest)
    | None => None
    end.
Proof.
  intros Hs Hrest. destruct (significand_parts ds Hs) as (Hd & Hh & Hl & Hne).
  pose proof (ends_no_digit rest Hrest) as Hnd.
  assert (∃ d0 ds0, ds = d0 :: ds0) as (d0 & ds0 & Eds)
    by (destruct ds; [congruence | eauto]).
  set (k := Z.of_nat (length ds)).
  assert (Hd0 : is_digit d0 = true).
  { rewrite Eds in Hd. cbn in Hd. apply andb_prop in Hd as [H _]. exact H. }
  assert (Hh0 : Ascii.eqb d0 "0" = false) by (rewrite Eds in Hh; exact Hh).
  assert (Hz : ∀ a b, Number_of_decimal negative (zeros a ++ ds ++ zeros b) (n + Z.of_nat a)
                      = Number_of_digits negative ds n)
    by (intros a b; apply Number_of_decimal_zeros, Hs).
  unfold Number_toString. cbv zeta. fold k.
  destruct ((k <=? n)%Z && (n <=? 21)%Z) eqn:R6.
  { (* the digits and zeros *)
    apply andb_prop in R6 as [Hkn _]. apply Z.leb_le in Hkn.
    set (m := Z.to_nat (n - k)).
    rewrite parse_number_digits; [|rewrite forallb_app, Hd; apply zeros_digits|exact Hnd|..].
    - rewrite (parse_fraction_none rest Hrest), (parse_exponent_none rest Hrest), app_nil_r.
      replace (Z.of_nat (length (ds ++ zeros m)) + 0)%Z with (n + Z.of_nat 0)%Z.
      + rewrite <- (Hz 0 m). reflexivity.
      + rewrite length_app. unfold zeros. rewrite repeat_length. subst m k. lia.
    - rewrite Eds. discriminate.
    - rewrite Eds. cbn [app]. destruct (ds0 ++ zeros m); [reflexivity | exact Hh0]. }
  destruct ((0 <? n)%Z && (n <=? 21)%Z) eqn:R7.
  { (* the point inside the digits *)
    apply andb_prop in R7 as [Hn0 Hn21]. apply Z.ltb_lt in Hn0. apply Z.leb_le in Hn21.
    assert (Hnk : (n < k)%Z).
    { apply andb_false_iff in R6 as [H | H]; [apply Z.leb_gt in H; lia|].
      apply Z.leb_gt in H. lia. }
    set (i := Z.to_nat n).
    assert (Hi : 0 < i < length ds) by (subst i k; lia).
    pose proof (take_drop i ds) as Htd.
    assert (Htake : forallb is_digit (take i ds) = true ∧ forallb is_digit (drop i ds) = true).
    { rewrite <- Htd, forallb_app in Hd. apply andb_prop in Hd. exact Hd. }
    destruct Htake as [Htk Hdr].
    assert (Ht0 : ∃ ts, take i ds = d0 :: ts).
    { rewrite Eds. destruct i; [lia|]. cbn. eauto. }
    destruct Ht0 as [ts Hts].
    rewrite <- app_assoc. cbn [app].
    rewrite parse_number_digits; [|exact Htk|apply point_no_digit|..].
    - rewrite parse_fraction_digits; [|..|exact Hdr|exact Hnd].
      + rewrite (parse_exponent_none rest Hrest), Htd.
        replace (Z.of_nat (length (take i ds)) + 0)%Z with (n + Z.of_nat 0)%Z.
        * rewrite <- (Hz 0 0). cbn [zeros repeat app]. rewrite app_nil_r. reflexivity.
        * rewrite length_take. subst i k. lia.
      + intros E. apply (f_equal length) in E. rewrite length_drop in E. cbn in E. lia.
    - rewrite Hts. discriminate.
    - rewrite Hts. destruct ts; [reflexivity | exact Hh0]. }
  destruct ((-6 <? n)%Z && (n <=? 0)%Z) eqn:R8.
  { (* zeros between the point and the digits *)
    apply andb_prop in R8 as [_ Hn0]. apply Z.leb_le in Hn0.
    set (m := Z.to_nat (- n)).
    change (("0"%char :: "."%char :: zeros m ++ ds) ++ rest)
      with (["0"%char] ++ "."%char :: (zeros m ++ ds) ++ rest).
    rewrite parse_number_digits;
      [|reflexivity|apply point_no_digit|discriminate|reflexivity].
    rewrite parse_fraction_digits; [|..|exact Hnd].
    - rewrite (parse_exponent_none rest Hrest).
      replace (Z.of_nat (length ["0"%char]) + 0)%Z with (n + Z.of_nat (S m))%Z.
      + rewrite <- (Hz (S m) 0). rewrite app_nil_r. reflexivity.
      + cbn [length]. subst m. lia.
    - rewrite Eds. destruct (zeros m); discriminate.
    - rewrite forallb_app, Hd, zeros_digits. reflexivity. }
  (* the exponent form *)
  specialize (Hz 0 0). cbn [zeros repeat app] in Hz. rewrite app_nil_r, Z.add_0_r in Hz.
  rewrite Eds at 1. destruct ds0 as [|d1 ds1].
  - change ((d0 :: exponent_text (n - 1)) ++ rest)
      with ([d0] ++ exponent_text (n - 1) ++ rest).
    rewrite parse_number_digits;
      [|cbn; rewrite Hd0; reflexivity|apply exponent_no_digit|discriminate|reflexivity].
    rewrite parse_fraction_exponent, (parse_exponent_text _ _ Hrest).
    rewrite app_nil_r. cbn [length].
    replace (Z.of_nat 1 + (n - 1))%Z with n by lia.
    rewrite <- Eds, Hz. reflexivity.
  - change ((d0 :: "."%char :: (d1 :: ds1) ++ exponent_text (n - 1)) ++ rest)
      with ([d0] ++ "."%char :: ((d1 :: ds1) ++ exponent_text (n - 1)) ++ rest).
    rewrite <- app_assoc.
    rewrite parse_number_digits;
      [|cbn; rewrite Hd0; reflexivity|apply point_no_digit|discriminate|reflexivity].
    rewrite parse_fraction_digits; [|discriminate|..|apply exponent_no_digit].
    + rewrite (parse_exponent_text _ _ Hrest). cbn [length].
      replace (Z.of_nat 1 + (n - 1))%Z with n by lia.
      change ([d0] ++ d1 :: ds1) with (d0 :: d1 :: ds1).
      rewrite <- Eds, Hz. reflexivity.
    + rewrite Eds in Hd. cbn in Hd. apply andb_prop in Hd as [_ H]. exact H.
Qed.

Lemma parse_number_print n rest :
  ends_value rest = true →
  parse_number (print_number n ++ rest) = Some (JNum n, rest).
Proof.
  intros Hrest. pose proof (ends_no_digit rest Hrest) as Hnd.
  assert (Hpos : ∀ p negative, 
            let ds := digits_of (N.pos p) in
            parse_number (sign_text negative ++
                          Number_toString (strip_trailing_zeros ds) (Z.of_nat (length ds))
                          ++ rest)
            = Some (JNum (if negative then Z.neg p else Z.pos p), rest)).
  { intros p negative ds.
    assert (Hs : significand (strip_trailing_zeros ds) = true).
    { apply strip_trailing_significand; [apply digits_of_digits | apply to_uint_head]. }
    rewrite (parse_number_toString _ _ _ _ Hs Hrest).
    destruct (significand_parts _ Hs) as (_ & _ & _ & Hne).
    destruct (strip_trailing_split ds) as [m Hm].
    assert (Hlen : length ds = length (strip_trailing_zeros ds) + m).
    { rewrite Hm at 1. rewrite length_app. unfold zeros. rewrite repeat_length. reflexivity. }
    rewrite Number_of_digits_integer; [|exact Hne|lia].
    cbv zeta. replace (Z.of_nat (length ds) - Z.of_nat (length (strip_trailing_zeros ds)))%Z
      with (Z.of_nat m) by lia.
    rewrite <- digits_value_zeros, <- Hm. subst ds. rewrite digits_value_of.
    destruct negative; reflexivity. }
  destruct n as [|p|p].
  - cbn [print_number app]. unfold parse_number. cbn [split_sign].
    change (Ascii.eqb "0" "-") with false. cbv iota.
    change ("0"%char :: rest) with (["0"%char] ++ rest).
    rewrite span_digits_app; [|reflexivity|exact Hnd].
    cbv iota beta. rewrite (parse_fraction_none rest Hrest), (parse_exponent_none rest Hrest).
    reflexivity.
  - unfold print_number. cbv zeta. rewrite <- app_assoc.
    change (Z.to_N (Z.abs (Z.pos p))) with (N.pos p).
    exact (Hpos p false).
  - unfold print_number. cbv zeta. rewrite <- app_assoc.
    change (Z.to_N (Z.abs (Z.neg p))) with (N.pos p).
    exact (Hpos p true).
Qed.

Lemma parse_number_decimal d rest :
  ends_value rest = true →
  parse_number (print_decimal d ++ rest) = Some (JDec d, rest).
Proof.
  intros Hrest. unfold print_decimal. rewrite <- app_assoc.
  pose proof (ni_ok d) as Hok. apply andb_prop in Hok as [Hs _].
  rewrite (parse_number_toString _ _ _ _ Hs Hrest), Number_of_digits_decimal.
  reflexivity.
Qed.

(** *** Values *)

Lemma size_JArr items : json_size (JArr items) = S (sizes items).
Proof. reflexivity. Qed.

Lemma size_JObj members : json_size (JObj members) = S (msizes members).
Proof. reflexivity. Qed.

Lemma digit_value_start c : c = "-"%char ∨ is_digit c = true → value_start c.
Proof.
  intros [-> | Hd]; [repeat split|].
  revert Hd. ascii_cases c; vm_compute; intros; try discriminate; repeat split.
Qed.

Lemma Number_toString_starts negative ds n :
  significand ds = true →
  ∃ c tl, sign_text negative ++ Number_toString ds n = c :: tl ∧
          (c = "-"%char ∨ is_digit c = true).
Proof.
  intros Hs. destruct negative; [eexists _, _; split; [reflexivity | left; reflexivity]|].
  destruct (significand_parts ds Hs) as (Hd & _ & _ & Hne).
  destruct ds as [|d0 ds0]; [congruence|].
  cbn in Hd. apply andb_prop in Hd as [Hd0 _].
  cbn [sign_text app]. unfold Number_toString. cbv zeta.
  destruct ((_ <=? n)%Z && (n <=? 21)%Z);
    [eexists _, _; split; [reflexivity | right; exact Hd0]|].
  destruct ((0 <? n)%Z && (n <=? 21)%Z) eqn:R7.
  { apply andb_prop in R7 as [Hn _]. apply Z.ltb_lt in Hn.
    destruct (Z.to_nat n) as [|i] eqn:Ei; [lia|].
    eexists _, _. split; [reflexivity | right; exact Hd0]. }
  destruct ((-6 <? n)%Z && (n <=? 0)%Z);
    [eexists _, _; split; [reflexivity | right; reflexivity]|].
  destruct ds0; eexists _, _; (split; [reflexivity | right; exact Hd0]).
Qed.

Lemma print_number_starts n :
  ∃ c tl, print_number n = c :: tl ∧ (c = "-"%char ∨ is_digit c = true).
Proof.
  destruct n as [|p|p]; [eexists _, _; split; [reflexivity | right; reflexivity]|..];
    unfold print_number; cbv zeta; apply Number_toString_starts;
    apply strip_trailing_significand; first [apply digits_of_digits | apply to_uint_head].
Qed.

Lemma print_decimal_starts d :
  ∃ c tl, print_decimal d = c :: tl ∧ (c = "-"%char ∨ is_digit c = true).
Proof.
  pose proof (ni_ok d) as Hok. apply andb_prop in Hok as [Hs _].
  apply Number_toString_starts, Hs.
Qed.

Lemma print_starts v : ∃ c tl, print v = c :: tl ∧ value_start c.
Proof.
  destruct v as [ | [] | n | d | s | items | members];
    try (eexists _, _; split; [reflexivity | repeat split]).
  - destruct (print_number_starts n) as (c & tl & Hp & Hc).
    exists c, tl. split; [exact Hp | apply digit_value_start, Hc].
  - destruct (print_decimal_starts d) as (c & tl & Hp & Hc).
    exists c, tl. split; [exact Hp | apply digit_value_start, Hc].
Qed.

Lemma skip_ws_start c s : is_ws c = false → skip_ws (c :: s) = c :: s.
Proof. intros Hc. cbn [skip_ws]. rewrite Hc. reflexivity. Qed.

Lemma skip_ws_closes rest :
  ends_value rest = true → skip_ws rest = rest.
Proof.
  destruct rest as [|c rest]; [reflexivity|]. intros Hc.
  apply skip_ws_start, closes_not_ws, Hc.
Qed.

Lemma parse_value_number fuel c s :
  c = "-"%char ∨ is_digit c = true →
  parse_value (S fuel) (c :: s) = parse_number (c :: s).
Proof.
  intros [-> | Hd]; [reflexivity|].
  revert Hd. ascii_cases c; vm_compute (is_digit _); intros; try discriminate; reflexivity.
Qed.

Lemma parse_value_array fuel s :
  parse_value (S fuel) ("["%char :: s) =
  match skip_ws s with
  | c' :: s2 =>
      if Ascii.eqb c' "]" then Some (JArr [], s2)
      else match parse_elements fuel s with
           | Some (vs, rest) => Some (JArr vs, rest)
           | None => None
           end
  | [] => None
  end.
Proof. reflexivity. Qed.

Lemma parse_value_object fuel s :
  parse_value (S fuel) ("{"%char :: s) =
  match skip_ws s with
  | c' :: s2 =>
      if Ascii.eqb c' "}" then Some (JObj [], s2)
      else match parse_members fuel s with
           | Some (kvs, rest) => Some (JObj kvs, rest)
           | None => None
           end
  | [] => None
  end.
Proof. reflexivity. Qed.

Lemma parse_elements_step fuel s :
  parse_elements (S fuel) s =
  match parse_value fuel s with
  | Some (v, rest) =>
      match skip_ws rest with
      | c :: rest' =>
          if Ascii.eqb c "," then
            match parse_elements fuel rest' with
            | Some (vs, rest'') => Some (v :: vs, rest'')
            | None => None
            end
          else if Ascii.eqb c "]" then Some ([v], rest')
          else None
      | [] => None
      end
  | None => None
  end.
Proof. reflexivity. Qed.

Lemma parse_members_step fuel s1 :
  parse_members (S fuel) (dquote :: s1) =
  match parse_string_body s1 with
  | Some (k, s2) =>
      match skip_ws s2 with
      | c :: s3 =>
          if Ascii.eqb c ":" then
            match parse_value fuel s3 with
            | Some (v, rest) =>
                match skip_ws rest with
                | c' :: rest' =>
                    if Ascii.eqb c' "," then
                      match parse_members fuel rest' with
                      | Some (kvs, rest'') => Some ((k, v) :: kvs, rest'')
                      | None => None
                      end
                    else if Ascii.eqb c' "}" then Some ([(k, v)], rest')
                    else None
                | [] => None
                end
            | None => None
            end
          else None
      | [] => None
      end
  | None => None
  end.
Proof. reflexivity. Qed.

Lemma parse_elements_print l :
  Forall roundtrips l → l ≠ [] →
  ∀ fuel rest, sizes l ≤ fuel →
    parse_elements fuel (print_elements l ++ "]"%char :: rest) = Some (l, rest).
Proof.
  induction 1 as [|x l Hx Hl IH]; [congruence|]. intros _ fuel rest Hfuel.
  cbn [sizes] in Hfuel. destruct fuel as [|fuel]; [lia|].
  rewrite parse_elements_step. cbn [print_elements]. rewrite <- app_assoc.
  destruct l as [|y l].
  - cbn [app]. rewrite (Hx fuel ("]"%char :: rest)); [|lia|reflexivity].
    reflexivity.
  - cbn [app]. rewrite (Hx fuel (","%char :: _)); [|lia|reflexivity].
    rewrite (skip_ws_start ","%char) by reflexivity.
    change (Ascii.eqb "," ",") with true. cbv iota.
    rewrite IH; [reflexivity | congruence | cbn [sizes] in *; lia].
Qed.

Lemma parse_members_print l :
  Forall (λ kv, roundtrips kv.2) l → l ≠ [] →
  ∀ fuel rest, msizes l ≤ fuel →
    parse_members fuel (print_members l ++ "}"%char :: rest) = Some (l, rest).
Proof.
  induction 1 as [|[k x] l Hx Hl IH]; [congruence|]. intros _ fuel rest Hfuel.
  cbn [msizes] in Hfuel. destruct fuel as [|fuel]; [lia|].
  cbn [print_members]. rewrite <- app_assoc, print_string_app.
  rewrite parse_members_step, parse_string_print.
  cbn [app]. rewrite (skip_ws_start ":"%char) by reflexivity.
  change (Ascii.eqb ":" ":") with true. cbv iota.
  rewrite <- app_assoc. cbn [snd] in Hx.
  destruct l as [|y l].
  - cbn [app]. rewrite (Hx fuel ("}"%char :: rest)); [|lia|reflexivity].
    reflexivity.
  - cbn [app]. rewrite (Hx fuel (","%char :: _)); [|lia|reflexivity].
    rewrite (skip_ws_start ","%char) by reflexivity.
    change (Ascii.eqb "," ",") with true. cbv iota.
    rewrite IH; [reflexivity | congruence | cbn [msizes] in *; lia].
Qed.

Lemma print_roundtrips v : roundtrips v.
Proof.
  induction v as [ | b | n | d | s | items IH | members IH] using json_nested_ind;
    intros fuel rest Hfuel Hrest; (destruct fuel as [|fuel]; [cbn in Hfuel; lia|]).
  - reflexivity.
  - destruct b; reflexivity.
  - cbn [print]. destruct (print_number_starts n) as (c & tl & Hp & Hc).
    pose proof (parse_number_print n rest Hrest) as Hn.
    rewrite Hp in *. cbn [app] in *. rewrite (parse_value_number fuel c _ Hc), Hn.
    reflexivity.
  - cbn [print]. destruct (print_decimal_starts d) as (c & tl & Hp & Hc).
    pose proof (parse_number_decimal d rest Hrest) as Hn.
    rewrite Hp in *. cbn [app] in *. rewrite (parse_value_number fuel c _ Hc), Hn.
    reflexivity.
  - cbn [print]. rewrite print_string_app.
    change (parse_value (S fuel) (dquote :: ?t)) with
      (match parse_string_body t with
       | Some (str, rest) => Some (JStr str, rest)
       | None => None
       end).
    rewrite parse_string_print. reflexivity.
  - rewrite print_JArr, size_JArr in *. cbn [app]. rewrite parse_value_array.
    rewrite <- app_assoc. cbn [app]. destruct items as [|x l]; [reflexivity|].
    destruct (print_starts x) as (c & tl & Hp & Hws & Hb & _).
    assert (Hsk : ∃ t, skip_ws (print_elements (x :: l) ++ "]"%char :: rest) = c :: t).
    { cbn [print_elements]. rewrite Hp. cbn [app]. rewrite (skip_ws_start c _ Hws). eauto. }
    destruct Hsk as [t ->]. rewrite Hb.
    rewrite parse_elements_print; [reflexivity | exact IH | congruence | lia].
  - rewrite print_JObj, size_JObj in *. cbn [app]. rewrite parse_value_object.
    rewrite <- app_assoc. cbn [app]. destruct members as [|[k x] l]; [reflexivity|].
    assert (Hsk : ∃ t, skip_ws (print_members ((k, x) :: l) ++ "}"%char :: rest) = dquote :: t).
    { cbn [print_members]. unfold print_string at 1. cbn [app].
      rewrite (skip_ws_start dquote) by reflexivity. eauto. }
    destruct Hsk as [t ->]. change (Ascii.eqb dquote "}") with false. cbv iota.
    rewrite parse_members_print; [reflexivity | exact IH | congruence | lia].
Qed.

Lemma size_le_print v : json_size v ≤ length (print v).
Proof.
  induction v as [ | b | n | d | s | items IH | members IH] using json_nested_ind.
  - cbn. lia.
  - destruct b; cbn; lia.
  - destruct (print_number_starts n) as (c & tl & Hp & _). cbn [print json_size].
    rewrite Hp. cbn. lia.
  - destruct (print_decimal_starts d) as (c & tl & Hp & _). cbn [print json_size].
    rewrite Hp. cbn. lia.
  - cbn. lia.
  - rewrite print_JArr, size_JArr. cbn [length]. rewrite length_app. cbn [length].
    enough (sizes items ≤ S (length (print_elements items))) by lia.
    induction IH as [|x l Hx Hl IHl]; [cbn; lia|].
    cbn [sizes print_elements]. rewrite length_app.
    destruct l as [|y l]; [cbn in *; lia|]. cbn [length]. lia.
  - rewrite print_JObj, size_JObj. cbn [length]. rewrite length_app. cbn [length].
    enough (msizes members ≤ S (length (print_members members))) by lia.
    induction IH as [|[k x] l Hx Hl IHl]; [cbn; lia|].
    cbn [msizes print_members snd] in *. rewrite length_app. cbn [length].
    rewrite length_app.
    destruct l as [|y l]; [cbn in *; lia|]. cbn [length]. lia.
Qed.

(** [JSON.parse(JSON.stringify(v))] is [v]. *)
Lemma JSON_parse_stringify v : JSON_parse (JSON_stringify v) = Some v.
Proof.
  unfold JSON_parse, JSON_stringify. rewrite list_ascii_of_string_of_list_ascii.
  pose proof (print_roundtrips v (S (length (print v))) []) as H.
  rewrite app_nil_r in H. rewrite H; [reflexivity | | reflexivity].
  pose proof (size_le_print v). lia.
Qed.

(** ** Reasoning about callbacks *)

Section CallbackFacts.

Context {Host : Type} {GW : Gateway Host}.

Implicit Types (w : @World Host) (e : Event).

Local Abbreviation World := (@World Host).
Local Abbreviation M := (@M Host).
Local Abbreviation appends := (@appends Host _ _).
Local Abbreviation settles := (@settles Host _).
Local Abbreviation keeps := (@keeps Host _ _).

Lemma run_bind {A B} (m : M A) (k : A → M B) w :
  (m ≫= k) w = match m w with (Ok a, w') => k a w' | (Raise, w') => (Raise, w') end.
Proof. reflexivity. Qed.

Lemma run_try_catch {A} (m h : M A) w :
  try_catch m h w = match m w with (Ok a, w') => (Ok a, w') | (Raise, w') => h w' end.
Proof. reflexivity. Qed.

(** A read leaves everything but the log as it is. *)
Lemma run_read {R} (c : Call) (op : Host → outcome R) w :
  read c op w = (op (w_host w), add_log (mkEvent c (is_ok (op (w_host w)))) w).
Proof. reflexivity. Qed.

Section Appends.

Context {X : Type} (f : World → list X) (φ : X → Prop).

Lemma appends_ret {A} (a : A) : appends f φ (mret a : M A).
Proof. intros w. exists []. rewrite app_nil_r. split; [reflexivity | constructor]. Qed.

Lemma appends_bind {A B} (m : M A) (k : A → M B) :
  appends f φ m → (∀ a, appends f φ (k a)) → appends f φ (m ≫= k).
Proof.
  intros Hm Hk w. rewrite run_bind. destruct (Hm w) as (e1 & H1 & F1).
  destruct (m w) as [[a|] w1]; cbn [fst snd] in *.
  - destruct (Hk a w1) as (e2 & H2 & F2). exists (e1 ++ e2).
    rewrite H2, H1, app_assoc. split; [reflexivity | apply Forall_app; auto].
  - exists e1. auto.
Qed.

Lemma appends_try_catch {A} (m h : M A) :
  appends f φ m → appends f φ h → appends f φ (try_catch m h).
Proof.
  intros Hm Hh w. rewrite run_try_catch. destruct (Hm w) as (e1 & H1 & F1).
  destruct (m w) as [[a|] w1]; cbn [fst snd] in *.
  - exists e1. auto.
  - destruct (Hh w1) as (e2 & H2 & F2). exists (e1 ++ e2).
    rewrite H2, H1, app_assoc. split; [reflexivity | apply Forall_app; auto].
Qed.

Lemma appends_for_each {Y} (xs : list Y) (body : Y → M unit) :
  (∀ x, appends f φ (body x)) → appends f φ (for_each xs body).
Proof.
  intros Hb. induction xs as [|x xs IH]; cbn [for_each].
  - apply appends_ret.
  - apply appends_bind; auto.
Qed.

Lemma appends_for_each_in {Y} (xs : list Y) (body : Y → M unit) :
  (∀ x, x ∈ xs → appends f φ (body x)) → appends f φ (for_each xs body).
Proof.
  induction xs as [|x xs IH]; intros Hb; cbn [for_each].
  - apply appends_ret.
  - apply appends_bind; [apply Hb; left|].
    intros _. apply IH. intros y Hy. apply Hb. right. exact Hy.
Qed.

Lemma appends_map_all {Y Z} (g : Y → M Z) (xs : list Y) :
  (∀ x, appends f φ (g x)) → appends f φ (map_all g xs).
Proof.
  intros Hg. induction xs as [|x xs IH]; cbn [map_all].
  - apply appends_ret.
  - apply appends_bind; [auto|]. intros y. apply appends_bind; [auto|].
    intros ys. apply appends_ret.
Qed.

Lemma appends_modify (g : World → World) :
  (∀ w, f (g w) = f w) → appends f φ (modify g).
Proof.
  intros Hg w. exists []. cbn. rewrite Hg, app_nil_r. split; [reflexivity | constructor].
Qed.

Lemma appends_get {A} (g : World → A) : appends f φ (λ w, (Ok (g w), w)).
Proof. intros w. exists []. cbn. rewrite app_nil_r. split; [reflexivity | constructor]. Qed.

Lemma appends_read_apart {R} (c : Call) (op : Host → outcome R) :
  apart f → appends f φ (read c op).
Proof.
  intros Hf w. exists []. rewrite app_nil_r. split; [|constructor].
  rewrite run_read. cbn [snd]. rewrite <- (Hf (mkEvent c (is_ok (op (w_host w)))) (w_host w) w).
  destruct w; reflexivity.
Qed.

Lemma appends_request_apart {R} (c : Call) (op : Host → outcome R * Host) :
  apart f → appends f φ (request c op).
Proof.
  intros Hf w. exists []. rewrite app_nil_r. split; [|constructor].
  unfold request. destruct (op (w_host w)) as [r h]. apply Hf.
Qed.

Lemma appends_weaken {A} (ψ : X → Prop) (m : M A) :
  (∀ x, φ x → ψ x) → appends f φ m → appends f ψ m.
Proof.
  intros Hi Hm w. destruct (Hm w) as (xs & Hl & Hf). exists xs. split; [exact Hl|].
  eapply Forall_impl; eauto.
Qed.

End Appends.

Lemma appends_read_log {R} (φ : Event → Prop) (c : Call) (op : Host → outcome R) :
  (∀ ok, φ (mkEvent c ok)) → appends w_log φ (read c op).
Proof. intros Hc w. eexists [_]. split; [reflexivity | constructor; [apply Hc | constructor]]. Qed.

Lemma appends_request_log {R} (φ : Event → Prop) (c : Call) (op : Host → outcome R * Host) :
  (∀ ok, φ (mkEvent c ok)) → appends w_log φ (request c op).
Proof.
  intros Hc w. unfold request. destruct (op (w_host w)) as [r h]. eexists [_].
  split; [reflexivity | constructor; [apply Hc | constructor]].
Qed.

Lemma appends_toast (φ : Toast → Prop) t : φ t → appends w_toasts φ (toast t).
Proof. intros Ht w. exists [t]. split; [reflexivity | constructor; [exact Ht | constructor]]. Qed.

Lemma appends_push_error (φ : Note → Prop) n : φ n → appends w_errors φ (push_error n).
Proof. intros Hn w. exists [n]. split; [reflexivity | constructor; [exact Hn | constructor]]. Qed.

Lemma apart_toasts : apart (w_toasts (Host:=Host)).
Proof. intros e h w. reflexivity. Qed.

Lemma apart_errors : apart (w_errors (Host:=Host)).
Proof. intros e h w. reflexivity. Qed.

Lemma apart_app : ∀ e h w, w_app (add_log e (set_host h w)) = w_app w.
Proof. reflexivity. Qed.

Lemma settles_ret {A} (a : A) : settles (mret a : M A).
Proof. intros w. discriminate. Qed.

Lemma settles_bind {A B} (m : M A) (k : A → M B) :
  settles m → (∀ a, settles (k a)) → settles (m ≫= k).
Proof.
  intros Hm Hk w. rewrite run_bind. specialize (Hm w).
  destruct (m w) as [[a|] w1]; cbn [fst] in *; [apply Hk | congruence].
Qed.

Lemma settles_try_catch {A} (m h : M A) : settles h → settles (try_catch m h).
Proof.
  intros Hh w. rewrite run_try_catch.
  destruct (m w) as [[a|] w1]; cbn [fst]; [discriminate | apply Hh].
Qed.

Lemma settles_for_each {X} (xs : list X) (body : X → M unit) :
  (∀ x, settles (body x)) → settles (for_each xs body).
Proof.
  intros Hb. induction xs as [|x xs IH]; cbn [for_each].
  - apply settles_ret.
  - apply settles_bind; auto.
Qed.

Lemma settles_modify (g : World → World) : settles (modify g).
Proof. intros w. discriminate. Qed.

Lemma settles_get {A} (g : World → A) : settles (λ w, (Ok (g w), w)).
Proof. intros w. discriminate. Qed.

(** Sequencing is associative. *)
Lemma run_assoc {A B C} (m : M A) (f : A → M B) (g : B → M C) w :
  ((m ≫= f) ≫= g) w = (m ≫= (λ a, f a ≫= g)) w.
Proof.
  rewrite !run_bind. destruct (m w) as [[a|] w1]; [|reflexivity].
  rewrite run_bind. reflexivity.
Qed.

Lemma run_assoc3 {A B C D} (a : M A) (b : A → M B) (c : B → M C) (k : C → M D) w :
  (a ≫= λ x, b x ≫= λ y, c y ≫= k) w = ((a ≫= λ x, b x ≫= c) ≫= k) w.
Proof.
  rewrite !run_bind. destruct (a w) as [[x|] w1]; [|reflexivity].
  rewrite !run_bind. destruct (b x w1) as [[y|] w2]; [|reflexivity].
  rewrite run_bind. reflexivity.
Qed.

(** When the first part settles, the run goes on with its result. *)
Lemma run_bind_settles {A B} (m : M A) (k : A → M B) w :
  settles m → ∃ a w1, m w = (Ok a, w1) ∧ (m ≫= k) w = k a w1.
Proof.
  intros Hm. rewrite run_bind. specialize (Hm w).
  destruct (m w) as [[a|] w1]; cbn [fst] in *; [eauto | congruence].
Qed.

Section Keeps.

Context {C : Type} (f : World → C).

Lemma keeps_ret {A} (a : A) : keeps f (mret a : M A).
Proof. intros w. reflexivity. Qed.

Lemma keeps_bind {A B} (m : M A) (k : A → M B) :
  keeps f m → (∀ a, keeps f (k a)) → keeps f (m ≫= k).
Proof.
  intros Hm Hk w. rewrite run_bind. specialize (Hm w).
  destruct (m w) as [[a|] w1]; cbn [snd] in *; [rewrite Hk|]; exact Hm.
Qed.

Lemma keeps_try_catch {A} (m h : M A) :
  keeps f m → keeps f h → keeps f (try_catch m h).
Proof.
  intros Hm Hh w. rewrite run_try_catch. specialize (Hm w).
  destruct (m w) as [[a|] w1]; cbn [snd] in *; [|rewrite Hh]; exact Hm.
Qed.

Lemma keeps_for_each {X} (xs : list X) (body : X → M unit) :
  (∀ x, keeps f (body x)) → keeps f (for_each xs body).
Proof.
  intros Hb. induction xs as [|x xs IH]; cbn [for_each].
  - apply keeps_ret.
  - apply keeps_bind; auto.
Qed.

Lemma keeps_map_all {X Y} (g : X → M Y) (xs : list X) :
  (∀ x, keeps f (g x)) → keeps f (map_all g xs).
Proof.
  intros Hg. induction xs as [|x xs IH]; cbn [map_all].
  - apply keeps_ret.
  - apply keeps_bind; [auto|]. intros y. apply keeps_bind; [auto|]. intros ys. apply keeps_ret.
Qed.

Lemma keeps_modify (g : World → World) :
  (∀ w, f (g w) = f w) → keeps f (modify g).
Proof. intros Hg w. apply Hg. Qed.

Lemma keeps_get {A} (g : World → A) : keeps f (λ w, (Ok (g w), w)).
Proof. intros w. reflexivity. Qed.

Lemma keeps_read {R} (c : Call) (op : Host → outcome R) :
  (∀ e w, f (add_log e w) = f w) → keeps f (read c op).
Proof. intros Hf w. apply Hf. Qed.

End Keeps.

(** What a run appended, read back from the two worlds. *)
Lemma new_events_app w w' evs : w_log w' = w_log w ++ evs → new_events w w' = evs.
Proof. intros E. unfold new_events. rewrite E. apply drop_app_length. Qed.

Lemma new_toasts_app w w' ts : w_toasts w' = w_toasts w ++ ts → new_toasts w w' = ts.
Proof. intros E. unfold new_toasts. rewrite E. apply drop_app_length. Qed.

End CallbackFacts.

(** Structural steps of a proof that a callback only appends, settles or
    keeps. *)
Ltac callback_step :=
  first
    [ apply appends_ret | apply appends_bind | apply appends_try_catch
    | apply appends_for_each | apply appends_map_all | apply appends_get
    | apply settles_ret | apply settles_bind | apply settles_try_catch
    | apply settles_for_each | apply settles_modify | apply settles_get
    | apply keeps_ret | apply keeps_bind | apply keeps_try_catch
    | apply keeps_for_each | apply keeps_map_all | apply keeps_get ];
  intros.

(** ** Deletion: the plan *)

Lemma checked_in_keys sel id : checked sel id = true → id ∈ checkedKeys sel.
Proof.
  unfold checked, checkedKeys. induction sel as [|[k b] sel IH]; cbn; [discriminate|].
  destruct (String.eqb_spec k id) as [->|Hne].
  - intros ->. cbn. left.
  - intros Hc. specialize (IH Hc). destruct b; cbn; [right|]; exact IH.
Qed.

Lemma elem_of_without x y xs : y ∈ without x xs ↔ y ∈ xs ∧ y ≠ x.
Proof.
  unfold without. rewrite !list_elem_of_In, filter_In.
  destruct (String.eqb_spec y x); cbn; intuition congruence.
Qed.

Lemma NoDup_without x xs : NoDup xs → NoDup (without x xs).
Proof.
  unfold without. induction 1 as [|y xs Hy Hxs IH]; cbn; [constructor|].
  destruct (negb (String.eqb y x)); [|exact IH].
  constructor; [|exact IH]. rewrite list_elem_of_In, filter_In, <- list_elem_of_In.
  tauto.
Qed.

Lemma NoDup_checkedKeys sel : NoDup (map fst sel) → NoDup (checkedKeys sel).
Proof.
  unfold checkedKeys. induction sel as [|[k b] sel IH]; cbn; [constructor|].
  intros Hnd. apply NoDup_cons in Hnd as [Hk Hnd]. destruct b; cbn; [|auto].
  constructor; [|auto]. intros Hin. apply Hk.
  apply list_elem_of_fmap in Hin as ([k' b'] & -> & Hin).
  apply list_elem_of_In, filter_In in Hin as [Hin _].
  apply list_elem_of_fmap. exists (k', b'). split; [reflexivity | apply list_elem_of_In, Hin].
Qed.

Lemma NoDup_map_inj {A B} (f : A → B) (l : list A) x y :
  NoDup (map f l) → x ∈ l → y ∈ l → f x = f y → x = y.
Proof.
  induction l as [|a l IH]; intros Hnd Hx Hy Heq; [inversion Hx|].
  cbn [map] in Hnd. apply NoDup_cons in Hnd as [Hn Hnd].
  apply elem_of_cons in Hx as [->|Hx]; apply elem_of_cons in Hy as [->|Hy].
  - reflexivity.
  - exfalso. apply Hn. rewrite Heq. apply list_elem_of_fmap. eauto.
  - exfalso. apply Hn. rewrite <- Heq. apply list_elem_of_fmap. eauto.
  - auto.
Qed.

Lemma NoDup_filter_list {A} (p : A → bool) (l : list A) :
  NoDup l → NoDup (List.filter p l).
Proof.
  induction 1 as [|a l Ha Hl IH]; cbn [List.filter]; [constructor|].
  destruct (p a); [|exact IH]. constructor; [|exact IH].
  rewrite list_elem_of_In, filter_In, <- list_elem_of_In. tauto.
Qed.

Lemma all_selected_length (sel : JsObject bool) (ids : list string) :
  NoDup ids → (∀ id, id ∈ ids → checked sel id = true) →
  length ids ≤ length (checkedKeys sel).
Proof.
  intros Hnd Hall. apply submseteq_length, NoDup_submseteq; [exact Hnd|].
  intros id Hid. apply checked_in_keys, Hall, Hid.
Qed.

(** The retain branch: taken exactly when the selection counts at least as
    many tables as the enumeration has, and the enumeration is not empty. *)
Lemma planRetain_retains sel cur lastMeta :
  last cur = Some lastMeta → length cur ≤ length (checkedKeys sel) →
  planRetain sel cur =
  mkRetainPlan (without (tm_id lastMeta) (checkedKeys sel))
    (Some (tm_id lastMeta)) (Some (falsy_or (tm_name lastMeta) "未知表")).
Proof.
  intros Hlast Hlen. unfold planRetain. rewrite length_map.
  destruct cur as [|m cur]; [discriminate|].
  apply Nat.leb_le in Hlen. rewrite Hlen. cbn [length Nat.ltb Nat.leb andb].
  rewrite Hlast. reflexivity.
Qed.

Lemma planRetain_deletes_all sel cur :
  length (checkedKeys sel) < length cur ∨ cur = [] →
  planRetain sel cur = mkRetainPlan (checkedKeys sel) None None.
Proof.
  intros Hc. unfold planRetain. rewrite length_map.
  destruct Hc as [Hlt | ->].
  - apply Nat.leb_gt in Hlt. rewrite Hlt. reflexivity.
  - reflexivity.
Qed.

(** The index field is never among the fields that the second step deletes
    in the kept table. *)
Lemma fieldsToDelete_kept_no_index plan tableId fieldMetaList fieldIds fieldId :
  isLast plan tableId = true →
  fieldId ∈ fieldsToDelete plan tableId fieldMetaList fieldIds →
  ∃ fieldMeta, fieldMetaMap_get fieldMetaList fieldId = Some fieldMeta ∧
               fm_isPrimary fieldMeta = false.
Proof.
  intros Hlast. unfold fieldsToDelete. rewrite Hlast.
  rewrite list_elem_of_In, filter_In. intros [_ Hf].
  destruct (fieldMetaMap_get fieldMetaList fieldId) as [fieldMeta|]; [|discriminate].
  exists fieldMeta. split; [reflexivity|]. destruct (fm_isPrimary fieldMeta); [discriminate | reflexivity].
Qed.

(** ** Deletion: the run *)

Section DeletionFacts.

Context {Host : Type} {GW : Gateway Host}.

Implicit Types (w : @World Host).

Local Abbreviation M := (@M Host).

Lemma refreshTables_reads :
  appends w_log (λ e, is_enumeration (ev_call e) = true) (refreshTables (Host:=Host)).
Proof.
  unfold refreshTables, getTableMetaList, getTableById, getFieldMetaList, modify_app, toast.
  repeat first
    [ callback_step
    | apply appends_modify; reflexivity
    | apply appends_read_log; reflexivity ].
Qed.

Lemma refreshTables_toasts : appends w_toasts (λ _, True) (refreshTables (Host:=Host)).
Proof.
  unfold refreshTables, getTableMetaList, getTableById, getFieldMetaList, modify_app.
  repeat first
    [ callback_step
    | apply appends_modify; reflexivity
    | apply appends_toast; exact I
    | apply appends_read_apart; apply apart_toasts ].
Qed.

Lemma deleteTable_attempt id w :
  ∃ w1 ok,
    try_catch (deleteTable id) (push_error (TableDeleteFailed id)) w = (Ok tt, w1) ∧
    w_log w1 = w_log w ++ [mkEvent (DeleteTable id) ok] ∧
    w_toasts w1 = w_toasts w.
Proof.
  rewrite run_try_catch. unfold deleteTable, request.
  destruct (gw_deleteTable id (w_host w)) as [[[]|] h];
    eexists _, _; (split; [reflexivity|]); split; reflexivity.
Qed.

Lemma deleteTables_run ids w :
  ∃ evs, w_log (deleteTables ids w).2 = w_log w ++ evs ∧
         calls evs = map DeleteTable ids ∧
         (deleteTables ids w).1 = Ok tt ∧
         w_toasts (deleteTables ids w).2 = w_toasts w.
Proof.
  unfold deleteTables. revert w. induction ids as [|id ids IH]; intros w.
  - exists []. rewrite app_nil_r. auto.
  - cbn [for_each]. rewrite run_bind.
    destruct (deleteTable_attempt id w) as (w1 & ok & -> & Hl1 & Ht1).
    destruct (IH w1) as (evs & Hl & Hc & Hr & Ht).
    exists (mkEvent (DeleteTable id) ok :: evs).
    rewrite Hl, Hr, Ht, Hl1, Ht1, <- app_assoc. unfold calls in *. cbn. rewrite Hc. auto.
Qed.

Lemma after_tables_enumeration sel plan e :
  is_enumeration (ev_call e) = true → after_tables sel plan e.
Proof. unfold after_tables. destruct (ev_call e); cbn; congruence. Qed.

Lemma deleteSelectedFields_calls sel plan entry :
  appends w_log (after_tables sel plan) (deleteSelectedFields (Host:=Host) sel plan entry).
Proof.
  unfold deleteSelectedFields. destruct entry as [tableId fieldMap].
  destruct (checked sel tableId) eqn:Hsel.
  - destruct (isLast plan tableId); cbn [andb negb]; apply appends_ret.
  - rewrite andb_false_r. cbn [andb].
    destruct (checkedKeys fieldMap) as [|f fs]; [apply appends_ret|].
    unfold getTableById, getFieldMetaList, deleteField, push_error, toast.
    repeat first
      [ callback_step
      | apply appends_modify; reflexivity
      | apply appends_read_log; reflexivity
      | apply appends_request_log; intros; left; exact Hsel
      | match goal with |- appends _ _ (match ?x with _ => _ end) => destruct x end
      | match goal with |- appends _ _ (if ?x then _ else _) => destruct x end ].
Qed.

Lemma deleteLastTableFields_calls sel plan :
  appends w_log (after_tables sel plan) (deleteLastTableFields (Host:=Host) sel plan).
Proof.
  unfold deleteLastTableFields. destruct (lastTableId plan) as [lastId|] eqn:Hlast;
    [|apply appends_ret].
  destruct (truthy_string lastId && checked sel lastId); [|apply appends_ret].
  unfold getTableById, getFieldMetaList, deleteField, push_error, toast.
  repeat first
    [ callback_step
    | apply appends_modify; reflexivity
    | apply appends_read_log; reflexivity
    | apply appends_request_log; intros; right; exact Hlast
    | match goal with |- appends _ _ (match ?x with _ => _ end) => destruct x end ].
Qed.

Lemma finish_calls sel plan :
  appends w_log (after_tables sel plan)
    (errors ← get_errors;
     match errors with
     | [] => toast DeletionDone
     | _ :: _ => toast (DeletionPartial errors)
     end ;;
     modify_app clearSelection ;;
     refreshTables (Host:=Host)).
Proof.
  unfold get_errors, modify_app, toast.
  repeat first
    [ apply (appends_weaken _ _ _ _ (after_tables_enumeration sel plan) refreshTables_reads)
    | callback_step
    | apply appends_modify; reflexivity
    | match goal with |- appends _ _ (match ?x with _ => _ end) => destruct x end ].
Qed.

Lemma steps_toasts sel selF plan :
  appends w_toasts (λ _, True)
    (for_each selF (deleteSelectedFields (Host:=Host) sel plan) ;;
     deleteLastTableFields sel plan ;;
     errors ← get_errors;
     match errors with
     | [] => toast DeletionDone
     | _ :: _ => toast (DeletionPartial errors)
     end ;;
     modify_app clearSelection ;;
     refreshTables).
Proof.
  unfold deleteSelectedFields, deleteLastTableFields, get_errors, modify_app,
    getTableById, getFieldMetaList, deleteField, push_error.
  repeat first
    [ apply refreshTables_toasts
    | callback_step
    | apply appends_modify; reflexivity
    | apply appends_toast; exact I
    | apply appends_read_apart; apply apart_toasts
    | apply appends_request_apart; apply apart_toasts
    | match goal with |- appends _ _ (let (_, _) := ?x in _) => destruct x end
    | match goal with |- appends _ _ (match ?x with _ => _ end) => destruct x end
    | match goal with |- appends _ _ (if ?x then _ else _) => destruct x end ].
Qed.

(** The run of the three steps: first one [deleteTable] per table of the
    plan, in order, then calls that delete no table; the first toast is the
    notice of the kept table, when there is one. *)
Lemma executePlan_run sel selF plan w :
  ∃ e1 e2 ts,
    w_log (executePlan sel selF plan w).2 = w_log w ++ e1 ++ e2 ∧
    calls e1 = map DeleteTable (tableIdsToDelete plan) ∧
    Forall (after_tables sel plan) e2 ∧
    w_toasts (executePlan sel selF plan w).2 = w_toasts w ++ retain_notice plan ++ ts.
Proof.
  unfold executePlan. rewrite run_bind.
  set (w0 := match lastTableName plan with
             | Some name => add_toast (RetainNotice name) w
             | None => w
             end).
  assert (Hw0 : (match lastTableName plan with
                 | Some name => toast (RetainNotice name)
                 | None => mret tt
                 end) w = (Ok tt, w0)).
  { subst w0. destruct (lastTableName plan); reflexivity. }
  rewrite Hw0.
  assert (Hlog0 : w_log w0 = w_log w) by (subst w0; destruct (lastTableName plan); reflexivity).
  assert (Htoast0 : w_toasts w0 = w_toasts w ++ retain_notice plan).
  { subst w0. unfold retain_notice. destruct (lastTableName plan); cbn;
      [reflexivity | rewrite app_nil_r; reflexivity]. }
  rewrite run_bind.
  destruct (deleteTables_run (tableIdsToDelete plan) w0) as (e1 & Hl1 & Hc1 & Hr1 & Ht1).
  destruct (deleteTables (tableIdsToDelete plan) w0) as [r1 w1]. cbn [fst snd] in *. subst r1.
  assert (Hrest : appends w_log (after_tables sel plan)
            (for_each selF (deleteSelectedFields (Host:=Host) sel plan) ;;
             deleteLastTableFields sel plan ;;
             errors ← get_errors;
             match errors with
             | [] => toast DeletionDone
             | _ :: _ => toast (DeletionPartial errors)
             end ;;
             modify_app clearSelection ;;
             refreshTables)).
  { apply appends_bind; [apply appends_for_each; intros; apply deleteSelectedFields_calls|].
    intros _. apply appends_bind; [apply deleteLastTableFields_calls|].
    intros _. apply finish_calls. }
  destruct (Hrest w1) as (e2 & Hl2 & Hf2).
  destruct (steps_toasts sel selF plan w1) as (ts & Ht2 & _).
  exists e1, e2, ts. rewrite Hl2, Hl1, Hlog0, Ht2, Ht1, Htoast0, <- !app_assoc. auto.
Qed.

Lemma performDeletion_run sel selF w cur :
  gw_getTableMetaList (w_host w) = Ok cur →
  let plan := planRetain sel cur in
  ∃ e1 e2 ts,
    new_events w (performDeletion sel selF w).2 =
      mkEvent GetTableMetaList true :: e1 ++ e2 ∧
    calls e1 = map DeleteTable (tableIdsToDelete plan) ∧
    Forall (after_tables sel plan) e2 ∧
    new_toasts w (performDeletion sel selF w).2 = retain_notice plan ++ ts.
Proof.
  intros Hcur plan. unfold performDeletion. rewrite run_bind. cbn [modify].
  rewrite run_bind. unfold getTableMetaList. rewrite run_read. cbn [w_host set_errors].
  rewrite Hcur. cbn [is_ok].
  match goal with |- context [executePlan sel selF _ ?w1] =>
    destruct (executePlan_run sel selF plan w1) as (e1 & e2 & ts & Hl & Hc & Hf & Ht) end.
  exists e1, e2, ts. fold plan. split; [|split; [exact Hc | split; [exact Hf|]]].
  - apply new_events_app. rewrite Hl. cbn. rewrite <- app_assoc. reflexivity.
  - apply new_toasts_app. rewrite Ht. reflexivity.
Qed.

(** When the enumeration fails, the deletion stops before any request. *)
Lemma performDeletion_raises sel selF w :
  gw_getTableMetaList (w_host w) = Raise →
  (performDeletion sel selF w).1 = Raise ∧
  new_events w (performDeletion sel selF w).2 = [mkEvent GetTableMetaList false].
Proof.
  intros Hcur. unfold performDeletion. rewrite run_bind. cbn [modify].
  rewrite run_bind. unfold getTableMetaList. rewrite run_read. cbn [w_host set_errors].
  rewrite Hcur. split; [reflexivity|]. apply new_events_app. reflexivity.
Qed.

Lemma deleted_tables_app e1 e2 :
  deleted_tables (e1 ++ e2) = deleted_tables e1 ++ deleted_tables e2.
Proof. unfold deleted_tables. apply omap_app. Qed.

Lemma deleted_tables_calls evs ids :
  calls evs = map DeleteTable ids → deleted_tables evs = ids.
Proof.
  revert ids. induction evs as [|e evs IH]; intros [|id ids]; cbn; try discriminate;
    [reflexivity|].
  intros [= He Hevs]. unfold deleted_tables in *. cbn. rewrite He. cbn.
  rewrite (IH ids Hevs). reflexivity.
Qed.

Lemma deleted_tables_after sel plan evs :
  Forall (after_tables sel plan) evs → deleted_tables evs = [].
Proof.
  induction 1 as [|e evs He Hevs IH]; [reflexivity|].
  unfold deleted_tables in *. cbn. rewrite IH. unfold after_tables in He.
  destruct (ev_call e); cbn; tauto.
Qed.

(** *** The kept table *)

Lemma deleteSteps_settle sel selF plan :
  settles
    (match lastTableName plan with
     | Some name => toast (RetainNotice name)
     | None => mret tt
     end ;;
     deleteTables (Host:=Host) (tableIdsToDelete plan) ;;
     for_each selF (deleteSelectedFields sel plan)).
Proof.
  unfold deleteTables, deleteSelectedFields, toast, push_error.
  repeat first
    [ callback_step
    | match goal with |- settles (let (_, _) := ?x in _) => destruct x end
    | match goal with |- settles (match ?x with _ => _ end) => destruct x end
    | match goal with |- settles (if ?x then _ else _) => destruct x end ].
Qed.

(** A deletion is its first two steps, then its third step and its end. *)
Lemma performDeletion_split sel selF w cur :
  gw_getTableMetaList (w_host w) = Ok cur →
  performDeletion sel selF w =
  (deleteLastTableFields sel (planRetain sel cur) ;; deletionEnd)
    (before_last_step sel selF cur w).
Proof.
  intros Hcur. unfold performDeletion. rewrite run_bind. cbn [modify].
  rewrite run_bind. unfold getTableMetaList. rewrite run_read. cbn [w_host set_errors].
  rewrite Hcur. cbn [is_ok]. unfold before_last_step. cbv zeta.
  set (plan := planRetain sel cur). set (w0 := add_log _ _).
  unfold executePlan, deletionEnd. rewrite run_assoc3, run_bind.
  pose proof (deleteSteps_settle sel selF plan w0) as Hs.
  match goal with |- context [match ?m w0 with _ => _ end] =>
    destruct (m w0) as [[[]|] w3] end; cbn [fst snd] in *; [reflexivity | congruence].
Qed.

(** Nothing is aimed at the kept table before the third step, when it is
    selected. *)
Lemma deleteSteps_spare_kept sel selF plan T :
  lastTableId plan = Some T → checked sel T = true → T ∉ tableIdsToDelete plan →
  appends w_log (λ e, targets T (ev_call e) = false)
    (match lastTableName plan with
     | Some name => toast (RetainNotice name)
     | None => mret tt
     end ;;
     deleteTables (Host:=Host) (tableIdsToDelete plan) ;;
     for_each selF (deleteSelectedFields sel plan)).
Proof.
  intros Hlast HT Hout.
  apply appends_bind.
  { destruct (lastTableName plan); [apply appends_modify; reflexivity | apply appends_ret]. }
  intros _. apply appends_bind.
  { unfold deleteTables. apply appends_for_each_in. intros id Hid.
    assert (Hne : String.eqb id T = false).
    { apply String.eqb_neq. intros ->. exact (Hout Hid). }
    unfold deleteTable, push_error.
    repeat first
      [ callback_step
      | apply appends_modify; reflexivity
      | apply appends_request_log; intros; exact Hne ]. }
  intros _. apply appends_for_each. intros [t fieldMap]. unfold deleteSelectedFields.
  destruct (String.eqb_spec t T) as [->|Hne].
  - unfold isLast. rewrite Hlast, HT, String.eqb_refl. cbn [andb negb]. apply appends_ret.
  - assert (Hne' : String.eqb t T = false) by (apply String.eqb_neq; exact Hne).
    unfold getTableById, getFieldMetaList, deleteField, push_error, toast.
    repeat first
      [ callback_step
      | apply appends_modify; reflexivity
      | apply appends_read_log; reflexivity
      | apply appends_request_log; intros; exact Hne'
      | match goal with |- appends _ _ (match ?x with _ => _ end) => destruct x end
      | match goal with |- appends _ _ (if ?x then _ else _) => destruct x end ].
Qed.

Lemma deleteFields_run T (fields : list FieldMeta) w :
  ∃ evs,
    w_log (for_each fields (λ field,
             try_catch (deleteField T (fm_id field))
               (push_error (FieldDeleteFailed (falsy_or (fm_name field) (fm_id field))))) w).2
    = w_log w ++ evs ∧
    calls evs = map (λ field, DeleteField T (fm_id field)) fields.
Proof.
  revert w. induction fields as [|field fields IH]; intros w.
  - exists []. rewrite app_nil_r. split; reflexivity.
  - cbn [for_each]. rewrite run_bind, run_try_catch. unfold deleteField at 1, request.
    destruct (gw_deleteField T (fm_id field) (w_host w)) as [[[]|] h].
    + match goal with |- context [for_each fields ?b ?w1] =>
        destruct (IH w1) as (evs & Hl & Hc) end.
      eexists (_ :: evs). rewrite Hl. cbn [w_log add_log set_host]. rewrite <- app_assoc.
      split; [reflexivity|]. unfold calls in *. cbn [map ev_call]. rewrite Hc. reflexivity.
    + cbn [push_error modify].
      match goal with |- context [for_each fields ?b ?w1] =>
        destruct (IH w1) as (evs & Hl & Hc) end.
      eexists (_ :: evs). rewrite Hl. cbn [w_log add_log set_host set_errors].
      rewrite <- app_assoc.
      split; [reflexivity|]. unfold calls in *. cbn [map ev_call]. rewrite Hc. reflexivity.
Qed.

Lemma filter_targets_fields T (fields : list FieldMeta) :
  List.filter (targets T) (map (λ field, DeleteField T (fm_id field)) fields)
  = map (λ field, DeleteField T (fm_id field)) fields.
Proof.
  induction fields as [|field fields IH]; [reflexivity|].
  cbn [map List.filter targets]. rewrite String.eqb_refl, IH. reflexivity.
Qed.

(** The third step, for a kept table that is selected: its deletions are
    the ones that are due in the table as the workspace lists it then. *)
Lemma deleteLastTableFields_run sel plan T w :
  lastTableId plan = Some T → checked sel T = true →
  ∃ evs,
    w_log (deleteLastTableFields sel plan w).2 = w_log w ++ evs ∧
    List.filter (targets T) (calls evs) =
      if truthy_string T then kept_table_requests T (w_host w) else [].
Proof.
  intros Hlast HT. unfold deleteLastTableFields, kept_table_requests. rewrite Hlast, HT.
  destruct (truthy_string T); cbn [andb];
    [|exists []; rewrite app_nil_r; split; reflexivity].
  rewrite run_try_catch, run_bind. unfold getTableById. rewrite run_read.
  destruct (gw_getTableById T (w_host w)) as [[]|]; cbn [is_ok];
    [|eexists [_]; split; reflexivity].
  rewrite run_bind. unfold getFieldMetaList. rewrite run_read. cbn [w_host add_log].
  destruct (gw_getFieldMetaList T (w_host w)) as [fieldMetaList|]; cbn [is_ok];
    [|eexists [_; _]; cbn [w_log add_log push_error modify set_errors snd];
      rewrite <- app_assoc; split; reflexivity].
  set (w1 := add_log _ (add_log _ w)).
  destruct (List.filter (λ f, negb (fm_isPrimary f)) fieldMetaList) as [|field fields] eqn:Hf.
  - eexists [_; _]. cbn [toast modify w_log add_toast snd]. subst w1. cbn [w_log add_log].
    rewrite <- app_assoc. split; reflexivity.
  - destruct (deleteFields_run T (field :: fields) w1) as (evs & Hl & Hc).
    assert (Hs : settles (for_each (field :: fields) (λ field0,
                   try_catch (deleteField (Host:=Host) T (fm_id field0))
                     (push_error
                        (FieldDeleteFailed (falsy_or (fm_name field0) (fm_id field0))))))).
    { unfold push_error. repeat callback_step. }
    specialize (Hs w1).
    destruct (for_each (field :: fields) _ w1) as [[[]|] w2]; cbn [fst snd] in *; [|congruence].
    exists (mkEvent (GetTableById T) true :: mkEvent (GetFieldMetaList T) true :: evs).
    split; [rewrite Hl; subst w1; cbn [w_log add_log]; rewrite <- !app_assoc; reflexivity|].
    unfold calls in *. cbn [map ev_call List.filter targets]. rewrite Hc.
    apply filter_targets_fields.
Qed.

Lemma filter_targets_none T (evs : list Event) :
  Forall (λ e, targets T (ev_call e) = false) evs →
  List.filter (targets T) (calls evs) = [].
Proof.
  induction 1 as [|e evs He Hevs IH]; [reflexivity|].
  unfold calls in *. cbn [map List.filter]. rewrite He. exact IH.
Qed.

Lemma deletionEnd_calls :
  appends w_log (λ e, is_enumeration (ev_call e) = true) (deletionEnd (Host:=Host)).
Proof.
  unfold deletionEnd, get_errors, modify_app, toast.
  repeat first
    [ apply refreshTables_reads
    | callback_step
    | apply appends_modify; reflexivity
    | match goal with |- appends _ _ (match ?x with _ => _ end) => destruct x end ].
Qed.

(** The whole run, for a kept table that is selected. *)
Lemma performDeletion_kept sel selF w cur T :
  gw_getTableMetaList (w_host w) = Ok cur →
  lastTableId (planRetain sel cur) = Some T → checked sel T = true →
  T ∉ tableIdsToDelete (planRetain sel cur) →
  let w3 := before_last_step sel selF cur w in
  List.filter (targets T) (calls (new_events w w3)) = [] ∧
  List.filter (targets T) (calls (new_events w (performDeletion sel selF w).2)) =
    if truthy_string T then kept_table_requests T (w_host w3) else [].
Proof.
  intros Hcur Hlast HT Hout w3.
  rewrite (performDeletion_split sel selF w cur Hcur). fold w3.
  set (plan := planRetain sel cur) in *.
  destruct (deleteSteps_spare_kept sel selF plan T Hlast HT Hout
              (add_log (mkEvent GetTableMetaList true) (set_errors [] w)))
    as (e12 & Hl12 & Hf12).
  change (w_log w3 =
          w_log (add_log (mkEvent GetTableMetaList true) (set_errors [] w)) ++ e12) in Hl12.
  cbn [w_log add_log set_errors] in Hl12.
  assert (Hev3 : new_events w w3 = mkEvent GetTableMetaList true :: e12).
  { apply new_events_app. rewrite Hl12, <- app_assoc. reflexivity. }
  split.
  { rewrite Hev3. unfold calls. cbn [map List.filter targets ev_call].
    apply filter_targets_none, Hf12. }
  destruct (deleteLastTableFields_run sel plan T w3 Hlast HT) as (evs3 & Hl3 & Hk).
  rewrite run_bind.
  assert (Hs : settles (deleteLastTableFields (Host:=Host) sel plan)).
  { unfold deleteLastTableFields, push_error, toast.
    repeat first
      [ callback_step
      | match goal with |- settles (match ?x with _ => _ end) => destruct x end
      | match goal with |- settles (if ?x then _ else _) => destruct x end ]. }
  specialize (Hs w3).
  destruct (deleteLastTableFields sel plan w3) as [[[]|] w4]; cbn [fst snd] in *; [|congruence].
  destruct (deletionEnd_calls w4) as (evs4 & Hl4 & Hf4).
  erewrite new_events_app;
    [|rewrite Hl4, Hl3, Hl12, <- !app_assoc; reflexivity].
  assert (Hcalls : calls (mkEvent GetTableMetaList true :: e12 ++ evs3 ++ evs4)
                   = GetTableMetaList :: calls e12 ++ calls evs3 ++ calls evs4)
    by (unfold calls; cbn [map ev_call]; rewrite !map_app; reflexivity).
  cbn [app]. rewrite Hcalls. cbn [List.filter targets]. rewrite !List.filter_app.
  rewrite (filter_targets_none T e12 Hf12), Hk.
  rewrite (filter_targets_none T evs4), app_nil_r; [reflexivity|].
  eapply Forall_impl; [exact Hf4|]. intros e He. cbv beta in He.
  destruct (ev_call e); cbn in He |- *; congruence.
Qed.

End DeletionFacts.

(** ** Deletion: the claims *)

Section DeletionClaims.

Context {Host : Type} {GW : Gateway Host}.

Implicit Types (w : @World Host).

(** C2. When every enumerated table is selected (the workspace enumerates at
    least one table, with distinct ids), the plan keeps exactly the last
    table of the enumeration: [deleteTable] is requested for the tables of
    the plan and for nothing else, the last table is not among them, every
    other enumerated table is, and a notice that names the kept table is
    shown. *)
Theorem C2_all_selected_keeps_last (sel : JsObject bool) (selF : JsObject (JsObject bool))
    w (cur : list TableMeta) :
  gw_getTableMetaList (w_host w) = Ok cur →
  cur ≠ [] →
  NoDup (map tm_id cur) →
  (∀ id, id ∈ map tm_id cur → checked sel id = true) →
  ∃ lastMeta,
    last cur = Some lastMeta ∧
    let plan := planRetain sel cur in
    let w' := (performDeletion sel selF w).2 in
    lastTableId plan = Some (tm_id lastMeta) ∧
    deleted_tables (new_events w w') = tableIdsToDelete plan ∧
    (tm_id lastMeta ∉ tableIdsToDelete plan) ∧
    (∀ id, id ∈ map tm_id cur → id ≠ tm_id lastMeta → id ∈ tableIdsToDelete plan) ∧
    RetainNotice (falsy_or (tm_name lastMeta) "未知表") ∈ new_toasts w w' ∧
    (∀ name, tm_name lastMeta = Some name → name ≠ "" →
       falsy_or (tm_name lastMeta) "未知表" = name).
Proof.
  intros Hcur Hne Hnd Hall.
  destruct (last cur) as [lastMeta|] eqn:Hlast;
    [|apply last_None in Hlast; contradiction].
  exists lastMeta. split; [reflexivity|]. cbv zeta.
  pose proof (all_selected_length sel (map tm_id cur) Hnd Hall) as Hlen.
  rewrite length_map in Hlen.
  destruct (performDeletion_run sel selF w cur Hcur) as (e1 & e2 & ts & Hev & Hc & Hf & Ht).
  rewrite (planRetain_retains sel cur lastMeta Hlast Hlen) in *.
  cbn [lastTableId tableIdsToDelete] in *.
  split; [reflexivity|]. split; [|split; [|split; [|split]]].
  - rewrite Hev. change (deleted_tables (?e :: e1 ++ e2)) with (deleted_tables (e1 ++ e2)).
    rewrite deleted_tables_app, (deleted_tables_calls e1 _ Hc),
      (deleted_tables_after _ _ e2 Hf), app_nil_r. reflexivity.
  - rewrite elem_of_without. tauto.
  - intros id Hid Hneq. apply elem_of_without. split; [|exact Hneq].
    apply checked_in_keys, Hall, Hid.
  - rewrite Ht. cbn. left.
  - intros name Hname Hnonempty. rewrite Hname. cbn.
    destruct name; [congruence | reflexivity].
Qed.

(** C3, as amended.  A table that is selected and is not the kept table gets
    one request in the whole deletion, its [deleteTable], whatever
    [selectedFields] holds for it.  The kept table, when it is selected, gets
    no [deleteTable], and nothing is aimed at it before the third step (the
    step over [selectedFields] passes it by); the requests aimed at it in the
    whole deletion are those of the third step: one [deleteField] for each
    field that the host then lists for it and does not flag as the index
    field.  With distinct field ids no field of it is requested twice, and
    its index field is never requested. *)
Theorem C3_selected_table_only_table_deletion (sel : JsObject bool)
    (selF : JsObject (JsObject bool)) w (cur : list TableMeta) (T : string) :
  gw_getTableMetaList (w_host w) = Ok cur →
  NoDup (map fst sel) →
  checked sel T = true →
  let plan := planRetain sel cur in
  let w3 := before_last_step sel selF cur w in
  let issued := calls (new_events w (performDeletion sel selF w).2) in
  (lastTableId plan ≠ Some T → List.filter (targets T) issued = [DeleteTable T]) ∧
  (lastTableId plan = Some T →
     performDeletion sel selF w = (deleteLastTableFields sel plan ;; deletionEnd) w3 ∧
     (DeleteTable T ∉ issued) ∧
     List.filter (targets T) (calls (new_events w w3)) = [] ∧
     List.filter (targets T) issued =
       (if truthy_string T then kept_table_requests T (w_host w3) else []) ∧
     ∀ fieldMetaList,
       gw_getFieldMetaList T (w_host w3) = Ok fieldMetaList →
       NoDup (map fm_id fieldMetaList) →
       NoDup (List.filter (targets T) issued) ∧
       ∀ field, field ∈ fieldMetaList → fm_isPrimary field = true →
                DeleteField T (fm_id field) ∉ issued).
Proof.
  intros Hcur Hnd HT plan w3 issued.
  destruct (performDeletion_run sel selF w cur Hcur) as (e1 & e2 & ts & Hev & Hc & Hf & _).
  fold plan in Hc, Hf.
  assert (Hids : NoDup (tableIdsToDelete plan)).
  { subst plan. unfold planRetain.
    destruct (_ && _); [destruct (last cur)|]; cbn [tableIdsToDelete];
      try apply NoDup_without; apply NoDup_checkedKeys, Hnd. }
  split.
  - intros Hnot. subst issued. rewrite Hev. unfold calls in *.
    cbn [map]. rewrite map_app, Hc. cbn [List.filter targets]. rewrite List.filter_app.
    assert (He2 : List.filter (targets T) (map ev_call e2) = []).
    { clear Hev. induction Hf as [|e e2 He Hf IH]; [reflexivity|]. cbn [map List.filter].
      rewrite IH. unfold after_tables in He. destruct (ev_call e) as [| | | |t f| | | | |];
        cbn [targets]; try reflexivity; [contradiction|].
      destruct (String.eqb_spec t T) as [->|]; [|reflexivity].
      destruct He; congruence. }
    rewrite He2, app_nil_r.
    assert (Hin : T ∈ tableIdsToDelete plan).
    { subst plan. unfold planRetain in *.
      destruct (_ && _); [destruct (last cur) as [m|]|]; cbn [tableIdsToDelete lastTableId] in *;
        try (apply checked_in_keys, HT).
      apply elem_of_without. split; [apply checked_in_keys, HT | congruence]. }
    clear -Hids Hin. induction Hids as [|id ids Hid Hids IH]; [inversion Hin|].
    cbn [map List.filter targets].
    destruct (String.eqb_spec id T) as [->|Hne].
    + f_equal. clear IH Hin. induction ids as [|i ids IH]; [reflexivity|].
      cbn [map List.filter targets]. apply not_elem_of_cons in Hid as [Hi Hid].
      apply NoDup_cons in Hids as [_ Hids].
      destruct (String.eqb_spec i T); [congruence | auto].
    + apply IH. inversion Hin; congruence.
  - intros Hlast.
    assert (Hout : T ∉ tableIdsToDelete plan).
    { subst plan. unfold planRetain in *.
      destruct (_ && _); [destruct (last cur) as [m|]|];
        cbn [tableIdsToDelete lastTableId] in *; try discriminate.
      rewrite elem_of_without. intros [_ Hne]. congruence. }
    destruct (performDeletion_kept sel selF w cur T Hcur Hlast HT Hout) as [Hbefore Hall].
    fold w3 in Hbefore, Hall. fold issued in Hall.
    split; [apply performDeletion_split, Hcur|].
    assert (Hkept : ∀ c, c ∈ List.filter (targets T) issued →
              ∃ fieldMetaList field,
                gw_getFieldMetaList T (w_host w3) = Ok fieldMetaList ∧
                field ∈ fieldMetaList ∧ fm_isPrimary field = false ∧
                c = DeleteField T (fm_id field)).
    { intros c Hc'. rewrite Hall in Hc'. unfold kept_table_requests in Hc'.
      destruct (truthy_string T); [|inversion Hc'].
      destruct (gw_getTableById T (w_host w3)); [|inversion Hc'].
      destruct (gw_getFieldMetaList T (w_host w3)) as [fl|]; [|inversion Hc'].
      apply list_elem_of_fmap in Hc' as (field & -> & Hin).
      apply list_elem_of_In, filter_In in Hin as [Hin Hp].
      exists fl, field. split; [reflexivity|]. split; [apply list_elem_of_In, Hin|].
      split; [destruct (fm_isPrimary field); [discriminate | reflexivity] | reflexivity]. }
    split.
    { intros Hin.
      assert (Hin' : DeleteTable T ∈ List.filter (targets T) issued).
      { apply list_elem_of_In, filter_In. split; [apply list_elem_of_In, Hin|].
        cbn [targets]. apply String.eqb_refl. }
      destruct (Hkept _ Hin') as (fl & field & _ & _ & _ & Heq). discriminate Heq. }
    split; [exact Hbefore|]. split; [exact Hall|].
    intros fieldMetaList Hfl Hndf. split.
    + rewrite Hall. unfold kept_table_requests. rewrite Hfl.
      destruct (truthy_string T); [|constructor].
      destruct (gw_getTableById T (w_host w3)); [|constructor].
      apply (NoDup_fmap_2_strong (λ field, DeleteField T (fm_id field))).
      * intros f1 f2 Hf1 Hf2 [= Heq].
        apply list_elem_of_In, filter_In in Hf1 as [Hf1 _].
        apply list_elem_of_In, filter_In in Hf2 as [Hf2 _].
        apply list_elem_of_In in Hf1, Hf2.
        apply (NoDup_map_inj fm_id fieldMetaList f1 f2 Hndf Hf1 Hf2 Heq).
      * apply NoDup_filter_list. apply (NoDup_fmap_1 fm_id). exact Hndf.
    + intros field Hfield Hprimary Hin.
      assert (Hin' : DeleteField T (fm_id field) ∈ List.filter (targets T) issued).
      { apply list_elem_of_In, filter_In. split; [apply list_elem_of_In, Hin|].
        cbn [targets]. apply String.eqb_refl. }
      destruct (Hkept _ Hin') as (fl & field' & Hfl' & Hin2 & Hnp & [= Heq]).
      assert (fl = fieldMetaList) by congruence. subst fl.
      assert (field = field')
        by (apply (NoDup_map_inj fm_id fieldMetaList field field' Hndf Hfield Hin2 Heq)).
      subst field'. congruence.
Qed.

(** The second step does not look at [isPrimary] in a table that is neither
    selected nor kept: whatever field id is selected there is requested. *)
Lemma unselected_table_field_requested (T f : string) (metas : list FieldMeta) w
    (cur : list TableMeta) :
  gw_getTableMetaList (w_host w) = Ok cur →
  cur ≠ [] →
  gw_getTableById T (w_host w) = Ok tt →
  gw_getFieldMetaList T (w_host w) = Ok metas →
  ∃ ok evs,
    new_events w (performDeletion [] [(T, [(f, true)])] w).2 =
      [mkEvent GetTableMetaList true; mkEvent (GetTableById T) true;
       mkEvent (GetFieldMetaList T) true; mkEvent (DeleteField T f) ok] ++ evs.
Proof.
  intros Hcur Hne Hopen Hfields.
  unfold performDeletion. rewrite run_bind. cbn [modify]. rewrite run_bind.
  unfold getTableMetaList. rewrite run_read. cbn [w_host set_errors]. rewrite Hcur.
  cbn [is_ok].
  rewrite (planRetain_deletes_all [] cur)
    by (left; destruct cur; [congruence | cbn; lia]).
  change (checkedKeys (@nil (string * bool))) with (@nil string).
  unfold executePlan. cbn [lastTableName tableIdsToDelete deleteTables for_each].
  set (w0 := add_log _ (set_errors [] w)).
  rewrite run_bind. cbn [mret M_ret]. rewrite run_bind. cbn [mret M_ret].
  assert (Hstep : ∃ ok w1,
    deleteSelectedFields [] (mkRetainPlan [] None None) (T, [(f, true)]) w0 = (Ok tt, w1) ∧
    w_log w1 = w_log w0 ++ [mkEvent (GetTableById T) true;
                             mkEvent (GetFieldMetaList T) true;
                             mkEvent (DeleteField T f) ok]).
  { unfold deleteSelectedFields, isLast, checked. cbn [obj_get lastTableId andb negb checkedKeys
      List.filter map fst snd].
    rewrite run_try_catch, run_bind. unfold getTableById. rewrite run_read.
    subst w0. cbn [w_host add_log set_errors]. rewrite Hopen. cbn [is_ok].
    rewrite run_bind. unfold getFieldMetaList. rewrite run_read. cbn [w_host add_log set_errors].
    rewrite Hfields. cbn [is_ok fieldsToDelete isLast lastTableId for_each].
    rewrite run_bind, run_try_catch. unfold deleteField, request. cbn [w_host add_log set_errors].
    destruct (gw_deleteField T f (w_host w)) as [[[]|] h]; [exists true | exists false];
      (eexists; split; [reflexivity|]); cbn; rewrite <- ?app_assoc; reflexivity. }
  destruct Hstep as (ok & w1 & Hstep & Hlog1).
  rewrite run_bind, run_bind, Hstep. cbn [mret M_ret].
  assert (Hrest : appends w_log (λ _, True)
            (deleteLastTableFields (Host:=Host) [] (mkRetainPlan [] None None) ;;
             errors ← get_errors;
             match errors with
             | [] => toast DeletionDone
             | _ :: _ => toast (DeletionPartial errors)
             end ;;
             modify_app clearSelection ;;
             refreshTables)).
  { apply appends_bind.
    - apply (appends_weaken _ _ _ _ (λ _ _, I) (deleteLastTableFields_calls [] _)).
    - intros _. apply (appends_weaken _ _ _ _ (λ _ _, I) (finish_calls [] (mkRetainPlan [] None None))). }
  destruct (Hrest w1) as (evs & Hl & _).
  exists ok, evs. apply new_events_app. rewrite Hl, Hlog1. subst w0.
  cbn [w_log add_log set_host set_errors]. rewrite <- !app_assoc. reflexivity.
Qed.

End DeletionClaims.

(** C10. With at least one table enumerated, the retain branch is taken
    exactly when the selection counts at least as many tables as the
    enumeration, whichever tables the selected ids name (an empty enumeration
    has no last table, and nothing is kept); and with a stale id in the
    selection the last table is kept out of the deletion although another
    table would have remained. *)
Theorem C10_retain_is_a_count_test :
  (∀ (sel : JsObject bool) (cur : list TableMeta), cur ≠ [] →
     (lastTableId (planRetain sel cur) ≠ None ↔ length cur ≤ length (checkedKeys sel)) ∧
     (length cur ≤ length (checkedKeys sel) →
        lastTableId (planRetain sel cur) = tm_id <$> last cur)) ∧
  (∀ sel : JsObject bool, lastTableId (planRetain sel []) = None) ∧
  (let sel := [("tblB", true); ("tblX", true)] in
   let cur := map tb_meta [tableA; tableB] in
   let plan := planRetain sel cur in
   let w := sim_world [tableA; tableB] emptyApp in
   let w' := (performDeletion sel [] w).2 in
   ("tblX" ∉ map tm_id cur) ∧
   checked sel "tblA" = false ∧ checked sel "tblB" = true ∧
   lastTableId plan = Some "tblB" ∧
   tableIdsToDelete plan = ["tblX"] ∧
   deleted_tables (new_events w w') = ["tblX"] ∧
   map (λ t, tm_id (tb_meta t)) (sim_tables (w_host w')) = ["tblA"; "tblB"]).
Proof.
  split.
  - intros sel cur Hne.
    destruct (last cur) as [lastMeta|] eqn:Hlast;
      [|apply last_None in Hlast; contradiction].
    destruct (Nat.le_gt_cases (length cur) (length (checkedKeys sel))) as [Hle|Hgt].
    + rewrite (planRetain_retains sel cur lastMeta Hlast Hle). cbn. split; [|reflexivity].
      split; [intros _; exact Hle | discriminate].
    + rewrite (planRetain_deletes_all sel cur (or_introl Hgt)). cbn. split; [|lia].
      split; [congruence | lia].
  - split; [reflexivity|]. cbv zeta. split.
    + intros Hin. apply list_elem_of_In in Hin. cbn in Hin.
      destruct Hin as [Hin|[Hin|[]]]; discriminate.
    + repeat split; vm_compute; reflexivity.
Qed.

Lemma C10_witness :
  lastTableId (planRetain [("tblB", true); ("tblX", true)] (map tb_meta [tableA; tableB]))
    ≠ None
  ↔ length (map tb_meta [tableA; tableB])
    ≤ length (checkedKeys [("tblB", true); ("tblX", true)]).
Proof.
  apply (proj1 C10_retain_is_a_count_test
           [("tblB", true); ("tblX", true)] (map tb_meta [tableA; tableB])).
  discriminate.
Defined.

Lemma C2_witness :
  ∃ lastMeta,
    last (map tb_meta [tableA; tableB]) = Some lastMeta ∧
    let sel := [("tblA", true); ("tblB", true)] in
    let w := sim_world [tableA; tableB] emptyApp in
    let plan := planRetain sel (map tb_meta [tableA; tableB]) in
    let w' := (performDeletion sel [] w).2 in
    lastTableId plan = Some (tm_id lastMeta) ∧
    deleted_tables (new_events w w') = tableIdsToDelete plan ∧
    (tm_id lastMeta ∉ tableIdsToDelete plan) ∧
    (∀ id, id ∈ map tm_id (map tb_meta [tableA; tableB]) → id ≠ tm_id lastMeta →
       id ∈ tableIdsToDelete plan) ∧
    RetainNotice (falsy_or (tm_name lastMeta) "未知表") ∈ new_toasts w w' ∧
    (∀ name, tm_name lastMeta = Some name → name ≠ "" →
       falsy_or (tm_name lastMeta) "未知表" = name).
Proof.
  apply (C2_all_selected_keeps_last (Host:=SimHost)
           [("tblA", true); ("tblB", true)] []
           (sim_world [tableA; tableB] emptyApp) (map tb_meta [tableA; tableB])).
  - reflexivity.
  - discriminate.
  - apply NoDup_ListNoDup. repeat constructor; cbn; intuition discriminate.
  - intros id Hid. apply list_elem_of_In in Hid. cbn in Hid.
    destruct Hid as [<-|[<-|[]]]; reflexivity.
Defined.

(** C3, as stated, fails for the kept table: with one table, selected, and one
    of its fields selected too, no [deleteTable] is requested and the field
    deletions of the third step are. *)
Lemma C3_counterexample :
  let sel := [("tblA", true)] in
  let selF := [("tblA", [("fldA1", true)])] in
  let w := sim_world [tableA] emptyApp in
  checked sel "tblA" = true ∧
  obj_get selF "tblA" = Some [("fldA1", true)] ∧
  List.filter (targets "tblA") (calls (new_events w (performDeletion sel selF w).2))
    = [DeleteField "tblA" "fldA1"] ∧
  List.filter (targets "tblA") (calls (new_events w (performDeletion sel selF w).2))
    ≠ [DeleteTable "tblA"].
Proof. cbv zeta. repeat split; try (vm_compute; reflexivity). vm_compute. discriminate. Qed.

Lemma C3_witness :
  let sel := [("tblA", true)] in
  let selF := [("tblA", [("fldA1", true)])] in
  let cur := map tb_meta [tableA] in
  let w := sim_world [tableA] emptyApp in
  let plan := planRetain sel cur in
  let w3 := before_last_step sel selF cur w in
  let issued := calls (new_events w (performDeletion sel selF w).2) in
  (lastTableId plan ≠ Some "tblA" → List.filter (targets "tblA") issued = [DeleteTable "tblA"]) ∧
  (lastTableId plan = Some "tblA" →
     performDeletion sel selF w = (deleteLastTableFields sel plan ;; deletionEnd) w3 ∧
     (DeleteTable "tblA" ∉ issued) ∧
     List.filter (targets "tblA") (calls (new_events w w3)) = [] ∧
     List.filter (targets "tblA") issued =
       (if truthy_string "tblA" then kept_table_requests "tblA" (w_host w3) else []) ∧
     ∀ fieldMetaList,
       gw_getFieldMetaList "tblA" (w_host w3) = Ok fieldMetaList →
       NoDup (map fm_id fieldMetaList) →
       NoDup (List.filter (targets "tblA") issued) ∧
       ∀ field, field ∈ fieldMetaList → fm_isPrimary field = true →
                DeleteField "tblA" (fm_id field) ∉ issued).
Proof.
  apply (C3_selected_table_only_table_deletion (Host:=SimHost)
           [("tblA", true)] [("tblA", [("fldA1", true)])]
           (sim_world [tableA] emptyApp) (map tb_meta [tableA]) "tblA").
  - reflexivity.
  - apply NoDup_ListNoDup. repeat constructor; cbn; intuition discriminate.
  - reflexivity.
Defined.

(** C1 fails on the code.  "Select visible fields" selects the index fields
    too, and for a table that is not the kept one the second step deletes
    every selected field: here [fldA0] and [fldB0], the index fields of the
    two tables, are requested and deleted. *)
Theorem C1_index_field_deleted :
  let renderBundles := map (λ t, mkRenderBundle t (tb_fields t)) [tableA; tableB] in
  let selF := selectVisibleFields renderBundles [] in
  let w := sim_world [tableA; tableB] emptyApp in
  let w' := (performDeletion [] selF w).2 in
  selF = [("tblA", [("fldA0", true); ("fldA1", true)]);
          ("tblB", [("fldB0", true); ("fldB1", true)])] ∧
  map fm_id (List.filter fm_isPrimary (tb_fields tableA)) = ["fldA0"] ∧
  List.filter (λ e, is_deletion (ev_call e)) (new_events w w') =
    [mkEvent (DeleteField "tblA" "fldA0") true; mkEvent (DeleteField "tblA" "fldA1") true;
     mkEvent (DeleteField "tblB" "fldB0") true; mkEvent (DeleteField "tblB" "fldB1") true] ∧
  map (λ t, (tm_id (tb_meta t), map fm_id (tb_fields t))) (sim_tables (w_host w')) =
    [("tblA", []); ("tblB", [])].
Proof. cbv zeta. repeat split; vm_compute; reflexivity. Qed.

(** ** Snapshot engine *)

Lemma digit_char_is_digit n : is_digit (digit_char n) = true.
Proof.
  unfold digit_char. pose proof (Nat.mod_upper_bound n 10) as Hk.
  generalize dependent (n mod 10). intros k Hk.
  do 10 (destruct k as [|k]; [reflexivity|]). lia.
Qed.

(** The timestamp of a snapshot has the ISO-8601 shape. *)
Lemma toISOString_iso8601 d : is_iso8601 (toISOString d) = true.
Proof.
  unfold is_iso8601, toISOString, pad4, pad3, pad2.
  cbv [String.append list_ascii_of_string forallb]. rewrite !digit_char_is_digit. reflexivity.
Qed.

(** The deep copy of a property payload is the payload. *)
Lemma cloneJson_value (value : option json) : cloneJson value = value.
Proof.
  destruct value as [v|]; [|reflexivity].
  unfold cloneJson. rewrite JSON_parse_stringify. reflexivity.
Qed.

(** The table that a capture records is made of what the host lists. *)
Lemma snapshotTableOf_record (meta : TableMeta) (fieldMetaList : list FieldMeta) :
  snapshotTableOf meta fieldMetaList =
  mkSnapshotTable (tm_id meta)
    match tm_name meta with Some name => name | None => "无名表" end
    (map field_record fieldMetaList).
Proof.
  unfold snapshotTableOf. f_equal. apply map_ext. intros field.
  unfold snapshotFieldOf, field_record. rewrite cloneJson_value. reflexivity.
Qed.

Section CaptureFacts.

Context {Host : Type} {GW : Gateway Host}.

Implicit Types (w : @World Host).

Lemma extend_log_nil w : extend_log [] w = w.
Proof. destruct w. unfold extend_log. cbn. rewrite app_nil_r. reflexivity. Qed.

Lemma extend_log_app e1 e2 w : extend_log e2 (extend_log e1 w) = extend_log (e1 ++ e2) w.
Proof. unfold extend_log. cbn. rewrite app_assoc. reflexivity. Qed.

Lemma add_log_extend e w : add_log e w = extend_log [e] w.
Proof. reflexivity. Qed.

(** The enumeration of the fields of the tables: it changes nothing but the
    log, and it gives one complete table per enumerated table, in order, or
    fails when a table cannot be read. *)
Lemma capture_tables_run (metaList : list TableMeta) w :
  ∃ evs r,
    map_all
      (λ meta,
         getTableById (tm_id meta) ;;
         fieldMetaList ← getFieldMetaList (tm_id meta);
         mret (snapshotTableOf meta fieldMetaList)) metaList w
    = (r, extend_log evs w) ∧
    Forall (λ e, is_enumeration (ev_call e) = true) evs ∧
    match r with
    | Ok tables => Forall2 (captured (w_host w)) metaList tables
    | Raise => Exists (unreadable (w_host w)) metaList
    end.
Proof.
  revert w. induction metaList as [|meta metaList IH]; intros w.
  - exists [], (Ok []). rewrite extend_log_nil. cbn. auto.
  - cbn [map_all]. rewrite !run_bind. unfold getTableById at 1. rewrite run_read.
    destruct (gw_getTableById (tm_id meta) (w_host w)) as [[]|] eqn:Hb.
    + unfold getFieldMetaList at 1. rewrite run_bind, run_read. cbn [w_host add_log].
      destruct (gw_getFieldMetaList (tm_id meta) (w_host w)) as [fl|] eqn:Hf.
      * cbn [mret M_ret is_ok]. rewrite run_bind.
        set (w1 := add_log _ (add_log _ w)).
        destruct (IH w1) as (evs & r & Hrun & Hev & Hres).
        assert (Hw1 : w1 = extend_log
                  [mkEvent (GetTableById (tm_id meta)) true;
                   mkEvent (GetFieldMetaList (tm_id meta)) true] w)
          by (subst w1; rewrite !add_log_extend, extend_log_app; reflexivity).
        change (w_host w1) with (w_host w) in Hres.
        rewrite Hrun, Hw1, extend_log_app.
        destruct r as [tables|]; eexists _, _; (split; [reflexivity|]);
          (split; [repeat (constructor; [reflexivity|]); exact Hev|]).
        -- constructor; [|exact Hres]. split; [exact Hb|]. exists fl.
           rewrite snapshotTableOf_record. repeat split. exact Hf.
        -- apply Exists_cons_tl. exact Hres.
      * exists [mkEvent (GetTableById (tm_id meta)) true;
                mkEvent (GetFieldMetaList (tm_id meta)) false], Raise.
        split; [rewrite !add_log_extend, extend_log_app; reflexivity|].
        split; [repeat constructor|].
        apply Exists_cons_hd. right. exact Hf.
    + exists [mkEvent (GetTableById (tm_id meta)) false], Raise.
      split; [reflexivity|]. split; [repeat constructor|].
      apply Exists_cons_hd. left. exact Hb.
Qed.

(** What [setSnapshot] does with a snapshot: the state holds it, the local
    cache is written, and the bridge, if it can, is asked to store it. *)
Lemma setSnapshot_some_run (snap : Snapshot) w :
  ∃ w' evs,
    setSnapshot (Some snap) w = (Ok tt, w') ∧
    app_snapshot (w_app w') = Some snap ∧
    w_storage w' = persistSnapshot (Some snap) (w_storage w) ∧
    w_toasts w' = w_toasts w ∧
    w_log w' = w_log w ++ evs ∧
    Forall (λ e, ev_call e = SetData (Some snap)) evs.
Proof.
  unfold setSnapshot, setSnapshotState, snapshotEffect, syncBridgeSnapshot, get_app, modify_app, modify,
    request, try_catch, mbind, M_bind, mret, M_ret.
  destruct (app_snapshot (w_app w)); destruct gw_setData as [setData|]; cbn;
    try (destruct (setData (Some snap) (w_host w)) as [[[]|] h]; cbn);
    first
      [ solve [eexists _, [_]; repeat (split; [reflexivity|]); repeat constructor]
      | solve [eexists _, []; rewrite app_nil_r; repeat (split; [reflexivity|]); constructor] ].
Qed.

(** The effect, whenever it runs: the cache is written with the snapshot,
    and nothing but [setData] of it is called. *)
Lemma snapshotEffect_run (snapshot : option Snapshot) w :
  (snapshotEffect snapshot w).1 = Ok tt ∧
  w_storage (snapshotEffect snapshot w).2 = persistSnapshot snapshot (w_storage w) ∧
  w_app (snapshotEffect snapshot w).2 = w_app w ∧
  w_toasts (snapshotEffect snapshot w).2 = w_toasts w ∧
  Forall (λ e, ev_call e = SetData snapshot) (new_events w (snapshotEffect snapshot w).2).
Proof.
  unfold snapshotEffect, syncBridgeSnapshot, modify, request, try_catch, mbind, M_bind,
    mret, M_ret, new_events.
  destruct gw_setData as [setData|]; cbn;
    try (destruct (setData snapshot (w_host w)) as [[[]|] h]; cbn);
    rewrite ?drop_app_length, ?drop_all; repeat split; repeat constructor.
Qed.

Lemma captureSnapshot_settles label : settles (captureSnapshot (Host:=Host) label).
Proof.
  unfold captureSnapshot. apply settles_try_catch.
  repeat first [callback_step | apply settles_modify].
Qed.

Lemma setSnapshot_calls φ s :
  (∀ ok, φ (mkEvent (SetData s) ok)) → appends w_log φ (setSnapshot (Host:=Host) s).
Proof.
  intros Hφ. unfold setSnapshot, setSnapshotState, snapshotEffect, syncBridgeSnapshot, get_app, modify_app.
  repeat first
    [ callback_step
    | apply appends_modify; reflexivity
    | apply appends_request_log; exact Hφ
    | match goal with |- appends _ _ (match ?x with _ => _ end) => destruct x end ].
Qed.

(** A capture requests no deletion. *)
Lemma captureSnapshot_calls label :
  appends w_log (λ e, is_deletion (ev_call e) = false) (captureSnapshot (Host:=Host) label).
Proof.
  unfold captureSnapshot, getTableMetaList, getTableById, getFieldMetaList, toast.
  repeat first
    [ apply setSnapshot_calls; reflexivity
    | callback_step
    | apply appends_modify; reflexivity
    | apply appends_read_log; reflexivity ].
Qed.

End CaptureFacts.

Section CaptureClaims.

Context {Host : Type} {GW : Gateway Host}.

Implicit Types (w : @World Host).

Lemma captured_readable (h : Host) metaList tables :
  Forall2 (captured h) metaList tables → ¬ Exists (unreadable h) metaList.
Proof.
  induction 1 as [|meta t metaList tables [Hb (fl & Hf & _)] _ IH]; intros Hex.
  - inversion Hex.
  - apply Exists_cons in Hex as [[Hu|Hu]|Hex]; [congruence | congruence | auto].
Qed.

(** The two ways a capture ends. *)
Lemma captureSnapshot_run label w :
  ∃ b w',
    captureSnapshot label w = (Ok b, w') ∧
    ((b = false ∧
      (gw_getTableMetaList (w_host w) = Raise ∨
       ∃ metaList, gw_getTableMetaList (w_host w) = Ok metaList ∧
                   Exists (unreadable (w_host w)) metaList) ∧
      w_app w' = w_app w ∧ w_storage w' = w_storage w ∧ w_host w' = w_host w ∧
      Forall (λ e, is_enumeration (ev_call e) = true) (new_events w w'))
     ∨
     (b = true ∧
      ∃ metaList tables,
        gw_getTableMetaList (w_host w) = Ok metaList ∧
        Forall2 (captured (w_host w)) metaList tables ∧
        let snap := mkSnapshot label (toISOString (w_now w)) tables in
        app_snapshot (w_app w') = Some snap ∧
        w_storage w' = persistSnapshot (Some snap) (w_storage w) ∧
        Forall (λ e, is_enumeration (ev_call e) = true ∨ ev_call e = SetData (Some snap))
          (new_events w w'))).
Proof.
  unfold captureSnapshot. rewrite run_try_catch, run_bind.
  unfold getTableMetaList at 1. rewrite run_read.
  destruct (gw_getTableMetaList (w_host w)) as [metaList|] eqn:Hm.
  - cbn [is_ok]. rewrite run_bind.
    set (w0 := add_log _ w).
    destruct (capture_tables_run metaList w0) as (evs & r & Hrun & Hev & Hres).
    rewrite Hrun. change (w_host w0) with (w_host w) in Hres.
    assert (Hw0 : extend_log evs w0 = extend_log (mkEvent GetTableMetaList true :: evs) w)
      by (subst w0; rewrite add_log_extend, extend_log_app; reflexivity).
    rewrite Hw0. destruct r as [tables|].
    + rewrite run_bind. cbv beta iota. rewrite run_bind.
      set (w1 := extend_log _ w).
      destruct (setSnapshot_some_run
                  (mkSnapshot label (toISOString (w_now w1)) tables) w1)
        as (w2 & evs2 & Hset & Hsnap & Hstore & Htoast & Hlog & Hev2).
      rewrite Hset. cbn [toast modify mret M_ret mbind M_bind].
      eexists true, _. split; [reflexivity|]. right. split; [reflexivity|].
      exists metaList, tables. split; [reflexivity|]. split; [exact Hres|].
      cbv zeta. cbn [w_app w_storage add_toast]. split; [exact Hsnap|]. split; [exact Hstore|].
      erewrite new_events_app; [|cbn [w_log add_toast]; rewrite Hlog; subst w1; cbn [w_log extend_log];
                                 rewrite <- app_assoc; reflexivity].
      apply Forall_app. split.
      * constructor; [left; reflexivity|]. eapply Forall_impl; [exact Hev|]. cbn. auto.
      * eapply Forall_impl; [exact Hev2|]. cbn. auto.
    + cbn [toast modify mret M_ret mbind M_bind].
      eexists false, _. split; [reflexivity|]. left. split; [reflexivity|].
      split; [right; eauto|]. repeat (split; [reflexivity|]).
      erewrite new_events_app; [|reflexivity]. constructor; [reflexivity | exact Hev].
  - cbn [toast modify mret M_ret mbind M_bind].
    eexists false, _. split; [reflexivity|]. left. split; [reflexivity|].
    split; [left; reflexivity|]. repeat (split; [reflexivity|]).
    erewrite new_events_app; [|reflexivity]. repeat constructor.
Qed.

(** C5. A capture fails when the enumeration of the tables or of the fields
    of a table raises, and then the snapshot held, the local cache and the
    workspace with its bridge store are as before, and nothing but
    enumeration has been called.  When every table can be read the capture
    succeeds, and one snapshot replaces the one held: it has the label, an
    ISO-8601 timestamp and, in enumeration order, one table per enumerated
    table, with the id and the name of the table and, for every field the
    host lists, the id, the name, the type and the property of the field.
    Nothing but enumeration and [setData] of that snapshot is called, the
    cache holds what it held or that snapshot, and the effect of the new
    state, whenever it runs, writes that snapshot to the cache and asks the
    bridge to store it. *)
Theorem C5_capture_is_atomic (label : string) w :
  let h := w_host w in
  let r := captureSnapshot label w in
  ((gw_getTableMetaList h = Raise ∨
    ∃ metaList, gw_getTableMetaList h = Ok metaList ∧ Exists (unreadable h) metaList) →
   r.1 = Ok false ∧
   w_app r.2 = w_app w ∧ w_storage r.2 = w_storage w ∧ w_host r.2 = w_host w ∧
   Forall (λ e, is_enumeration (ev_call e) = true) (new_events w r.2)) ∧
  (∀ metaList,
     gw_getTableMetaList h = Ok metaList →
     Forall (λ meta, ¬ unreadable h meta) metaList →
     ∃ tables,
       Forall2 (captured h) metaList tables ∧
       let snap := mkSnapshot label (toISOString (w_now w)) tables in
       r.1 = Ok true ∧
       app_snapshot (w_app r.2) = Some snap ∧
       is_iso8601 (snap_timestamp snap) = true ∧
       Forall (λ e, is_enumeration (ev_call e) = true ∨ ev_call e = SetData (Some snap))
         (new_events w r.2) ∧
       (w_storage r.2 = w_storage w ∨
        w_storage r.2 = persistSnapshot (Some snap) (w_storage w)) ∧
       ∀ w0, let e := snapshotEffect (Some snap) w0 in
             e.1 = Ok tt ∧
             w_storage e.2 = persistSnapshot (Some snap) (w_storage w0) ∧
             Forall (λ ev, ev_call ev = SetData (Some snap)) (new_events w0 e.2)).
Proof.
  cbv zeta.
  destruct (captureSnapshot_run label w) as (b & w' & Hrun & Hcases). rewrite Hrun.
  cbn [fst snd]. split.
  - intros Hfail. destruct Hcases as [(-> & _ & Hrest) | (-> & ml & tables & Hm & Hcap & _)].
    + split; [reflexivity | exact Hrest].
    + exfalso. destruct Hfail as [Hr | (ml' & Hm' & Hex)]; [congruence|].
      assert (ml' = ml) by congruence. subst ml'.
      exact (captured_readable _ _ _ Hcap Hex).
  - intros metaList Hm Hread.
    destruct Hcases as [(-> & Hwhy & _) | (-> & ml & tables & Hm' & Hcap & Hsnap)].
    + exfalso. destruct Hwhy as [Hr | (ml & Hm' & Hex)]; [congruence|].
      assert (ml = metaList) by congruence. subst ml.
      apply Exists_exists in Hex as (meta & Hin & Hu).
      rewrite Forall_forall in Hread. exact (Hread meta Hin Hu).
    + assert (ml = metaList) by congruence. subst ml.
      exists tables. split; [exact Hcap|]. cbv zeta in *.
      destruct Hsnap as (Hs & Hst & Hev).
      split; [reflexivity|]. split; [exact Hs|]. split; [apply toISOString_iso8601|].
      split; [exact Hev|]. split; [right; exact Hst|].
      intros w0. destruct (snapshotEffect_run (Some (mkSnapshot label (toISOString (w_now w))
                             tables)) w0) as (H1 & H2 & _ & _ & H3).
      auto.
Qed.

Lemma performDeletion_appends sel selF :
  appends w_log (λ _, True) (performDeletion (Host:=Host) sel selF).
Proof.
  unfold performDeletion, executePlan, getTableMetaList.
  repeat first
    [ apply (appends_weaken _ _ _ _ (λ _ _, I) refreshTables_reads)
    | apply (appends_weaken _ _ _ _ (λ _ _, I) (deleteSelectedFields_calls sel _ _))
    | apply (appends_weaken _ _ _ _ (λ _ _, I) (deleteLastTableFields_calls sel _))
    | callback_step
    | apply appends_modify; reflexivity
    | apply appends_read_log; intros; exact I
    | apply appends_request_log; intros; exact I
    | match goal with |- appends _ _ (match ?x with _ => _ end) => destruct x end ].
Qed.

(** C4. In [handleDelete] the capture runs to its end before anything else:
    the calls of the run are those of the capture, none of which is a
    deletion, followed by the rest; there is a rest only when the capture
    has returned and either it succeeded or the user confirmed.  When the
    capture fails and the user does not confirm, no deletion is requested. *)
Theorem C4_capture_before_destroy (confirms : bool) w :
  let w' := (handleDelete confirms w).2 in
  ∃ cap rest,
    new_events w w' = cap ++ rest ∧
    Forall (λ e, is_deletion (ev_call e) = false) cap ∧
    (rest ≠ [] →
       ∃ ok w1, captureSnapshot "删除前自动快照" w = (Ok ok, w1) ∧
                new_events w w1 = cap ∧ (ok = true ∨ confirms = true)) ∧
    (∀ w1, captureSnapshot "删除前自动快照" w = (Ok false, w1) → confirms = false →
       Forall (λ e, is_deletion (ev_call e) = false) (new_events w w')).
Proof.
  cbv zeta. unfold handleDelete. rewrite run_bind. cbn [get_app].
  destruct (totalSelectedTargets (w_app w) =? 0).
  - exists [], []. cbn [toast modify snd]. erewrite new_events_app; [|symmetry; apply app_nil_r].
    repeat split; try constructor. congruence.
  - rewrite run_bind.
    destruct (captureSnapshot_calls "删除前自动快照" w) as (cap & Hcap & Hnodel).
    pose proof (captureSnapshot_settles "删除前自动快照" w) as Hsettles.
    destruct (captureSnapshot "删除前自动快照" w) as [[ok|] w1] eqn:Hrun;
      cbn [fst snd] in *; [|congruence].
    assert (Hdel : ∃ rest,
               w_log (performDeletion (app_selectedTables (w_app w))
                        (app_selectedFields (w_app w)) w1).2 = w_log w1 ++ rest).
    { destruct (performDeletion_appends (app_selectedTables (w_app w))
                  (app_selectedFields (w_app w)) w1) as (rest & Hl & _). eauto. }
    destruct Hdel as (rest & Hrest).
    destruct ok; [|destruct confirms].
    + exists cap, rest. split; [apply new_events_app; rewrite Hrest, Hcap, app_assoc; reflexivity|].
      split; [exact Hnodel|]. split.
      * intros _. exists true, w1. split; [reflexivity|].
        split; [apply new_events_app, Hcap | left; reflexivity].
      * intros w2 [=].
    + exists cap, rest. split; [apply new_events_app; rewrite Hrest, Hcap, app_assoc; reflexivity|].
      split; [exact Hnodel|]. split.
      * intros _. exists false, w1. split; [reflexivity|].
        split; [apply new_events_app, Hcap | right; reflexivity].
      * intros w2 _ [=].
    + exists cap, []. cbn [mret M_ret snd]. rewrite app_nil_r.
      split; [apply new_events_app, Hcap|]. split; [exact Hnodel|]. split.
      * congruence.
      * intros w2 _ _. rewrite (new_events_app _ _ _ Hcap). exact Hnodel.
Qed.

End CaptureClaims.

Lemma C5_witness :
  ∃ tables,
    Forall2 (captured (w_host (sim_world [tableA; tableB] emptyApp)))
      (map tb_meta [tableA; tableB]) tables ∧
    let w := sim_world [tableA; tableB] emptyApp in
    let r := captureSnapshot "手动快照" w in
    let snap := mkSnapshot "手动快照" (toISOString (w_now w)) tables in
    r.1 = Ok true ∧
    app_snapshot (w_app r.2) = Some snap ∧
    is_iso8601 (snap_timestamp snap) = true ∧
    Forall (λ e, is_enumeration (ev_call e) = true ∨ ev_call e = SetData (Some snap))
      (new_events w r.2) ∧
    (w_storage r.2 = w_storage w ∨
     w_storage r.2 = persistSnapshot (Some snap) (w_storage w)) ∧
    ∀ w0, let e := snapshotEffect (Some snap) w0 in
          e.1 = Ok tt ∧
          w_storage e.2 = persistSnapshot (Some snap) (w_storage w0) ∧
          Forall (λ ev, ev_call ev = SetData (Some snap)) (new_events w0 e.2).
Proof.
  apply (proj2 (C5_capture_is_atomic (Host:=SimHost) "手动快照"
                  (sim_world [tableA; tableB] emptyApp)) (map tb_meta [tableA; tableB])).
  - reflexivity.
  - repeat constructor; intros [Hu|Hu]; discriminate.
Defined.

Lemma C4_witness :
  let w := sim_world [tableA; tableB]
             (mkAppState [] false [("tblA", true)] [] None) in
  ∃ cap rest,
    new_events w (handleDelete false w).2 = cap ++ rest ∧
    Forall (λ e, is_deletion (ev_call e) = false) cap ∧
    (rest ≠ [] →
       ∃ ok w1, captureSnapshot "删除前自动快照" w = (Ok ok, w1) ∧
                new_events w w1 = cap ∧ (ok = true ∨ false = true)) ∧
    (∀ w1, captureSnapshot "删除前自动快照" w = (Ok false, w1) → false = false →
       Forall (λ e, is_deletion (ev_call e) = false) (new_events w (handleDelete false w).2)).
Proof.
  exact (C4_capture_before_destroy (Host:=SimHost) false
           (sim_world [tableA; tableB] (mkAppState [] false [("tblA", true)] [] None))).
Defined.

(** ** Snapshot store *)

Lemma all_as_map {A} (f : json → option A) (g : A → json) (l : list A) :
  (∀ a, f (g a) = Some a) → all_as f (map g l) = Some l.
Proof.
  intros Hfg. induction l as [|a l IH]; [reflexivity|].
  cbn [map all_as]. rewrite Hfg, IH. reflexivity.
Qed.

Lemma field_of_to_json f : field_of_json (field_to_json f) = Some f.
Proof. destruct f as [i n t [p|]]; reflexivity. Qed.

Lemma table_of_to_json t : table_of_json (table_to_json t) = Some t.
Proof.
  destruct t as [i n fs]. unfold table_to_json, table_of_json.
  cbn [member rev app obj_get String.eqb Ascii.eqb Bool.eqb as_string as_array
       st_tableId st_tableName st_fields].
  rewrite (all_as_map _ _ fs field_of_to_json). reflexivity.
Qed.

Lemma snapshot_of_to_json s : snapshot_of_json (snapshot_to_json s) = Some s.
Proof.
  destruct s as [l ts tables]. unfold snapshot_to_json, snapshot_of_json.
  cbn [member rev app obj_get String.eqb Ascii.eqb Bool.eqb as_string as_array
       snap_label snap_timestamp snap_tables].
  rewrite (all_as_map _ _ tables table_of_to_json). reflexivity.
Qed.

(** C9. The text that [persistSnapshot] writes for a snapshot parses back to
    that snapshot, whatever JSON value the property payloads are, Numbers
    with a fractional part or in exponent form included: through
    [JSON.stringify] and [JSON.parse], and through the local cache when it
    can be written; the field-type codes come back as they were; and every
    JSON value, a property payload in particular, is read back from its
    text. *)
Theorem C9_snapshot_round_trip (s : Snapshot) :
  JSON_parse (JSON_stringify (snapshot_to_json s)) ≫= snapshot_of_json = Some s ∧
  (∀ ls, ls_window ls = true → ls_denied ls = false →
     loadPersistedSnapshot (persistSnapshot (Some s) ls) = Some s) ∧
  (∀ s', JSON_parse (JSON_stringify (snapshot_to_json s)) ≫= snapshot_of_json = Some s' →
     map (λ t, map sf_type (st_fields t)) (snap_tables s')
     = map (λ t, map sf_type (st_fields t)) (snap_tables s)) ∧
  (∀ property : json, JSON_parse (JSON_stringify property) = Some property) ∧
  (∀ d : NonInteger,
     JSON_parse (string_of_list_ascii (print_decimal d)) = Some (JDec d)) ∧
  (∀ n : Z, JSON_parse (string_of_list_ascii (print_number n)) = Some (JNum n)).
Proof.
  assert (Hrt : JSON_parse (JSON_stringify (snapshot_to_json s)) ≫= snapshot_of_json = Some s).
  { rewrite JSON_parse_stringify. cbn [mbind option_bind]. apply snapshot_of_to_json. }
  split; [exact Hrt|]. split; [|split; [|split; [|split]]].
  - intros ls Hwin Hden. unfold persistSnapshot, loadPersistedSnapshot.
    rewrite Hwin, Hden. cbn [negb ls_window ls_denied ls_item].
    assert (Htruthy : truthy_string (JSON_stringify (snapshot_to_json s)) = true)
      by reflexivity.
    rewrite Htruthy. cbn [negb].
    rewrite JSON_parse_stringify, snapshot_of_to_json. reflexivity.
  - intros s' Hs'. rewrite Hrt in Hs'. injection Hs' as <-. reflexivity.
  - apply JSON_parse_stringify.
  - intros d. apply (JSON_parse_stringify (JDec d)).
  - intros n. apply (JSON_parse_stringify (JNum n)).
Qed.

Lemma C9_witness :
  let s := mkSnapshot "手动快照" "2025-01-15T09:30:00.000Z"
             [mkSnapshotTable "tblA" "A"
                [mkSnapshotField "fldA0" "Title" 1%Z None;
                 mkSnapshotField "fldA1" "Created" 1001%Z
                   (Some (JObj [("dateFormat", JStr "yyyy/MM/dd")]));
                 mkSnapshotField "fldA2" "Amount" 2%Z (Some numberProperty)]] in
  loadPersistedSnapshot (persistSnapshot (Some s) sim_storage) = Some s.
Proof.
  cbv zeta.
  apply (proj1 (proj2 (C9_snapshot_round_trip _)) sim_storage); reflexivity.
Defined.

(** The texts of Numbers: what [JSON.stringify] prints for them, and other
    ways of writing the same Numbers that [JSON.parse] reads. *)
Example Number_texts :
  let numbers := JArr [JDec half; JDec tiny; JDec debit; JNum (10 ^ 21); JNum 1200; JNum 0] in
  JSON_stringify numbers = "[0.5,1.5e-7,-1234.5,1e+21,1200,0]" ∧
  JSON_parse "[0.50, 15E-8, -12345e-1, 1000000000000000000000, 1.2e3, -0.0]" = Some numbers ∧
  JSON_parse "[1., 2]" = None ∧ JSON_parse "[.5]" = None ∧ JSON_parse "[01]" = None ∧
  JSON_parse "[1e]" = None.
Proof. vm_compute. repeat split; reflexivity. Qed.

Section StoreClaims.

Context {Host : Type} {GW : Gateway Host}.

Implicit Types (w : @World Host).

Lemma setSnapshot_state (next : option Snapshot) w :
  (setSnapshot next w).1 = Ok tt ∧ app_snapshot (w_app (setSnapshot next w).2) = next.
Proof.
  unfold setSnapshot, setSnapshotState, snapshotEffect, syncBridgeSnapshot, get_app, modify_app, modify,
    request, try_catch, mbind, M_bind, mret, M_ret.
  destruct (app_snapshot (w_app w)), next; destruct gw_setData as [setData|]; cbn;
    try (match goal with |- context [setData ?s ?h] =>
           destruct (setData s h) as [[[]|] h'] end; cbn);
    split; reflexivity.
Qed.

Lemma load_after_clear (ls : LocalStorage) :
  loadPersistedSnapshot (persistSnapshot None ls) = None.
Proof.
  unfold loadPersistedSnapshot, persistSnapshot.
  destruct (ls_window ls) eqn:Hw; cbn [negb]; [|rewrite Hw; reflexivity].
  destruct (ls_denied ls) eqn:Hd; [rewrite Hw, Hd; reflexivity|]. reflexivity.
Qed.

Lemma persist_over_clear (s : option Snapshot) (ls : LocalStorage) :
  persistSnapshot s (persistSnapshot None ls) = persistSnapshot s ls.
Proof.
  unfold persistSnapshot.
  destruct (ls_window ls) eqn:Hw; cbn [negb]; [|rewrite Hw; reflexivity].
  destruct (ls_denied ls) eqn:Hd; [rewrite Hw, Hd; reflexivity|].
  destruct s; reflexivity.
Qed.

(** The fallback takes what the cache holds when it is read. *)
Lemma loadFromCache_run w :
  (loadFromCache w).1 = Ok tt ∧
  app_snapshot (w_app (loadFromCache w).2) =
    match loadPersistedSnapshot (w_storage w) with
    | Some persisted => Some persisted
    | None => app_snapshot (w_app w)
    end ∧
  (loadPersistedSnapshot (w_storage w) = None → loadFromCache w = (Ok tt, w)).
Proof.
  unfold loadFromCache. rewrite run_bind. cbv beta iota.
  destruct (loadPersistedSnapshot (w_storage w)) as [p|]; [|repeat split; reflexivity].
  rewrite run_bind. destruct (setSnapshot_state (Some p) w) as [Hr Hs].
  destruct (setSnapshot (Some p) w) as [r w1]. cbn [fst snd] in *. subst r.
  split; [reflexivity|]. split; [exact Hs | discriminate].
Qed.

(** C8 fails on the code.  When the component mounts, [loadSnapshot] is
    suspended on [bridge.getData] while the effect of the first render, whose
    snapshot is [null], clears the local cache; so when the bridge then
    raises or answers [undefined] (or [null]), the fallback reads an empty
    cache: no snapshot is adopted, and the one that was cached is gone.  A
    snapshot that the bridge returns is adopted, and without [getData]
    the cached snapshot is adopted and written back. *)
Theorem C8_cache_fallback_is_lost w :
  app_snapshot (w_app w) = None →
  let r := mountSnapshot w in
  r.1 = Ok tt ∧
  match gw_getData with
  | Some getData =>
      match getData (w_host w) with
      | Ok (BStored s) => app_snapshot (w_app r.2) = Some s
      | Ok BNull | Ok BUndefined | Raise =>
          app_snapshot (w_app r.2) = None ∧
          w_storage r.2 = persistSnapshot None (w_storage w) ∧
          loadPersistedSnapshot (w_storage r.2) = None ∧
          new_toasts w r.2 = []
      end
  | None =>
      app_snapshot (w_app r.2) = loadPersistedSnapshot (w_storage w) ∧
      w_storage r.2 =
        persistSnapshot (loadPersistedSnapshot (w_storage w)) (w_storage w)
  end.
Proof.
  intros Hinit. cbv zeta. unfold mountSnapshot.
  destruct gw_getData as [getData|].
  - rewrite run_bind. unfold requestStored. cbv beta zeta iota.
    set (w1 := add_log _ w).
    destruct (snapshotEffect_run None w1) as (He1 & He2 & He3 & He4 & _).
    rewrite run_bind.
    destruct (snapshotEffect None w1) as [r2 w2]. cbn [fst snd] in *. subst r2.
    assert (Hclear : loadPersistedSnapshot (w_storage w2) = None)
      by (rewrite He2; apply load_after_clear).
    assert (Hsnap2 : app_snapshot (w_app w2) = None) by (rewrite He3; exact Hinit).
    unfold resumeLoadSnapshot. rewrite run_bind, run_try_catch, run_bind.
    destruct (getData (w_host w)) as [[| |s]|].
    + cbn [mret M_ret]. destruct (loadFromCache_run w2) as (_ & _ & Hsame).
      rewrite (Hsame Hclear). cbn [fst snd]. split; [reflexivity|].
      split; [exact Hsnap2|]. split; [exact He2|]. split; [exact Hclear|].
      apply new_toasts_app. rewrite He4. subst w1. cbn [w_toasts add_log].
      rewrite app_nil_r. reflexivity.
    + cbv beta iota. rewrite run_bind.
      assert (Hnone : setSnapshot None w2 = (Ok tt, w2)).
      { unfold setSnapshot, setSnapshotState, get_app, modify_app, modify, mbind, M_bind,
          mret, M_ret. rewrite Hsnap2. destruct w2 as [h l t e st n [ta le sa sf sn]].
        cbn in Hsnap2 |- *. subst sn. reflexivity. }
      rewrite Hnone. cbn [mret M_ret fst snd]. split; [reflexivity|].
      split; [exact Hsnap2|]. split; [exact He2|]. split; [exact Hclear|].
      apply new_toasts_app. rewrite He4. subst w1. cbn [w_toasts add_log].
      rewrite app_nil_r. reflexivity.
    + cbv beta iota. rewrite !run_bind.
      destruct (setSnapshot_state (Some s) w2) as [Hr Hs].
      destruct (setSnapshot (Some s) w2) as [r w3]. cbn [fst snd] in *. subst r.
      cbn [toast modify mret M_ret fst snd w_app add_toast]. split; [reflexivity | exact Hs].
    + cbn [mret M_ret]. destruct (loadFromCache_run w2) as (_ & _ & Hsame).
      rewrite (Hsame Hclear). cbn [fst snd]. split; [reflexivity|].
      split; [exact Hsnap2|]. split; [exact He2|]. split; [exact Hclear|].
      apply new_toasts_app. rewrite He4. subst w1. cbn [w_toasts add_log].
      rewrite app_nil_r. reflexivity.
  - rewrite run_bind. cbv beta iota.
    destruct (loadPersistedSnapshot (w_storage w)) as [p|].
    + rewrite run_bind. cbn [setSnapshotState modify_app modify]. rewrite run_bind.
      cbn [toast modify]. rewrite run_bind.
      set (w1 := add_toast _ _).
      destruct (snapshotEffect_run None w1) as (He1 & He2 & He3 & _).
      destruct (snapshotEffect None w1) as [r2 w2]. cbn [fst snd] in *. subst r2.
      destruct (snapshotEffect_run (Some p) w2) as (Hf1 & Hf2 & Hf3 & _).
      split; [exact Hf1|]. rewrite Hf3, He3, Hf2, He2. subst w1.
      cbn [w_app w_storage add_toast set_app app_snapshot].
      split; [reflexivity | apply persist_over_clear].
    + destruct (snapshotEffect_run None w) as (He1 & He2 & He3 & _).
      split; [exact He1|]. rewrite He3, He2. split; [exact Hinit | reflexivity].
Qed.

End StoreClaims.

(** The failing input of C8: the cache holds a snapshot and the bridge cannot
    be reached. *)
Lemma C8_witness :
  let cached := mkSnapshot "手动快照" "2025-01-15T09:30:00.000Z" [] in
  let w := mkWorld (mkSimHost [tableA] 0 true Raise) [] [] []
             (persistSnapshot (Some cached) sim_storage) sim_date emptyApp in
  loadPersistedSnapshot (w_storage w) = Some cached ∧
  (mountSnapshot w).1 = Ok tt ∧
  app_snapshot (w_app (mountSnapshot w).2) = None ∧
  w_storage (mountSnapshot w).2 = persistSnapshot None (w_storage w) ∧
  loadPersistedSnapshot (w_storage (mountSnapshot w).2) = None ∧
  new_toasts w (mountSnapshot w).2 = [].
Proof.
  cbv zeta. split; [vm_compute; reflexivity|].
  exact (C8_cache_fallback_is_lost (Host:=SimHost)
           (mkWorld (mkSimHost [tableA] 0 true Raise) [] [] []
              (persistSnapshot (Some (mkSnapshot "手动快照" "2025-01-15T09:30:00.000Z" []))
                 sim_storage) sim_date emptyApp) eq_refl).
Defined.

(** ** Rollback: names *)

Lemma append_inj_l a b c : a +:+ b = a +:+ c → b = c.
Proof. induction a as [|x a IH]; cbn; [auto | intros [= Heq]; auto]. Qed.

Lemma append_nonempty a x b : a +:+ String x b ≠ "".
Proof. destruct a; discriminate. Qed.

Lemma append_inj_last a b x : a +:+ String x "" = b +:+ String x "" → a = b.
Proof.
  revert b. induction a as [|y a IH]; intros [|z b]; cbn.
  - reflexivity.
  - intros [= _ Heq]. symmetry in Heq. exfalso. exact (append_nonempty _ _ _ Heq).
  - intros [= _ Heq]. exfalso. exact (append_nonempty _ _ _ Heq).
  - intros [= -> Heq]. f_equal. auto.
Qed.

Lemma append_self a b : a +:+ b = a → b = "".
Proof. induction a as [|x a IH]; cbn; [auto | intros [= Heq]; auto]. Qed.

Lemma to_uint_nonnil n : Nat.to_uint n ≠ Decimal.Nil.
Proof.
  rewrite <- (DecimalNat.Unsigned.of_to n) at 1. rewrite DecimalNat.Unsigned.to_of.
  apply DecimalFacts.unorm_nonnil.
Qed.

Lemma decimal_inj n m : decimal n = decimal m → n = m.
Proof.
  unfold decimal. intros Heq. apply (f_equal NilZero.uint_of_string) in Heq.
  rewrite !NilZero.usu in Heq by apply to_uint_nonnil.
  injection Heq as Heq. apply DecimalNat.Unsigned.to_uint_inj, Heq.
Qed.

Lemma suffixed_inj base n m : suffixed base n = suffixed base m → n = m.
Proof.
  unfold suffixed. intros Heq. apply append_inj_l, append_inj_l in Heq.
  apply append_inj_last in Heq. apply decimal_inj, Heq.
Qed.

Lemma suffixed_ne_base base n : suffixed base n ≠ base.
Proof. unfold suffixed. intros Heq. apply append_self in Heq. discriminate. Qed.

#[export] Instance candidate_inj base : Inj (=) (=) (candidate base).
Proof.
  intros [|j] [|k]; cbn [candidate]; intros Heq.
  - reflexivity.
  - symmetry in Heq. exfalso. exact (suffixed_ne_base _ _ Heq).
  - exfalso. exact (suffixed_ne_base _ _ Heq).
  - apply suffixed_inj in Heq. exact Heq.
Qed.

(** A set cannot hold more candidates than it has elements. *)
Lemma candidates_bounded (existing : gset string) base n :
  (∀ j, j ≤ n → candidate base j ∈ existing) → n < size existing.
Proof.
  intros Hall.
  assert (Hnd : NoDup (candidate base <$> seq 0 (S n))).
  { apply NoDup_fmap_2; [apply _ | apply NoDup_seq]. }
  assert (Hsub : (list_to_set (candidate base <$> seq 0 (S n)) : gset string) ⊆ existing).
  { intros x Hx. apply elem_of_list_to_set, list_elem_of_fmap in Hx as (j & -> & Hj).
    apply elem_of_seq in Hj. apply Hall. lia. }
  apply subseteq_size in Hsub. rewrite size_list_to_set in Hsub by exact Hnd.
  rewrite length_fmap, length_seq in Hsub. lia.
Qed.

(** The loop, from the [k]-th candidate on, with [fuel] rounds left. *)
Lemma uniqueNameLoop_spec fuel (existing : gset string) base k :
  (∀ j, j < k → candidate base j ∈ existing) →
  ∃ n, k ≤ n ≤ k + fuel ∧
       uniqueNameLoop fuel existing base (candidate base k) (S k) = candidate base n ∧
       (∀ j, j < n → candidate base j ∈ existing) ∧
       ((candidate base n ∉ existing) ∨ n = k + fuel).
Proof.
  revert k. induction fuel as [|fuel IH]; intros k Hbelow.
  - exists k. cbn [uniqueNameLoop]. case_bool_decide; (split; [lia|]);
      (split; [reflexivity|]); (split; [exact Hbelow|]); [right; lia | left; assumption].
  - cbn [uniqueNameLoop]. case_bool_decide as Hin.
    + destruct (IH (S k)) as (n & Hn & Hr & Hb & Hend).
      { intros j Hj. destruct (decide (j = k)) as [->|]; [exact Hin | apply Hbelow; lia]. }
      exists n. split; [lia|]. split; [exact Hr|]. split; [exact Hb|].
      destruct Hend; [left; assumption | right; lia].
    + exists k. split; [lia|]. split; [reflexivity|]. split; [exact Hbelow|]. left. exact Hin.
Qed.

(** The name chosen for a restored table: free, the marked name itself when
    that is free, and otherwise the marked name with the least suffix from 1
    on that is free. *)
Lemma uniqueName_spec (existing : gset string) tableName :
  let base := "♻️ " +:+ tableName in
  ∃ n, uniqueName existing tableName = candidate base n ∧
       (candidate base n ∉ existing) ∧
       ∀ j, j < n → candidate base j ∈ existing.
Proof.
  cbv zeta. unfold uniqueName.
  destruct (uniqueNameLoop_spec (size existing) existing ("♻️ " +:+ tableName) 0)
    as (n & Hn & Hr & Hb & Hend); [intros j Hj; lia|].
  exists n. split; [exact Hr|]. split; [|exact Hb].
  destruct Hend as [Hfree | ->]; [exact Hfree|]. intros Hin.
  assert (size existing < size existing); [|lia].
  apply (candidates_bounded existing ("♻️ " +:+ tableName)). intros j Hj.
  destruct (decide (j = 0 + size existing)) as [->|]; [exact Hin | apply Hb; lia].
Qed.

(** ** Rollback: the run *)

Section RollbackFacts.

Context {Host : Type} {GW : Gateway Host}.

Variable E : FieldTypeEnum.

Implicit Types (w : @World Host).

(** One field: skipped with one note, or requested with its configuration. *)
Lemma restoreField_run tableId rollbackTableName (f : SnapshotField) w :
  ∃ w' evs notes,
    restoreField E tableId rollbackTableName f w = (Ok tt, w') ∧
    w_log w' = w_log w ++ evs ∧ w_errors w' = w_errors w ++ notes ∧
    if is_blocked E f then
      evs = [] ∧ notes = [SystemFieldSkipped (sf_name f) (sf_type f)]
    else if is_non_portable E f then
      evs = [] ∧ notes = [ComplexFieldUnsupported (sf_name f) (sf_type f)]
    else
      ∃ ok, evs = [mkEvent (AddField tableId (field_config f)) ok] ∧
            notes = if ok then [] else [FieldRebuildFailed (sf_name f) rollbackTableName].
Proof.
  unfold restoreField, is_blocked, is_non_portable.
  destruct (includes (BLOCKED_ROLLBACK_FIELD_TYPES E) (sf_type f)).
  { eexists _, [], [_]. rewrite app_nil_r. cbn. auto. }
  destruct (includes (NON_PORTABLE_ROLLBACK_FIELD_TYPES E) (sf_type f)).
  { eexists _, [], [_]. rewrite app_nil_r. cbn. auto. }
  rewrite run_try_catch. unfold addField, request. fold (field_config f).
  destruct (gw_addField tableId (field_config f) (w_host w)) as [[[]|] h].
  - eexists _, [_], []. rewrite app_nil_r. split; [reflexivity|].
    split; [reflexivity|]. split; [reflexivity|]. exists true. split; reflexivity.
  - eexists _, [_], [_]. split; [reflexivity|].
    split; [reflexivity|]. split; [reflexivity|]. exists false. split; reflexivity.
Qed.

Lemma blocked_not_non_portable (f : SnapshotField) :
  enum_distinct E → is_blocked E f = true → is_non_portable E f = false.
Proof.
  unfold enum_distinct, is_blocked, is_non_portable, includes. intros Hnd Hb.
  apply NoDup_app in Hnd as (_ & Hdisj & _).
  destruct (existsb (Z.eqb (sf_type f)) (NON_PORTABLE_ROLLBACK_FIELD_TYPES E)) eqn:Hn;
    [|reflexivity].
  apply existsb_exists in Hb as (x & Hx & Hxe). apply existsb_exists in Hn as (y & Hy & Hye).
  apply Z.eqb_eq in Hxe, Hye. subst x y.
  exfalso. apply (Hdisj (sf_type f)); apply list_elem_of_In; assumption.
Qed.

Lemma restoreFields_run tableId rollbackTableName (fields : list SnapshotField) w :
  enum_distinct E →
  ∃ w' evs notes,
    restoreFields E tableId rollbackTableName fields w = (Ok tt, w') ∧
    w_log w' = w_log w ++ evs ∧ w_errors w' = w_errors w ++ notes ∧
    calls evs = map (λ f, AddField tableId (field_config f))
                  (List.filter (is_portable E) fields) ∧
    List.filter is_system_note notes =
      map (λ f, SystemFieldSkipped (sf_name f) (sf_type f))
        (List.filter (is_blocked E) fields) ∧
    List.filter is_complex_note notes =
      map (λ f, ComplexFieldUnsupported (sf_name f) (sf_type f))
        (List.filter (is_non_portable E) fields).
Proof.
  intros Hnd. unfold restoreFields. revert w.
  induction fields as [|f fields IH]; intros w.
  - eexists w, [], []. rewrite !app_nil_r. repeat (split; [reflexivity|]). reflexivity.
  - cbn [for_each]. rewrite run_bind.
    destruct (restoreField_run tableId rollbackTableName f w)
      as (w1 & evs1 & notes1 & -> & Hl1 & He1 & Hcase).
    destruct (IH w1) as (w2 & evs2 & notes2 & -> & Hl2 & He2 & Hc & Hs & Hx).
    exists w2, (evs1 ++ evs2), (notes1 ++ notes2).
    rewrite Hl2, Hl1, He2, He1, <- !app_assoc.
    split; [reflexivity|]. split; [reflexivity|]. split; [reflexivity|].
    unfold calls in *. rewrite map_app, !List.filter_app, Hc, Hs, Hx.
    cbn [List.filter]. unfold is_portable.
    pose proof (blocked_not_non_portable f Hnd) as Hdisj.
    destruct (is_blocked E f) eqn:Hb.
    + rewrite (Hdisj eq_refl). destruct Hcase as [-> ->]. cbn. auto.
    + destruct (is_non_portable E f) eqn:Hn.
      * destruct Hcase as [-> ->]. cbn. auto.
      * destruct Hcase as (ok & -> & ->). destruct ok; cbn; auto.
Qed.

(** The field loop pushes field notes only, never a table note. *)
Lemma restoreFields_notes tableId rollbackTableName (fields : list SnapshotField) w :
  ∃ notes,
    w_errors (restoreFields E tableId rollbackTableName fields w).2 = w_errors w ++ notes ∧
    List.filter is_table_failed_note notes = [].
Proof.
  assert (Ha : appends w_errors (λ n, is_table_failed_note n = false)
            (restoreFields (Host:=Host) E tableId rollbackTableName fields)).
  { unfold restoreFields, restoreField, addField.
    repeat first
      [ callback_step
      | apply appends_push_error; reflexivity
      | apply appends_request_apart; apply apart_errors
      | match goal with |- appends _ _ (if ?x then _ else _) => destruct x end ]. }
  destruct (Ha w) as (notes & He & Hf). exists notes. split; [exact He|].
  clear He. induction Hf as [|n notes Hn Hf IH]; [reflexivity|]. cbn. rewrite Hn. exact IH.
Qed.

End RollbackFacts.

Section RollbackClaims.

Context {Host : Type} {GW : Gateway Host}.

Variable E : FieldTypeEnum.

Implicit Types (w : @World Host).

Lemma added_tables_app e1 e2 : added_tables (e1 ++ e2) = added_tables e1 ++ added_tables e2.
Proof. unfold added_tables. apply omap_app. Qed.

Lemma added_tables_cons e evs :
  added_tables (e :: evs) =
  match ev_call e with
  | AddTable name => if ev_ok e then name :: added_tables evs else added_tables evs
  | _ => added_tables evs
  end.
Proof.
  unfold added_tables. cbn.
  destruct (ev_call e); try reflexivity. destruct (ev_ok e); reflexivity.
Qed.

Lemma added_tables_none evs :
  Forall (λ e, ∀ n, ev_call e ≠ AddTable n) evs → added_tables evs = [].
Proof.
  induction 1 as [|e evs He Hevs IH]; [reflexivity|].
  rewrite added_tables_cons, IH.
  destruct (ev_call e) eqn:Hc; try reflexivity. exfalso. exact (He _ eq_refl).
Qed.

Lemma enumeration_not_AddField e :
  is_enumeration (ev_call e) = true → ∀ t c, ev_call e ≠ AddField t c.
Proof. intros He t c Hn. rewrite Hn in He. discriminate. Qed.

Lemma enumeration_not_AddTable e :
  is_enumeration (ev_call e) = true → ∀ n, ev_call e ≠ AddTable n.
Proof. intros He n Hn. rewrite Hn in He. discriminate. Qed.

Lemma table_body_calls tableId rollbackTableName fields :
  appends w_log (λ e, ∀ n, ev_call e ≠ AddTable n)
    (try_catch
       (getTableById (Host:=Host) tableId ;;
        renamePrimary tableId rollbackTableName ;;
        restoreFields E tableId rollbackTableName fields)
       (push_error (TableRebuildFailed rollbackTableName))).
Proof.
  unfold renamePrimary, restoreFields, restoreField, getTableById, getFieldMetaList,
    setField, addField, push_error.
  repeat first
    [ callback_step
    | apply appends_modify; reflexivity
    | apply appends_read_log; intros; discriminate
    | apply appends_request_log; intros; discriminate
    | match goal with |- appends _ _ (match ?x with _ => _ end) => destruct x end
    | match goal with |- appends _ _ (if ?x then _ else _) => destruct x end ].
Qed.

(** One snapshot table: one [addTable] with the name chosen among the names
    known so far; the name joins them when the table was created. *)
Lemma restoreTable_run (existing : gset string) (t : SnapshotTable) w :
  let name := uniqueName existing (st_tableName t) in
  ∃ w' (ok : bool) evs,
    restoreTable E existing t w =
      (Ok (if ok then {[name]} ∪ existing else existing), w') ∧
    w_log w' = w_log w ++ mkEvent (AddTable name) ok :: evs ∧
    Forall (λ e, ∀ n, ev_call e ≠ AddTable n) evs.
Proof.
  cbv zeta. unfold restoreTable. rewrite run_bind, run_try_catch, run_bind.
  unfold addTable, request.
  destruct (gw_addTable (uniqueName existing (st_tableName t)) (w_host w)) as [[tableId|] h].
  - cbn [mret M_ret is_ok]. rewrite run_bind.
    set (w1 := add_log _ (set_host h w)).
    destruct (table_body_calls tableId (uniqueName existing (st_tableName t))
                (st_fields t) w1) as (evs & Hl & Hf).
    assert (Hs : settles (try_catch
                (getTableById (Host:=Host) tableId ;;
                 renamePrimary tableId (uniqueName existing (st_tableName t)) ;;
                 restoreFields E tableId (uniqueName existing (st_tableName t)) (st_fields t))
                (push_error (TableRebuildFailed (uniqueName existing (st_tableName t))))))
      by (apply settles_try_catch, settles_modify).
    specialize (Hs w1).
    destruct (try_catch _ _ w1) as [[[]|] w2]; cbn [fst snd] in *; [|congruence].
    exists w2, true, evs. split; [reflexivity|]. split; [|exact Hf].
    rewrite Hl. subst w1. cbn [w_log add_log set_host]. rewrite <- app_assoc. reflexivity.
  - exists (set_errors
              (w_errors w ++ [TableRebuildFailed (uniqueName existing (st_tableName t))])
              (add_log (mkEvent (AddTable (uniqueName existing (st_tableName t))) false)
                 (set_host h w))), false, [].
    split; [reflexivity|]. split; [reflexivity | constructor].
Qed.

Lemma restoreTables_run (tables : list SnapshotTable) (existing : gset string) w :
  ∃ w' final evs (created : list (SnapshotTable * string)),
    restoreTables E tables existing w = (Ok final, w') ∧
    w_log w' = w_log w ++ evs ∧
    added_tables evs = map snd created ∧
    sublist (map fst created) tables ∧
    Forall (λ tn, restored_name tn.1 tn.2) created ∧
    NoDup (map snd created) ∧
    (∀ n, n ∈ map snd created → n ∉ existing) ∧
    final = list_to_set (map snd created) ∪ existing.
Proof.
  revert existing w. induction tables as [|t tables IH]; intros existing w.
  - exists w, existing, [], []. rewrite app_nil_r. cbn.
    repeat split; try constructor.
    + intros n Hn. inversion Hn.
    + rewrite (left_id_L ∅ (∪)). reflexivity.
  - cbn [restoreTables]. rewrite run_bind.
    destruct (restoreTable_run existing t w) as (w1 & ok & evs1 & -> & Hl1 & Hf1).
    destruct (uniqueName_spec existing (st_tableName t)) as (k & Hname & Hfree & _).
    set (name := uniqueName existing (st_tableName t)) in *.
    destruct (IH (if ok then {[name]} ∪ existing else existing) w1)
      as (w2 & final & evs2 & created & -> & Hl2 & Ha & Hsub & Hform & Hnd & Hnew & ->).
    destruct ok.
    + exists w2, (list_to_set (map snd ((t, name) :: created)) ∪ existing),
        (mkEvent (AddTable name) true :: evs1 ++ evs2), ((t, name) :: created).
      split.
      { f_equal. f_equal. cbn [map snd list_to_set].
        rewrite (assoc_L (∪)), (comm_L (∪) (list_to_set (map snd created)) {[name]}).
        reflexivity. }
      split; [rewrite Hl2, Hl1, <- app_assoc; reflexivity|].
      split.
      { change (added_tables (?e :: evs1 ++ evs2))
          with (name :: added_tables (evs1 ++ evs2)).
        rewrite added_tables_app, (added_tables_none _ Hf1), Ha. reflexivity. }
      split; [cbn; apply sublist_skip, Hsub|].
      split; [constructor; [exists k; exact Hname | exact Hform]|].
      split.
      { cbn. constructor; [|exact Hnd]. intros Hin. apply (Hnew _ Hin).
        apply elem_of_union_l, elem_of_singleton. reflexivity. }
      split; [|reflexivity].
      intros n Hn. cbn in Hn. apply elem_of_cons in Hn as [->|Hn].
      * rewrite <- Hname in Hfree. exact Hfree.
      * intros Hx. apply (Hnew n Hn). apply elem_of_union_r, Hx.
    + exists w2, (list_to_set (map snd created) ∪ existing),
        (mkEvent (AddTable name) false :: evs1 ++ evs2), created.
      split; [reflexivity|].
      split; [rewrite Hl2, Hl1, <- app_assoc; reflexivity|].
      split.
      { change (added_tables (?e :: evs1 ++ evs2)) with (added_tables (evs1 ++ evs2)).
        rewrite added_tables_app, (added_tables_none _ Hf1), Ha. reflexivity. }
      split; [apply sublist_cons, Hsub|].
      repeat (split; [assumption|]). reflexivity.
Qed.

Lemma added_fields_app e1 e2 : added_fields (e1 ++ e2) = added_fields e1 ++ added_fields e2.
Proof. unfold added_fields. apply omap_app. Qed.

Lemma added_fields_calls tableId evs (fs : list SnapshotField) :
  calls evs = map (λ f, AddField tableId (field_config f)) fs →
  added_fields evs = map (λ f, (tableId, field_config f)) fs.
Proof.
  revert fs. induction evs as [|e evs IH]; intros [|f fs]; cbn; try discriminate;
    [reflexivity|].
  intros [= He Hevs]. unfold added_fields in *. cbn. rewrite He. cbn.
  rewrite (IH fs Hevs). reflexivity.
Qed.

Lemma added_fields_none evs :
  Forall (λ e, ∀ t c, ev_call e ≠ AddField t c) evs → added_fields evs = [].
Proof.
  induction 1 as [|e evs He Hevs IH]; [reflexivity|].
  unfold added_fields in *. cbn. rewrite IH.
  destruct (ev_call e) eqn:Hc; try reflexivity. exfalso. exact (He _ _ eq_refl).
Qed.

Lemma filter_plain (p : Note → bool) notes :
  (∀ n, plain_note n → p n = false) → Forall plain_note notes → List.filter p notes = [].
Proof.
  intros Hp. induction 1 as [|n notes Hn Hnotes IH]; [reflexivity|].
  cbn. rewrite (Hp n Hn). exact IH.
Qed.

(** The renaming of the index field of a new table: it settles, requests no
    field and no table, and pushes at most a note of its own. *)
Lemma renamePrimary_run tableId rollbackTableName w :
  ∃ w' evs notes,
    renamePrimary tableId rollbackTableName w = (Ok tt, w') ∧
    w_log w' = w_log w ++ evs ∧ w_errors w' = w_errors w ++ notes ∧
    Forall (λ e, ∀ t c, ev_call e ≠ AddField t c) evs ∧
    Forall plain_note notes.
Proof.
  assert (Hlog : appends w_log (λ e, ∀ t c, ev_call e ≠ AddField t c)
            (renamePrimary (Host:=Host) tableId rollbackTableName)).
  { unfold renamePrimary, getFieldMetaList, setField, push_error.
    repeat first
      [ callback_step
      | apply appends_modify; reflexivity
      | apply appends_read_log; intros; discriminate
      | apply appends_request_log; intros; discriminate
      | match goal with |- appends _ _ (match ?x with _ => _ end) => destruct x end
      | match goal with |- appends _ _ (if ?x then _ else _) => destruct x end ]. }
  assert (Herr : appends w_errors plain_note
            (renamePrimary (Host:=Host) tableId rollbackTableName)).
  { unfold renamePrimary, getFieldMetaList, setField.
    repeat first
      [ callback_step
      | apply appends_push_error; repeat split
      | apply appends_read_apart; apply apart_errors
      | apply appends_request_apart; apply apart_errors
      | match goal with |- appends _ _ (match ?x with _ => _ end) => destruct x end
      | match goal with |- appends _ _ (if ?x then _ else _) => destruct x end ]. }
  assert (Hs : settles (renamePrimary (Host:=Host) tableId rollbackTableName))
    by (apply settles_try_catch, settles_modify).
  destruct (Hlog w) as (evs & Hl & Hf). destruct (Herr w) as (notes & He & Hn).
  specialize (Hs w).
  destruct (renamePrimary tableId rollbackTableName w) as [[[]|] w']; cbn [fst snd] in *;
    [|congruence].
  exists w', evs, notes. auto.
Qed.

Lemma opened_ids_app e1 e2 : opened_ids (e1 ++ e2) = opened_ids e1 ++ opened_ids e2.
Proof. unfold opened_ids. apply omap_app. Qed.

Lemma opened_ids_none evs :
  Forall (λ e, ∀ id, ev_call e ≠ GetTableById id) evs → opened_ids evs = [].
Proof.
  induction 1 as [|e evs He Hevs IH]; [reflexivity|].
  unfold opened_ids in *. cbn. rewrite IH.
  destruct (ev_call e) eqn:Hc; try reflexivity. exfalso. exact (He _ eq_refl).
Qed.

(** After a new table is opened, no table is opened for it again. *)
Lemma table_fields_opens tableId rollbackTableName fields :
  appends w_log (λ e, ∀ id, ev_call e ≠ GetTableById id)
    (renamePrimary (Host:=Host) tableId rollbackTableName ;;
     restoreFields E tableId rollbackTableName fields).
Proof.
  unfold renamePrimary, restoreFields, restoreField, getFieldMetaList,
    setField, addField, push_error.
  repeat first
    [ callback_step
    | apply appends_modify; reflexivity
    | apply appends_read_log; intros; discriminate
    | apply appends_request_log; intros; discriminate
    | match goal with |- appends _ _ (match ?x with _ => _ end) => destruct x end
    | match goal with |- appends _ _ (if ?x then _ else _) => destruct x end ].
Qed.

Lemma table_requests_app e1 e2 :
  table_requests (e1 ++ e2) = table_requests e1 ++ table_requests e2.
Proof. unfold table_requests. apply omap_app. Qed.

Lemma table_requests_none evs :
  Forall (λ e, ∀ n, ev_call e ≠ AddTable n) evs → table_requests evs = [].
Proof.
  induction 1 as [|e evs He Hevs IH]; [reflexivity|].
  unfold table_requests in *. cbn. rewrite IH.
  destruct (ev_call e) eqn:Hc; try reflexivity. exfalso. exact (He _ eq_refl).
Qed.

(** The name that the loop finds is the first free name of the rule. *)
Lemma uniqueName_first_free (names : gset string) (tableName : string) :
  first_free names ("♻️ " +:+ tableName) (uniqueName names tableName).
Proof.
  destruct (uniqueName_spec names tableName) as (n & Hname & Hfree & Hbelow).
  cbv zeta in *. rewrite Hname. split; [exact Hfree|].
  destruct n as [|n].
  - left. split; [exact Hfree | reflexivity].
  - right. split; [exact (Hbelow 0 ltac:(lia))|].
    exists (S n). split; [lia|]. split; [reflexivity|].
    intros j Hj. destruct j as [|j]; [lia|]. exact (Hbelow (S j) ltac:(lia)).
Qed.

(** The requests of the loop over the snapshot tables follow the rule. *)
Lemma restoreTables_requests (tables : list SnapshotTable) (existing : gset string) w :
  ∃ evs,
    w_log (restoreTables E tables existing w).2 = w_log w ++ evs ∧
    names_by_rule existing tables (table_requests evs).
Proof.
  revert existing w. induction tables as [|t tables IH]; intros existing w.
  - exists []. rewrite app_nil_r. split; [reflexivity | exact I].
  - cbn [restoreTables]. rewrite run_bind.
    destruct (restoreTable_run existing t w) as (w1 & ok & evs1 & -> & Hl1 & Hf1).
    cbv zeta in *. set (name := uniqueName existing (st_tableName t)) in *.
    destruct (IH (if ok then {[name]} ∪ existing else existing) w1) as (evs2 & Hl2 & Hrule).
    exists (mkEvent (AddTable name) ok :: evs1 ++ evs2).
    split; [rewrite Hl2, Hl1, <- app_assoc; reflexivity|].
    change (table_requests (?e :: evs1 ++ evs2))
      with ((name, ok) :: table_requests (evs1 ++ evs2)).
    rewrite table_requests_app, (table_requests_none _ Hf1). cbn [app names_by_rule].
    split; [apply uniqueName_first_free | exact Hrule].
Qed.

(** One snapshot table, with its fields: when the table is created and
    opened, its fields are handled by the rules; when it is not, nothing is
    requested for its fields and one table note is pushed. *)
Lemma restoreTable_fields_run (existing : gset string) (t : SnapshotTable) w :
  enum_distinct E →
  ∃ w' final evs notes (opened : list (SnapshotTable * string)),
    restoreTable E existing t w = (Ok final, w') ∧
    w_log w' = w_log w ++ evs ∧ w_errors w' = w_errors w ++ notes ∧
    sublist (map fst opened) [t] ∧
    opened_ids evs = map snd opened ∧
    added_fields evs = fields_requested E opened ∧
    List.filter is_system_note notes = system_notes E opened ∧
    List.filter is_complex_note notes = complex_notes E opened ∧
    length (List.filter is_table_failed_note notes) + length opened = 1.
Proof.
  intros Hnd. unfold restoreTable. rewrite run_bind, run_try_catch, run_bind.
  set (name := uniqueName existing (st_tableName t)).
  unfold addTable, request.
  destruct (gw_addTable name (w_host w)) as [[tableId|] h].
  - cbn [mret M_ret is_ok]. rewrite run_bind, run_try_catch, run_bind.
    set (w1 := add_log _ (set_host h w)).
    unfold getTableById at 1. rewrite run_read.
    destruct (gw_getTableById tableId (w_host w1)) as [[]|].
    + rewrite run_bind. set (w2 := add_log _ w1).
      destruct (renamePrimary_run tableId name w2)
        as (w3 & evsR & notesR & Hrp & Hl3 & He3 & HfR & HnR).
      rewrite Hrp.
      destruct (restoreFields_notes E tableId name (st_fields t) w3)
        as (notes' & Hen & Hplain).
      destruct (restoreFields_run E tableId name (st_fields t) w3 Hnd)
        as (w4 & evsF & notesF & Hrun & Hl4 & He4 & Hc & Hsys & Hcx).
      assert (Hopens : opened_ids (evsR ++ evsF) = []).
      { destruct (table_fields_opens tableId name (st_fields t) w2) as (evs' & Hl' & Hf').
        rewrite run_bind, Hrp, Hrun in Hl'. cbn [snd] in Hl'.
        rewrite Hl4, Hl3, <- app_assoc in Hl'. apply app_inv_head in Hl'. subst evs'.
        apply opened_ids_none, Hf'. }
      rewrite Hrun in Hen |- *. cbn [snd] in Hen.
      rewrite He4 in Hen. apply app_inv_head in Hen. subst notes'.
      exists w4, ({[name]} ∪ existing),
        (mkEvent (AddTable name) true :: mkEvent (GetTableById tableId) true :: evsR ++ evsF),
        (notesR ++ notesF), [(t, tableId)].
      split; [reflexivity|].
      split; [rewrite Hl4, Hl3; subst w2 w1; cbn [w_log add_log set_host];
              rewrite <- !app_assoc; reflexivity|].
      split; [rewrite He4, He3; subst w2 w1; cbn [w_errors add_log set_host];
              rewrite <- !app_assoc; reflexivity|].
      split; [reflexivity|].
      split.
      { change (opened_ids (?a :: ?b :: evsR ++ evsF)) with (tableId :: opened_ids (evsR ++ evsF)).
        rewrite Hopens. reflexivity. }
      unfold fields_requested, system_notes, complex_notes. cbn [flat_map fst snd].
      rewrite !app_nil_r, !List.filter_app.
      rewrite (filter_plain is_system_note notesR), (filter_plain is_complex_note notesR),
        (filter_plain is_table_failed_note notesR) by (exact HnR || intros n (? & ? & ?); assumption).
      cbn [app]. split.
      { change (added_fields (?a :: ?b :: evsR ++ evsF)) with (added_fields (evsR ++ evsF)).
        rewrite added_fields_app, (added_fields_none _ HfR).
        apply (added_fields_calls tableId evsF _ Hc). }
      split; [exact Hsys|]. split; [exact Hcx|].
      rewrite Hplain. reflexivity.
    + cbn [push_error modify]. set (w2 := add_log _ w1).
      exists (set_errors (w_errors w2 ++ [TableRebuildFailed name]) w2), ({[name]} ∪ existing),
        [mkEvent (AddTable name) true; mkEvent (GetTableById tableId) false],
        [TableRebuildFailed name], [].
      split; [reflexivity|].
      split; [subst w2 w1; cbn [w_log add_log set_host set_errors];
              rewrite <- !app_assoc; reflexivity|].
      split; [reflexivity|]. split; [apply sublist_nil_l|]. repeat split.
  - exists (set_errors (w_errors w ++ [TableRebuildFailed name])
              (add_log (mkEvent (AddTable name) false) (set_host h w))), existing,
      [mkEvent (AddTable name) false], [TableRebuildFailed name], [].
    split; [reflexivity|]. split; [reflexivity|]. split; [reflexivity|].
    split; [apply sublist_nil_l|]. repeat split.
Qed.

Lemma restoreTables_fields_run (tables : list SnapshotTable) (existing : gset string) w :
  enum_distinct E →
  ∃ w' final evs notes (opened : list (SnapshotTable * string)),
    restoreTables E tables existing w = (Ok final, w') ∧
    w_log w' = w_log w ++ evs ∧ w_errors w' = w_errors w ++ notes ∧
    sublist (map fst opened) tables ∧
    opened_ids evs = map snd opened ∧
    added_fields evs = fields_requested E opened ∧
    List.filter is_system_note notes = system_notes E opened ∧
    List.filter is_complex_note notes = complex_notes E opened ∧
    length (List.filter is_table_failed_note notes) + length opened = length tables.
Proof.
  intros Hnd. revert existing w. induction tables as [|t tables IH]; intros existing w.
  - exists w, existing, [], [], []. rewrite !app_nil_r. repeat split. constructor.
  - cbn [restoreTables]. rewrite run_bind.
    destruct (restoreTable_fields_run existing t w Hnd)
      as (w1 & names & evs1 & notes1 & opened1 & -> & Hl1 & He1 & Hsub1 & Ho1 & Hf1 & Hs1
          & Hc1 & Hn1).
    destruct (IH names w1)
      as (w2 & final & evs2 & notes2 & opened2 & -> & Hl2 & He2 & Hsub2 & Ho2 & Hf2 & Hs2
          & Hc2 & Hn2).
    exists w2, final, (evs1 ++ evs2), (notes1 ++ notes2), (opened1 ++ opened2).
    split; [reflexivity|].
    split; [rewrite Hl2, Hl1, <- app_assoc; reflexivity|].
    split; [rewrite He2, He1, <- app_assoc; reflexivity|].
    split; [rewrite map_app; apply (sublist_app _ [t] _ tables Hsub1 Hsub2)|].
    split; [rewrite opened_ids_app, Ho1, Ho2, map_app; reflexivity|].
    unfold fields_requested, system_notes, complex_notes in *.
    rewrite added_fields_app, !List.filter_app, !flat_map_app, Hf1, Hf2, Hs1, Hs2, Hc1, Hc2.
    repeat (split; [reflexivity|]).
    rewrite !length_app. cbn [length]. lia.
Qed.

(** The start of a rollback, when there is a snapshot and the enumeration
    succeeds. *)
Lemma handleRollback_start w (snapshot : Snapshot) (metas : list TableMeta) :
  app_snapshot (w_app w) = Some snapshot →
  gw_getTableMetaList (w_host w) = Ok metas →
  handleRollback E w =
  (restoreTables E (snap_tables snapshot)
     (list_to_set (map (λ meta, nullish_or (tm_name meta) "") metas)) ;;
   errors ← get_errors;
   match errors with
   | [] => toast RollbackDone
   | _ :: _ => toast (RollbackPartial errors)
   end ;;
   refreshTables)
    (add_log (mkEvent GetTableMetaList true) (set_errors [] w)).
Proof.
  intros Hsnap Hmetas. unfold handleRollback. rewrite run_bind. cbn [get_app]. rewrite Hsnap.
  rewrite run_bind. cbn [modify]. rewrite run_bind.
  unfold getTableMetaList. rewrite run_read. cbn [w_host set_errors]. rewrite Hmetas.
  reflexivity.
Qed.

Lemma includes_iff (xs : list FieldType) (t : FieldType) :
  includes xs t = true ↔ t ∈ xs.
Proof.
  unfold includes. rewrite existsb_exists, list_elem_of_In. split.
  - intros (x & Hx & Heq). apply Z.eqb_eq in Heq. subst x. exact Hx.
  - intros Hx. exists t. split; [exact Hx | apply Z.eqb_refl].
Qed.

(** The run of a rollback up to its final refresh. *)
Lemma handleRollback_tables w (snapshot : Snapshot) (metas : list TableMeta) :
  enum_distinct E →
  app_snapshot (w_app w) = Some snapshot →
  gw_getTableMetaList (w_host w) = Ok metas →
  ∃ w1 evs (opened : list (SnapshotTable * string)),
    handleRollback E w = refreshTables w1 ∧
    w_log w1 = w_log w ++ mkEvent GetTableMetaList true :: evs ∧
    sublist (map fst opened) (snap_tables snapshot) ∧
    opened_ids evs = map snd opened ∧
    added_fields evs = fields_requested E opened ∧
    List.filter is_system_note (w_errors w1) = system_notes E opened ∧
    List.filter is_complex_note (w_errors w1) = complex_notes E opened ∧
    length (List.filter is_table_failed_note (w_errors w1)) + length opened
      = length (snap_tables snapshot) ∧
    names_by_rule (list_to_set (map (λ meta, nullish_or (tm_name meta) "") metas))
      (snap_tables snapshot) (table_requests evs).
Proof.
  intros Hnd Hsnap Hmetas.
  rewrite (handleRollback_start w snapshot metas Hsnap Hmetas), run_bind.
  set (existing := list_to_set (map (λ meta, nullish_or (tm_name meta) "") metas) : gset string).
  set (w0 := add_log _ _).
  destruct (restoreTables_requests (snap_tables snapshot) existing w0) as (evs' & Hl' & Hrule).
  destruct (restoreTables_fields_run (snap_tables snapshot) existing w0 Hnd)
    as (w1 & final & evs & notes & opened & Hrun & Hl & He & Hsub & Ho & Hf & Hs & Hc & Hn).
  rewrite Hrun in Hl' |- *. cbn [snd] in Hl'. rewrite Hl in Hl'.
  apply app_inv_head in Hl'. subst evs'.
  rewrite run_bind. unfold get_errors. cbv beta iota.
  set (final_toast := match w_errors w1 with
                      | [] => RollbackDone
                      | _ :: _ => RollbackPartial (w_errors w1)
                      end).
  assert (Hfin : (match w_errors w1 with
                  | [] => toast RollbackDone
                  | _ :: _ => toast (RollbackPartial (w_errors w1))
                  end ;;
                  refreshTables) w1 = refreshTables (add_toast final_toast w1)).
  { subst final_toast. destruct (w_errors w1); reflexivity. }
  rewrite Hfin. exists (add_toast final_toast w1), evs, opened.
  split; [reflexivity|]. cbn [w_log w_errors add_toast].
  split; [rewrite Hl; subst w0; cbn [w_log add_log set_errors]; rewrite <- app_assoc;
          reflexivity|].
  subst w0. cbn [w_errors add_log set_errors app] in He. rewrite He.
  repeat (split; [assumption|]). exact Hrule.
Qed.

Lemma refreshTables_keeps_errors : keeps w_errors (refreshTables (Host:=Host)).
Proof.
  unfold refreshTables, getTableMetaList, getTableById, getFieldMetaList, modify_app, toast.
  repeat first
    [ callback_step
    | apply keeps_modify; reflexivity
    | apply keeps_read; reflexivity ].
Qed.

(** C6, as amended.  The blocked types are the five system types and the
    non-portable types are the five complex types that the claim names.  In
    a rollback, the snapshot tables that are created and opened are visited
    field by field: for their fields of a blocked type nothing is requested
    and one system-field note each is pushed; for their fields of a
    non-portable type nothing is requested and one complex-field note each
    is pushed; their other fields are requested with [addField] on the new
    table, in order, each with its original name, type and property.  A
    snapshot table that is not created or not opened gets one table note,
    and nothing is requested or noted for its fields. *)
Theorem C6_rollback_field_rules w (snapshot : Snapshot) (metas : list TableMeta) :
  enum_distinct E →
  app_snapshot (w_app w) = Some snapshot →
  gw_getTableMetaList (w_host w) = Ok metas →
  let w' := (handleRollback E w).2 in
  (∀ f, is_blocked E f = true ↔
        sf_type f = CreatedTime E ∨ sf_type f = ModifiedTime E ∨
        sf_type f = CreatedUser E ∨ sf_type f = ModifiedUser E ∨
        sf_type f = AutoNumber E) ∧
  (∀ f, is_non_portable E f = true ↔
        sf_type f = Lookup E ∨ sf_type f = SingleLink E ∨ sf_type f = DuplexLink E ∨
        sf_type f = Formula E ∨ sf_type f = Barcode E) ∧
  (∀ f, is_blocked E f = true → is_non_portable E f = false) ∧
  ∃ (opened : list (SnapshotTable * string)) w1,
    handleRollback E w = refreshTables w1 ∧
    opened_ids (new_events w w1) = map snd opened ∧
    sublist (map fst opened) (snap_tables snapshot) ∧
    added_fields (new_events w w') = fields_requested E opened ∧
    List.filter is_system_note (w_errors w') = system_notes E opened ∧
    List.filter is_complex_note (w_errors w') = complex_notes E opened ∧
    length (List.filter is_table_failed_note (w_errors w')) + length opened
      = length (snap_tables snapshot).
Proof.
  intros Hnd Hsnap Hmetas. cbv zeta.
  split.
  { intros f. unfold is_blocked, BLOCKED_ROLLBACK_FIELD_TYPES. rewrite includes_iff.
    rewrite !elem_of_cons, elem_of_nil. tauto. }
  split.
  { intros f. unfold is_non_portable, NON_PORTABLE_ROLLBACK_FIELD_TYPES. rewrite includes_iff.
    rewrite !elem_of_cons, elem_of_nil. tauto. }
  split; [intros f; apply blocked_not_non_portable, Hnd|].
  destruct (handleRollback_tables w snapshot metas Hnd Hsnap Hmetas)
    as (w1 & evs & opened & Hrun & Hl & Hsub & Ho & Hf & Hs & Hc & Hn & _).
  exists opened, w1. split; [exact Hrun|].
  rewrite Hrun, (refreshTables_keeps_errors w1).
  destruct (refreshTables_reads w1) as (evs2 & Hl2 & Hf2).
  split.
  { rewrite (new_events_app w w1 _ Hl).
    change (opened_ids (?e :: evs)) with (opened_ids evs). exact Ho. }
  split; [exact Hsub|].
  split.
  { erewrite new_events_app; [|rewrite Hl2, Hl, <- app_assoc; reflexivity].
    cbn [app].
    change (added_fields (?e :: evs ++ evs2)) with (added_fields (evs ++ evs2)).
    rewrite added_fields_app, (added_fields_none evs2), app_nil_r; [exact Hf|].
    eapply Forall_impl; [exact Hf2|]. intros e He. apply enumeration_not_AddField, He. }
  repeat (split; [assumption|]). exact Hn.
Qed.

(** C7. Each snapshot table gets one request [addTable], in order, and the
    name asked for is the first free one: the marked original name when no
    table enumerated at the start and no table created earlier in the same
    rollback has it, and otherwise the marked name followed by " (n)" for
    the smallest [n ≥ 1] that gives a name none of them has.  So the tables
    created get names that are pairwise distinct and distinct from the
    names enumerated, and two snapshot tables of one original name, both
    restored, get the marked name with two different suffixes (or one of
    them without a suffix). *)
Theorem C7_restored_names_are_unique w (snapshot : Snapshot) (metas : list TableMeta) :
  app_snapshot (w_app w) = Some snapshot →
  gw_getTableMetaList (w_host w) = Ok metas →
  let existing : gset string :=
    list_to_set (map (λ meta, nullish_or (tm_name meta) "") metas) in
  let w' := (handleRollback E w).2 in
  names_by_rule existing (snap_tables snapshot) (table_requests (new_events w w')) ∧
  ∃ created : list (SnapshotTable * string),
    added_tables (new_events w w') = map snd created ∧
    sublist (map fst created) (snap_tables snapshot) ∧
    Forall (λ tn, restored_name tn.1 tn.2) created ∧
    NoDup (map snd created) ∧
    (∀ n, n ∈ map snd created → n ∉ existing) ∧
    (∀ i j t1 n1 t2 n2,
       i < j → created !! i = Some (t1, n1) → created !! j = Some (t2, n2) →
       st_tableName t1 = st_tableName t2 →
       n1 ≠ n2 ∧
       ∃ k1 k2, k1 ≠ k2 ∧
                n1 = candidate ("♻️ " +:+ st_tableName t1) k1 ∧
                n2 = candidate ("♻️ " +:+ st_tableName t1) k2).
Proof.
  intros Hsnap Hmetas. cbv zeta.
  rewrite (handleRollback_start w snapshot metas Hsnap Hmetas), run_bind.
  set (existing := list_to_set (map (λ meta, nullish_or (tm_name meta) "") metas) : gset string).
  set (w0 := add_log _ _).
  destruct (restoreTables_requests (snap_tables snapshot) existing w0) as (evs' & Hl' & Hrule).
  destruct (restoreTables_run (snap_tables snapshot) existing w0)
    as (w1 & final & evs & created & Hrun & Hl & Ha & Hsub & Hform & Hnd & Hnew & _).
  rewrite Hrun in Hl' |- *. cbn [snd] in Hl'. rewrite Hl in Hl'.
  apply app_inv_head in Hl'. subst evs'.
  assert (Hrest : appends w_log (λ e, ∀ n, ev_call e ≠ AddTable n)
            (errors ← get_errors;
             match errors with
             | [] => toast RollbackDone
             | _ :: _ => toast (RollbackPartial errors)
             end ;;
             refreshTables (Host:=Host))).
  { unfold get_errors, toast.
    repeat first
      [ apply (appends_weaken _ _ _ _ enumeration_not_AddTable refreshTables_reads)
      | callback_step
      | apply appends_modify; reflexivity
      | match goal with |- appends _ _ (match ?x with _ => _ end) => destruct x end ]. }
  destruct (Hrest w1) as (evs2 & Hl2 & Hf2).
  assert (Hev : new_events w
                  ((errors ← get_errors;
                    match errors with
                    | [] => toast RollbackDone
                    | _ :: _ => toast (RollbackPartial errors)
                    end ;;
                    refreshTables (Host:=Host)) w1).2
                = mkEvent GetTableMetaList true :: evs ++ evs2).
  { apply new_events_app. rewrite Hl2, Hl. subst w0. cbn [w_log add_log].
    rewrite <- !app_assoc. reflexivity. }
  rewrite Hev.
  split.
  { change (table_requests (?e :: evs ++ evs2)) with (table_requests (evs ++ evs2)).
    rewrite table_requests_app, (table_requests_none _ Hf2), app_nil_r. exact Hrule. }
  exists created.
  split.
  { change (added_tables (?e :: evs ++ evs2)) with (added_tables (evs ++ evs2)).
    rewrite added_tables_app, (added_tables_none _ Hf2), app_nil_r. exact Ha. }
  repeat (split; [assumption|]).
  intros i j t1 n1 t2 n2 Hij H1 H2 Hsame.
  assert (Hne : n1 ≠ n2).
  { intros ->. assert (i = j); [|lia].
    apply (NoDup_lookup (map snd created) i j n2 Hnd);
      rewrite list_lookup_fmap; [rewrite H1 | rewrite H2]; reflexivity. }
  split; [exact Hne|].
  rewrite Forall_forall in Hform.
  destruct (Hform (t1, n1)) as [k1 Hk1]; [eapply list_elem_of_lookup_2; eauto|].
  destruct (Hform (t2, n2)) as [k2 Hk2]; [eapply list_elem_of_lookup_2; eauto|].
  cbn [fst snd] in *. rewrite <- Hsame in Hk2.
  exists k1, k2. split; [congruence | auto].
Qed.

End RollbackClaims.

Lemma C6_witness :
  let w := sim_world [tableA]
             (mkAppState [] false [] [] (Some twoTablesNamedA)) in
  let w' := (handleRollback larkFieldType w).2 in
  (∀ f, is_blocked larkFieldType f = true ↔
        sf_type f = CreatedTime larkFieldType ∨ sf_type f = ModifiedTime larkFieldType ∨
        sf_type f = CreatedUser larkFieldType ∨ sf_type f = ModifiedUser larkFieldType ∨
        sf_type f = AutoNumber larkFieldType) ∧
  (∀ f, is_non_portable larkFieldType f = true ↔
        sf_type f = Lookup larkFieldType ∨ sf_type f = SingleLink larkFieldType ∨
        sf_type f = DuplexLink larkFieldType ∨ sf_type f = Formula larkFieldType ∨
        sf_type f = Barcode larkFieldType) ∧
  (∀ f, is_blocked larkFieldType f = true → is_non_portable larkFieldType f = false) ∧
  ∃ (opened : list (SnapshotTable * string)) w1,
    handleRollback larkFieldType w = refreshTables w1 ∧
    opened_ids (new_events w w1) = map snd opened ∧
    sublist (map fst opened) (snap_tables twoTablesNamedA) ∧
    added_fields (new_events w w') = fields_requested larkFieldType opened ∧
    List.filter is_system_note (w_errors w') = system_notes larkFieldType opened ∧
    List.filter is_complex_note (w_errors w') = complex_notes larkFieldType opened ∧
    length (List.filter is_table_failed_note (w_errors w')) + length opened
      = length (snap_tables twoTablesNamedA).
Proof.
  apply (C6_rollback_field_rules (Host:=SimHost) larkFieldType
           (sim_world [tableA] (mkAppState [] false [] [] (Some twoTablesNamedA)))
           twoTablesNamedA (map tb_meta [tableA])); [|reflexivity|reflexivity].
  unfold enum_distinct. apply NoDup_ListNoDup. vm_compute.
  repeat (constructor; [cbn; intuition discriminate|]). constructor.
Defined.

(** C6, as stated, fails for a snapshot table that cannot be created: the
    first table of the snapshot has a field of the blocked type
    [CreatedTime] and one of the non-portable type [Formula]; when
    [addTable] raises, no note is pushed for either, and the only notes are
    the two table notes. *)
Lemma C6_counterexample :
  let w := sim_world [tableA] (mkAppState [] false [] [] (Some twoTablesNamedA)) in
  let w' := (handleRollback (GW:=readOnlyGateway) larkFieldType w).2 in
  map (λ t, map sf_type (st_fields t)) (snap_tables twoTablesNamedA)
    = [[CreatedTime larkFieldType; Formula larkFieldType; 1%Z]; []] ∧
  w_errors w' = [TableRebuildFailed "♻️ A"; TableRebuildFailed "♻️ A"] ∧
  List.filter is_system_note (w_errors w') = [] ∧
  List.filter is_complex_note (w_errors w') = [] ∧
  added_fields (new_events w w') = [].
Proof. cbv zeta. repeat split; vm_compute; reflexivity. Qed.

Lemma C7_witness :
  let w := sim_world [tableA]
             (mkAppState [] false [] [] (Some twoTablesNamedA)) in
  let existing : gset string :=
    list_to_set (map (λ meta, nullish_or (tm_name meta) "") (map tb_meta [tableA])) in
  let w' := (handleRollback larkFieldType w).2 in
  names_by_rule existing (snap_tables twoTablesNamedA)
    (table_requests (new_events w w')) ∧
  ∃ created : list (SnapshotTable * string),
    added_tables (new_events w w') = map snd created ∧
    sublist (map fst created) (snap_tables twoTablesNamedA) ∧
    Forall (λ tn, restored_name tn.1 tn.2) created ∧
    NoDup (map snd created) ∧
    (∀ n, n ∈ map snd created → n ∉ existing) ∧
    (∀ i j t1 n1 t2 n2,
       i < j → created !! i = Some (t1, n1) → created !! j = Some (t2, n2) →
       st_tableName t1 = st_tableName t2 →
       n1 ≠ n2 ∧
       ∃ k1 k2, k1 ≠ k2 ∧
                n1 = candidate ("♻️ " +:+ st_tableName t1) k1 ∧
                n2 = candidate ("♻️ " +:+ st_tableName t1) k2).
Proof.
  apply (C7_restored_names_are_unique (Host:=SimHost) larkFieldType
           (sim_world [tableA] (mkAppState [] false [] [] (Some twoTablesNamedA)))
           twoTablesNamedA (map tb_meta [tableA])); reflexivity.
Defined.

(** The two tables named A of the snapshot come back as "♻️ A" and
    "♻️ A (1)". *)
Example rollback_two_tables_named_A :
  let w := sim_world [tableA]
             (mkAppState [] false [] [] (Some twoTablesNamedA)) in
  added_tables (new_events w (handleRollback larkFieldType w).2) = ["♻️ A"; "♻️ A (1)"].
Proof. vm_compute. reflexivity. Qed.

(** * The selection *)

(** ** Objects used as maps *)

Lemma obj_get_set_eq {V} (o : JsObject V) k v : obj_get (obj_set o k v) k = Some v.
Proof.
  induction o as [|[k' v'] o IH]; cbn.
  - rewrite String.eqb_refl. reflexivity.
  - destruct (String.eqb k' k) eqn:E; cbn; rewrite E; [reflexivity | exact IH].
Qed.

Lemma obj_get_set_ne {V} (o : JsObject V) k k2 v :
  k ≠ k2 → obj_get (obj_set o k v) k2 = obj_get o k2.
Proof.
  intros Hne. induction o as [|[k' v'] o IH]; cbn.
  - apply String.eqb_neq in Hne. rewrite Hne. reflexivity.
  - destruct (String.eqb k' k) eqn:E; cbn.
    + apply String.eqb_eq in E. subst k'.
      apply String.eqb_neq in Hne. rewrite Hne. reflexivity.
    + destruct (String.eqb k' k2); [reflexivity | exact IH].
Qed.

Lemma obj_get_delete_eq {V} (o : JsObject V) k : obj_get (obj_delete o k) k = None.
Proof.
  induction o as [|[k' v'] o IH]; cbn; [reflexivity|].
  destruct (String.eqb k' k) eqn:E; cbn; [exact IH|]. rewrite E. exact IH.
Qed.

Lemma obj_get_delete_ne {V} (o : JsObject V) k k2 :
  k ≠ k2 → obj_get (obj_delete o k) k2 = obj_get o k2.
Proof.
  intros Hne. induction o as [|[k' v'] o IH]; cbn; [reflexivity|].
  destruct (String.eqb k' k) eqn:E; cbn.
  - apply String.eqb_eq in E. subst k'.
    apply String.eqb_neq in Hne. rewrite Hne. exact IH.
  - destruct (String.eqb k' k2); [reflexivity | exact IH].
Qed.

Lemma obj_get_None {V} (o : JsObject V) k : obj_get o k = None ↔ k ∉ map fst o.
Proof.
  induction o as [|[k' v'] o IH]; cbn.
  - split; [intros _; apply not_elem_of_nil | reflexivity].
  - rewrite not_elem_of_cons. destruct (String.eqb k' k) eqn:E.
    + apply String.eqb_eq in E. subst k'. split; [discriminate | intros [? _]; congruence].
    + apply String.eqb_neq in E. rewrite IH. split; [intros ?; split; congruence | intros [_ ?]; assumption].
Qed.

Lemma obj_get_elem_of {V} (o : JsObject V) k v : obj_get o k = Some v → (k, v) ∈ o.
Proof.
  induction o as [|[k' v'] o IH]; cbn; [discriminate|].
  destruct (String.eqb k' k) eqn:E.
  - apply String.eqb_eq in E. subst k'. intros [= ->]. apply list_elem_of_here.
  - intros Hg. apply list_elem_of_further, IH, Hg.
Qed.

Lemma elem_of_obj_get {V} (o : JsObject V) k v :
  unique_keys o → (k, v) ∈ o → obj_get o k = Some v.
Proof.
  unfold unique_keys. induction o as [|[k' v'] o IH]; cbn; intros Hnd Hin.
  - apply elem_of_nil in Hin. contradiction.
  - apply NoDup_cons in Hnd as [Hk Hnd]. apply elem_of_cons in Hin as [[= <- <-]|Hin].
    + rewrite String.eqb_refl. reflexivity.
    + destruct (String.eqb k' k) eqn:E; [|apply IH; assumption].
      apply String.eqb_eq in E. subst k'. exfalso. apply Hk.
      apply list_elem_of_fmap. exists (k, v). split; [reflexivity | exact Hin].
Qed.

Lemma obj_set_keys {V} (o : JsObject V) k v :
  map fst (obj_set o k v) =
  if bool_decide (k ∈ map fst o) then map fst o else map fst o ++ [k].
Proof.
  induction o as [|[k' v'] o IH]; cbn.
  - rewrite bool_decide_eq_false_2 by apply not_elem_of_nil. reflexivity.
  - destruct (String.eqb k' k) eqn:E; cbn.
    + apply String.eqb_eq in E. subst k'.
      rewrite bool_decide_eq_true_2 by apply list_elem_of_here. reflexivity.
    + apply String.eqb_neq in E. rewrite IH.
      destruct (bool_decide (k ∈ map fst o)) eqn:B.
      * apply bool_decide_eq_true in B.
        rewrite bool_decide_eq_true_2 by (apply list_elem_of_further; exact B). reflexivity.
      * apply bool_decide_eq_false in B.
        rewrite bool_decide_eq_false_2; [reflexivity|].
        rewrite not_elem_of_cons. split; [congruence | exact B].
Qed.

Lemma unique_keys_set {V} (o : JsObject V) k v : unique_keys o → unique_keys (obj_set o k v).
Proof.
  unfold unique_keys. intros Hnd. rewrite obj_set_keys.
  destruct (bool_decide (k ∈ map fst o)) eqn:B; [exact Hnd|].
  apply bool_decide_eq_false in B. apply NoDup_app. split; [exact Hnd|].
  split; [|apply NoDup_singleton].
  intros x Hx Hx'. apply list_elem_of_singleton in Hx'. subst x. contradiction.
Qed.

Lemma unique_keys_delete {V} (o : JsObject V) k : unique_keys o → unique_keys (obj_delete o k).
Proof.
  unfold unique_keys, obj_delete. induction o as [|[k' v'] o IH]; cbn; intros Hnd; [exact Hnd|].
  apply NoDup_cons in Hnd as [Hk Hnd]. destruct (String.eqb k' k); cbn; [apply IH, Hnd|].
  apply NoDup_cons. split; [|apply IH, Hnd].
  intros Hin. apply Hk. apply list_elem_of_fmap in Hin as ([k2 v2] & -> & Hin).
  apply list_elem_of_In, List.filter_In in Hin as [Hin _].
  apply list_elem_of_fmap. exists (k2, v2). split; [reflexivity | apply list_elem_of_In, Hin].
Qed.

Lemma obj_delete_absent {V} (o : JsObject V) k : k ∉ map fst o → obj_delete o k = o.
Proof.
  unfold obj_delete. induction o as [|[k' v'] o IH]; cbn; intros Hk; [reflexivity|].
  apply not_elem_of_cons in Hk as [Hne Hk]. apply not_eq_sym, String.eqb_neq in Hne.
  rewrite Hne. cbn. f_equal. apply IH, Hk.
Qed.

Lemma checked_set (o : JsObject bool) k k2 :
  checked (obj_set o k true) k2 = if String.eqb k2 k then true else checked o k2.
Proof.
  unfold checked. destruct (String.eqb k2 k) eqn:E.
  - apply String.eqb_eq in E. subst k2. rewrite obj_get_set_eq. reflexivity.
  - apply String.eqb_neq in E. rewrite obj_get_set_ne by congruence. reflexivity.
Qed.

Lemma checked_delete (o : JsObject bool) k k2 :
  checked (obj_delete o k) k2 = if String.eqb k2 k then false else checked o k2.
Proof.
  unfold checked. destruct (String.eqb k2 k) eqn:E.
  - apply String.eqb_eq in E. subst k2. rewrite obj_get_delete_eq. reflexivity.
  - apply String.eqb_neq in E. rewrite obj_get_delete_ne by congruence. reflexivity.
Qed.

(** ** Counting *)

Lemma count_set (o : JsObject bool) k :
  checked o k = false →
  length (checkedKeys (obj_set o k true)) = S (length (checkedKeys o)).
Proof.
  unfold checked, checkedKeys. induction o as [|[k' v'] o IH]; cbn; intros Hc; [reflexivity|].
  destruct (String.eqb k' k) eqn:E; cbn.
  - subst v'. reflexivity.
  - destruct v'; cbn; rewrite IH by exact Hc; reflexivity.
Qed.

Lemma count_delete (o : JsObject bool) k :
  unique_keys o → checked o k = true →
  S (length (checkedKeys (obj_delete o k))) = length (checkedKeys o).
Proof.
  unfold unique_keys, checked, checkedKeys.
  induction o as [|[k' v'] o IH]; cbn; intros Hnd Hc; [discriminate|].
  apply NoDup_cons in Hnd as [Hk Hnd].
  destruct (String.eqb k' k) eqn:E; cbn.
  - apply String.eqb_eq in E. subst k' v'. cbn.
    fold (obj_delete o k). rewrite obj_delete_absent by exact Hk. reflexivity.
  - fold (obj_delete o k) in *. destruct v'; cbn; rewrite <- IH by assumption; reflexivity.
Qed.

(** [toggleTable] on any [Record<string, boolean>]. *)
Lemma toggle_checked (o : JsObject bool) k k2 :
  checked (toggleTable k o) k2 = if String.eqb k2 k then negb (checked o k2) else checked o k2.
Proof.
  unfold toggleTable. destruct (checked o k) eqn:Hc.
  - rewrite checked_delete. destruct (String.eqb k2 k) eqn:E; [|reflexivity].
    apply String.eqb_eq in E. subst k2. rewrite Hc. reflexivity.
  - rewrite checked_set. destruct (String.eqb k2 k) eqn:E; [|reflexivity].
    apply String.eqb_eq in E. subst k2. rewrite Hc. reflexivity.
Qed.

Lemma toggle_unique (o : JsObject bool) k : unique_keys o → unique_keys (toggleTable k o).
Proof.
  intros Hu. unfold toggleTable.
  destruct (checked o k); [apply unique_keys_delete | apply unique_keys_set]; exact Hu.
Qed.

Lemma toggle_count (o : JsObject bool) k :
  unique_keys o →
  if checked o k
  then S (length (checkedKeys (toggleTable k o))) = length (checkedKeys o)
  else length (checkedKeys (toggleTable k o)) = S (length (checkedKeys o)).
Proof.
  intros Hu. unfold toggleTable. destruct (checked o k) eqn:Hc.
  - apply count_delete; assumption.
  - apply count_set; assumption.
Qed.

Lemma toggle_nil_count (o : JsObject bool) k :
  unique_keys o → toggleTable k o = [] → length (checkedKeys o) = 1.
Proof.
  intros Hu Hnil. pose proof (toggle_count o k Hu) as Hc. rewrite Hnil in Hc.
  destruct (checked o k) eqn:E.
  - cbn in Hc. lia.
  - cbn in Hc. lia.
Qed.

(** ** Sums over [selectedFields] *)

Lemma fold_count (l : JsObject (JsObject bool)) n :
  fold_left (λ sum entry, sum + length (checkedKeys (snd entry))) l n =
  n + selectedFieldCount l.
Proof.
  unfold selectedFieldCount. revert n.
  induction l as [|e l IH]; intros n; cbn; [lia|].
  rewrite IH, (IH (length _)). lia.
Qed.

Lemma selectedFieldCount_cons e l :
  selectedFieldCount (e :: l) = length (checkedKeys e.2) + selectedFieldCount l.
Proof. unfold selectedFieldCount at 1. cbn. rewrite fold_count. reflexivity. Qed.

Lemma selectedFieldCount_app l1 l2 :
  selectedFieldCount (l1 ++ l2) = selectedFieldCount l1 + selectedFieldCount l2.
Proof.
  induction l1 as [|e l1 IH]; [reflexivity|].
  cbn [app]. rewrite !selectedFieldCount_cons, IH. lia.
Qed.

Lemma selectedFieldCount_nil : selectedFieldCount [] = 0.
Proof. reflexivity. Qed.

Lemma fieldCount_set (selF : JsObject (JsObject bool)) t sel :
  selectedFieldCount (obj_set selF t sel) + length (checkedKeys (default [] (obj_get selF t)))
  = selectedFieldCount selF + length (checkedKeys sel).
Proof.
  induction selF as [|[t' s'] selF IH]; cbn [obj_set obj_get].
  - rewrite selectedFieldCount_cons, selectedFieldCount_nil. unfold checkedKeys. cbn. lia.
  - destruct (String.eqb t' t) eqn:E.
    + rewrite !selectedFieldCount_cons. change (default [] (Some s')) with s'. cbn [snd]. lia.
    + rewrite !selectedFieldCount_cons. cbn [snd]. lia.
Qed.

Lemma fieldCount_delete (selF : JsObject (JsObject bool)) t :
  unique_keys selF →
  selectedFieldCount (obj_delete selF t) + length (checkedKeys (default [] (obj_get selF t)))
  = selectedFieldCount selF.
Proof.
  unfold unique_keys. induction selF as [|[t' s'] selF IH]; intros Hnd.
  - reflexivity.
  - cbn in Hnd. apply NoDup_cons in Hnd as [Hk Hnd].
    unfold obj_delete. cbn [List.filter fst obj_get].
    destruct (String.eqb t' t) eqn:E; cbn [negb].
    + apply String.eqb_eq in E. subst t'. fold (obj_delete selF t).
      rewrite obj_delete_absent by exact Hk. rewrite selectedFieldCount_cons.
      change (default [] (Some s')) with s'. cbn [snd]. lia.
    + fold (obj_delete selF t). rewrite !selectedFieldCount_cons. cbn [snd].
      specialize (IH Hnd). lia.
Qed.

Lemma elem_of_obj_set {V} (o : JsObject V) k0 v0 k v :
  (k, v) ∈ obj_set o k0 v0 → (k, v) ∈ o ∨ (k = k0 ∧ v = v0).
Proof.
  induction o as [|[k' v'] o IH]; cbn.
  - intros Hin. apply list_elem_of_singleton in Hin. right. split; congruence.
  - destruct (String.eqb k' k0) eqn:E.
    + apply String.eqb_eq in E. subst k'. intros Hin. apply elem_of_cons in Hin as [Heq|Hin].
      * right. split; congruence.
      * left. apply list_elem_of_further, Hin.
    + intros Hin. apply elem_of_cons in Hin as [Heq|Hin].
      * left. rewrite Heq. apply list_elem_of_here.
      * destruct (IH Hin) as [?|?]; [left; apply list_elem_of_further; assumption | right; assumption].
Qed.

Lemma elem_of_obj_delete {V} (o : JsObject V) k0 k v : (k, v) ∈ obj_delete o k0 → (k, v) ∈ o.
Proof.
  unfold obj_delete. intros Hin. apply list_elem_of_In, List.filter_In in Hin as [Hin _].
  apply list_elem_of_In, Hin.
Qed.

Lemma unique_entry (selF : JsObject (JsObject bool)) t sel :
  unique_field_keys selF → obj_get selF t = Some sel → unique_keys sel.
Proof.
  intros [_ Hall] Hg. apply obj_get_elem_of in Hg.
  rewrite Forall_forall in Hall. apply (Hall (t, sel)), Hg.
Qed.

Lemma unique_keys_nil {V} : unique_keys (@nil (string * V)).
Proof. apply NoDup_nil_2. Qed.

(** The selection of one table before and after a toggle of one of its
    fields. *)
Lemma toggleField_entry tableId fieldId (prev : JsObject (JsObject bool)) :
  let sel1 := toggleTable fieldId (default [] (obj_get prev tableId)) in
  toggleField tableId fieldId prev =
  match sel1 with
  | [] => obj_delete prev tableId
  | _ :: _ => obj_set prev tableId sel1
  end.
Proof. unfold toggleField, toggleTable. destruct (obj_get prev tableId); reflexivity. Qed.

Lemma field_checked_default (selF : JsObject (JsObject bool)) t f :
  field_checked selF t f = checked (default [] (obj_get selF t)) f.
Proof. unfold field_checked. destruct (obj_get selF t); reflexivity. Qed.

(** ** Folds that check keys *)

Lemma decide_cons (k x : string) (l : list string) :
  bool_decide (k ∈ x :: l) = String.eqb k x || bool_decide (k ∈ l).
Proof.
  destruct (String.eqb k x) eqn:E.
  - apply String.eqb_eq in E. subst k. apply bool_decide_eq_true_2, list_elem_of_here.
  - apply String.eqb_neq in E. apply bool_decide_ext. rewrite elem_of_cons. tauto.
Qed.

Lemma fold_keep_checked {X} (key : X → string) (sel : JsObject bool) (xs : list X)
    (acc : JsObject bool) k :
  checked (fold_left (λ acc x, if checked sel (key x) then obj_set acc (key x) true else acc)
             xs acc) k
  = checked acc k || (checked sel k && bool_decide (k ∈ map key xs)).
Proof.
  revert acc. induction xs as [|x xs IH]; intros acc; cbn [fold_left map].
  - rewrite bool_decide_eq_false_2 by apply not_elem_of_nil.
    rewrite andb_false_r, orb_false_r. reflexivity.
  - rewrite IH, decide_cons. destruct (String.eqb k (key x)) eqn:E.
    + apply String.eqb_eq in E. subst k. destruct (checked sel (key x)) eqn:Hc.
      * rewrite checked_set, String.eqb_refl. cbn. rewrite orb_true_r. reflexivity.
      * cbn. rewrite orb_false_r. reflexivity.
    + cbn [orb]. destruct (checked sel (key x)); [|reflexivity].
      rewrite checked_set, E. reflexivity.
Qed.

Lemma fold_keep_unique {X} (key : X → string) (sel : JsObject bool) (xs : list X)
    (acc : JsObject bool) :
  unique_keys acc →
  unique_keys (fold_left (λ acc x, if checked sel (key x) then obj_set acc (key x) true else acc)
                 xs acc).
Proof.
  revert acc. induction xs as [|x xs IH]; intros acc Hu; cbn [fold_left]; [exact Hu|].
  apply IH. destruct (checked sel (key x)); [apply unique_keys_set|]; exact Hu.
Qed.

Lemma fold_set_true {X} (key : X → string) (xs : list X) (acc : JsObject bool) :
  NoDup (map key xs) → (∀ x, x ∈ xs → key x ∉ map fst acc) →
  fold_left (λ next x, obj_set next (key x) true) xs acc = acc ++ map (λ x, (key x, true)) xs.
Proof.
  revert acc. induction xs as [|x xs IH]; intros acc Hnd Hfresh; cbn [fold_left map].
  - rewrite app_nil_r. reflexivity.
  - cbn in Hnd. apply NoDup_cons in Hnd as [Hx Hnd].
    assert (Hset : obj_set acc (key x) true = acc ++ [(key x, true)]).
    { specialize (Hfresh x (list_elem_of_here _ _)).
      clear -Hfresh. induction acc as [|[k v] acc IHa]; cbn; [reflexivity|].
      cbn in Hfresh. apply not_elem_of_cons in Hfresh as [Hne Hfresh].
      apply not_eq_sym, String.eqb_neq in Hne. rewrite Hne. f_equal. apply IHa, Hfresh. }
    rewrite Hset, IH; [rewrite <- app_assoc; reflexivity | exact Hnd |].
    intros y Hy. rewrite map_app. cbn. rewrite not_elem_of_app. split.
    + apply Hfresh, list_elem_of_further, Hy.
    + intros Hin. apply list_elem_of_singleton in Hin. apply Hx. rewrite <- Hin.
      apply list_elem_of_fmap. exists y. split; [reflexivity | exact Hy].
Qed.

Lemma fold_set_checked {X} (key : X → string) (xs : list X) (acc : JsObject bool) k :
  checked (fold_left (λ next x, obj_set next (key x) true) xs acc) k
  = checked acc k || bool_decide (k ∈ map key xs).
Proof.
  revert acc. induction xs as [|x xs IH]; intros acc; cbn [fold_left map].
  - rewrite bool_decide_eq_false_2 by apply not_elem_of_nil. rewrite orb_false_r. reflexivity.
  - rewrite IH, checked_set, decide_cons. destruct (String.eqb k (key x)); [|reflexivity].
    cbn. rewrite orb_true_r. reflexivity.
Qed.

Lemma checkedKeys_all_true (ks : list string) :
  checkedKeys (map (λ k, (k, true)) ks) = ks.
Proof. unfold checkedKeys. induction ks as [|k ks IH]; cbn; [reflexivity|]. f_equal. exact IH. Qed.

Lemma without_last (l : list string) x : NoDup (l ++ [x]) → without x (l ++ [x]) = l.
Proof.
  intros Hnd. apply NoDup_app in Hnd as (_ & Hdisj & _).
  unfold without. rewrite List.filter_app. cbn. rewrite String.eqb_refl. cbn. rewrite app_nil_r.
  induction l as [|y l IH]; cbn; [reflexivity|].
  assert (Hne : y ≠ x).
  { intros ->. apply (Hdisj x); [apply list_elem_of_here | apply list_elem_of_singleton; reflexivity]. }
  apply String.eqb_neq in Hne. rewrite Hne. cbn. f_equal. apply IH.
  intros z Hz. apply Hdisj, list_elem_of_further, Hz.
Qed.

(** ** Counting nothing *)

Lemma checkedKeys_nil_iff (o : JsObject bool) :
  unique_keys o → (checkedKeys o = [] ↔ ∀ k, checked o k = false).
Proof.
  intros Hu. split.
  - intros Hnil k. destruct (checked o k) eqn:Hc; [|reflexivity].
    apply checked_in_keys in Hc. rewrite Hnil in Hc. apply elem_of_nil in Hc. contradiction.
  - intros Hall. destruct (checkedKeys o) as [|k ks] eqn:Hk; [reflexivity|].
    exfalso. assert (Hin : k ∈ checkedKeys o) by (rewrite Hk; apply list_elem_of_here).
    unfold checkedKeys in Hin. apply list_elem_of_fmap in Hin as ([k' v] & -> & Hin).
    apply list_elem_of_In, List.filter_In in Hin as [Hin Hv]. cbn in Hv. subst v.
    apply list_elem_of_In, (elem_of_obj_get o k' true Hu) in Hin.
    specialize (Hall k'). unfold checked in Hall. rewrite Hin in Hall. discriminate.
Qed.

Lemma selectedFieldCount_zero (selF : JsObject (JsObject bool)) :
  unique_field_keys selF →
  (selectedFieldCount selF = 0 ↔ ∀ t f, field_checked selF t f = false).
Proof.
  intros [Hu Hall]. split.
  - intros Hz t f. unfold field_checked. destruct (obj_get selF t) as [sel|] eqn:Hg; [|reflexivity].
    pose proof (obj_get_elem_of _ _ _ Hg) as Hin.
    assert (Hsel : checkedKeys sel = []).
    { clear -Hz Hin. induction selF as [|e selF IH]; [apply elem_of_nil in Hin; contradiction|].
      rewrite selectedFieldCount_cons in Hz. apply elem_of_cons in Hin as [<-|Hin].
      - cbn [snd] in Hz. destruct (checkedKeys sel); [reflexivity | cbn [length] in Hz; lia].
      - apply IH; [lia | exact Hin]. }
    rewrite Forall_forall in Hall.
    apply (checkedKeys_nil_iff sel (Hall (t, sel) Hin)), Hsel.
  - intros Hnone. unfold unique_keys in Hu.
    induction selF as [|[t sel] selF IH]; [reflexivity|].
    rewrite selectedFieldCount_cons. cbn [snd].
    cbn in Hu. apply NoDup_cons in Hu as [Ht Hu]. apply Forall_cons in Hall as [Hsel Hall].
    assert (Hs : checkedKeys sel = []).
    { apply (checkedKeys_nil_iff sel Hsel). intros f.
      specialize (Hnone t f). unfold field_checked in Hnone. cbn in Hnone.
      rewrite String.eqb_refl in Hnone. exact Hnone. }
    rewrite Hs. cbn [length Nat.add]. apply IH; [exact Hu | exact Hall |].
    intros t' f. specialize (Hnone t' f). unfold field_checked in *. cbn in Hnone.
    destruct (String.eqb t t') eqn:E; [|exact Hnone].
    apply String.eqb_eq in E. subst t'.
    apply obj_get_None in Ht. rewrite Ht. reflexivity.
Qed.

(** ** Folds that set one entry per element *)

Lemma fold_left_pointwise {A B} (f g : A → B → A) (l : list B) (a : A) :
  (∀ a b, f a b = g a b) → fold_left f l a = fold_left g l a.
Proof.
  intros Hfg. revert a. induction l as [|b l IH]; intros a; cbn; [reflexivity|].
  rewrite Hfg. apply IH.
Qed.

Section FoldEntries.

Context {X V : Type} (key : X → string) (entry : X → option V).

Local Abbreviation step := (set_entry key entry).

Lemma step_other next x t : t ≠ key x → obj_get (step next x) t = obj_get next t.
Proof.
  intros Hne. unfold set_entry. destruct (entry x); [|reflexivity].
  apply obj_get_set_ne. congruence.
Qed.

Lemma fold_entries_other xs next t :
  t ∉ map key xs → obj_get (fold_left step xs next) t = obj_get next t.
Proof.
  revert next. induction xs as [|x xs IH]; intros next Ht; cbn [fold_left]; [reflexivity|].
  cbn in Ht. apply not_elem_of_cons in Ht as [Hne Ht].
  rewrite IH by exact Ht. apply step_other, Hne.
Qed.

Lemma fold_entries_at xs next x :
  NoDup (map key xs) → x ∈ xs →
  obj_get (fold_left step xs next) (key x) =
  match entry x with
  | Some v => Some v
  | None => obj_get next (key x)
  end.
Proof.
  revert next. induction xs as [|x0 xs IH]; intros next Hnd Hin.
  - apply elem_of_nil in Hin. contradiction.
  - cbn in Hnd. apply NoDup_cons in Hnd as [Hx0 Hnd]. cbn [fold_left].
    apply elem_of_cons in Hin as [->|Hin].
    + rewrite fold_entries_other by exact Hx0.
      unfold set_entry. destruct (entry x0); [apply obj_get_set_eq | reflexivity].
    + rewrite IH by assumption.
      destruct (entry x); [reflexivity|]. apply step_other.
      intros Heq. apply Hx0. rewrite <- Heq.
      apply list_elem_of_fmap. exists x. split; [reflexivity | exact Hin].
Qed.

Lemma fold_entries_unique xs next :
  unique_keys next → unique_keys (fold_left step xs next).
Proof.
  revert next. induction xs as [|x xs IH]; intros next Hu; cbn [fold_left]; [exact Hu|].
  apply IH. unfold set_entry. destruct (entry x); [apply unique_keys_set|]; exact Hu.
Qed.

Lemma fold_entries_values (P : V → Prop) xs next :
  (∀ x v, entry x = Some v → P v) → Forall (λ e, P e.2) next →
  Forall (λ e, P e.2) (fold_left step xs next).
Proof.
  intros HP. revert next. induction xs as [|x xs IH]; intros next Hn; cbn [fold_left]; [exact Hn|].
  apply IH. unfold set_entry. destruct (entry x) as [v|] eqn:E; [|exact Hn].
  rewrite Forall_forall in Hn |- *. intros [k v'] Hin.
  apply elem_of_obj_set in Hin as [Hin|[_ ->]]; [apply (Hn _ Hin) | apply (HP x), E].
Qed.

End FoldEntries.

Lemma pruneSelectedFields_fold bundles prev :
  pruneSelectedFields bundles prev =
  fold_left (set_entry (λ bundle, tm_id (tb_meta bundle)) (keptFields prev)) bundles [].
Proof.
  unfold pruneSelectedFields. apply fold_left_pointwise. intros next bundle.
  unfold set_entry, keptFields.
  destruct (obj_get prev (tm_id (tb_meta bundle))); [|reflexivity].
  match goal with
  | |- context [fold_left ?f (tb_fields bundle) []] =>
      destruct (fold_left f (tb_fields bundle) [])
  end; reflexivity.
Qed.

Lemma selectVisibleFields_fold rbs selT :
  selectVisibleFields rbs selT =
  fold_left (set_entry (λ rb, tm_id (tb_meta (rb_bundle rb))) (visibleEntry selT)) rbs [].
Proof.
  unfold selectVisibleFields. apply fold_left_pointwise. intros next rb.
  unfold set_entry, visibleEntry. destruct (checked selT _); [reflexivity|].
  destruct (rb_visibleFields rb); reflexivity.
Qed.

Lemma keptFields_checked prev bundle filtered f :
  keptFields prev bundle = Some filtered →
  filtered ≠ [] ∧ unique_keys filtered ∧
  checked filtered f =
    field_checked prev (tm_id (tb_meta bundle)) f
    && bool_decide (f ∈ field_ids (tb_fields bundle)).
Proof.
  unfold keptFields, field_checked.
  destruct (obj_get prev (tm_id (tb_meta bundle))) as [sel|]; [|discriminate].
  pose proof (fold_keep_checked fm_id sel (tb_fields bundle) [] f) as Hc.
  pose proof (fold_keep_unique fm_id sel (tb_fields bundle) [] unique_keys_nil) as Hu.
  cbv beta in Hc, Hu.
  match goal with
  | |- context [fold_left ?f (tb_fields bundle) []] =>
      destruct (fold_left f (tb_fields bundle) []) as [|e l] eqn:Hf
  end; [discriminate|].
  intros [= <-]. split; [discriminate|]. split; [exact Hu|]. exact Hc.
Qed.

Lemma keptFields_None prev bundle f :
  keptFields prev bundle = None →
  field_checked prev (tm_id (tb_meta bundle)) f
  && bool_decide (f ∈ field_ids (tb_fields bundle)) = false.
Proof.
  unfold keptFields, field_checked.
  destruct (obj_get prev (tm_id (tb_meta bundle))) as [sel|]; [|reflexivity].
  pose proof (fold_keep_checked fm_id sel (tb_fields bundle) [] f) as Hc.
  cbv beta in Hc.
  match goal with
  | |- context [fold_left ?f (tb_fields bundle) []] =>
      destruct (fold_left f (tb_fields bundle) []) as [|e l] eqn:Hf
  end; [|discriminate].
  intros _. symmetry. exact Hc.
Qed.

Lemma fold_set_unique {X} (key : X → string) (xs : list X) (acc : JsObject bool) :
  unique_keys acc → unique_keys (fold_left (λ next x, obj_set next (key x) true) xs acc).
Proof.
  revert acc. induction xs as [|x xs IH]; intros acc Hu; cbn [fold_left]; [exact Hu|].
  apply IH, unique_keys_set, Hu.
Qed.

Lemma visibleEntry_checked selT rb sel f :
  visibleEntry selT rb = Some sel →
  sel ≠ [] ∧ unique_keys sel ∧ checked selT (tm_id (tb_meta (rb_bundle rb))) = false ∧
  checked sel f = bool_decide (f ∈ field_ids (rb_visibleFields rb)).
Proof.
  unfold visibleEntry. destruct (checked selT _) eqn:Hc; [discriminate|].
  destruct (rb_visibleFields rb) as [|x fields] eqn:Hv; [discriminate|].
  pose proof (fold_set_checked fm_id (x :: fields) [] f) as Hf.
  pose proof (fold_set_checked fm_id (x :: fields) [] (fm_id x)) as Hx.
  pose proof (fold_set_unique fm_id (x :: fields) [] unique_keys_nil) as Hu.
  rewrite (bool_decide_eq_true_2 (fm_id x ∈ map fm_id (x :: fields))) in Hx
    by apply list_elem_of_here.
  cbv beta in Hf, Hx, Hu.
  set (F := fold_left (λ sel field, obj_set sel (fm_id field) true) (x :: fields) []) in *.
  intros [= <-].
  split; [|split; [exact Hu | split; [reflexivity | exact Hf]]].
  intros Hnil. rewrite Hnil in Hx. discriminate.
Qed.

Lemma visibleEntry_None selT rb f :
  visibleEntry selT rb = None →
  checked selT (tm_id (tb_meta (rb_bundle rb))) = true ∨ f ∉ field_ids (rb_visibleFields rb).
Proof.
  unfold visibleEntry. destruct (checked selT _); [left; reflexivity|].
  destruct (rb_visibleFields rb); [|discriminate].
  intros _. right. apply not_elem_of_nil.
Qed.

(** Distinct keys of a given object. *)
Ltac distinct_keys :=
  unfold unique_keys; cbn; apply NoDup_ListNoDup; repeat constructor; cbn; intuition discriminate.

(** * Properties of the selection *)

(** X1. [toggleTable] flips the checkbox of the given table and of no other;
    the keys of the selection stay distinct, and the number of selected
    tables goes up or down by exactly one. *)
Theorem toggleTable_flips_one (tableId : string) (prev : JsObject bool) :
  unique_keys prev →
  (∀ k, checked (toggleTable tableId prev) k =
        if String.eqb k tableId then negb (checked prev k) else checked prev k) ∧
  unique_keys (toggleTable tableId prev) ∧
  if checked prev tableId
  then S (selectedTableCount (toggleTable tableId prev)) = selectedTableCount prev
  else selectedTableCount (toggleTable tableId prev) = S (selectedTableCount prev).
Proof.
  intros Hu. split; [intros k; apply toggle_checked|].
  split; [apply toggle_unique, Hu|]. apply toggle_count, Hu.
Qed.

Lemma toggleTable_flips_one_witness :
  (∀ k, checked (toggleTable "tblA" [("tblA", true); ("tblB", true)]) k =
        if String.eqb k "tblA" then negb (checked [("tblA", true); ("tblB", true)] k)
        else checked [("tblA", true); ("tblB", true)] k) ∧
  unique_keys (toggleTable "tblA" [("tblA", true); ("tblB", true)]) ∧
  if checked [("tblA", true); ("tblB", true)] "tblA"
  then S (selectedTableCount (toggleTable "tblA" [("tblA", true); ("tblB", true)]))
       = selectedTableCount [("tblA", true); ("tblB", true)]
  else selectedTableCount (toggleTable "tblA" [("tblA", true); ("tblB", true)])
       = S (selectedTableCount [("tblA", true); ("tblB", true)]).
Proof.
  apply (toggleTable_flips_one "tblA" [("tblA", true); ("tblB", true)]).
  distinct_keys.
Defined.

(** X2. [toggleField] flips the checkbox of the given field of the given
    table and of no other; it never leaves a table with an empty selection,
    keeps the keys distinct, and moves the number of selected fields by
    exactly one. *)
Theorem toggleField_flips_one (tableId fieldId : string) (prev : JsObject (JsObject bool)) :
  unique_field_keys prev →
  no_empty_entry prev →
  let next := toggleField tableId fieldId prev in
  (∀ t f, field_checked next t f =
          if String.eqb t tableId && String.eqb f fieldId
          then negb (field_checked prev t f) else field_checked prev t f) ∧
  no_empty_entry next ∧
  unique_field_keys next ∧
  if field_checked prev tableId fieldId
  then S (selectedFieldCount next) = selectedFieldCount prev
  else selectedFieldCount next = S (selectedFieldCount prev).
Proof.
  intros Hu Hne. cbv zeta.
  pose proof (toggleField_entry tableId fieldId prev) as Hnext. cbv zeta in Hnext.
  set (sel0 := default [] (obj_get prev tableId)) in *.
  set (sel1 := toggleTable fieldId sel0) in *.
  assert (Hu0 : unique_keys sel0).
  { subst sel0. destruct (obj_get prev tableId) as [s|] eqn:Hg;
      [exact (unique_entry prev tableId s Hu Hg) | apply unique_keys_nil]. }
  assert (Hat : ∀ f, field_checked (toggleField tableId fieldId prev) tableId f = checked sel1 f).
  { intros f. rewrite Hnext. unfold field_checked. destruct sel1 as [|e l] eqn:Hs.
    - rewrite obj_get_delete_eq. reflexivity.
    - rewrite obj_get_set_eq. reflexivity. }
  assert (Hother : ∀ t, t ≠ tableId →
            obj_get (toggleField tableId fieldId prev) t = obj_get prev t).
  { intros t Ht. rewrite Hnext. destruct sel1;
      [apply obj_get_delete_ne | apply obj_get_set_ne]; congruence. }
  split; [|split; [|split]].
  - intros t f. destruct (String.eqb t tableId) eqn:Et.
    + apply String.eqb_eq in Et. subst t. rewrite Hat. subst sel1.
      rewrite toggle_checked, (field_checked_default prev). fold sel0.
      cbn [andb]. reflexivity.
    + apply String.eqb_neq in Et. cbn [andb]. unfold field_checked.
      rewrite Hother by exact Et. reflexivity.
  - intros t s Hg. destruct (String.eqb t tableId) eqn:Et.
    + apply String.eqb_eq in Et. subst t. rewrite Hnext in Hg. destruct sel1 as [|e l] eqn:Hs.
      * rewrite obj_get_delete_eq in Hg. discriminate.
      * rewrite obj_get_set_eq in Hg. injection Hg as <-. discriminate.
    + apply String.eqb_neq in Et. rewrite Hother in Hg by exact Et. apply (Hne t s Hg).
  - destruct Hu as [Huk Hall]. rewrite Hnext. split.
    + destruct sel1; [apply unique_keys_delete | apply unique_keys_set]; exact Huk.
    + rewrite Forall_forall in Hall |- *. intros [t s] Hin. cbn [snd].
      destruct sel1 as [|e l] eqn:Hs.
      * apply elem_of_obj_delete in Hin. apply (Hall _ Hin).
      * apply elem_of_obj_set in Hin as [Hin|[_ ->]]; [apply (Hall _ Hin)|].
        rewrite <- Hs. apply toggle_unique, Hu0.
  - rewrite (field_checked_default prev). fold sel0.
    pose proof (toggle_count sel0 fieldId Hu0) as Hc. fold sel1 in Hc.
    rewrite Hnext. destruct sel1 as [|e l] eqn:Hs.
    + pose proof (fieldCount_delete prev tableId (proj1 Hu)) as Hd. fold sel0 in Hd.
      destruct (checked sel0 fieldId); cbn in Hc; [lia | discriminate].
    + pose proof (fieldCount_set prev tableId (e :: l)) as Hd. fold sel0 in Hd.
      destruct (checked sel0 fieldId); lia.
Qed.

Lemma toggleField_flips_one_witness :
  let prev := [("tblA", [("fldA1", true)])] in
  let next := toggleField "tblA" "fldA1" prev in
  (∀ t f, field_checked next t f =
          if String.eqb t "tblA" && String.eqb f "fldA1"
          then negb (field_checked prev t f) else field_checked prev t f) ∧
  no_empty_entry next ∧
  unique_field_keys next ∧
  if field_checked prev "tblA" "fldA1"
  then S (selectedFieldCount next) = selectedFieldCount prev
  else selectedFieldCount next = S (selectedFieldCount prev).
Proof.
  apply (toggleField_flips_one "tblA" "fldA1" [("tblA", [("fldA1", true)])]).
  - split; [distinct_keys|].
    apply Forall_cons. split; [distinct_keys | apply Forall_nil_2].
  - intros t s Hg. cbn [obj_get] in Hg.
    destruct (String.eqb "tblA" t); [injection Hg as <-; discriminate | discriminate].
Defined.

(** X3. The selection that [refreshTables] keeps: a table stays checked
    exactly when it was checked and is still enumerated; a field stays
    checked exactly when it was checked and its table still has it; no table
    is left with an empty field selection. *)
Theorem refresh_prunes_selection (bundles : list TableBundle)
    (prevTables : JsObject bool) (prevFields : JsObject (JsObject bool)) :
  NoDup (table_ids bundles) →
  (∀ id, checked (pruneSelectedTables bundles prevTables) id = true ↔
         checked prevTables id = true ∧ id ∈ table_ids bundles) ∧
  (∀ t f, field_checked (pruneSelectedFields bundles prevFields) t f = true ↔
          field_checked prevFields t f = true ∧ has_field bundles t f) ∧
  no_empty_entry (pruneSelectedFields bundles prevFields) ∧
  unique_keys (pruneSelectedTables bundles prevTables) ∧
  unique_field_keys (pruneSelectedFields bundles prevFields).
Proof.
  intros Hnd.
  assert (Hget : ∀ t s, obj_get (pruneSelectedFields bundles prevFields) t = Some s →
            ∃ bundle, bundle ∈ bundles ∧ tm_id (tb_meta bundle) = t ∧
                      keptFields prevFields bundle = Some s).
  { intros t s Hg. rewrite pruneSelectedFields_fold in Hg.
    destruct (decide (t ∈ table_ids bundles)) as [Hin|Hout].
    - apply list_elem_of_fmap in Hin as (bundle & -> & Hin). exists bundle.
      split; [exact Hin|]. split; [reflexivity|].
      rewrite (fold_entries_at (λ b, tm_id (tb_meta b)) (keptFields prevFields)
                 bundles [] bundle Hnd Hin) in Hg.
      destruct (keptFields prevFields bundle); [exact Hg | discriminate].
    - rewrite (fold_entries_other (λ b, tm_id (tb_meta b)) (keptFields prevFields)
                 bundles [] t Hout) in Hg. discriminate. }
  split; [|split; [|split; [|split]]].
  - intros id. unfold pruneSelectedTables.
    rewrite (fold_keep_checked (λ b, tm_id (tb_meta b)) prevTables bundles [] id).
    change (checked [] id) with false. cbn [orb].
    rewrite andb_true_iff, bool_decide_eq_true. reflexivity.
  - intros t f. split.
    + unfold field_checked at 1.
      destruct (obj_get (pruneSelectedFields bundles prevFields) t) as [s|] eqn:Hg;
        [|discriminate].
      destruct (Hget t s Hg) as (bundle & Hin & <- & Hk).
      destruct (keptFields_checked prevFields bundle s f Hk) as (_ & _ & ->).
      rewrite andb_true_iff, bool_decide_eq_true. intros [Hc Hf].
      split; [exact Hc|]. exists bundle. split; [exact Hin|]. split; [reflexivity | exact Hf].
    + intros [Hc (bundle & Hin & <- & Hf)].
      unfold field_checked at 1. rewrite pruneSelectedFields_fold.
      rewrite (fold_entries_at (λ b, tm_id (tb_meta b)) (keptFields prevFields)
                 bundles [] bundle Hnd Hin).
      destruct (keptFields prevFields bundle) as [s|] eqn:Hk.
      * destruct (keptFields_checked prevFields bundle s f Hk) as (_ & _ & ->).
        rewrite Hc. apply bool_decide_eq_true_2, Hf.
      * pose proof (keptFields_None prevFields bundle f Hk) as Hn.
        rewrite Hc in Hn. cbn [andb] in Hn. apply bool_decide_eq_false in Hn. contradiction.
  - intros t s Hg. destruct (Hget t s Hg) as (bundle & _ & _ & Hk).
    apply (keptFields_checked prevFields bundle s "" Hk).
  - apply (fold_keep_unique (λ b, tm_id (tb_meta b)) prevTables bundles []), unique_keys_nil.
  - rewrite pruneSelectedFields_fold. split.
    + apply (fold_entries_unique (λ b, tm_id (tb_meta b)) (keptFields prevFields)),
        unique_keys_nil.
    + apply (fold_entries_values (λ b, tm_id (tb_meta b)) (keptFields prevFields)
               (λ v, unique_keys v)); [|constructor].
      intros bundle s Hk. apply (keptFields_checked prevFields bundle s "" Hk).
Qed.

Lemma refresh_prunes_selection_witness :
  let bundles := [tableB] in
  let prevTables := [("tblA", true); ("tblB", true)] in
  let prevFields := [("tblB", [("fldB1", true); ("fldGone", true)])] in
  (∀ id, checked (pruneSelectedTables bundles prevTables) id = true ↔
         checked prevTables id = true ∧ id ∈ table_ids bundles) ∧
  (∀ t f, field_checked (pruneSelectedFields bundles prevFields) t f = true ↔
          field_checked prevFields t f = true ∧ has_field bundles t f) ∧
  no_empty_entry (pruneSelectedFields bundles prevFields) ∧
  unique_keys (pruneSelectedTables bundles prevTables) ∧
  unique_field_keys (pruneSelectedFields bundles prevFields).
Proof.
  apply (refresh_prunes_selection [tableB] [("tblA", true); ("tblB", true)]
           [("tblB", [("fldB1", true); ("fldGone", true)])]).
  distinct_keys.
Defined.

(** X4. "Select all tables" replaces the selection: with nothing listed it
    changes nothing; otherwise exactly the listed tables are checked (a table
    that the filter hides is no longer selected), no field is selected any
    more, and the count of targets is the number of listed tables. *)
Theorem selectVisibleTables_selects_listed (renderBundles : list RenderBundle) (a : AppState) :
  selectVisibleTables [] a = (a, NoTableToSelect) ∧
  (renderBundles ≠ [] → NoDup (visible_ids renderBundles) →
   let r := selectVisibleTables renderBundles a in
   r.2 = TablesSelected ∧
   (∀ id, checked (app_selectedTables r.1) id = true ↔ id ∈ visible_ids renderBundles) ∧
   app_selectedFields r.1 = [] ∧
   totalSelectedTargets r.1 = length renderBundles ∧
   app_tables r.1 = app_tables a ∧ app_snapshot r.1 = app_snapshot a).
Proof.
  split; [reflexivity|]. intros Hne Hnd. cbv zeta.
  destruct renderBundles as [|rb rbs]; [congruence|].
  unfold selectVisibleTables. cbn [fst snd app_selectedTables app_selectedFields
    app_tables app_snapshot].
  split; [reflexivity|]. split; [|split; [reflexivity | split; [|split; reflexivity]]].
  - intros id.
    rewrite (fold_set_checked (λ rb, tm_id (tb_meta (rb_bundle rb))) (rb :: rbs) [] id).
    change (checked [] id) with false. cbn [orb]. apply bool_decide_eq_true.
  - unfold totalSelectedTargets, selectedTableCount.
    cbn [app_selectedTables app_selectedFields].
    rewrite (fold_set_true (λ rb, tm_id (tb_meta (rb_bundle rb))) (rb :: rbs) [] Hnd)
      by (intros; apply not_elem_of_nil).
    cbn [app]. rewrite selectedFieldCount_nil.
    rewrite <- (map_map (λ rb, tm_id (tb_meta (rb_bundle rb))) (λ k, (k, true))).
    rewrite checkedKeys_all_true, length_map. lia.
Qed.

Lemma selectVisibleTables_selects_listed_witness :
  let a := mkAppState [tableA; tableB] false [("tblB", true)] [("tblA", [("fldA1", true)])] None in
  let r := selectVisibleTables (full_view [tableA]) a in
  r.2 = TablesSelected ∧
  (∀ id, checked (app_selectedTables r.1) id = true ↔ id ∈ visible_ids (full_view [tableA])) ∧
  app_selectedFields r.1 = [] ∧
  totalSelectedTargets r.1 = length (full_view [tableA]) ∧
  app_tables r.1 = app_tables a ∧ app_snapshot r.1 = app_snapshot a.
Proof.
  apply (proj2 (selectVisibleTables_selects_listed (full_view [tableA])
                  (mkAppState [tableA; tableB] false [("tblB", true)]
                     [("tblA", [("fldA1", true)])] None))).
  - discriminate.
  - distinct_keys.
Defined.

(** X5. "Select all tables" on the unfiltered list, followed by the planner:
    the last table is the one kept, and the tables to delete are all the
    others, in the order of the list. *)
Theorem select_all_keeps_last_table (tables : list TableBundle) (lastBundle : TableBundle)
    (a : AppState) :
  NoDup (table_ids tables) →
  last tables = Some lastBundle →
  let a' := (selectVisibleTables (full_view tables) a).1 in
  let plan := planRetain (app_selectedTables a') (map tb_meta tables) in
  lastTableId plan = Some (tm_id (tb_meta lastBundle)) ∧
  tableIdsToDelete plan ++ [tm_id (tb_meta lastBundle)] = table_ids tables ∧
  totalSelectedTargets a' = length tables.
Proof.
  intros Hnd Hlast. cbv zeta.
  apply last_Some in Hlast as [init ->].
  assert (Hfull : app_selectedTables (selectVisibleTables (full_view (init ++ [lastBundle])) a).1
                  = map (λ k, (k, true)) (table_ids (init ++ [lastBundle]))).
  { unfold full_view, selectVisibleTables.
    destruct (map _ (init ++ [lastBundle])) as [|rb rbs] eqn:Hm.
    { apply (f_equal length) in Hm. rewrite length_map, length_app in Hm. cbn in Hm. lia. }
    rewrite <- Hm. cbn [fst app_selectedTables].
    rewrite (fold_set_true (λ rb, tm_id (tb_meta (rb_bundle rb)))).
    - cbn [app]. unfold table_ids. rewrite !map_map. reflexivity.
    - rewrite map_map. exact Hnd.
    - intros; apply not_elem_of_nil. }
  assert (Hkeys : checkedKeys
            (app_selectedTables (selectVisibleTables (full_view (init ++ [lastBundle])) a).1)
            = table_ids (init ++ [lastBundle])).
  { rewrite Hfull. apply checkedKeys_all_true. }
  rewrite (planRetain_retains _ (map tb_meta (init ++ [lastBundle])) (tb_meta lastBundle)).
  - cbn [lastTableId tableIdsToDelete]. rewrite Hkeys. split; [reflexivity|]. split.
    + unfold table_ids in *. rewrite map_app in *. cbn [map] in *.
      rewrite (without_last _ _ Hnd). reflexivity.
    + unfold totalSelectedTargets, selectedTableCount. rewrite Hkeys.
      unfold table_ids. rewrite length_map.
      replace (app_selectedFields _) with (@nil (string * JsObject bool));
        [rewrite selectedFieldCount_nil; lia|].
      unfold full_view, selectVisibleTables.
      destruct (map _ (init ++ [lastBundle])) as [|rb rbs] eqn:Hm; [|reflexivity].
      apply (f_equal length) in Hm. rewrite length_map, length_app in Hm. cbn in Hm. lia.
  - rewrite map_app. cbn [map]. apply last_snoc.
  - rewrite Hkeys. unfold table_ids. rewrite !length_map. lia.
Qed.

Lemma select_all_keeps_last_table_witness :
  let a' := (selectVisibleTables (full_view [tableA; tableB]) emptyApp).1 in
  let plan := planRetain (app_selectedTables a') (map tb_meta [tableA; tableB]) in
  lastTableId plan = Some (tm_id (tb_meta tableB)) ∧
  tableIdsToDelete plan ++ [tm_id (tb_meta tableB)] = table_ids [tableA; tableB] ∧
  totalSelectedTargets a' = length [tableA; tableB].
Proof.
  apply (select_all_keeps_last_table [tableA; tableB] tableB emptyApp).
  - distinct_keys.
  - reflexivity.
Defined.

(** X6. "Select all fields" sets the field selection to the listed fields of
    the listed tables that are not selected as tables: a field is checked
    afterwards exactly when its table is listed and not selected and the
    field is listed; a table never gets an empty selection; with nothing
    listed the selection is left as it is. *)
Theorem selectVisibleFields_selects_listed (renderBundles : list RenderBundle) (a : AppState) :
  selectVisibleFieldsClick [] a = (a, NoFieldToSelect) ∧
  (renderBundles ≠ [] → NoDup (visible_ids renderBundles) →
   let r := selectVisibleFieldsClick renderBundles a in
   r.2 = FieldsSelected ∧
   app_selectedTables r.1 = app_selectedTables a ∧
   (∀ t f, field_checked (app_selectedFields r.1) t f = true ↔
           checked (app_selectedTables a) t = false ∧
           ∃ rb, rb ∈ renderBundles ∧ tm_id (tb_meta (rb_bundle rb)) = t ∧
                 f ∈ field_ids (rb_visibleFields rb)) ∧
   no_empty_entry (app_selectedFields r.1) ∧
   unique_field_keys (app_selectedFields r.1)).
Proof.
  split; [reflexivity|]. intros Hne Hnd. cbv zeta.
  destruct renderBundles as [|rb0 rbs0]; [congruence|].
  unfold selectVisibleFieldsClick.
  cbn [fst snd app_selectedTables app_selectedFields].
  set (rbs := rb0 :: rbs0) in *.
  set (selT := app_selectedTables a).
  split; [reflexivity|]. split; [reflexivity|].
  rewrite selectVisibleFields_fold.
  assert (Hget : ∀ t s,
            obj_get (fold_left (set_entry (λ rb, tm_id (tb_meta (rb_bundle rb)))
                                  (visibleEntry selT)) rbs []) t = Some s →
            ∃ rb, rb ∈ rbs ∧ tm_id (tb_meta (rb_bundle rb)) = t ∧
                  visibleEntry selT rb = Some s).
  { intros t s Hg. destruct (decide (t ∈ visible_ids rbs)) as [Hin|Hout].
    - apply list_elem_of_fmap in Hin as (rb & -> & Hin). exists rb.
      split; [exact Hin|]. split; [reflexivity|].
      rewrite (fold_entries_at (λ rb, tm_id (tb_meta (rb_bundle rb))) (visibleEntry selT)
                 rbs [] rb Hnd Hin) in Hg.
      destruct (visibleEntry selT rb); [exact Hg | discriminate].
    - rewrite (fold_entries_other (λ rb, tm_id (tb_meta (rb_bundle rb))) (visibleEntry selT)
                 rbs [] t Hout) in Hg. discriminate. }
  split; [|split; [|split]].
  - intros t f. split.
    + unfold field_checked at 1.
      match goal with |- context [obj_get ?o t] => destruct (obj_get o t) as [s|] eqn:Hg end;
        [|discriminate].
      destruct (Hget t s Hg) as (rb & Hin & <- & Hv).
      destruct (visibleEntry_checked selT rb s f Hv) as (_ & _ & Hc & ->).
      rewrite bool_decide_eq_true. intros Hf. split; [exact Hc|].
      exists rb. split; [exact Hin|]. split; [reflexivity | exact Hf].
    + intros [Hc (rb & Hin & <- & Hf)]. unfold field_checked.
      rewrite (fold_entries_at (λ rb, tm_id (tb_meta (rb_bundle rb))) (visibleEntry selT)
                 rbs [] rb Hnd Hin).
      destruct (visibleEntry selT rb) as [s|] eqn:Hv.
      * destruct (visibleEntry_checked selT rb s f Hv) as (_ & _ & _ & ->).
        apply bool_decide_eq_true_2, Hf.
      * destruct (visibleEntry_None selT rb f Hv) as [Hc'|Hf']; [congruence | contradiction].
  - intros t s Hg. destruct (Hget t s Hg) as (rb & _ & _ & Hv).
    apply (visibleEntry_checked selT rb s "" Hv).
  - apply (fold_entries_unique (λ rb, tm_id (tb_meta (rb_bundle rb))) (visibleEntry selT)),
      unique_keys_nil.
  - apply (fold_entries_values (λ rb, tm_id (tb_meta (rb_bundle rb))) (visibleEntry selT)
             (λ v, unique_keys v)); [|constructor].
    intros rb s Hv. apply (visibleEntry_checked selT rb s "" Hv).
Qed.

Lemma selectVisibleFields_selects_listed_witness :
  let a := mkAppState [tableA; tableB] false [("tblB", true)] [] None in
  let r := selectVisibleFieldsClick (full_view [tableA; tableB]) a in
  r.2 = FieldsSelected ∧
  app_selectedTables r.1 = app_selectedTables a ∧
  (∀ t f, field_checked (app_selectedFields r.1) t f = true ↔
          checked (app_selectedTables a) t = false ∧
          ∃ rb, rb ∈ full_view [tableA; tableB] ∧ tm_id (tb_meta (rb_bundle rb)) = t ∧
                f ∈ field_ids (rb_visibleFields rb)) ∧
  no_empty_entry (app_selectedFields r.1) ∧
  unique_field_keys (app_selectedFields r.1).
Proof.
  apply (proj2 (selectVisibleFields_selects_listed (full_view [tableA; tableB])
                  (mkAppState [tableA; tableB] false [("tblB", true)] [] None))).
  - discriminate.
  - distinct_keys.
Defined.

(** * More on the callbacks *)

Section CallbackExtras.

Context {Host : Type} {GW : Gateway Host}.

Implicit Types (w : @World Host).

Local Abbreviation M := (@M Host).

(** A block that starts with a read logs that read first, whatever follows
    and whether or not it is caught. *)
Lemma try_read_first {R A} (c : Call) (op : Host → outcome R) (k : R → M A) (h : M A) w :
  (∀ r, appends w_log (λ _, True) (k r)) → appends w_log (λ _, True) h →
  ∃ rest, w_log (try_catch (read c op ≫= k) h w).2
          = w_log w ++ mkEvent c (is_ok (op (w_host w))) :: rest.
Proof.
  intros Hk Hh. rewrite run_try_catch, run_bind, run_read.
  destruct (op (w_host w)) as [r|]; cbn [is_ok].
  - destruct (Hk r (add_log (mkEvent c true) w)) as (xs & Hl & _).
    destruct (k r (add_log (mkEvent c true) w)) as [[a|] w'] eqn:E; cbn [snd] in *.
    + exists xs. rewrite Hl. cbn [w_log add_log]. rewrite <- app_assoc. reflexivity.
    + destruct (Hh w') as (ys & Hl2 & _). exists (xs ++ ys).
      rewrite Hl2, Hl. cbn [w_log add_log]. rewrite <- !app_assoc. reflexivity.
  - destruct (Hh (add_log (mkEvent c false) w)) as (ys & Hl2 & _). exists ys.
    rewrite Hl2. cbn [w_log add_log]. rewrite <- app_assoc. reflexivity.
Qed.

Lemma captureSnapshot_first_call label w :
  ∃ ok rest,
    w_log (captureSnapshot label w).2 = w_log w ++ mkEvent GetTableMetaList ok :: rest.
Proof.
  unfold captureSnapshot, getTableMetaList.
  eexists. apply try_read_first.
  - intros metaList. unfold getTableById, getFieldMetaList, toast.
    repeat first
      [ apply setSnapshot_calls; intros; exact I
      | callback_step
      | apply appends_modify; reflexivity
      | apply appends_read_log; intros; exact I ].
  - unfold toast.
    repeat first [ callback_step | apply appends_modify; reflexivity ].
Qed.

End CallbackExtras.

(** ** Enumeration of the tables *)

Section Enumeration.

Context {Host : Type} {GW : Gateway Host}.

Implicit Types (w : @World Host).

(** The enumeration of [refreshTables]: it changes nothing but the log, and
    it gives one bundle per enumerated table, in order, or fails when a table
    cannot be read. *)
Lemma bundle_tables_run (metaList : list TableMeta) w :
  ∃ evs r,
    map_all
      (λ meta,
         getTableById (tm_id meta) ;;
         fieldMetaList ← getFieldMetaList (tm_id meta);
         mret (mkTableBundle meta fieldMetaList)) metaList w
    = (r, extend_log evs w) ∧
    Forall (λ e, is_enumeration (ev_call e) = true) evs ∧
    match r with
    | Ok bundles => Forall2 (bundled (w_host w)) metaList bundles
    | Raise => Exists (unreadable (w_host w)) metaList
    end.
Proof.
  revert w. induction metaList as [|meta metaList IH]; intros w.
  - exists [], (Ok []). rewrite extend_log_nil. cbn. auto.
  - cbn [map_all]. rewrite !run_bind. unfold getTableById at 1. rewrite run_read.
    destruct (gw_getTableById (tm_id meta) (w_host w)) as [[]|] eqn:Hb.
    + unfold getFieldMetaList at 1. rewrite run_bind, run_read. cbn [w_host add_log].
      destruct (gw_getFieldMetaList (tm_id meta) (w_host w)) as [fl|] eqn:Hf.
      * cbn [mret M_ret is_ok]. rewrite run_bind.
        set (w1 := add_log _ (add_log _ w)).
        destruct (IH w1) as (evs & r & Hrun & Hev & Hres).
        assert (Hw1 : w1 = extend_log
                  [mkEvent (GetTableById (tm_id meta)) true;
                   mkEvent (GetFieldMetaList (tm_id meta)) true] w)
          by (subst w1; rewrite !add_log_extend, extend_log_app; reflexivity).
        change (w_host w1) with (w_host w) in Hres.
        rewrite Hrun, Hw1, extend_log_app.
        destruct r as [bundles|]; eexists _, _; (split; [reflexivity|]);
          (split; [repeat (constructor; [reflexivity|]); exact Hev|]).
        -- constructor; [|exact Hres]. split; [exact Hb|]. eauto.
        -- apply Exists_cons_tl. exact Hres.
      * exists [mkEvent (GetTableById (tm_id meta)) true;
                mkEvent (GetFieldMetaList (tm_id meta)) false], Raise.
        split; [rewrite !add_log_extend, extend_log_app; reflexivity|].
        split; [repeat constructor|].
        apply Exists_cons_hd. right. exact Hf.
    + exists [mkEvent (GetTableById (tm_id meta)) false], Raise.
      split; [reflexivity|]. split; [repeat constructor|].
      apply Exists_cons_hd. left. exact Hb.
Qed.

Lemma bundled_readable (h : Host) metaList bundles :
  Forall2 (bundled h) metaList bundles → ¬ Exists (unreadable h) metaList.
Proof.
  induction 1 as [|meta b metaList bundles [Hb (fl & Hf & _)] _ IH]; intros Hex.
  - inversion Hex.
  - apply Exists_cons in Hex as [[?|?]|?]; [congruence | congruence | auto].
Qed.

Lemma bundled_meta (h : Host) metaList bundles :
  Forall2 (bundled h) metaList bundles → map tb_meta bundles = metaList.
Proof.
  induction 1 as [|meta b metaList bundles [Hb (fl & Hf & ->)] _ IH]; [reflexivity|].
  cbn. f_equal. exact IH.
Qed.

(** What a refresh does, in its two cases. *)
Lemma refreshTables_run w :
  ∃ w' evs,
    refreshTables w = (Ok tt, w') ∧
    w_host w' = w_host w ∧ w_storage w' = w_storage w ∧ w_errors w' = w_errors w ∧
    w_now w' = w_now w ∧
    w_log w' = w_log w ++ evs ∧
    Forall (λ e, is_enumeration (ev_call e) = true) evs ∧
    ((∃ metaList bundles,
        gw_getTableMetaList (w_host w) = Ok metaList ∧
        Forall2 (bundled (w_host w)) metaList bundles ∧
        w_app w' = mkAppState bundles false
                     (pruneSelectedTables bundles (app_selectedTables (w_app w)))
                     (pruneSelectedFields bundles (app_selectedFields (w_app w)))
                     (app_snapshot (w_app w)) ∧
        w_toasts w' = w_toasts w)
     ∨
     ((gw_getTableMetaList (w_host w) = Raise ∨
       ∃ metaList, gw_getTableMetaList (w_host w) = Ok metaList ∧
                   Exists (unreadable (w_host w)) metaList) ∧
      w_app w' = mkAppState (app_tables (w_app w)) true
                   (app_selectedTables (w_app w)) (app_selectedFields (w_app w))
                   (app_snapshot (w_app w)) ∧
      w_toasts w' = w_toasts w ++ [LoadFailed])).
Proof.
  unfold refreshTables. rewrite run_bind. unfold modify_app at 1. cbn [modify].
  set (w0 := set_app _ w).
  rewrite run_try_catch, run_bind. unfold getTableMetaList at 1. rewrite run_read.
  change (w_host w0) with (w_host w).
  destruct (gw_getTableMetaList (w_host w)) as [metaList|] eqn:Hm.
  - cbn [is_ok]. rewrite run_bind.
    set (w1 := add_log _ w0).
    destruct (bundle_tables_run metaList w1) as (evs & r & Hrun & Hev & Hres).
    rewrite Hrun. change (w_host w1) with (w_host w) in Hres.
    destruct r as [bundles|].
    + cbn [modify_app modify]. eexists _, (mkEvent GetTableMetaList true :: evs).
      split; [reflexivity|]. repeat (split; [reflexivity|]).
      split; [cbn; rewrite <- app_assoc; reflexivity|].
      split; [constructor; [reflexivity | exact Hev]|].
      left. exists metaList, bundles. split; [reflexivity|]. split; [exact Hres|].
      split; reflexivity.
    + cbn [modify_app modify toast mbind M_bind]. eexists _, (mkEvent GetTableMetaList true :: evs).
      split; [reflexivity|]. repeat (split; [reflexivity|]).
      split; [cbn; rewrite <- app_assoc; reflexivity|].
      split; [constructor; [reflexivity | exact Hev]|].
      right. split; [right; eauto|]. split; reflexivity.
  - cbn [modify_app modify toast mbind M_bind is_ok]. eexists _, [mkEvent GetTableMetaList false].
    split; [reflexivity|]. repeat (split; [reflexivity|]).
    split; [repeat constructor|].
    right. split; [left; reflexivity|]. split; reflexivity.
Qed.

Lemma pruneSelectedTables_nil bundles : pruneSelectedTables bundles [] = [].
Proof.
  unfold pruneSelectedTables. induction bundles as [|b bundles IH]; [reflexivity|].
  cbn [fold_left]. exact IH.
Qed.

Lemma pruneSelectedFields_nil bundles : pruneSelectedFields bundles [] = [].
Proof.
  unfold pruneSelectedFields. induction bundles as [|b bundles IH]; [reflexivity|].
  cbn [fold_left obj_get]. exact IH.
Qed.

(** A refresh of an empty selection leaves it empty. *)
Lemma refreshTables_cleared w :
  app_selectedTables (w_app w) = [] → app_selectedFields (w_app w) = [] →
  app_selectedTables (w_app (refreshTables w).2) = [] ∧
  app_selectedFields (w_app (refreshTables w).2) = [] ∧
  app_snapshot (w_app (refreshTables w).2) = app_snapshot (w_app w).
Proof.
  intros Ht Hf. destruct (refreshTables_run w) as (w' & evs & -> & _ & _ & _ & _ & _ & _ & Hcase).
  cbn [snd]. destruct Hcase as [(metaList & bundles & _ & _ & -> & _)|(_ & -> & _)];
    cbn [app_selectedTables app_selectedFields app_snapshot].
  - rewrite Ht, Hf, pruneSelectedTables_nil, pruneSelectedFields_nil. auto.
  - auto.
Qed.

End Enumeration.

(** ** Notes and failed calls *)

Lemma failure_notes_app skip a b :
  failure_notes skip (a ++ b) = failure_notes skip a ++ failure_notes skip b.
Proof. apply List.filter_app. Qed.

Lemma failure_notes_all notes : failure_notes no_skip notes = notes.
Proof.
  unfold failure_notes, no_skip. induction notes as [|n notes IH]; cbn; [reflexivity|].
  f_equal. exact IH.
Qed.

Section Tally.

Context {Host : Type} {GW : Gateway Host} (skip : Note → bool).

Implicit Types (w : @World Host).

Local Abbreviation M := (@M Host).
Local Abbreviation accounts := (@accounts Host _ skip).
Local Abbreviation tallies := (@tallies Host _ skip).

Lemma tallies_ret {A} (a : A) : tallies (mret a : M A).
Proof. intros w. exists a, w, [], []. rewrite !app_nil_r. auto. Qed.

Lemma tallies_bind {A B} (m : M A) (k : A → M B) :
  tallies m → (∀ a, tallies (k a)) → tallies (m ≫= k).
Proof.
  intros Hm Hk w. destruct (Hm w) as (a & w1 & e1 & n1 & Hr & Hl & He & Hc).
  destruct (Hk a w1) as (b & w2 & e2 & n2 & Hr2 & Hl2 & He2 & Hc2).
  exists b, w2, (e1 ++ e2), (n1 ++ n2). rewrite run_bind, Hr, Hr2.
  split; [reflexivity|]. rewrite Hl2, Hl, He2, He, !app_assoc.
  split; [reflexivity|]. split; [reflexivity|].
  rewrite failure_notes_app, List.filter_app, !length_app. lia.
Qed.

Lemma tallies_for_each {X} (xs : list X) (body : X → M unit) :
  (∀ x, tallies (body x)) → tallies (for_each xs body).
Proof.
  intros Hb. induction xs as [|x xs IH]; cbn [for_each].
  - apply tallies_ret.
  - apply tallies_bind; [apply Hb | intros _; exact IH].
Qed.

Lemma tallies_modify (g : World → World) :
  (∀ w, w_log (g w) = w_log w) → (∀ w, w_errors (g w) = w_errors w) → tallies (modify g).
Proof.
  intros Hl He w. exists tt, (g w), [], []. rewrite !app_nil_r. auto.
Qed.

Lemma tallies_get {A} (g : World → A) : tallies (λ w, (Ok (g w), w)).
Proof. intros w. exists (g w), w, [], []. rewrite !app_nil_r. auto. Qed.

Lemma tallies_push_skip n : skip n = true → tallies (push_error n).
Proof.
  intros Hs w. exists tt, (set_errors (w_errors w ++ [n]) w), [], [n].
  rewrite app_nil_r. split; [reflexivity|]. split; [reflexivity|]. split; [reflexivity|].
  unfold failure_notes. cbn. rewrite Hs. reflexivity.
Qed.

Lemma accounts_tallies {A} (m : M A) : tallies m → accounts m.
Proof.
  intros Hm w. destruct (Hm w) as (a & w1 & e1 & n1 & Hr & Hl & He & Hc).
  exists e1, n1. rewrite Hr. cbn. split; [exact Hl|]. split; [exact He|]. lia.
Qed.

Lemma accounts_bind {A B} (m : M A) (k : A → M B) :
  accounts m → (∀ a, accounts (k a)) → accounts (m ≫= k).
Proof.
  intros Hm Hk w. destruct (Hm w) as (e1 & n1 & Hl & He & Hc).
  rewrite run_bind. destruct (m w) as [[a|] w1]; cbn [fst snd is_ok] in *.
  - destruct (Hk a w1) as (e2 & n2 & Hl2 & He2 & Hc2).
    exists (e1 ++ e2), (n1 ++ n2). rewrite Hl2, Hl, He2, He, !app_assoc.
    split; [reflexivity|]. split; [reflexivity|].
    rewrite failure_notes_app, List.filter_app, !length_app. lia.
  - exists e1, n1. auto.
Qed.

Lemma accounts_read {R} (c : Call) (op : Host → outcome R) : accounts (read c op).
Proof.
  intros w. rewrite run_read. exists [mkEvent c (is_ok (op (w_host w)))], [].
  rewrite app_nil_r. split; [reflexivity|]. split; [reflexivity|].
  cbn. unfold failed. cbn. destruct (op (w_host w)); reflexivity.
Qed.

Lemma accounts_request {R} (c : Call) (op : Host → outcome R * Host) : accounts (request c op).
Proof.
  intros w. unfold request. destruct (op (w_host w)) as [r h] eqn:E.
  exists [mkEvent c (is_ok r)], []. rewrite app_nil_r.
  split; [reflexivity|]. split; [reflexivity|].
  cbn. unfold failed. cbn. destruct r; reflexivity.
Qed.

(** A block whose failure is answered by one note. *)
Lemma tallies_try_push (m : M unit) n :
  accounts m → skip n = false → tallies (try_catch m (push_error n)).
Proof.
  intros Hm Hs w. destruct (Hm w) as (e1 & n1 & Hl & He & Hc).
  rewrite run_try_catch. destruct (m w) as [[[]|] w1]; cbn [fst snd is_ok] in *.
  - exists tt, w1, e1, n1. split; [reflexivity|]. split; [exact Hl|]. split; [exact He|]. lia.
  - exists tt, (set_errors (w_errors w1 ++ [n]) w1), e1, (n1 ++ [n]).
    split; [reflexivity|]. split; [exact Hl|].
    split; [cbn; rewrite He, app_assoc; reflexivity|].
    rewrite failure_notes_app, length_app. unfold failure_notes at 2. cbn. rewrite Hs. cbn. lia.
Qed.

(** The world after a step that tallies, and what follows it. *)
Lemma tallies_run {A B} (m : M A) (k : A → M B) w :
  tallies m →
  ∃ a w1 evs notes,
    m w = (Ok a, w1) ∧ (m ≫= k) w = k a w1 ∧
    w_log w1 = w_log w ++ evs ∧ w_errors w1 = w_errors w ++ notes ∧
    length (failure_notes skip notes) = length (List.filter failed evs).
Proof.
  intros Hm. destruct (Hm w) as (a & w1 & e1 & n1 & Hr & Hl & He & Hc).
  exists a, w1, e1, n1. rewrite run_bind, Hr. auto.
Qed.

Lemma keeps_request {R C} (f : World → C) (c : Call) (op : Host → outcome R * Host) :
  (∀ e h w, f (add_log e (set_host h w)) = f w) → keeps f (request c op).
Proof.
  intros Hf w. unfold request. destruct (op (w_host w)) as [r h]. cbn [snd]. apply Hf.
Qed.

End Tally.

Ltac tally_step :=
  first
    [ apply tallies_ret | apply tallies_bind | apply tallies_for_each
    | apply tallies_try_push; [|reflexivity]
    | apply tallies_push_skip; reflexivity
    | apply tallies_modify; reflexivity | apply tallies_get
    | apply accounts_bind | apply accounts_read | apply accounts_request
    | match goal with
      | |- tallies _ (match ?x with _ => _ end) => destruct x
      | |- accounts _ (match ?x with _ => _ end) => destruct x
      | |- tallies _ (if ?x then _ else _) => destruct x
      | |- accounts _ (if ?x then _ else _) => destruct x
      end
    | apply accounts_tallies ];
  intros.

(** ** The steps of a deletion *)

Section DeletionSteps.

Context {Host : Type} {GW : Gateway Host}.

Implicit Types (w : @World Host).

Lemma retainToast_tallies (plan : RetainPlan) :
  tallies (Host:=Host) no_skip
    match lastTableName plan with
    | Some name => toast (RetainNotice name)
    | None => mret tt
    end.
Proof. unfold toast. repeat tally_step. Qed.

Lemma deleteTables_tallies ids : tallies no_skip (deleteTables (Host:=Host) ids).
Proof. unfold deleteTables, deleteTable. repeat tally_step. Qed.

Lemma deleteSelectedFields_tallies sel plan entry :
  tallies no_skip (deleteSelectedFields (Host:=Host) sel plan entry).
Proof.
  unfold deleteSelectedFields, getTableById, getFieldMetaList, deleteField, toast.
  destruct entry as [tableId fieldMap]. repeat tally_step.
Qed.

Lemma deleteLastTableFields_tallies sel plan :
  tallies no_skip (deleteLastTableFields (Host:=Host) sel plan).
Proof.
  unfold deleteLastTableFields, getTableById, getFieldMetaList, deleteField, toast.
  repeat tally_step.
Qed.

(** The three steps touch neither the React state nor the local cache. *)
Lemma deletion_steps_keep {C} (f : World → C) sel selF plan :
  (∀ e h w, f (add_log e (set_host h w)) = f w) →
  (∀ t w, f (add_toast t w) = f w) →
  (∀ es w, f (set_errors es w) = f w) →
  keeps f
    (match lastTableName plan with
     | Some name => toast (RetainNotice name)
     | None => mret tt
     end ;;
     deleteTables (Host:=Host) (tableIdsToDelete plan) ;;
     for_each selF (deleteSelectedFields sel plan) ;;
     deleteLastTableFields sel plan).
Proof.
  intros Hlog Htoast Herr.
  assert (Hread : ∀ e w, f (add_log e w) = f w).
  { intros e w. rewrite <- (Hlog e (w_host w) w). destruct w; reflexivity. }
  unfold deleteTables, deleteSelectedFields, deleteLastTableFields, getTableById,
    getFieldMetaList, deleteTable, deleteField, toast, push_error.
  repeat first
    [ callback_step
    | apply keeps_modify; intros; first [apply Htoast | apply Herr]
    | apply keeps_read; exact Hread
    | apply keeps_request; exact Hlog
    | match goal with
      | |- keeps _ (match ?x with _ => _ end) => destruct x
      | |- keeps _ (if ?x then _ else _) => destruct x
      | |- keeps _ (let (_, _) := ?x in _) => destruct x
      end ].
Qed.

Lemma steps_toasts_phase sel selF plan w :
  ∃ ts,
    w_toasts
      ((match lastTableName plan with
        | Some name => toast (RetainNotice name)
        | None => mret tt
        end ;;
        deleteTables (Host:=Host) (tableIdsToDelete plan) ;;
        for_each selF (deleteSelectedFields sel plan) ;;
        deleteLastTableFields sel plan) w).2 = w_toasts w ++ ts.
Proof.
  assert (H : appends w_toasts (λ _, True)
            (match lastTableName plan with
             | Some name => toast (RetainNotice name)
             | None => mret tt
             end ;;
             deleteTables (Host:=Host) (tableIdsToDelete plan) ;;
             for_each selF (deleteSelectedFields sel plan) ;;
             deleteLastTableFields sel plan)).
  { unfold deleteTables, deleteSelectedFields, deleteLastTableFields,
      getTableById, getFieldMetaList, deleteTable, deleteField, push_error.
    repeat first
      [ callback_step
      | apply appends_modify; reflexivity
      | apply appends_toast; exact I
      | apply appends_read_apart; apply apart_toasts
      | apply appends_request_apart; apply apart_toasts
      | match goal with |- appends _ _ (let (_, _) := ?x in _) => destruct x end
      | match goal with |- appends _ _ (match ?x with _ => _ end) => destruct x end
      | match goal with |- appends _ _ (if ?x then _ else _) => destruct x end ]. }
  destruct (H w) as (ts & Hts & _). exists ts. exact Hts.
Qed.

(** A deletion whose enumeration succeeded, up to the refresh that ends
    it. *)
Lemma performDeletion_phase sel selF w cur :
  gw_getTableMetaList (w_host w) = Ok cur →
  ∃ w1 phase ts,
    performDeletion sel selF w = refreshTables w1 ∧
    w_log w1 = w_log w ++ mkEvent GetTableMetaList true :: phase ∧
    length (w_errors w1) = length (List.filter failed phase) ∧
    w_toasts w1 = w_toasts w ++ ts ++
      [match w_errors w1 with
       | [] => DeletionDone
       | _ :: _ => DeletionPartial (w_errors w1)
       end] ∧
    app_selectedTables (w_app w1) = [] ∧ app_selectedFields (w_app w1) = [] ∧
    app_snapshot (w_app w1) = app_snapshot (w_app w) ∧
    w_storage w1 = w_storage w.
Proof.
  intros Hcur. unfold performDeletion. rewrite run_bind. cbn [modify]. rewrite run_bind.
  unfold getTableMetaList. rewrite run_read. cbn [w_host set_errors]. rewrite Hcur.
  cbn [is_ok]. set (plan := planRetain sel cur).
  set (w0 := add_log _ (set_errors [] w)). unfold executePlan.
  destruct (tallies_run no_skip _
              (λ _, deleteTables (tableIdsToDelete plan) ;;
                    for_each selF (deleteSelectedFields sel plan) ;;
                    deleteLastTableFields sel plan ;;
                    errors ← get_errors;
                    match errors with
                    | [] => toast DeletionDone
                    | _ :: _ => toast (DeletionPartial errors)
                    end ;;
                    modify_app clearSelection ;;
                    refreshTables) w0 (retainToast_tallies plan))
    as (a0 & wa & e0 & n0 & Hr0 & -> & Hl0 & He0 & Hc0).
  destruct (tallies_run no_skip _
              (λ _, for_each selF (deleteSelectedFields sel plan) ;;
                    deleteLastTableFields sel plan ;;
                    errors ← get_errors;
                    match errors with
                    | [] => toast DeletionDone
                    | _ :: _ => toast (DeletionPartial errors)
                    end ;;
                    modify_app clearSelection ;;
                    refreshTables) wa (deleteTables_tallies (tableIdsToDelete plan)))
    as (a1 & wb & e1 & n1 & Hr1 & -> & Hl1 & He1 & Hc1).
  destruct (tallies_run no_skip _
              (λ _, deleteLastTableFields sel plan ;;
                    errors ← get_errors;
                    match errors with
                    | [] => toast DeletionDone
                    | _ :: _ => toast (DeletionPartial errors)
                    end ;;
                    modify_app clearSelection ;;
                    refreshTables) wb
              (tallies_for_each no_skip selF _ (deleteSelectedFields_tallies sel plan)))
    as (a2 & wc & e2 & n2 & Hr2 & -> & Hl2 & He2 & Hc2).
  destruct (tallies_run no_skip _
              (λ _, errors ← get_errors;
                    match errors with
                    | [] => toast DeletionDone
                    | _ :: _ => toast (DeletionPartial errors)
                    end ;;
                    modify_app clearSelection ;;
                    refreshTables) wc (deleteLastTableFields_tallies sel plan))
    as (a3 & wd & e3 & n3 & Hr3 & -> & Hl3 & He3 & Hc3).
  rewrite !failure_notes_all in *.
  assert (Hphase : (match lastTableName plan with
                    | Some name => toast (RetainNotice name)
                    | None => mret tt
                    end ;;
                    deleteTables (Host:=Host) (tableIdsToDelete plan) ;;
                    for_each selF (deleteSelectedFields sel plan) ;;
                    deleteLastTableFields sel plan) w0 = (Ok a3, wd)).
  { rewrite run_bind, Hr0, run_bind, Hr1, run_bind, Hr2. exact Hr3. }
  assert (Hkeep : ∀ {C} (f : World → C),
            (∀ e h w, f (add_log e (set_host h w)) = f w) →
            (∀ t w, f (add_toast t w) = f w) →
            (∀ es w, f (set_errors es w) = f w) → f wd = f w0).
  { intros C f H1 H2 H3.
    pose proof (deletion_steps_keep f sel selF plan H1 H2 H3 w0) as Hk.
    rewrite Hphase in Hk. exact Hk. }
  destruct (steps_toasts_phase sel selF plan w0) as (ts & Hts).
  rewrite Hphase in Hts. cbn [snd] in Hts.
  rewrite run_bind. unfold get_errors. cbv beta iota.
  set (final := match w_errors wd with
                | [] => DeletionDone
                | _ :: _ => DeletionPartial (w_errors wd)
                end).
  assert (Hfin : (match w_errors wd with
                  | [] => toast DeletionDone
                  | _ :: _ => toast (DeletionPartial (w_errors wd))
                  end ;;
                  modify_app clearSelection ;;
                  refreshTables) wd
                 = refreshTables (set_app (clearSelection (w_app wd)) (add_toast final wd))).
  { subst final. destruct (w_errors wd); reflexivity. }
  rewrite Hfin.
  exists (set_app (clearSelection (w_app wd)) (add_toast final wd)), (e0 ++ e1 ++ e2 ++ e3), ts.
  split; [reflexivity|]. cbn [w_log w_errors w_toasts w_app w_storage set_app add_toast
    clearSelection app_selectedTables app_selectedFields app_snapshot].
  split.
  { rewrite Hl3, Hl2, Hl1, Hl0. subst w0. cbn [w_log add_log set_errors].
    rewrite <- !app_assoc. reflexivity. }
  split.
  { rewrite He3, He2, He1, He0. subst w0. cbn [w_errors add_log set_errors app].
    rewrite !List.filter_app, !length_app. lia. }
  split.
  { rewrite Hts. subst w0. cbn [w_toasts add_log set_errors]. rewrite <- app_assoc. reflexivity. }
  split; [reflexivity|]. split; [reflexivity|].
  split.
  - rewrite (Hkeep _ (λ w, app_snapshot (w_app w))); reflexivity.
  - rewrite (Hkeep _ w_storage); reflexivity.
Qed.

End DeletionSteps.


(** ** The steps of a rollback *)

Section RollbackSteps.

Context {Host : Type} {GW : Gateway Host}.

Variable E : FieldTypeEnum.

Implicit Types (w : @World Host).

Lemma renamePrimary_tallies tableId rollbackTableName :
  tallies is_skip_note (renamePrimary (Host:=Host) tableId rollbackTableName).
Proof. unfold renamePrimary, getFieldMetaList, setField. repeat tally_step. Qed.

Lemma restoreFields_tallies tableId rollbackTableName fields :
  tallies is_skip_note (restoreFields (Host:=Host) E tableId rollbackTableName fields).
Proof. unfold restoreFields, restoreField, addField. repeat tally_step. Qed.

Lemma restoreTable_tallies existing tableSnap :
  tallies is_skip_note (restoreTable (Host:=Host) E existing tableSnap).
Proof.
  intros w. unfold restoreTable. set (name := uniqueName existing (st_tableName tableSnap)).
  rewrite run_bind, run_try_catch, run_bind. unfold addTable, request.
  destruct (gw_addTable name (w_host w)) as [[tableId|] h] eqn:Ha.
  - cbn [mret M_ret].
    assert (Hbody : tallies is_skip_note
              (try_catch
                 (getTableById (Host:=Host) tableId ;;
                  renamePrimary tableId name ;;
                  restoreFields E tableId name (st_fields tableSnap))
                 (push_error (TableRebuildFailed name)) ;;
               mret ({[name]} ∪ existing))).
    { unfold getTableById.
      repeat first
        [ apply renamePrimary_tallies | apply restoreFields_tallies | tally_step ]. }
    destruct (Hbody (add_log (mkEvent (AddTable name) true) (set_host h w)))
      as (a & w' & evs & notes & Hr & Hl & He & Hc).
    exists a, w', (mkEvent (AddTable name) true :: evs), notes.
    split; [exact Hr|]. split; [rewrite Hl; cbn; rewrite <- app_assoc; reflexivity|].
    split; [exact He|]. cbn. exact Hc.
  - cbn [mret M_ret push_error modify mbind M_bind].
    eexists _, _, [mkEvent (AddTable name) false], [TableRebuildFailed name].
    split; [reflexivity|]. split; [reflexivity|]. split; reflexivity.
Qed.

Lemma restoreTables_tallies tables existing :
  tallies is_skip_note (restoreTables (Host:=Host) E tables existing).
Proof.
  revert existing. induction tables as [|t tables IH]; intros existing; cbn [restoreTables].
  - apply tallies_ret.
  - apply tallies_bind; [apply restoreTable_tallies | intros names; apply IH].
Qed.

Lemma restoreTables_calls tables existing :
  appends w_log rollback_call (restoreTables (Host:=Host) E tables existing).
Proof.
  revert existing. induction tables as [|t tables IH]; intros existing; cbn [restoreTables].
  - apply appends_ret.
  - apply appends_bind; [|intros names; apply IH].
    unfold restoreTable, renamePrimary, restoreFields, restoreField, getTableById,
      getFieldMetaList, addTable, setField, addField, push_error.
    repeat first
      [ callback_step
      | apply appends_modify; reflexivity
      | apply appends_read_log; intros; split; [reflexivity | discriminate]
      | apply appends_request_log; intros; split; [reflexivity | discriminate]
      | match goal with
        | |- appends _ _ (match ?x with _ => _ end) => destruct x
        | |- appends _ _ (if ?x then _ else _) => destruct x
        end ].
Qed.

Lemma restoreTables_keeps {C} (f : World → C) tables existing :
  (∀ e h w, f (add_log e (set_host h w)) = f w) →
  (∀ es w, f (set_errors es w) = f w) →
  keeps f (restoreTables (Host:=Host) E tables existing).
Proof.
  intros Hlog Herr.
  assert (Hread : ∀ e w, f (add_log e w) = f w).
  { intros e w. rewrite <- (Hlog e (w_host w) w). destruct w; reflexivity. }
  revert existing. induction tables as [|t tables IH]; intros existing; cbn [restoreTables].
  - apply keeps_ret.
  - apply keeps_bind; [|intros names; apply IH].
    unfold restoreTable, renamePrimary, restoreFields, restoreField, getTableById,
      getFieldMetaList, addTable, setField, addField, push_error.
    repeat first
      [ callback_step
      | apply keeps_modify; intros; apply Herr
      | apply keeps_read; exact Hread
      | apply keeps_request; exact Hlog
      | match goal with
        | |- keeps _ (match ?x with _ => _ end) => destruct x
        | |- keeps _ (if ?x then _ else _) => destruct x
        end ].
Qed.

Lemma refreshTables_keeps_snapshot :
  keeps (λ w, (app_snapshot (w_app w), w_storage w)) (refreshTables (Host:=Host)).
Proof.
  intros w. destruct (refreshTables_run w) as (w' & evs & -> & _ & Hs & _ & _ & _ & _ & Hcase).
  cbn [snd]. rewrite Hs.
  destruct Hcase as [(? & ? & _ & _ & -> & _)|(_ & -> & _)]; reflexivity.
Qed.

(** A rollback whose enumeration succeeded, up to the refresh that ends
    it. *)
Lemma handleRollback_phase w (snapshot : Snapshot) (metas : list TableMeta) :
  app_snapshot (w_app w) = Some snapshot →
  gw_getTableMetaList (w_host w) = Ok metas →
  ∃ w1 phase,
    handleRollback E w = refreshTables w1 ∧
    w_log w1 = w_log w ++ mkEvent GetTableMetaList true :: phase ∧
    length (failure_notes is_skip_note (w_errors w1)) = length (List.filter failed phase) ∧
    last (w_toasts w1) =
      Some match w_errors w1 with
           | [] => RollbackDone
           | _ :: _ => RollbackPartial (w_errors w1)
           end ∧
    Forall rollback_call phase ∧
    app_snapshot (w_app w1) = Some snapshot ∧
    w_storage w1 = w_storage w.
Proof.
  intros Hsnap Hmetas.
  rewrite (handleRollback_start E w snapshot metas Hsnap Hmetas).
  set (existing := list_to_set (map (λ meta, nullish_or (tm_name meta) "") metas) : gset string).
  set (w0 := add_log _ (set_errors [] w)).
  destruct (tallies_run is_skip_note _
              (λ _, errors ← get_errors;
                    match errors with
                    | [] => toast RollbackDone
                    | _ :: _ => toast (RollbackPartial errors)
                    end ;;
                    refreshTables) w0
              (restoreTables_tallies (snap_tables snapshot) existing))
    as (a & wa & evs & notes & Hr & -> & Hl & He & Hc).
  destruct (restoreTables_calls (snap_tables snapshot) existing w0) as (evs' & Hl' & Hcalls).
  rewrite Hr in Hl'. cbn [snd] in Hl'. rewrite Hl in Hl'. apply app_inv_head in Hl'. subst evs'.
  pose proof (restoreTables_keeps (λ w, (app_snapshot (w_app w), w_storage w))
                (snap_tables snapshot) existing (λ _ _ _, eq_refl) (λ _ _, eq_refl) w0) as Hk.
  rewrite Hr in Hk. cbn [snd] in Hk. injection Hk as Hk1 Hk2.
  rewrite run_bind. unfold get_errors. cbv beta iota.
  set (final := match w_errors wa with
                | [] => RollbackDone
                | _ :: _ => RollbackPartial (w_errors wa)
                end).
  assert (Hfin : (match w_errors wa with
                  | [] => toast RollbackDone
                  | _ :: _ => toast (RollbackPartial (w_errors wa))
                  end ;;
                  refreshTables) wa = refreshTables (add_toast final wa)).
  { subst final. destruct (w_errors wa); reflexivity. }
  rewrite Hfin. exists (add_toast final wa), evs.
  split; [reflexivity|]. cbn [w_log w_errors w_toasts w_app w_storage add_toast].
  split; [rewrite Hl; subst w0; cbn [w_log add_log set_errors]; rewrite <- app_assoc; reflexivity|].
  split; [rewrite He; subst w0; cbn [w_errors add_log set_errors app]; exact Hc|].
  split; [apply last_snoc|]. split; [exact Hcalls|].
  split; [rewrite Hk1; subst w0; cbn; exact Hsnap | rewrite Hk2; reflexivity].
Qed.

End RollbackSteps.

(** * Properties of the deletion *)

Section DeletionExtras.

Context {Host : Type} {GW : Gateway Host}.

Implicit Types (w : @World Host).

(** X7. [handleDelete] acts only on a selection: when no table and no field
    is checked it shows a notice and makes no call; when something is
    checked, its first call is the enumeration that starts the snapshot. *)
Theorem handleDelete_needs_a_target (confirms : bool) w :
  unique_keys (app_selectedTables (w_app w)) →
  unique_field_keys (app_selectedFields (w_app w)) →
  ((∀ t, checked (app_selectedTables (w_app w)) t = false) →
   (∀ t f, field_checked (app_selectedFields (w_app w)) t f = false) →
   handleDelete confirms w = (Ok tt, add_toast NothingSelected w)) ∧
  ((∃ t, checked (app_selectedTables (w_app w)) t = true) ∨
   (∃ t f, field_checked (app_selectedFields (w_app w)) t f = true) →
   ∃ ok rest, new_events w (handleDelete confirms w).2 = mkEvent GetTableMetaList ok :: rest).
Proof.
  intros Hut Huf. split.
  - intros Ht Hf. unfold handleDelete. rewrite run_bind. unfold get_app.
    unfold totalSelectedTargets, selectedTableCount.
    rewrite (proj2 (checkedKeys_nil_iff _ Hut) Ht).
    rewrite (proj2 (selectedFieldCount_zero _ Huf) Hf). reflexivity.
  - intros Hsome.
    assert (Hpos : (totalSelectedTargets (w_app w) =? 0) = false).
    { apply Nat.eqb_neq. unfold totalSelectedTargets, selectedTableCount. intros Hz.
      destruct Hsome as [[t Ht]|(t & f & Hf)].
      - assert (Hk : checkedKeys (app_selectedTables (w_app w)) = [])
          by (destruct (checkedKeys _); [reflexivity | cbn in Hz; lia]).
        rewrite (proj1 (checkedKeys_nil_iff _ Hut) Hk t) in Ht. discriminate.
      - assert (Hc : selectedFieldCount (app_selectedFields (w_app w)) = 0) by lia.
        rewrite (proj1 (selectedFieldCount_zero _ Huf) Hc t f) in Hf. discriminate. }
    unfold handleDelete. rewrite run_bind. unfold get_app. rewrite Hpos.
    rewrite run_bind.
    destruct (captureSnapshot_first_call "删除前自动快照" w) as (ok & rest & Hl).
    destruct (captureSnapshot "删除前自动快照" w) as [[snapshotOk|] w1] eqn:Hcap;
      cbn [snd] in Hl.
    + assert (Hrest : ∃ more, w_log
                (if snapshotOk
                 then performDeletion (app_selectedTables (w_app w))
                        (app_selectedFields (w_app w)) w1
                 else if confirms
                      then performDeletion (app_selectedTables (w_app w))
                             (app_selectedFields (w_app w)) w1
                      else (mret tt : M unit) w1).2 = w_log w1 ++ more).
      { destruct snapshotOk; [|destruct confirms];
          try (destruct (performDeletion_appends (app_selectedTables (w_app w))
                           (app_selectedFields (w_app w)) w1) as (more & Hm & _);
               exists more; exact Hm).
        exists []. rewrite app_nil_r. reflexivity. }
      destruct Hrest as (more & Hm). exists ok, (rest ++ more).
      apply new_events_app.
      destruct snapshotOk; [|destruct confirms]; rewrite Hm, Hl, <- app_assoc; reflexivity.
    + exists ok, rest. apply new_events_app. exact Hl.
Qed.

(** X8. A refresh never fails and only enumerates.  When every table can be
    read, the state holds the bundles of the enumeration, in order, the load
    error is cleared and the selection is pruned to what exists; when the
    enumeration or the reading of one table fails, the tables and the
    selection stay as they were, the load error is set and one error toast is
    shown.  The snapshot, the local cache and the workspace are untouched. *)
Theorem refreshTables_outcome w :
  let h := w_host w in
  let a := w_app w in
  let r := refreshTables w in
  r.1 = Ok tt ∧ w_host r.2 = h ∧ w_storage r.2 = w_storage w ∧
  app_snapshot (w_app r.2) = app_snapshot a ∧
  Forall (λ e, is_enumeration (ev_call e) = true) (new_events w r.2) ∧
  (∀ metaList,
     gw_getTableMetaList h = Ok metaList →
     Forall (λ meta, ¬ unreadable h meta) metaList →
     ∃ bundles,
       Forall2 (bundled h) metaList bundles ∧
       w_app r.2 = mkAppState bundles false
                     (pruneSelectedTables bundles (app_selectedTables a))
                     (pruneSelectedFields bundles (app_selectedFields a))
                     (app_snapshot a) ∧
       new_toasts w r.2 = []) ∧
  ((gw_getTableMetaList h = Raise ∨
    ∃ metaList, gw_getTableMetaList h = Ok metaList ∧ Exists (unreadable h) metaList) →
   w_app r.2 = mkAppState (app_tables a) true (app_selectedTables a) (app_selectedFields a)
                 (app_snapshot a) ∧
   new_toasts w r.2 = [LoadFailed]).
Proof.
  cbv zeta.
  destruct (refreshTables_run w)
    as (w' & evs & Hr & Hh & Hs & He & Hn & Hl & Hev & Hcase).
  rewrite Hr. cbn [fst snd].
  split; [reflexivity|]. split; [exact Hh|]. split; [exact Hs|].
  split; [destruct Hcase as [(? & ? & _ & _ & -> & _)|(_ & -> & _)]; reflexivity|].
  split; [rewrite (new_events_app w w' evs Hl); exact Hev|].
  split.
  - intros metaList Hm Hall.
    destruct Hcase as [(metaList' & bundles & Hm' & Hb & Ha & Ht)|([Hm'|(ml & Hm' & Hex)] & _)].
    + rewrite Hm in Hm'. injection Hm' as <-. exists bundles.
      split; [exact Hb|]. split; [exact Ha|].
      apply new_toasts_app. rewrite Ht, app_nil_r. reflexivity.
    + congruence.
    + rewrite Hm in Hm'. injection Hm' as <-.
      exfalso. apply Exists_exists in Hex as (meta & Hin & Hu).
      rewrite Forall_forall in Hall. exact (Hall meta Hin Hu).
  - intros Hfail.
    destruct Hcase as [(metaList & bundles & Hm & Hb & _)|(_ & Ha & Ht)].
    + exfalso. destruct Hfail as [Hm'|(ml & Hm' & Hex)]; [congruence|].
      rewrite Hm in Hm'. injection Hm' as <-. exact (bundled_readable _ _ _ Hb Hex).
    + split; [exact Ha|]. apply new_toasts_app. exact Ht.
Qed.

(** X9. A deletion fails only when its first enumeration fails, and then
    nothing is deleted, nothing is shown and the selection is kept.  When
    the enumeration succeeds the deletion runs to its end whatever fails on
    the way: the selection is cleared, and the snapshot and the local cache
    are as before. *)
Theorem performDeletion_outcome sel selF w :
  let r := performDeletion sel selF w in
  (gw_getTableMetaList (w_host w) = Raise →
   r.1 = Raise ∧
   new_events w r.2 = [mkEvent GetTableMetaList false] ∧
   w_host r.2 = w_host w ∧ w_app r.2 = w_app w ∧ new_toasts w r.2 = []) ∧
  (∀ cur, gw_getTableMetaList (w_host w) = Ok cur →
   r.1 = Ok tt ∧
   app_selectedTables (w_app r.2) = [] ∧ app_selectedFields (w_app r.2) = [] ∧
   app_snapshot (w_app r.2) = app_snapshot (w_app w) ∧
   w_storage r.2 = w_storage w).
Proof.
  cbv zeta. split.
  - intros Hm. unfold performDeletion. rewrite run_bind. cbn [modify]. rewrite run_bind.
    unfold getTableMetaList. rewrite run_read. cbn [w_host set_errors]. rewrite Hm.
    cbn [fst snd is_ok]. split; [reflexivity|].
    split; [apply new_events_app; reflexivity|]. split; [reflexivity|].
    split; [reflexivity|]. apply new_toasts_app. cbn. rewrite app_nil_r. reflexivity.
  - intros cur Hcur.
    destruct (performDeletion_phase sel selF w cur Hcur)
      as (w1 & phase & ts & -> & _ & _ & _ & Hst & Hsf & Hsnap & Hsto).
    destruct (refreshTables_cleared w1 Hst Hsf) as (Ht & Hf & Hs).
    destruct (refreshTables_run w1) as (w' & evs & Hr & _ & Hs' & _).
    rewrite Ht, Hf, Hs, Hsnap. rewrite Hr. cbn [fst snd].
    split; [reflexivity|]. split; [reflexivity|]. split; [reflexivity|].
    split; [reflexivity|]. rewrite Hs'. exact Hsto.
Qed.

(** X10. In a deletion whose enumeration succeeded, every call that fails
    before the final refresh is answered by exactly one note and nothing else
    is: the notes are as many as the failed calls.  The last toast before the
    refresh is the success toast when no call failed and otherwise the
    warning that carries all the notes. *)
Theorem deletion_notes_match_failures sel selF w cur :
  gw_getTableMetaList (w_host w) = Ok cur →
  ∃ w1 phase,
    performDeletion sel selF w = refreshTables w1 ∧
    new_events w w1 = mkEvent GetTableMetaList true :: phase ∧
    w_errors (performDeletion sel selF w).2 = w_errors w1 ∧
    length (w_errors w1) = length (List.filter failed phase) ∧
    (Forall (λ e, ev_ok e = true) phase → last (w_toasts w1) = Some DeletionDone) ∧
    (Exists (λ e, ev_ok e = false) phase →
     w_errors w1 ≠ [] ∧ last (w_toasts w1) = Some (DeletionPartial (w_errors w1))).
Proof.
  intros Hcur.
  destruct (performDeletion_phase sel selF w cur Hcur)
    as (w1 & phase & ts & Hrun & Hl & Hc & Hts & _).
  exists w1, phase. split; [exact Hrun|]. split; [apply new_events_app; exact Hl|].
  split.
  { rewrite Hrun. destruct (refreshTables_run w1) as (w' & evs & -> & _ & _ & He & _).
    exact He. }
  split; [exact Hc|]. split.
  - intros Hok.
    assert (Hnil : List.filter failed phase = []).
    { clear -Hok. induction Hok as [|e l He _ IH]; [reflexivity|].
      cbn. unfold failed at 1. rewrite He. exact IH. }
    rewrite Hnil in Hc. destruct (w_errors w1); [|discriminate].
    rewrite Hts, app_assoc. apply last_snoc.
  - intros Hex.
    assert (Hpos : 0 < length (List.filter failed phase)).
    { clear -Hex. induction Hex as [e l He|e l _ IH]; cbn.
      - unfold failed at 1. rewrite He. cbn. lia.
      - destruct (failed e); cbn; lia. }
    rewrite <- Hc in Hpos.
    destruct (w_errors w1) as [|n notes] eqn:Hn; [cbn in Hpos; lia|].
    split; [discriminate|]. rewrite Hts, app_assoc. apply last_snoc.
Qed.

End DeletionExtras.

Lemma handleDelete_needs_a_target_witness :
  handleDelete false (sim_world [tableA] emptyApp)
  = (Ok tt, add_toast NothingSelected (sim_world [tableA] emptyApp)).
Proof.
  apply (proj1 (handleDelete_needs_a_target (Host:=SimHost) false (sim_world [tableA] emptyApp)
                  ltac:(distinct_keys)
                  ltac:(split; [distinct_keys | apply Forall_nil_2]))).
  - reflexivity.
  - reflexivity.
Defined.


Lemma refreshTables_outcome_witness :
  let w := sim_world [tableA; tableB]
             (mkAppState [] true [("tblA", true); ("tblGone", true)] [] None) in
  let h := w_host w in
  let a := w_app w in
  let r := refreshTables w in
  ∃ bundles,
    Forall2 (bundled h) (map tb_meta [tableA; tableB]) bundles ∧
    w_app r.2 = mkAppState bundles false
                  (pruneSelectedTables bundles (app_selectedTables a))
                  (pruneSelectedFields bundles (app_selectedFields a))
                  (app_snapshot a) ∧
    new_toasts w r.2 = [].
Proof.
  apply (proj1 (proj2 (proj2 (proj2 (proj2 (proj2
           (refreshTables_outcome (Host:=SimHost)
              (sim_world [tableA; tableB]
                 (mkAppState [] true [("tblA", true); ("tblGone", true)] [] None))))))))
           (map tb_meta [tableA; tableB])).
  - reflexivity.
  - repeat constructor; intros [H|H]; discriminate H.
Defined.

Lemma performDeletion_outcome_witness :
  let w := sim_world [tableA; tableB] emptyApp in
  let r := performDeletion [("tblA", true)] [("tblB", [("fldB1", true)])] w in
  r.1 = Ok tt ∧
  app_selectedTables (w_app r.2) = [] ∧ app_selectedFields (w_app r.2) = [] ∧
  app_snapshot (w_app r.2) = app_snapshot (w_app w) ∧
  w_storage r.2 = w_storage w.
Proof.
  apply (proj2 (performDeletion_outcome (Host:=SimHost)
                  [("tblA", true)] [("tblB", [("fldB1", true)])]
                  (sim_world [tableA; tableB] emptyApp))
           (map tb_meta [tableA; tableB])).
  reflexivity.
Defined.

Lemma deletion_notes_match_failures_witness :
  let sel := [("tblA", true); ("tblGone", true)] in
  let w := sim_world [tableA; tableB; tableB] emptyApp in
  ∃ w1 phase,
    performDeletion sel [] w = refreshTables w1 ∧
    new_events w w1 = mkEvent GetTableMetaList true :: phase ∧
    w_errors (performDeletion sel [] w).2 = w_errors w1 ∧
    length (w_errors w1) = length (List.filter failed phase) ∧
    (Forall (λ e, ev_ok e = true) phase → last (w_toasts w1) = Some DeletionDone) ∧
    (Exists (λ e, ev_ok e = false) phase →
     w_errors w1 ≠ [] ∧ last (w_toasts w1) = Some (DeletionPartial (w_errors w1))).
Proof.
  apply (deletion_notes_match_failures (Host:=SimHost)
           [("tblA", true); ("tblGone", true)] []
           (sim_world [tableA; tableB; tableB] emptyApp)
           (map tb_meta [tableA; tableB; tableB])).
  reflexivity.
Defined.

(** * Properties of the rollback *)

(** ** The name of the index field *)

Lemma substring_skip (a s : string) n :
  substring (String.length a) n (a +:+ s) = substring 0 n s.
Proof.
  induction a as [|c a IH]; [reflexivity|].
  change (substring (String.length a) n (a +:+ s) = substring 0 n s). exact IH.
Qed.

Lemma substring_prefix (s b : string) :
  substring 0 (String.length s) (s +:+ b) = s.
Proof.
  induction s as [|c s IH].
  - destruct b; reflexivity.
  - change (String c (substring 0 (String.length s) (s +:+ b)) = String c s).
    f_equal. exact IH.
Qed.

(** [includes] finds a text wherever it occurs. *)
Lemma str_includes_app (sub a b : string) :
  sub ≠ "" → str_includes sub (a +:+ sub +:+ b) = true.
Proof.
  intros Hne. unfold str_includes.
  destruct (String.index 0 sub (a +:+ sub +:+ b)) as [n|] eqn:Hi; [reflexivity|].
  exfalso.
  apply (index_correct3 0 (String.length a) sub (a +:+ sub +:+ b) Hi Hne); [lia|].
  rewrite substring_skip. apply substring_prefix.
Qed.

Lemma append_empty_r (s : string) : s +:+ "" = s.
Proof.
  induction s as [|c s IH]; [reflexivity|].
  change (String c (s +:+ "") = String c s). f_equal. exact IH.
Qed.

Lemma append_assoc (a b c : string) : (a +:+ b) +:+ c = a +:+ (b +:+ c).
Proof.
  induction a as [|x a IH]; [reflexivity|].
  change (String x ((a +:+ b) +:+ c) = String x (a +:+ (b +:+ c))). f_equal. exact IH.
Qed.

Lemma marked_includes (prefix : string) :
  str_includes systemDefaultMark (prefix +:+ " " +:+ systemDefaultMark) = true.
Proof.
  rewrite <- (append_empty_r systemDefaultMark) at 2.
  rewrite <- (append_assoc prefix " " (systemDefaultMark +:+ "")).
  apply str_includes_app. discriminate.
Qed.


Section RollbackExtras.

Context {Host : Type} {GW : Gateway Host}.

Variable E : FieldTypeEnum.

Implicit Types (w : @World Host).

(** X12. A rollback never deletes and never writes the snapshot: whatever the
    workspace answers, no [deleteTable], [deleteField] or [setData] is
    called, and the snapshot held and the local cache are as before.  With
    no snapshot it only shows a notice; when its first enumeration fails it
    fails, having created nothing. *)
Theorem rollback_is_not_destructive w :
  let r := handleRollback E w in
  Forall rollback_call (new_events w r.2) ∧
  app_snapshot (w_app r.2) = app_snapshot (w_app w) ∧
  w_storage r.2 = w_storage w ∧
  (app_snapshot (w_app w) = None → r = (Ok tt, add_toast NoSnapshot w)) ∧
  (app_snapshot (w_app w) ≠ None → gw_getTableMetaList (w_host w) = Raise →
   r.1 = Raise ∧ new_events w r.2 = [mkEvent GetTableMetaList false] ∧
   new_toasts w r.2 = [] ∧ w_host r.2 = w_host w).
Proof.
  cbv zeta.
  assert (Hnone : app_snapshot (w_app w) = None →
            handleRollback E w = (Ok tt, add_toast NoSnapshot w)).
  { intros Hs. unfold handleRollback. rewrite run_bind. unfold get_app. rewrite Hs. reflexivity. }
  assert (Hraise : ∀ s, app_snapshot (w_app w) = Some s →
            gw_getTableMetaList (w_host w) = Raise →
            handleRollback E w
            = (Raise, add_log (mkEvent GetTableMetaList false) (set_errors [] w))).
  { intros s Hs Hm. unfold handleRollback. rewrite run_bind. unfold get_app. rewrite Hs.
    rewrite run_bind. cbn [modify]. rewrite run_bind. unfold getTableMetaList.
    rewrite run_read. cbn [w_host set_errors]. rewrite Hm. reflexivity. }
  destruct (app_snapshot (w_app w)) as [snapshot|] eqn:Hs.
  - destruct (gw_getTableMetaList (w_host w)) as [metas|] eqn:Hm.
    + destruct (handleRollback_phase E w snapshot metas Hs Hm)
        as (w1 & phase & -> & Hl & _ & _ & Hcalls & Hsnap & Hsto).
      destruct (refreshTables_run w1) as (w' & evs & Hr & _ & _ & _ & _ & Hl' & Hev & _).
      pose proof (refreshTables_keeps_snapshot w1) as Hk. cbv beta in Hk.
      rewrite Hr in Hk |- *. cbn [snd] in Hk |- *. injection Hk as Hk1 Hk2.
      split.
      { rewrite (new_events_app w w' (mkEvent GetTableMetaList true :: phase ++ evs))
          by (rewrite Hl', Hl, <- app_assoc; reflexivity).
        constructor; [split; [reflexivity | discriminate]|].
        apply Forall_app. split; [exact Hcalls|].
        eapply Forall_impl; [exact Hev|]. intros e He. cbv beta in He.
        unfold rollback_call.
        destruct (ev_call e); first [discriminate He | split; [reflexivity | discriminate]]. }
      split; [rewrite Hk1; exact Hsnap|]. split; [rewrite Hk2; exact Hsto|].
      split; [discriminate|]. intros _ Hfalse. discriminate Hfalse.
    + rewrite (Hraise snapshot eq_refl eq_refl). cbn [fst snd].
      split.
      { rewrite (new_events_app w _ [mkEvent GetTableMetaList false]) by reflexivity.
        constructor; [split; [reflexivity | discriminate] | constructor]. }
      split; [exact Hs|]. split; [reflexivity|]. split; [discriminate|].
      intros _ _. split; [reflexivity|].
      split; [apply new_events_app; reflexivity|].
      split; [apply new_toasts_app; cbn; rewrite app_nil_r; reflexivity | reflexivity].
  - rewrite (Hnone eq_refl). cbn [fst snd].
    split; [rewrite (new_events_app w _ []) by (cbn; rewrite app_nil_r; reflexivity); constructor|].
    split; [exact Hs|]. split; [reflexivity|]. split; [reflexivity|].
    intros Hne. congruence.
Qed.

(** X13. In a rollback whose enumeration succeeded, apart from the notes on
    the fields that are skipped by type, the notes are as many as the calls
    that failed before the final refresh; the rollback itself does not fail,
    and the last toast before the refresh is the success toast when there is
    no note at all and otherwise the warning that carries all of them. *)
Theorem rollback_notes_match_failures w (snapshot : Snapshot) (metas : list TableMeta) :
  app_snapshot (w_app w) = Some snapshot →
  gw_getTableMetaList (w_host w) = Ok metas →
  ∃ w1 phase,
    handleRollback E w = refreshTables w1 ∧
    (handleRollback E w).1 = Ok tt ∧
    new_events w w1 = mkEvent GetTableMetaList true :: phase ∧
    w_errors (handleRollback E w).2 = w_errors w1 ∧
    length (failure_notes is_skip_note (w_errors w1)) = length (List.filter failed phase) ∧
    last (w_toasts w1) =
      Some match w_errors w1 with
           | [] => RollbackDone
           | _ :: _ => RollbackPartial (w_errors w1)
           end.
Proof.
  intros Hs Hm.
  destruct (handleRollback_phase E w snapshot metas Hs Hm)
    as (w1 & phase & Hrun & Hl & Hc & Ht & _).
  exists w1, phase. split; [exact Hrun|].
  destruct (refreshTables_run w1) as (w' & evs & Hr & _ & _ & He & _).
  rewrite Hrun, Hr. cbn [fst snd].
  split; [reflexivity|]. split; [apply new_events_app; exact Hl|].
  split; [exact He|]. split; [exact Hc | exact Ht].
Qed.

End RollbackExtras.

Lemma rollback_notes_match_failures_witness :
  let w := sim_world [tableA] (mkAppState [] false [] [] (Some twoTablesNamedA)) in
  ∃ w1 phase,
    handleRollback larkFieldType w = refreshTables w1 ∧
    (handleRollback larkFieldType w).1 = Ok tt ∧
    new_events w w1 = mkEvent GetTableMetaList true :: phase ∧
    w_errors (handleRollback larkFieldType w).2 = w_errors w1 ∧
    length (failure_notes is_skip_note (w_errors w1)) = length (List.filter failed phase) ∧
    last (w_toasts w1) =
      Some match w_errors w1 with
           | [] => RollbackDone
           | _ :: _ => RollbackPartial (w_errors w1)
           end.
Proof.
  apply (rollback_notes_match_failures (Host:=SimHost) larkFieldType
           (sim_world [tableA] (mkAppState [] false [] [] (Some twoTablesNamedA)))
           twoTablesNamedA (map tb_meta [tableA])).
  - reflexivity.
  - reflexivity.
Defined.

(** * Properties of the snapshot store *)

Lemma JSON_stringify_inj (a b : json) : JSON_stringify a = JSON_stringify b → a = b.
Proof.
  intros Heq. apply (f_equal JSON_parse) in Heq.
  rewrite !JSON_parse_stringify in Heq. congruence.
Qed.

Lemma snapshot_to_json_inj (a b : Snapshot) : snapshot_to_json a = snapshot_to_json b → a = b.
Proof.
  intros Heq. apply (f_equal snapshot_of_json) in Heq.
  rewrite !snapshot_of_to_json in Heq. congruence.
Qed.

Lemma stringifySnapshot_inj (a b : option Snapshot) :
  stringifySnapshot a = stringifySnapshot b → a = b.
Proof.
  unfold stringifySnapshot. intros Heq. apply JSON_stringify_inj in Heq.
  destruct a as [a|], b as [b|]; try discriminate Heq.
  - f_equal. apply snapshot_to_json_inj, Heq.
  - reflexivity.
Qed.

Lemma stringify_snapshot_truthy (s : Snapshot) :
  truthy_string (JSON_stringify (snapshot_to_json s)) = true.
Proof. reflexivity. Qed.

(** X14. The deep copy that a capture takes of a field's property payload is
    a value equal to the payload, whatever JSON value it is (its Numbers may
    have a fractional part or print in exponent form), and absent when the
    payload is absent: a snapshot field carries the id, the type and the
    property of the field as the host gave them, and the name, or
    "无名字段" for a field with no name. *)
Theorem cloneJson_copies (value : option json) (field : FieldMeta) :
  cloneJson value = value ∧
  snapshotFieldOf field =
    mkSnapshotField (fm_id field) (nullish_or (fm_name field) "无名字段")
      (fm_type field) (fm_property field).
Proof.
  assert (Hclone : ∀ v, cloneJson v = v).
  { intros [v|]; [|reflexivity]. unfold cloneJson. rewrite JSON_parse_stringify. reflexivity. }
  split; [apply Hclone|]. unfold snapshotFieldOf. rewrite Hclone. reflexivity.
Qed.

(** X15. The local cache is a slot that holds at most one snapshot: after
    writing [null] nothing is read back; after writing a snapshot that same
    snapshot is read back when the storage can be used, and nothing when
    there is no window or the storage refuses access; a write replaces what
    an earlier write left; and an unusable storage is never changed. *)
Theorem local_cache_is_one_slot (ls : LocalStorage) (s : Snapshot) (x y : option Snapshot) :
  loadPersistedSnapshot (persistSnapshot None ls) = None ∧
  loadPersistedSnapshot (persistSnapshot (Some s) ls)
    = (if ls_window ls && negb (ls_denied ls) then Some s else None) ∧
  persistSnapshot x (persistSnapshot y ls) = persistSnapshot x ls ∧
  (ls_window ls && negb (ls_denied ls) = false →
   persistSnapshot x ls = ls ∧ loadPersistedSnapshot ls = None).
Proof.
  destruct ls as [window denied item].
  unfold loadPersistedSnapshot, persistSnapshot. cbn [ls_window ls_denied ls_item].
  split; [destruct window, denied; reflexivity|]. split.
  { destruct window, denied; cbn [negb andb ls_window ls_denied ls_item]; try reflexivity.
    rewrite stringify_snapshot_truthy. cbn [negb].
    rewrite JSON_parse_stringify. apply snapshot_of_to_json. }
  split; [destruct window, denied, x, y; reflexivity|].
  destruct window, denied; cbn; intros H; try discriminate H; split; reflexivity.
Qed.

Section StoreExtras.

Context {Host : Type} {GW : Gateway Host}.

Implicit Types (w : @World Host).

(** X16. The bridge listener follows the bridge and does not echo: an event
    for another key changes nothing; after an event for the snapshot key the
    snapshot held is the incoming one ([null] for a missing value); when the
    incoming snapshot equals the one held nothing is written at all, and
    when it differs it is written to the local cache and nothing but
    [setData] of it is called.  The listener never fails. *)
Theorem onDataChange_follows_bridge (key : option string) (value : BridgeValue) w :
  let incoming := match value with BStored s => Some s | BNull | BUndefined => None end in
  let r := onDataChange key value w in
  r.1 = Ok tt ∧
  (key ≠ Some BRIDGE_SNAPSHOT_KEY → r.2 = w) ∧
  (key = Some BRIDGE_SNAPSHOT_KEY →
   app_snapshot (w_app r.2) = incoming ∧
   (app_snapshot (w_app w) = incoming → r.2 = w) ∧
   (app_snapshot (w_app w) ≠ incoming →
    w_storage r.2 = persistSnapshot incoming (w_storage w) ∧
    Forall (λ e, ev_call e = SetData incoming) (new_events w r.2))).
Proof.
  cbv zeta. set (incoming := match value with BStored s => Some s | _ => None end).
  unfold onDataChange. fold incoming.
  destruct (bool_decide (key = Some BRIDGE_SNAPSHOT_KEY)) eqn:Hk; cbn [negb].
  - apply bool_decide_eq_true in Hk.
    rewrite run_bind. unfold get_app. cbv beta iota.
    destruct (String.eqb (stringifySnapshot (app_snapshot (w_app w)))
                (stringifySnapshot incoming)) eqn:Hsame; cbn [negb].
    + apply String.eqb_eq, stringifySnapshot_inj in Hsame.
      cbn [fst snd mret M_ret]. split; [reflexivity|]. split; [reflexivity|].
      intros _. split; [exact Hsame|]. split; [reflexivity|]. intros Hne. contradiction.
    + apply String.eqb_neq in Hsame.
      assert (Hne : app_snapshot (w_app w) ≠ incoming) by (intros Heq; rewrite Heq in Hsame; auto).
      destruct (setSnapshot_state incoming w) as [Hok Hsnap].
      split; [exact Hok|]. split; [intros Hk'; contradiction|].
      intros _. split; [exact Hsnap|]. split; [intros Heq; contradiction|].
      intros _. split.
      * unfold setSnapshot, setSnapshotState, snapshotEffect, syncBridgeSnapshot, get_app, modify_app, modify,
          request, try_catch, mbind, M_bind, mret, M_ret.
        destruct (app_snapshot (w_app w)), incoming; try contradiction;
          destruct gw_setData as [setData|]; cbn;
          try (match goal with
               | |- context [setData ?x ?h] => destruct (setData x h) as [[[]|] h']
               end; cbn); reflexivity.
      * destruct (setSnapshot_calls (λ e, ev_call e = SetData incoming) incoming
                    (λ _, eq_refl) w) as (evs & Hl & Hev).
        rewrite (new_events_app w _ evs Hl). exact Hev.
  - apply bool_decide_eq_false in Hk. cbn [fst snd mret M_ret].
    split; [reflexivity|]. split; [reflexivity|]. intros Hk'. contradiction.
Qed.

(** A snapshot taken by hand is a capture under the label "手动快照" whose
    result is dropped. *)
Lemma manualSnapshot_run w :
  manualSnapshot w = (Ok tt, (captureSnapshot "手动快照" w).2).
Proof.
  unfold manualSnapshot. rewrite run_bind.
  pose proof (captureSnapshot_settles "手动快照" w) as Hs.
  destruct (captureSnapshot "手动快照" w) as [[b|] w']; [reflexivity | contradiction].
Qed.

End StoreExtras.

Lemma local_cache_is_one_slot_witness :
  persistSnapshot (Some twoTablesNamedA) (mkLocalStorage true true None)
    = mkLocalStorage true true None ∧
  loadPersistedSnapshot (mkLocalStorage true true None) = None.
Proof.
  apply (proj2 (proj2 (proj2 (local_cache_is_one_slot (mkLocalStorage true true None)
                                 twoTablesNamedA (Some twoTablesNamedA) None)))).
  reflexivity.
Defined.

Lemma onDataChange_follows_bridge_witness :
  let w := sim_world [tableA] emptyApp in
  let r := onDataChange (Some BRIDGE_SNAPSHOT_KEY) (BStored twoTablesNamedA) w in
  app_snapshot (w_app r.2) = Some twoTablesNamedA ∧
  (app_snapshot (w_app w) = Some twoTablesNamedA → r.2 = w) ∧
  (app_snapshot (w_app w) ≠ Some twoTablesNamedA →
   w_storage r.2 = persistSnapshot (Some twoTablesNamedA) (w_storage w) ∧
   Forall (λ e, ev_call e = SetData (Some twoTablesNamedA)) (new_events w r.2)).
Proof.
  apply (proj2 (proj2 (onDataChange_follows_bridge (Host:=SimHost)
                          (Some BRIDGE_SNAPSHOT_KEY) (BStored twoTablesNamedA)
                          (sim_world [tableA] emptyApp)))).
  reflexivity.
Defined.

(** * The view *)

(** ** Sorting *)

Lemma Qlt_bool_iff a b : Qlt_bool a b = true ↔ (a < b)%Q.
Proof.
  unfold Qlt_bool. rewrite negb_true_iff, <- not_true_iff_false, Qle_bool_iff.
  split; [apply Qnot_le_lt | apply Qlt_not_le].
Qed.

Lemma Qlt_bool_ge a b : Qlt_bool a b = false ↔ (b <= a)%Q.
Proof. unfold Qlt_bool. rewrite negb_false_iff. apply Qle_bool_iff. Qed.

Lemma Qle_bool_gt a b : Qle_bool a b = false ↔ (b < a)%Q.
Proof.
  rewrite <- not_true_iff_false, Qle_bool_iff.
  split; [apply Qnot_le_lt | apply Qlt_not_le].
Qed.

Lemma sort_insert_perm {A} (compare : A → A → Q) x (l : list A) :
  sort_insert compare x l ≡ₚ x :: l.
Proof.
  induction l as [|y l IH]; cbn [sort_insert]; [reflexivity|].
  destruct (Qle_bool (compare x y) 0); [reflexivity|].
  rewrite IH. apply Permutation_swap.
Qed.

Lemma Array_sort_perm {A} (compare : A → A → Q) (l : list A) : Array_sort compare l ≡ₚ l.
Proof.
  unfold Array_sort. induction l as [|x l IH]; cbn [foldr]; [reflexivity|].
  rewrite sort_insert_perm, IH. reflexivity.
Qed.

Lemma Forall_sort_insert {A} (P : A → Prop) (compare : A → A → Q) x (l : list A) :
  Forall P (sort_insert compare x l) ↔ P x ∧ Forall P l.
Proof. rewrite sort_insert_perm. apply Forall_cons. Qed.

Section SortByKey.

Context {A : Type} (key : A → Q).

Local Abbreviation compare := (λ a b : A, (key b - key a)%Q).
Local Abbreviation later := (λ a b : A, (key b <= key a)%Q).

Lemma sort_insert_sorted x (l : list A) :
  StronglySorted later l → StronglySorted later (sort_insert compare x l).
Proof.
  induction 1 as [|y l Hs IH Hy]; cbn [sort_insert].
  - repeat constructor.
  - destruct (Qle_bool (compare x y) 0) eqn:Hc.
    + apply Qle_bool_iff in Hc.
      constructor; [constructor; assumption|].
      constructor; [lra|].
      eapply Forall_impl; [exact Hy|]. cbv beta. intros z Hz. lra.
    + apply Qle_bool_gt in Hc.
      constructor; [exact IH|].
      apply Forall_sort_insert. split; [lra | exact Hy].
Qed.

Lemma Array_sort_sorted (l : list A) : StronglySorted later (Array_sort compare l).
Proof.
  unfold Array_sort. induction l as [|x l IH]; cbn [foldr]; [constructor|].
  apply sort_insert_sorted, IH.
Qed.

Lemma sort_insert_stable (k : Q) x (l : list A) :
  List.filter (λ a, Qeq_bool (key a) k) (sort_insert compare x l)
  = List.filter (λ a, Qeq_bool (key a) k) (x :: l).
Proof.
  induction l as [|y l IH]; cbn [sort_insert]; [reflexivity|].
  destruct (Qle_bool (compare x y) 0) eqn:Hc; [reflexivity|].
  apply Qle_bool_gt in Hc.
  cbn [List.filter] in IH |- *. rewrite IH.
  destruct (Qeq_bool (key y) k) eqn:Ey, (Qeq_bool (key x) k) eqn:Ex; try reflexivity.
  apply Qeq_bool_iff in Ey, Ex. lra.
Qed.

Lemma Array_sort_stable (k : Q) (l : list A) :
  List.filter (λ a, Qeq_bool (key a) k) (Array_sort compare l)
  = List.filter (λ a, Qeq_bool (key a) k) l.
Proof.
  unfold Array_sort. induction l as [|x l IH]; cbn [foldr]; [reflexivity|].
  rewrite sort_insert_stable. cbn [List.filter]. rewrite IH. reflexivity.
Qed.

End SortByKey.

(** ** Modification times *)

Section Timestamps.

Variable Date_parse : string → option Z.
Variable times_1000 : NonInteger → Q.

Local Abbreviation parse := (parseDateLikeValue Date_parse times_1000).

Lemma firstTimestamp_nonneg candidates :
  (0 <= firstTimestamp Date_parse times_1000 candidates)%Q.
Proof.
  induction candidates as [|c cs IH]; cbn [firstTimestamp]; [lra|].
  destruct (Qlt_bool 0 (parse c)) eqn:Hc; [apply Qlt_bool_iff in Hc; lra | exact IH].
Qed.

Lemma firstTimestamp_zero candidates :
  firstTimestamp Date_parse times_1000 candidates = 0%Q
  ↔ Forall (λ c, (parse c <= 0)%Q) candidates.
Proof.
  induction candidates as [|c cs IH]; cbn [firstTimestamp].
  - split; [constructor | reflexivity].
  - rewrite Forall_cons. destruct (Qlt_bool 0 (parse c)) eqn:Hc.
    + apply Qlt_bool_iff in Hc. split; [intros E; rewrite E in Hc; lra | intros [? _]; lra].
    + apply Qlt_bool_ge in Hc. rewrite IH. tauto.
Qed.

Lemma firstTimestamp_first candidates :
  (0 < firstTimestamp Date_parse times_1000 candidates)%Q →
  ∃ before c after,
    candidates = before ++ c :: after ∧
    Forall (λ c', (parse c' <= 0)%Q) before ∧
    firstTimestamp Date_parse times_1000 candidates = parse c.
Proof.
  induction candidates as [|c cs IH]; cbn [firstTimestamp]; [lra|].
  destruct (Qlt_bool 0 (parse c)) eqn:Hc.
  - intros _. exists [], c, cs. split; [reflexivity|]. split; [constructor | reflexivity].
  - apply Qlt_bool_ge in Hc. intros Hpos.
    destruct (IH Hpos) as (before & c' & after & -> & Hb & Heq).
    exists (c :: before), c', after. split; [reflexivity|]. split; [|exact Heq].
    constructor; assumption.
Qed.

(** A Number that is not positive is no time, and neither is a value that
    is neither a Number nor a string. *)
Lemma parseDateLikeValue_integer n :
  parse (Some (JNum n)) =
  if (1000000000000 <? n)%Z then inject_Z n
  else if (1000000000 <? n)%Z then inject_Z (n * 1000)
  else if (0 <? n)%Z then inject_Z n else 0%Q.
Proof. reflexivity. Qed.

End Timestamps.

(** ** The options of the type filter *)

Section TypeOptions.

Variable fieldTypeDictionary : FieldType → option string.

Local Abbreviation step := (addTypeOption fieldTypeDictionary).

Lemma availableFieldTypeOptions_flat tables :
  availableFieldTypeOptions fieldTypeDictionary tables
  = fold_left step (flat_map tb_fields tables) [].
Proof.
  unfold availableFieldTypeOptions. generalize (@nil (string * string)).
  induction tables as [|b tables IH]; intros acc; cbn [fold_left flat_map]; [reflexivity|].
  rewrite fold_left_app. apply IH.
Qed.

Lemma options_step_keys result field :
  map fst (step result field) =
  if bool_decide (String_of_number (fm_type field) ∈ map fst result) then map fst result
  else map fst result ++ [String_of_number (fm_type field)].
Proof.
  unfold addTypeOption. cbv zeta. destruct (obj_get result _) as [v|] eqn:Hg.
  - rewrite bool_decide_eq_true_2; [reflexivity|].
    apply obj_get_elem_of in Hg. apply list_elem_of_fmap.
    exists (String_of_number (fm_type field), v). split; [reflexivity | exact Hg].
  - rewrite obj_set_keys. reflexivity.
Qed.

Lemma options_fold fields result :
  unique_keys result →
  let result' := fold_left step fields result in
  unique_keys result' ∧
  (∀ key, key ∈ map fst result' ↔
          key ∈ map fst result ∨ ∃ field, field ∈ fields ∧ String_of_number (fm_type field) = key) ∧
  (∀ key label, (key, label) ∈ result' →
     (key, label) ∈ result ∨
     ∃ field, field ∈ fields ∧ String_of_number (fm_type field) = key ∧
              label = fieldTypeLabel fieldTypeDictionary (fm_type field)).
Proof.
  revert result. induction fields as [|f fields IH]; intros result Hu; cbn [fold_left]; cbv zeta.
  - split; [exact Hu|]. split.
    + intros key. split; [auto|]. intros [?|(field & Hin & _)]; [assumption|].
      apply elem_of_nil in Hin. contradiction.
    + intros key label Hin. left. exact Hin.
  - assert (Hu' : unique_keys (step result f)).
    { unfold addTypeOption. cbv zeta.
      destruct (obj_get result _); [exact Hu | apply unique_keys_set, Hu]. }
    destruct (IH (step result f) Hu') as (Hun & Hkeys & Hlabels). cbv zeta in *.
    split; [exact Hun|]. split.
    + intros key. rewrite Hkeys, options_step_keys.
      destruct (bool_decide (String_of_number (fm_type f) ∈ map fst result)) eqn:B.
      * apply bool_decide_eq_true in B. split.
        -- intros [?|(field & Hin & Hk)]; [left; assumption|].
           right. exists field. split; [apply list_elem_of_further, Hin | exact Hk].
        -- intros [?|(field & Hin & Hk)]; [left; assumption|].
           apply elem_of_cons in Hin as [->|Hin]; [left; rewrite <- Hk; exact B|].
           right. exists field. split; assumption.
      * rewrite elem_of_app, list_elem_of_singleton. split.
        -- intros [[?| ->]|(field & Hin & Hk)].
           ++ left; assumption.
           ++ right. exists f. split; [apply list_elem_of_here | reflexivity].
           ++ right. exists field. split; [apply list_elem_of_further, Hin | exact Hk].
        -- intros [?|(field & Hin & Hk)]; [left; left; assumption|].
           apply elem_of_cons in Hin as [->|Hin]; [left; right; symmetry; exact Hk|].
           right. exists field. split; assumption.
    + intros key label Hin. destruct (Hlabels key label Hin) as [Hs|(field & Hf & Hk & Hl)].
      * unfold addTypeOption in Hs. cbv zeta in Hs.
        destruct (obj_get result _) eqn:Hg; [left; exact Hs|].
        apply elem_of_obj_set in Hs as [Hs|[-> ->]]; [left; exact Hs|].
        right. exists f. split; [apply list_elem_of_here|]. split; reflexivity.
      * right. exists field. split; [apply list_elem_of_further, Hf|]. split; assumption.
Qed.

End TypeOptions.

(** ** The list of tables *)

Section Listing.

Variable Date_parse : string → option Z.
Variable times_1000 : NonInteger → Q.
Variable toLowerCase : string → string.
Variable trim : string → string.
Variable fieldExtra : FieldMeta → string → option json.

Local Abbreviation renderEntry := (renderEntry Date_parse times_1000 toLowerCase fieldExtra).
Local Abbreviation sortFields := (sortFields Date_parse times_1000 fieldExtra).

Lemma sortFields_perm mode fields : sortFields mode fields ≡ₚ fields.
Proof. destruct mode; cbn; [reflexivity | apply Array_sort_perm]. Qed.

Lemma filter_all {A} (l : list A) : List.filter (λ _, true) l = l.
Proof. induction l as [|x l IH]; cbn; [reflexivity | f_equal; exact IH]. Qed.

(** With no query and no type filter, in structure order, an entry lists the
    whole table. *)
Lemma renderEntry_default q bundle :
  String.length q = 0 →
  renderEntry q "all" Structure bundle
  = mkRenderEntry (mkRenderBundle bundle (tb_fields bundle)) true true.
Proof.
  intros Hq. unfold renderEntry, sortFields. rewrite Hq.
  cbn [Nat.eqb String.eqb Ascii.eqb Bool.eqb negb andb orb]. rewrite filter_all. reflexivity.
Qed.

End Listing.

Lemma sublist_filter_map {A B} (f : A → B) (g : B → A) (p : B → bool) (l : list A) :
  (∀ a, g (f a) = a) → sublist (map g (List.filter p (map f l))) l.
Proof.
  intros Hgf. induction l as [|a l IH]; cbn; [constructor|].
  destruct (p (f a)); cbn.
  - rewrite Hgf. apply sublist_skip, IH.
  - apply sublist_cons, IH.
Qed.

Lemma Forall_filter_map {A B} (P : B → Prop) (f : A → B) (p : B → bool) (l : list A) :
  (∀ a, a ∈ l → p (f a) = true → P (f a)) → Forall P (List.filter p (map f l)).
Proof.
  intros HP. induction l as [|a l IH]; cbn; [constructor|].
  destruct (p (f a)) eqn:Hp.
  - constructor; [apply HP; [apply list_elem_of_here | exact Hp]|].
    apply IH. intros b Hb. apply HP, list_elem_of_further, Hb.
  - apply IH. intros b Hb. apply HP, list_elem_of_further, Hb.
Qed.

Lemma elem_of_filter {A} (p : A → bool) (l : list A) x :
  x ∈ List.filter p l ↔ x ∈ l ∧ p x = true.
Proof. rewrite !list_elem_of_In. apply List.filter_In. Qed.

Lemma length_pos_nonempty {A} (l l' : list A) : l ≡ₚ l' → (0 <? length l') = true → l ≠ [].
Proof.
  intros Hp Hl Hnil. subst l. apply Permutation_length in Hp. cbn in Hp.
  rewrite <- Hp in Hl. discriminate.
Qed.

Section Entries.

Variable Date_parse : string → option Z.
Variable times_1000 : NonInteger → Q.
Variable toLowerCase : string → string.
Variable fieldExtra : FieldMeta → string → option json.

Local Abbreviation renderEntry := (renderEntry Date_parse times_1000 toLowerCase fieldExtra).

(** What an entry that is displayed lists. *)
Lemma renderEntry_lists q filter mode bundle :
  let e := renderEntry q filter mode bundle in
  let visible := rb_visibleFields (re_item e) in
  rb_bundle (re_item e) = bundle ∧
  (re_tableMatches e = false →
   q ≠ "" ∧ str_includes q (toLowerCase (nullish_or (tm_name (tb_meta bundle)) "无名表")) = false) ∧
  (re_shouldDisplay e = true → re_tableMatches e = true ∨ visible ≠ []) ∧
  (re_shouldDisplay e = false → re_tableMatches e = false) ∧
  (∀ f, f ∈ visible → f ∈ tb_fields bundle) ∧
  (filter ≠ "all" → ∀ f, f ∈ visible → String_of_number (fm_type f) = filter) ∧
  (re_tableMatches e = false →
   ∀ f, f ∈ visible →
        str_includes q (toLowerCase (nullish_or (fm_name f) "无名字段")) = true) ∧
  (re_tableMatches e = true →
   ∀ f, f ∈ tb_fields bundle →
        filter = "all" ∨ String_of_number (fm_type f) = filter → f ∈ visible).
Proof.
  cbv zeta. unfold renderEntry. cbn [re_item re_tableMatches re_shouldDisplay rb_bundle rb_visibleFields].
  set (tableMatches := if String.length q =? 0 then true
                       else str_includes q (toLowerCase (nullish_or (tm_name (tb_meta bundle)) "无名表"))).
  set (keep := λ field : FieldMeta,
         if negb (String.eqb filter "all")
            && negb (String.eqb (String_of_number (fm_type field)) filter)
         then false
         else if String.length q =? 0 then true
         else if tableMatches then true
         else str_includes q (toLowerCase (nullish_or (fm_name field) "无名字段"))).
  set (baseFields := List.filter keep (tb_fields bundle)).
  set (visible := sortFields Date_parse times_1000 fieldExtra mode baseFields).
  assert (Hperm : visible ≡ₚ baseFields) by apply sortFields_perm.
  assert (Hin : ∀ f, f ∈ visible ↔ f ∈ tb_fields bundle ∧ keep f = true).
  { intros f. rewrite Hperm. apply elem_of_filter. }
  assert (Hq : tableMatches = false →
            q ≠ "" ∧
            str_includes q (toLowerCase (nullish_or (tm_name (tb_meta bundle)) "无名表")) = false).
  { subst tableMatches. destruct q as [|c q]; cbn [String.length Nat.eqb]; [discriminate|].
    intros Hm. split; [discriminate | exact Hm]. }
  split; [reflexivity|]. split; [exact Hq|]. split.
  { destruct tableMatches; [left; reflexivity|]. cbn [orb]. intros Hl. right.
    apply (length_pos_nonempty _ _ Hperm Hl). }
  split; [destruct tableMatches; [discriminate | reflexivity]|].
  split; [intros f Hf; apply Hin in Hf as [Hf _]; exact Hf|].
  split.
  { intros Hne f Hf. apply Hin in Hf as [_ Hk]. subst keep. cbv beta in Hk.
    apply String.eqb_neq in Hne. rewrite Hne in Hk. cbn [negb andb] in Hk.
    destruct (String.eqb (String_of_number (fm_type f)) filter) eqn:E; [|discriminate Hk].
    apply String.eqb_eq, E. }
  split.
  { intros Hm f Hf. apply Hin in Hf as [_ Hk]. subst keep. cbv beta in Hk.
    destruct (Hq Hm) as [Hne _].
    destruct (negb (String.eqb filter "all")
              && negb (String.eqb (String_of_number (fm_type f)) filter)); [discriminate Hk|].
    destruct q as [|c q]; [congruence|]. cbn [String.length Nat.eqb] in Hk.
    rewrite Hm in Hk. exact Hk. }
  intros Hm f Hf Hty. apply Hin. split; [exact Hf|]. subst keep. cbv beta.
  assert (Hpass : negb (String.eqb filter "all")
                  && negb (String.eqb (String_of_number (fm_type f)) filter) = false).
  { destruct Hty as [->|Hty]; [reflexivity|].
    apply String.eqb_eq in Hty. rewrite Hty. cbn. apply andb_false_r. }
  rewrite Hpass, Hm. destruct (String.length q =? 0); reflexivity.
Qed.

End Entries.

(** * Properties of the view *)

Section ViewExtras.

Variable Date_parse : string → option Z.
Variable times_1000 : NonInteger → Q.
Variable toLowerCase : string → string.
Variable trim : string → string.
Variable fieldTypeDictionary : FieldType → option string.
Variable fieldExtra : FieldMeta → string → option json.

Local Abbreviation parseDateLikeValue := (parseDateLikeValue Date_parse times_1000).
Local Abbreviation getFieldModifiedTime := (getFieldModifiedTime Date_parse times_1000 fieldExtra).
Local Abbreviation sortFields := (sortFields Date_parse times_1000 fieldExtra).
Local Abbreviation renderBundles := (renderBundles Date_parse times_1000 toLowerCase trim fieldExtra).

(** X17. The modification time of a field is never negative, whatever
    [Date.parse] answers and however the platform rounds a product: it is
    the time of the first candidate property whose time is positive, and
    zero exactly when no candidate has a positive time.  An integer above
    10^9 always comes out above 10^12, that is in milliseconds, and a
    Number that is not positive counts as no time, with or without a
    fractional part; a Number with a fractional part above 10^12, or
    positive and at most 10^9, is its own time. *)
Theorem getFieldModifiedTime_first_positive (field : FieldMeta) :
  let t := getFieldModifiedTime field in
  let candidates := modifiedTimeCandidates fieldExtra field in
  (0 <= t)%Q ∧
  (t = 0%Q ↔ Forall (λ c, (parseDateLikeValue c <= 0)%Q) candidates) ∧
  ((0 < t)%Q →
   ∃ before c after,
     candidates = before ++ c :: after ∧
     Forall (λ c', (parseDateLikeValue c' <= 0)%Q) before ∧
     t = parseDateLikeValue c) ∧
  (∀ n, (1000000000 < n)%Z → (1000000000000 < parseDateLikeValue (Some (JNum n)))%Q) ∧
  (∀ n, (n ≤ 0)%Z → parseDateLikeValue (Some (JNum n)) = 0%Q) ∧
  (∀ d, (NonInteger_value d <= 0)%Q → parseDateLikeValue (Some (JDec d)) = 0%Q) ∧
  (∀ d, (1000000000000 < NonInteger_value d)%Q ∨
        (0 < NonInteger_value d)%Q ∧ (NonInteger_value d <= 1000000000)%Q →
        parseDateLikeValue (Some (JDec d)) = NonInteger_value d).
Proof.
  cbv zeta. unfold getFieldModifiedTime.
  split; [apply firstTimestamp_nonneg|]. split; [apply firstTimestamp_zero|].
  split; [apply firstTimestamp_first|]. split; [|split; [|split]].
  - intros n Hn. rewrite parseDateLikeValue_integer.
    destruct (1000000000000 <? n)%Z eqn:H1.
    + apply Z.ltb_lt in H1. change (inject_Z 1000000000000 < inject_Z n)%Q.
      rewrite <- Zlt_Qlt. exact H1.
    + apply Z.ltb_ge in H1.
      destruct (1000000000 <? n)%Z eqn:H2; [|apply Z.ltb_ge in H2; lia].
      change (inject_Z 1000000000000 < inject_Z (n * 1000))%Q.
      rewrite <- Zlt_Qlt. lia.
  - intros n Hn. rewrite parseDateLikeValue_integer.
    destruct (1000000000000 <? n)%Z eqn:H1; [apply Z.ltb_lt in H1; lia|].
    destruct (1000000000 <? n)%Z eqn:H2; [apply Z.ltb_lt in H2; lia|].
    destruct (0 <? n)%Z eqn:H3; [apply Z.ltb_lt in H3; lia | reflexivity].
  - intros d Hd. unfold parseDateLikeValue. cbv zeta.
    destruct (Qlt_bool 1000000000000 _) eqn:H1; [apply Qlt_bool_iff in H1; lra|].
    destruct (Qlt_bool 1000000000 _) eqn:H2; [apply Qlt_bool_iff in H2; lra|].
    destruct (Qlt_bool 0 _) eqn:H3; [apply Qlt_bool_iff in H3; lra | reflexivity].
  - intros d Hd. unfold parseDateLikeValue. cbv zeta.
    destruct (Qlt_bool 1000000000000 _) eqn:H1; [reflexivity|].
    apply Qlt_bool_ge in H1. destruct Hd as [Hd | [Hd0 Hd9]]; [lra|].
    destruct (Qlt_bool 1000000000 _) eqn:H2; [apply Qlt_bool_iff in H2; lra|].
    destruct (Qlt_bool 0 _) eqn:H3; [reflexivity | apply Qlt_bool_ge in H3; lra].
Qed.

(** X18. The order of the fields of a table: in structure order the list is
    left as it is; in "recently modified" order it is a rearrangement of the
    same fields by descending modification time in which fields with equal
    times keep their structure order. *)
Theorem sortFields_orders_by_time (fields : list FieldMeta) :
  sortFields Structure fields = fields ∧
  sortFields ModifiedDesc fields ≡ₚ fields ∧
  StronglySorted (λ a b, (getFieldModifiedTime b <= getFieldModifiedTime a)%Q)
    (sortFields ModifiedDesc fields) ∧
  (∀ time,
     List.filter (λ f, Qeq_bool (getFieldModifiedTime f) time) (sortFields ModifiedDesc fields)
     = List.filter (λ f, Qeq_bool (getFieldModifiedTime f) time) fields).
Proof.
  split; [reflexivity|]. split; [apply Array_sort_perm|]. split.
  - apply (Array_sort_sorted getFieldModifiedTime).
  - intros time. apply (Array_sort_stable getFieldModifiedTime).
Qed.

(** X19. "Clear" empties the selection and resets the view: afterwards no
    target is selected, the version of the checkboxes has moved on, and the
    list shows every table with all its fields in structure order; the
    tables and the snapshot of the state are not touched. *)
Theorem clearSelections_resets_view (a : AppState) (view : ViewState)
    (tables : list TableBundle) :
  toLowerCase (trim "") = "" →
  let r := clearSelections a view in
  r.2 = SelectionCleared ∧
  totalSelectedTargets r.1.1 = 0 ∧
  app_tables r.1.1 = app_tables a ∧ app_snapshot r.1.1 = app_snapshot a ∧
  selectionVersion r.1.2 = selectionVersion view + 1 ∧
  map re_item (renderBundles r.1.2 tables) = full_view tables.
Proof.
  intros Hq. cbv zeta. unfold clearSelections. cbn [fst snd].
  split; [reflexivity|]. split; [reflexivity|]. split; [reflexivity|].
  split; [reflexivity|]. split; [reflexivity|].
  unfold renderBundles. cbn [tableQuery fieldTypeFilter fieldSortMode]. rewrite Hq.
  unfold full_view. induction tables as [|bundle tables IH]; [reflexivity|].
  cbn [map]. rewrite (renderEntry_default Date_parse times_1000 toLowerCase fieldExtra "" bundle eq_refl).
  cbn [List.filter re_shouldDisplay map re_item]. f_equal. exact IH.
Qed.

(** X20. What the list shows under a query and a type filter: the tables
    displayed are tables of the workspace, in their order; a displayed table
    matches the query by its name or lists at least one field; the fields
    listed are fields of the table, all of the filtered type; under a table
    that does not match, every field listed matches the query by its name;
    under a table that matches, every field of the filtered type is listed;
    and a table that is not displayed does not match a non-empty query. *)
Theorem renderBundles_filters (view : ViewState) (tables : list TableBundle) :
  let q := toLowerCase (trim (tableQuery view)) in
  let entries := renderBundles view tables in
  sublist (map (λ e, rb_bundle (re_item e)) entries) tables ∧
  Forall
    (λ e,
       let bundle := rb_bundle (re_item e) in
       let visible := rb_visibleFields (re_item e) in
       (re_tableMatches e = true ∨ visible ≠ []) ∧
       (∀ f, f ∈ visible → f ∈ tb_fields bundle) ∧
       (fieldTypeFilter view ≠ "all" →
        ∀ f, f ∈ visible → String_of_number (fm_type f) = fieldTypeFilter view) ∧
       (re_tableMatches e = false →
        ∀ f, f ∈ visible →
             str_includes q (toLowerCase (nullish_or (fm_name f) "无名字段")) = true) ∧
       (re_tableMatches e = true →
        ∀ f, f ∈ tb_fields bundle →
             fieldTypeFilter view = "all" ∨
             String_of_number (fm_type f) = fieldTypeFilter view →
             f ∈ visible))
    entries ∧
  (∀ bundle, bundle ∈ tables → bundle ∉ map (λ e, rb_bundle (re_item e)) entries →
     q ≠ "" ∧
     str_includes q (toLowerCase (nullish_or (tm_name (tb_meta bundle)) "无名表")) = false).
Proof.
  cbv zeta. unfold renderBundles.
  set (q := toLowerCase (trim (tableQuery view))).
  set (entry := renderEntry Date_parse times_1000 toLowerCase fieldExtra q (fieldTypeFilter view)
                  (fieldSortMode view)).
  split; [|split].
  - apply (sublist_filter_map entry (λ e, rb_bundle (re_item e))). intros bundle.
    apply (renderEntry_lists Date_parse times_1000 toLowerCase fieldExtra q _ _ bundle).
  - apply Forall_filter_map. intros bundle _ Hshow.
    destruct (renderEntry_lists Date_parse times_1000 toLowerCase fieldExtra q (fieldTypeFilter view)
                (fieldSortMode view) bundle)
      as (Hb & _ & Hdisp & _ & Hsub & Hty & Hname & Hall).
    fold entry in Hb, Hdisp, Hsub, Hty, Hname, Hall. cbv zeta. rewrite Hb.
    split; [apply Hdisp, Hshow|]. split; [exact Hsub|]. split; [exact Hty|].
    split; [exact Hname | exact Hall].
  - intros bundle Hin Hout.
    destruct (renderEntry_lists Date_parse times_1000 toLowerCase fieldExtra q (fieldTypeFilter view)
                (fieldSortMode view) bundle)
      as (Hb & Hq & _ & Hhide & _).
    fold entry in Hb, Hq, Hhide.
    destruct (re_shouldDisplay (entry bundle)) eqn:Hshow.
    + exfalso. apply Hout. apply list_elem_of_fmap. exists (entry bundle).
      split; [symmetry; exact Hb|]. apply elem_of_filter. split; [|exact Hshow].
      apply list_elem_of_fmap. exists bundle. split; [reflexivity | exact Hin].
    + apply Hq, Hhide. reflexivity.
Qed.


End ViewExtras.

(** X22. The chunk of a module in the build: a module outside
    [node_modules] is left to the bundler, every module inside gets one of
    the four chunk names, and a module of the Semi UI library goes to
    "semi-ui" wherever its path mentions the library, the first rule taking
    precedence over the others. *)
Theorem manualChunks_classifies (id : string) :
  (manualChunks id = None ↔ str_includes "node_modules" id = false) ∧
  (str_includes "node_modules" id = true →
   manualChunks id ∈ [Some "semi-ui"; Some "lark-sdk"; Some "react-vendor"; Some "vendor"]) ∧
  (∀ a b c,
     manualChunks (a +:+ "node_modules" +:+ b +:+ "@douyinfe/semi" +:+ c) = Some "semi-ui").
Proof.
  split; [|split].
  - unfold manualChunks. destruct (str_includes "node_modules" id); cbn [negb].
    + split; [|discriminate].
      repeat match goal with |- context [if ?x then _ else _] => destruct x end; discriminate.
    + split; reflexivity.
  - intros Hin. unfold manualChunks. rewrite Hin. cbn [negb].
    repeat match goal with |- context [if ?x then _ else _] => destruct x end;
      rewrite !elem_of_cons; auto 6.
  - intros a b c. unfold manualChunks.
    rewrite (str_includes_app "node_modules" a (b +:+ "@douyinfe/semi" +:+ c)) by discriminate.
    cbn [negb].
    assert (Hsemi : str_includes "@douyinfe/semi"
                      (a +:+ "node_modules" +:+ b +:+ "@douyinfe/semi" +:+ c) = true).
    { rewrite <- (append_assoc "node_modules" b ("@douyinfe/semi" +:+ c)).
      rewrite <- (append_assoc a ("node_modules" +:+ b) ("@douyinfe/semi" +:+ c)).
      apply str_includes_app. discriminate. }
    rewrite Hsemi. reflexivity.
Qed.

Lemma clearSelections_resets_view_witness :
  let a := mkAppState [tableA; tableB] false [("tblA", true)] [("tblB", [("fldB1", true)])] None in
  let r := clearSelections a notesOfTypeOne in
  r.2 = SelectionCleared ∧
  totalSelectedTargets r.1.1 = 0 ∧
  app_tables r.1.1 = app_tables a ∧ app_snapshot r.1.1 = app_snapshot a ∧
  selectionVersion r.1.2 = selectionVersion notesOfTypeOne + 1 ∧
  map re_item
    (renderBundles (λ _, None) exactProduct asciiLower (λ s, s) (λ _ _, None) r.1.2 [tableA; tableB])
  = full_view [tableA; tableB].
Proof.
  apply (clearSelections_resets_view (λ _, None) exactProduct asciiLower (λ s, s) (λ _ _, None)
           (mkAppState [tableA; tableB] false [("tblA", true)]
              [("tblB", [("fldB1", true)])] None)
           notesOfTypeOne [tableA; tableB]).
  reflexivity.
Defined.

(** The list under the query "NOTE" and the type filter "1", most recently
    modified first: of the table "Notes", which matches by its name, the
    fields of type 1 are listed, the one modified last first; of the table
    "B", which does not match, only the field named "Note" is. *)
Example renderBundles_query_and_order :
  let notes :=
    mkTableBundle (mkTableMeta "tblN" (Some "Notes"))
      [stampedField "f1" "Old" 1700000000; stampedField "f2" "New" 1800000000;
       mkFieldMeta "f3" (Some "Day") 5%Z None false] in
  map (λ e, (tm_id (tb_meta (rb_bundle (re_item e))),
             map fm_id (rb_visibleFields (re_item e))))
    (renderBundles (λ _, None) exactProduct asciiLower (λ s, s) (λ _ _, None) notesOfTypeOne
       [notes; tableB])
  = [("tblN", ["f2"; "f1"]); ("tblB", ["fldB1"])].
Proof. vm_compute. reflexivity. Qed.


(** * Properties of the engine as a whole *)

Lemma in_keys_checked (sel : JsObject bool) id :
  unique_keys sel → id ∈ checkedKeys sel → checked sel id = true.
Proof.
  intros Hu Hin. unfold checkedKeys in Hin.
  apply list_elem_of_fmap in Hin as ([k v] & -> & Hin).
  apply list_elem_of_In, List.filter_In in Hin as [Hin Hv]. cbn in Hv. subst v.
  apply list_elem_of_In, (elem_of_obj_get sel k true Hu) in Hin.
  unfold checked. cbn [fst]. rewrite Hin. reflexivity.
Qed.

(** The planner never plans the deletion of every enumerated table. *)
Lemma planRetain_spares_one (sel : JsObject bool) (cur : list TableMeta) :
  cur ≠ [] → NoDup (map tm_id cur) →
  ∃ meta, meta ∈ cur ∧ tm_id meta ∉ tableIdsToDelete (planRetain sel cur).
Proof.
  intros Hne Hnd.
  destruct (last cur) as [lastMeta|] eqn:Hlast; [|apply last_None in Hlast; contradiction].
  destruct (Nat.le_gt_cases (length cur) (length (checkedKeys sel))) as [Hle|Hgt].
  - rewrite (planRetain_retains sel cur lastMeta Hlast Hle). cbn [tableIdsToDelete].
    exists lastMeta. split.
    + apply last_Some in Hlast as [init ->]. apply elem_of_app. right. apply list_elem_of_here.
    + rewrite elem_of_without. intros [_ Hneq]. congruence.
  - rewrite (planRetain_deletes_all sel cur (or_introl Hgt)). cbn [tableIdsToDelete].
    destruct (decide (Forall (λ id, id ∈ checkedKeys sel) (map tm_id cur))) as [Hall|Hnot].
    + exfalso. rewrite Forall_forall in Hall.
      assert (Hlen : length (map tm_id cur) ≤ length (checkedKeys sel))
        by (apply submseteq_length, NoDup_submseteq; assumption).
      rewrite length_map in Hlen. lia.
    + apply not_Forall_Exists in Hnot; [|intros x; apply _].
      apply Exists_exists in Hnot as (id & Hin & Hout).
      apply list_elem_of_fmap in Hin as (meta & -> & Hin). exists meta. split; assumption.
Qed.

Lemma planRetain_selected (sel : JsObject bool) (cur : list TableMeta) id :
  id ∈ tableIdsToDelete (planRetain sel cur) → id ∈ checkedKeys sel.
Proof.
  unfold planRetain. destruct (_ && _); [|intros H; exact H].
  destruct (last cur); cbn [tableIdsToDelete]; [|intros H; exact H].
  rewrite elem_of_without. intros [H _]. exact H.
Qed.

Lemma planRetain_NoDup (sel : JsObject bool) (cur : list TableMeta) :
  unique_keys sel → NoDup (tableIdsToDelete (planRetain sel cur)).
Proof.
  intros Hu. pose proof (NoDup_checkedKeys sel Hu) as Hnd.
  unfold planRetain. destruct (_ && _); [|exact Hnd].
  destruct (last cur); cbn [tableIdsToDelete]; [apply NoDup_without, Hnd | exact Hnd].
Qed.

Section EngineExtras.

Context {Host : Type} {GW : Gateway Host}.

Implicit Types (w : @World Host).

Lemma performDeletion_keeps_snapshot sel selF :
  keeps (λ w, (app_snapshot (w_app w), w_storage w)) (performDeletion (Host:=Host) sel selF).
Proof.
  intros w. destruct (gw_getTableMetaList (w_host w)) as [cur|] eqn:Hcur.
  - destruct (performDeletion_phase sel selF w cur Hcur)
      as (w1 & phase & ts & -> & _ & _ & _ & _ & _ & Hsnap & Hsto).
    rewrite (refreshTables_keeps_snapshot w1). rewrite Hsnap, Hsto. reflexivity.
  - unfold performDeletion. rewrite run_bind. cbn [modify]. rewrite run_bind.
    unfold getTableMetaList. rewrite run_read. cbn [w_host set_errors]. rewrite Hcur.
    reflexivity.
Qed.

(** X23. Whatever is selected, a deletion spares a table: in a workspace
    with tables of distinct ids, [deleteTable] is requested at most once per
    table, only for tables that are checked, and never for all the tables of
    the enumeration. *)
Theorem one_table_always_survives (sel : JsObject bool) (selF : JsObject (JsObject bool)) w
    (cur : list TableMeta) :
  gw_getTableMetaList (w_host w) = Ok cur →
  cur ≠ [] →
  NoDup (map tm_id cur) →
  unique_keys sel →
  let requested := deleted_tables (new_events w (performDeletion sel selF w).2) in
  NoDup requested ∧
  (∀ id, id ∈ requested → checked sel id = true) ∧
  ∃ meta, meta ∈ cur ∧ tm_id meta ∉ requested.
Proof.
  intros Hcur Hne Hnd Hu. cbv zeta.
  destruct (performDeletion_run sel selF w cur Hcur) as (e1 & e2 & ts & Hev & Hc & Hafter & _).
  assert (Hreq : deleted_tables (new_events w (performDeletion sel selF w).2)
                 = tableIdsToDelete (planRetain sel cur)).
  { rewrite Hev. change (mkEvent GetTableMetaList true :: e1 ++ e2)
      with ([mkEvent GetTableMetaList true] ++ e1 ++ e2).
    rewrite !deleted_tables_app, (deleted_tables_calls _ _ Hc),
      (deleted_tables_after _ _ _ Hafter), app_nil_r. reflexivity. }
  rewrite Hreq. split; [apply planRetain_NoDup, Hu|]. split.
  - intros id Hid. apply in_keys_checked; [exact Hu|]. apply (planRetain_selected sel cur id Hid).
  - apply planRetain_spares_one; assumption.
Qed.


(** X25. A snapshot set in one session is adopted at the start of the next
    one from the local cache: with no bridge store, and a storage that can
    be used, [loadSnapshot] on the storage that [setSnapshot] left puts that
    snapshot back into the state, and says so. *)
Theorem snapshot_survives_reload (s : Snapshot) w w2 :
  gw_getData = None →
  ls_window (w_storage w) = true →
  ls_denied (w_storage w) = false →
  w_storage w2 = w_storage (setSnapshot (Some s) w).2 →
  (loadSnapshot w2).1 = Ok tt ∧
  app_snapshot (w_app (loadSnapshot w2).2) = Some s ∧
  SnapshotAdopted ∈ new_toasts w2 (loadSnapshot w2).2.
Proof.
  intros Hbridge Hwin Hden Hsto.
  destruct (setSnapshot_some_run s w) as (w1 & evs & Hset & _ & Hst & _).
  rewrite Hset in Hsto. cbn [snd] in Hsto. rewrite Hst in Hsto.
  assert (Hload : loadPersistedSnapshot (w_storage w2) = Some s).
  { rewrite Hsto. unfold loadPersistedSnapshot, persistSnapshot. rewrite Hwin, Hden.
    cbn [negb ls_window ls_denied ls_item].
    rewrite stringify_snapshot_truthy. cbn [negb].
    rewrite JSON_parse_stringify. apply snapshot_of_to_json. }
  unfold loadSnapshot. rewrite Hbridge. unfold loadFromCache.
  rewrite run_bind. cbv beta iota. rewrite Hload.
  rewrite run_bind.
  destruct (setSnapshot_some_run s w2) as (w3 & evs3 & Hset3 & Hsnap3 & _ & Htoast3 & _).
  rewrite Hset3. cbn [toast modify fst snd w_app add_toast].
  split; [reflexivity|]. split; [exact Hsnap3|].
  rewrite (new_toasts_app w2 _ [SnapshotAdopted]) by (cbn; rewrite Htoast3; reflexivity).
  apply list_elem_of_here.
Qed.

End EngineExtras.

Section RollbackEngine.

Context {Host : Type} {GW : Gateway Host}.

Variable E : FieldTypeEnum.

Implicit Types (w : @World Host).

(** The fields that a rollback asks to create. *)
Lemma handleRollback_requests w (snapshot : Snapshot) (metas : list TableMeta) :
  enum_distinct E →
  app_snapshot (w_app w) = Some snapshot →
  gw_getTableMetaList (w_host w) = Ok metas →
  ∃ opened : list (SnapshotTable * string),
    sublist (map fst opened) (snap_tables snapshot) ∧
    added_fields (new_events w (handleRollback E w).2) = fields_requested E opened.
Proof.
  intros Hnd Hsnap Hmetas.
  rewrite (handleRollback_start E w snapshot metas Hsnap Hmetas), run_bind.
  set (existing := list_to_set (map (λ meta, nullish_or (tm_name meta) "") metas) : gset string).
  set (w0 := add_log _ _).
  destruct (restoreTables_fields_run E (snap_tables snapshot) existing w0 Hnd)
    as (w1 & final & evs & notes & opened & -> & Hl & _ & Hsub & _ & Hf & _).
  assert (Hlog : appends w_log (λ e, ∀ t c, ev_call e ≠ AddField t c)
            (errors ← get_errors;
             match errors with
             | [] => toast RollbackDone
             | _ :: _ => toast (RollbackPartial errors)
             end ;;
             refreshTables (Host:=Host))).
  { unfold get_errors, toast.
    repeat first
      [ apply (appends_weaken _ _ _ _ enumeration_not_AddField refreshTables_reads)
      | callback_step
      | apply appends_modify; reflexivity
      | match goal with |- appends _ _ (match ?x with _ => _ end) => destruct x end ]. }
  destruct (Hlog w1) as (evs2 & Hl2 & Hf2).
  exists opened. split; [exact Hsub|].
  erewrite new_events_app;
    [|rewrite Hl2, Hl; subst w0; cbn [w_log add_log]; rewrite <- !app_assoc; reflexivity].
  rewrite !added_fields_app, (added_fields_none _ Hf2), app_nil_r.
  change (added_fields [mkEvent GetTableMetaList true]) with (@nil (string * AddFieldConfig)).
  cbn [app]. exact Hf.
Qed.


End RollbackEngine.

Lemma one_table_always_survives_witness :
  let sel := [("tblA", true); ("tblX", true)] in
  let w := sim_world [tableA; tableB] emptyApp in
  let requested := deleted_tables (new_events w (performDeletion sel [] w).2) in
  NoDup requested ∧
  (∀ id, id ∈ requested → checked sel id = true) ∧
  ∃ meta, meta ∈ map tb_meta [tableA; tableB] ∧ tm_id meta ∉ requested.
Proof.
  apply (one_table_always_survives (Host:=SimHost) [("tblA", true); ("tblX", true)] []
           (sim_world [tableA; tableB] emptyApp) (map tb_meta [tableA; tableB])).
  - reflexivity.
  - discriminate.
  - distinct_keys.
  - distinct_keys.
Defined.


Lemma snapshot_survives_reload_witness :
  let w := mkWorld (mkSimHost [tableA] 0 true (Ok BUndefined)) [] [] [] sim_storage sim_date
             emptyApp in
  (loadSnapshot (GW:=simGateway false) (setSnapshot (GW:=simGateway false)
                                          (Some twoTablesNamedA) w).2).1 = Ok tt ∧
  app_snapshot
    (w_app (loadSnapshot (GW:=simGateway false)
              (setSnapshot (GW:=simGateway false) (Some twoTablesNamedA) w).2).2)
  = Some twoTablesNamedA ∧
  SnapshotAdopted ∈
    new_toasts (setSnapshot (GW:=simGateway false) (Some twoTablesNamedA) w).2
      (loadSnapshot (GW:=simGateway false)
         (setSnapshot (GW:=simGateway false) (Some twoTablesNamedA) w).2).2.
Proof.
  apply (snapshot_survives_reload (GW:=simGateway false) twoTablesNamedA
           (mkWorld (mkSimHost [tableA] 0 true (Ok BUndefined)) [] [] [] sim_storage sim_date
              emptyApp)).
  - reflexivity.
  - reflexivity.
  - reflexivity.
  - reflexivity.
Defined.

